(* ===== verification/_CoqProject ===== *)
-Q . S2P
Prelude.v
Interfaces.v
Ram.v
PhysMem.v
Str.v
DList.v
Kheap.v
Paging.v
Vmm.v
Boot.v
RunQueue.v
Space.v
Clone.v
SpaceAlloc.v
SpaceFree.v
SpaceCycle.v
SpaceDestroy.v
Context.v
Proc.v
Sched.v
Threads.v
Process.v
Vfs.v
VfsTree.v
VfsData.v
VfsCalls.v
Cpio.v
Elf.v
SysMem.v
Input.v
Interrupts.v
Ps2.v
Screen.v
Serial.v
VfsDump.v
Pci.v
Platform.v
Console.v
Cpu.v
UserMem.v
Kernel.v
Files.v
FileCalls.v
Devices.v
Start.v
LibcStr.v
LibcMalloc.v
LibcFmt.v
LibcIO.v
Programs.v
LibcCalls.v
