(* ===== verification/Prelude.v ===== *)
(** * doccrOS: a verification library

    A model of the doccrOS kernel and of its C library in Rocq, and the theorems that
    make them correct.  Paths are relative to [src/doccr/kernel/] unless they begin
    with [user/libc] or [user/bin], which stand for [src/user/libc] and [src/user/bin].

    ** The program and its parts

    [_start] ([kernel.c]) starts the frame allocator, the page tables of the kernel
    heap, the heap and the virtual arena, then the devices, the scheduler, the
    processes and the file system, unpacks the ram disk, loads the first program
    and hands the processor to the scheduler.  From then on the kernel runs in
    system calls, page faults and interrupts.

    - Foundations.  [Prelude]: outcomes ([Ret], [Panic], [Undef], [NoFuel]), machine
      integers as [Z] with their wrap-around, bounded loops, lists.  [Interfaces]:
      what the two allocators promise their clients.  [Ram]: byte-addressed memory and
      [mem/lib.c].  [DList]: intrusive doubly linked lists.  [Str]:
      [screen/lib/string.c].
    - Memory.  [PhysMem]: [mem/phys/physmem.c].  [Kheap]: [mem/kheap/kheap.c].
      [Paging]: [mem/paging/paging.c].  [Vmm] and [Space]: [mem/vmm/vmm.c], the arena and
      the address spaces with copy on write; theorems on the spaces in [Clone] (cloning),
      [SpaceAlloc] (allocation), [SpaceFree] (release), [SpaceCycle] (both) and
      [SpaceDestroy].  [Boot]: the four initialisers in the order of [kernel.c].
    - Execution.  [RunQueue]: the ready queue of [proc/scheduler.c].  [Context]:
      [proc/context_switch.asm] and the frames that [proc/thread.c] builds.  [Proc]:
      [proc/thread.c], [proc/process.c], [proc/scheduler.c]; theorems in [Sched], [Threads]
      and [Process].
    - Files.  [Vfs]: [fs/vfs/vfs.c]; theorems on the tree in [VfsTree], on contents in
      [VfsData], on sequences of calls in [VfsCalls].  [VfsDump]: [fs/vfs/lookup.c].
      [Cpio]: [packages/cpio/cpio.c] and [fs/vfs/rootfs.c].  [Elf]: [packages/elf/elf.c].
    - System calls.  [SysMem]: [arch/x86_64/user/sys_mem.c] and [sys_process.c].
      [UserMem]: the kernel's accesses to user memory.  [Kernel]: the state the calls
      share, [devices/device_init.c], [devices/fb/fb0.c], [user/init.c].  [Files]: [sys_fs.c],
      [sys_io.c], [sys_ioctl.c] and the dispatcher of [syscall.c]; theorems in [FileCalls]
      and [Devices].
    - Machine.  [Input]: [devices/input].  [Interrupts]: [arch/x86_64/idt] and
      [exceptions/isr.c], [irq.c].  [Ps2]: [drivers/ps2].  [Screen]: [screen/graphics.c],
      [draw.c], [bootscreen].  [Serial]: [communication/serial.c].  [Pci]: [pci].  [Platform]:
      [gdt/gdt.c], [drivers/cmos/cmos.c], [exceptions/timer.c].  [Console]: what goes to the
      screen and the serial port: [screen/lib/print.c], [log.c], the screens of
      [exceptions/panic.c] and [exception_handler.c].  [Cpu]: [arch/x86_64/cpu.c],
      [hal_glue.c], [rand.h], [poweroff.c].
    - Start.  [Start]: the rest of [_start], from the processes to the first switch.
    - User side.  [LibcStr]: [user/libc/src/string.c], [ctype.c].  [LibcMalloc]:
      [stdlib.c].  [LibcFmt]: the formatted output and input of [stdio.c] and [printf.c].
      [LibcIO]: the streams of [stdio.c] over [syscall.c].  [LibcCalls]: those streams on the
      dispatcher of [Files].  [Programs]: drawing and events of
      [user/bin/test_graphics/test_graphics.c] and of
      [user/bin/doomgeneric/doomgeneric_doccros.c].

    ** How state and operations correspond

    The static variables of a file are a record ([physmem], [kheap], [arena], [sched],
    [vfs], ...), and an operation is a function of the same name from a state to an
    outcome with the new state.  Records compose the way the files call each
    other: [mm] holds frames, heap, regions, spaces and memory, [ks] adds threads and
    processes, [kernel] adds files and devices.  A C object of the kernel heap is an
    entry of a finite map at its address, 0 is [NULL], and an access to an address
    without an object is [Undef], so that a use after free shows.  Copies through the
    data pointer of a file are [Undef] unless it points to a live block or to memory
    outside the heap, which is taken to be there ([Vfs.data_valid]).  Bytes that the code
    copies, maps or shares (page tables, frames, file contents, strings) are bytes
    of one [ram].  A panic is [Panic].  An assembly stub that no definition
    translates, a linked address and a device are parameters: [KernelCode], [Stubs],
    [DeviceObjects], [ScreenBuffers], the port interfaces [Ports] and [Ports32], the
    [syscall] instruction [Syscalls], and what the laws of a device say of its
    registers ([PicLaws], [config_stable]).

    ** What the theorems show

    - Allocators: invariants of the heap, the frame allocator, the arena and the
      allocator of the C library; what they return is aligned as documented, fresh
      and apart from every live block; freeing takes back exactly one block.
    - Address translation: mapping changes one translation of one space and no frame
      but page tables; breaking a copy-on-write page isolates its writer;
      cloning shares every page, writable by neither space; allocating in a space takes
      fresh frames, releasing gives back exactly those that lose their last reference
      and the tables that become empty, and the two together leak no frame; destroying a
      space ends and frees every table; [Boot] establishes
      the invariants from a memory map without a panic.
    - Scheduling: the queue is a bounded FIFO, the scheduler is abstract round robin,
      and a ready thread runs after as many switches as stand before it.
    - Files: paths resolve component by component; creating, removing, writing,
      reading; no sequence of calls leaves the invariant, panics or follows a null or
      dangling pointer before a write to a lent file runs out of memory and loses its
      contents; the listing of the tree ends and names every path once, line by line; the archive
      reader inverts an encoder; the loader puts the segments where user code reads
      them.
    - System calls: descriptors, offsets, directory entries, guards of the framebuffer
      device, and [fread] of the C library end to end on the kernel.
    - Devices and text: event queues, the decoders of the two PS/2 devices against
      reference decoders, PCI enumeration, drawing within the frame buffer, number
      conversions, bounded formatting, log lines that line up.
    - Programs: the mouse cursor never harms the picture under it; a frame of the game
      reaches the screen scaled and centred.

    ** Bounds and fuel

    A loop with a bound in the code is structural in that bound.  A loop without one
    has fuel: for walks of linked lists it is the number of nodes, which the
    invariant bounds, and the theorems prove that the outcome is never [NoFuel]; for
    strings it is a parameter, and the theorems ask that the string be shorter;
    [path_fuel] bounds a path in user memory.  [dump_node] recurses at most as deep as
    there are nodes, and [pci_device_init] needs one turn for each slot of its table;
    both are proved enough.  A loop that waits for a device has fuel that stands for how
    long the device makes it wait.

    ** Not modelled

    What kernel functions log on their way (the refusals of [fb0_open] among them; the
    functions that log are in [Console]).  Interrupts that arrive in the middle of a kernel function: an operation is one
    step of the models (a system call is entered with interrupts off).  The translation
    look-aside buffer.  The demonstration threads and [tests].  Functions of C that are one
    instruction ([ports.c], [halt.c], [mmu.c]).  [timer_wait], which sleeps until interrupts
    arrive.  The requests to the boot loader, which are data.  The floating-point
    functions of the C library.  What the two programs of [Programs] call at their start
    (open and ioctl), the other programs, and the game.  The Limine boot loader under
    [src/include], which is third-party code. *)
From Stdlib Require Export ZArith Lia.
From stdpp Require Export base gmap fin_maps option numbers.
From stdpp Require Export list.
#[export] Set Default Goal Selector "!".
Open Scope Z_scope.

(** ** Outcomes of C code

    A C function is modelled as a function into [res]: it returns a value, or
    calls [panic] (the kernel halts), or reaches a point where C gives it no
    meaning (an access through a null or dangling pointer, an index outside an
    array), or the fuel of a loop of the model is used up.  The theorems show
    that the last two never happen where the invariants hold. *)
Inductive res (A : Type) : Type :=
| Ret (a : A)
| Panic
| Undef
| NoFuel.
Arguments Ret {A} a.
Arguments Panic {A}.
Arguments Undef {A}.
Arguments NoFuel {A}.

#[export] Instance res_ret : MRet res := fun A a => Ret a.
#[export] Instance res_bind : MBind res := fun A B f m =>
  match m with
  | Ret a => f a
  | Panic => Panic
  | Undef => Undef
  | NoFuel => NoFuel
  end.
#[export] Instance res_eq_dec {A} `{EqDecision A} : EqDecision (res A).
Proof. solve_decision. Defined.

(** A memory access: undefined when the address holds no object. *)
Definition deref {A} (o : option A) : res A :=
  match o with Some a => Ret a | None => Undef end.

(** [returns r P]: the call returns, and its result satisfies [P]. *)
Definition returns {A} (r : res A) (P : A → Prop) : Prop :=
  match r with Ret a => P a | _ => False end.

Lemma returns_iff {A} (r : res A) (P : A → Prop) :
  returns r P ↔ ∃ a, r = Ret a ∧ P a.
Proof. destruct r; naive_solver. Qed.

Lemma returns_bind {A B} (r : res A) (f : A → res B) (P : B → Prop) :
  returns r (λ a, returns (f a) P) → returns (r ≫= f) P.
Proof. by destruct r. Qed.

Lemma returns_mono {A} (r : res A) (P Q : A → Prop) :
  returns r P → (∀ a, P a → Q a) → returns r Q.
Proof. destruct r; naive_solver. Qed.

(** The result is the result. *)
Lemma returns_with {A} (r : res A) (P : A → Prop) : returns r P → returns r (λ a, r = Ret a ∧ P a).
Proof. by destruct r. Qed.

Lemma returns_and {A} (r : res A) (P Q : A → Prop) :
  returns r P → returns r Q → returns r (λ a, P a ∧ Q a).
Proof. by destruct r. Qed.

(** A call that returns with [P], or panics for want of a frame. *)
Definition or_panic {A} (r : res A) (P : A → Prop) : Prop :=
  match r with Ret a => P a | Panic => True | _ => False end.

Lemma or_panic_bind {A B} (r : res A) (k : A → res B) (P : B → Prop) :
  or_panic r (λ a, or_panic (k a) P) → or_panic (r ≫= k) P.
Proof. by destruct r. Qed.
Lemma or_panic_mono {A} (r : res A) (P Q : A → Prop) :
  or_panic r P → (∀ a, P a → Q a) → or_panic r Q.
Proof. destruct r; naive_solver. Qed.

Lemma or_panic_and {A} (r : res A) (P Q : A → Prop) :
  or_panic r P → or_panic r Q → or_panic r (λ a, P a ∧ Q a).
Proof. by destruct r. Qed.

Definition is_ret {A} (r : res A) : bool := match r with Ret _ => true | _ => false end.
Lemma or_panic_returns {A} (r : res A) (P : A → Prop) :
  or_panic r P → is_ret r = true → returns r P.
Proof. by destruct r. Qed.

Lemma returns_or_panic {A} (r : res A) (P : A → Prop) : returns r P → or_panic r P.
Proof. by destruct r. Qed.

Lemma bind_Ret {A B} (a : A) (f : A → res B) : (Ret a ≫= f) = f a.
Proof. done. Qed.

Lemma bind_ret_inv {A B} (m : res A) (f : A → res B) b :
  m ≫= f = Ret b → ∃ a, m = Ret a ∧ f a = Ret b.
Proof. destruct m; naive_solver. Qed.

Lemma deref_ret_inv {A} (o : option A) a : deref o = Ret a → o = Some a.
Proof. destruct o; naive_solver. Qed.

(** [res_inv] takes apart hypotheses of the form [m ≫= f = Ret b]. *)
Ltac res_inv :=
  repeat match goal with
  | H : _ ≫= _ = Ret _ |- _ =>
      let a := fresh "v" in let E := fresh "E" in
      apply bind_ret_inv in H as (a & E & H); cbn beta in H
  | H : deref _ = Ret _ |- _ => apply deref_ret_inv in H
  | H : Ret _ = Ret _ |- _ => injection H as H; subst
  | H : (_, _) = (_, _) |- _ => injection H as H; subst
  end.

(** ** Machine integers

    Unsigned integers are [Z]s in range; every operation of the source that
    can leave the range is followed by the wrap-around of its type. *)
Definition u8 (z : Z) : Z := z mod 2 ^ 8.
Definition u16 (z : Z) : Z := z mod 2 ^ 16.
Definition u32 (z : Z) : Z := z mod 2 ^ 32.
Definition u64 (z : Z) : Z := z mod 2 ^ 64.
Definition i8 (z : Z) : Z := (z + 2 ^ 7) mod 2 ^ 8 - 2 ^ 7.
Definition i32 (z : Z) : Z := (z + 2 ^ 31) mod 2 ^ 32 - 2 ^ 31.
Definition i64 (z : Z) : Z := (z + 2 ^ 63) mod 2 ^ 64 - 2 ^ 63.

(** C's [~x] at 64 and 32 bits. *)
Definition not64 (z : Z) : Z := 2 ^ 64 - 1 - z.
Definition not32 (z : Z) : Z := 2 ^ 32 - 1 - z.

(** [flags & bit] used as a C condition. *)
Definition has (x bit : Z) : bool := negb (Z.land x bit =? 0).

Lemma u64_range z : 0 ≤ u64 z < 2 ^ 64.
Proof. apply Z.mod_pos_bound. lia. Qed.
Lemma u64_small z : 0 ≤ z < 2 ^ 64 → u64 z = z.
Proof. apply Z.mod_small. Qed.
Lemma u32_range z : 0 ≤ u32 z < 2 ^ 32.
Proof. apply Z.mod_pos_bound. lia. Qed.
Lemma i64_small z : - 2 ^ 63 ≤ z < 2 ^ 63 → i64 z = z.
Proof. intros Hz. unfold i64. rewrite Z.mod_small by lia. lia. Qed.
Lemma i32_small z : - 2 ^ 31 ≤ z < 2 ^ 31 → i32 z = z.
Proof. intros Hz. unfold i32. rewrite Z.mod_small by lia. lia. Qed.
Lemma u32_small z : 0 ≤ z < 2 ^ 32 → u32 z = z.
Proof. apply Z.mod_small. Qed.
Lemma u8_range z : 0 ≤ u8 z < 2 ^ 8.
Proof. apply Z.mod_pos_bound. lia. Qed.
Lemma u8_small z : 0 ≤ z < 2 ^ 8 → u8 z = z.
Proof. apply Z.mod_small. Qed.

(** ** Bit masks *)

Lemma land_bound a b : 0 ≤ b → 0 ≤ Z.land a b ≤ b.
Proof.
  intros Hb. split; [apply Z.land_nonneg; lia|].
  destruct (Z.eq_dec b 0) as [->|Hb0]; [by rewrite Z.land_0_r|].
  apply Z.ldiff_le; [lia|]. apply Z.bits_inj'; intros n Hn.
  rewrite Z.ldiff_spec, Z.land_spec, Z.bits_0.
  by destruct (Z.testbit a n), (Z.testbit b n).
Qed.

(** Clearing the [k] low bits of a number rounds it down to a multiple of [2^k]. *)
Lemma land_clear_low w k z :
  0 ≤ k ≤ w → 0 ≤ z < 2 ^ w →
  Z.land z (2 ^ w - 1 - (2 ^ k - 1)) = z - z mod 2 ^ k.
Proof.
  intros Hk Hz.
  replace (2 ^ w - 1 - (2 ^ k - 1)) with (Z.shiftl (Z.ones (w - k)) k).
  2:{ rewrite Z.shiftl_mul_pow2, Z.ones_equiv by lia.
      unfold Z.pred. rewrite Z.mul_add_distr_r, <- Z.pow_add_r by lia.
      replace (w - k + k) with w by lia. lia. }
  replace (z - z mod 2 ^ k) with (Z.shiftl (Z.shiftr z k) k).
  2:{ rewrite Z.shiftl_mul_pow2, Z.shiftr_div_pow2 by lia.
      pose proof (Z.div_mod z (2 ^ k)). lia. }
  apply Z.bits_inj'; intros n Hn.
  rewrite Z.land_spec, !Z.shiftl_spec by lia.
  destruct (Z.ltb_spec n k) as [Hl|Hl].
  { rewrite !(Z.testbit_neg_r _ (n - k)) by lia. by rewrite andb_false_r. }
  rewrite Z.shiftr_spec by lia. replace (n - k + k) with n by lia.
  rewrite Z.testbit_ones_nonneg by lia.
  destruct (Z.ltb_spec (n - k) (w - k)) as [|Hw]; [by rewrite andb_true_r|].
  rewrite andb_false_r. symmetry.
  destruct (Z.eq_dec z 0) as [->|Hz0]; [apply Z.bits_0|].
  apply Z.bits_above_log2; [lia|].
  assert (Z.log2 z < w); [apply Z.log2_lt_pow2; lia|lia].
Qed.

Lemma align_down_spec z : 0 ≤ z < 2 ^ 64 → Z.land z (not64 0xFFF) = z - z mod 4096.
Proof. intros. by apply (land_clear_low 64 12). Qed.

Lemma align8_spec z : 0 ≤ z < 2 ^ 64 → Z.land z (not64 7) = z - z mod 8.
Proof. intros. by apply (land_clear_low 64 3). Qed.

Lemma align4_spec z : 0 ≤ z < 2 ^ 64 → Z.land z (not64 3) = z - z mod 4.
Proof. intros. by apply (land_clear_low 64 2). Qed.

(** [not64] complements the 64 bits of a number. *)
Lemma testbit_above w z n : 0 ≤ z < 2 ^ w → 0 ≤ w ≤ n → Z.testbit z n = false.
Proof.
  intros Hz Hn. destruct (Z.eq_dec z 0) as [->|]; [apply Z.bits_0|].
  apply Z.bits_above_log2; [lia|]. apply Z.lt_le_trans with w; [|lia]. apply Z.log2_lt_pow2; lia.
Qed.

Lemma not64_bits z n : 0 ≤ z < 2 ^ 64 → 0 ≤ n < 64 → Z.testbit (not64 z) n = negb (Z.testbit z n).
Proof.
  intros Hz Hn. unfold not64. replace (2 ^ 64 - 1 - z) with (Z.ones 64 - z) by (rewrite Z.ones_equiv; lia).
  rewrite Z.sub_nocarry_ldiff.
  { by rewrite Z.ldiff_spec, Z.ones_spec_low by lia. }
  apply Z.bits_inj'. intros k Hk. rewrite Z.ldiff_spec, Z.bits_0.
  destruct (Z.ltb_spec k 64); [by rewrite Z.ones_spec_low, andb_false_r by lia|].
  by rewrite (testbit_above 64) by lia.
Qed.

Lemma not64_range z : 0 ≤ z < 2 ^ 64 → 0 ≤ not64 z < 2 ^ 64.
Proof. unfold not64. lia. Qed.

Lemma land_not64_self z : 0 ≤ z < 2 ^ 64 → Z.land (not64 z) z = 0.
Proof.
  intros Hz. apply Z.bits_inj'. intros n Hn. rewrite Z.land_spec, Z.bits_0.
  destruct (Z.ltb_spec n 64); [|rewrite (testbit_above 64 z) by lia; apply andb_false_r].
  rewrite not64_bits by lia. by destruct (Z.testbit z n).
Qed.

Lemma land_not64_disjoint z o :
  0 ≤ z < 2 ^ 64 → 0 ≤ o < 2 ^ 64 → Z.land z o = 0 → Z.land (not64 z) o = o.
Proof.
  intros Hz Ho Hd. apply Z.bits_inj'. intros n Hn. rewrite Z.land_spec.
  destruct (Z.ltb_spec n 64); [|by rewrite (testbit_above 64 o), andb_false_r by lia].
  rewrite not64_bits by lia. apply (f_equal (λ x, Z.testbit x n)) in Hd.
  rewrite Z.land_spec, Z.bits_0 in Hd. by destruct (Z.testbit z n), (Z.testbit o n).
Qed.

(** Low bits put into a number that has none. *)
Lemma lor_low k a b : 0 ≤ k → a mod 2 ^ k = 0 → 0 ≤ b < 2 ^ k → Z.lor a b = a + b.
Proof.
  intros Hk Ha Hb. assert (El : Z.land a b = 0).
  { rewrite <- (Z.mod_small b (2 ^ k)), <- Z.land_ones by lia.
    rewrite (Z.land_comm b), Z.land_assoc, Z.land_ones, Ha by lia. apply Z.land_0_l. }
  by rewrite Z.add_nocarry_lxor, Z.lxor_lor.
Qed.

Lemma has_lor x y b : has (Z.lor x y) b = has x b || has y b.
Proof.
  unfold has. rewrite Z.land_lor_distr_l.
  destruct (Z.eqb_spec (Z.land x b) 0) as [->|Hx]; [by rewrite Z.lor_0_l|].
  cbn. destruct (Z.eqb_spec (Z.lor (Z.land x b) (Z.land y b)) 0) as [E|]; [|done].
  by apply Z.lor_eq_0_iff in E as [??].
Qed.

Lemma has_0 b : has 0 b = false.
Proof. done. Qed.

(** ** Lists *)

Fixpoint sum_list (l : list Z) : Z :=
  match l with [] => 0 | x :: l => x + sum_list l end.

Lemma sum_list_app l k : sum_list (l ++ k) = sum_list l + sum_list k.
Proof. induction l; simpl; lia. Qed.

Lemma sum_list_nonneg l : Forall (λ x, 0 ≤ x) l → 0 ≤ sum_list l.
Proof. induction 1; simpl; lia. Qed.

Lemma Forall_elem {A} (P : A → Prop) l x : Forall P l → x ∈ l → P x.
Proof. intros H Hx. by apply (proj1 (Forall_forall P l) H). Qed.

(** C array access with a [Z] index. *)
Definition lookupZ {A} (l : list A) (i : Z) : option A :=
  if i <? 0 then None else l !! Z.to_nat i.
Definition updateZ {A} (l : list A) (i : Z) (x : A) : list A :=
  if i <? 0 then l else <[Z.to_nat i := x]> l.

Lemma lookupZ_some {A} (l : list A) i x :
  lookupZ l i = Some x → 0 ≤ i < Z.of_nat (length l).
Proof.
  unfold lookupZ. destruct (Z.ltb_spec i 0); [done|].
  intros Hx%lookup_lt_Some. lia.
Qed.

Lemma lookupZ_is_some {A} (l : list A) i :
  0 ≤ i < Z.of_nat (length l) → ∃ x, lookupZ l i = Some x.
Proof.
  intros Hi. unfold lookupZ. destruct (Z.ltb_spec i 0); [lia|].
  apply lookup_lt_is_Some_2. lia.
Qed.

Lemma lookupZ_cons {A} (x : A) (l : list A) i : 0 < i → lookupZ (x :: l) i = lookupZ l (i - 1).
Proof.
  intros Hi. unfold lookupZ. rewrite !(proj2 (Z.ltb_ge _ _)) by lia.
  by replace (Z.to_nat i) with (S (Z.to_nat (i - 1))) by lia.
Qed.

Lemma lookupZ_none {A} (l : list A) i :
  i < 0 ∨ Z.of_nat (length l) ≤ i → lookupZ l i = None.
Proof.
  intros Hi. unfold lookupZ. destruct (Z.ltb_spec i 0); [done|]. apply lookup_ge_None_2. lia.
Qed.

Lemma length_updateZ {A} (l : list A) i x : length (updateZ l i x) = length l.
Proof. unfold updateZ. destruct (i <? 0); [done|apply length_insert]. Qed.

Lemma lookupZ_updateZ_eq {A} (l : list A) i x :
  0 ≤ i < Z.of_nat (length l) → lookupZ (updateZ l i x) i = Some x.
Proof.
  intros Hi. unfold lookupZ, updateZ. destruct (Z.ltb_spec i 0); [lia|].
  apply list_lookup_insert_eq. lia.
Qed.

Lemma lookupZ_updateZ_ne {A} (l : list A) i j x :
  i ≠ j → lookupZ (updateZ l i x) j = lookupZ l j.
Proof.
  intros Hi. unfold lookupZ, updateZ.
  destruct (Z.ltb_spec i 0), (Z.ltb_spec j 0); try done.
  apply list_lookup_insert_ne. lia.
Qed.

(** ** Counting loops

    [for_range a b body s] is [for (i = a; i < b; i++) body], for bounds that
    fit in the counter's type. *)
Fixpoint for_up {S} (n : nat) (i : Z) (body : Z → S → res S) (s : S) : res S :=
  match n with
  | O => Ret s
  | S n => s ← body i s; for_up n (i + 1) body s
  end.
Definition for_range {S} (a b : Z) (body : Z → S → res S) (s : S) : res S :=
  for_up (Z.to_nat (b - a)) a body s.

(** The invariant rule: it also gives that the loop returns. *)
Lemma for_range_inv {S} (I : Z → S → Prop) a b body (s : S) :
  a ≤ b → I a s →
  (∀ i s, a ≤ i < b → I i s → returns (body i s) (I (i + 1))) →
  returns (for_range a b body s) (I b).
Proof.
  intros Hab Ha Hb. unfold for_range.
  assert (∀ n i s, a ≤ i → i + Z.of_nat n = b → I i s →
    returns (for_up n i body s) (I b)) as H; [|apply H; auto; lia].
  clear -Hb. induction n as [|n IH]; intros i s Hi Hn HI; simpl.
  { by replace b with i by lia. }
  apply returns_bind. eapply returns_mono; [apply Hb; [lia|done]|].
  intros s' Hs'. apply IH; auto; lia.
Qed.

(** The same for a body that may panic. *)
Lemma for_range_panic {S} (I : Z → S → Prop) a b body (s : S) :
  a ≤ b → I a s →
  (∀ i s, a ≤ i < b → I i s → or_panic (body i s) (I (i + 1))) →
  or_panic (for_range a b body s) (I b).
Proof.
  intros Hab Ha Hb. unfold for_range.
  assert (∀ n i s, a ≤ i → i + Z.of_nat n = b → I i s →
    or_panic (for_up n i body s) (I b)) as H; [|apply H; auto; lia].
  clear -Hb. induction n as [|n IH]; intros i s Hi Hn HI; simpl.
  { by replace b with i by lia. }
  apply or_panic_bind. eapply or_panic_mono; [apply Hb; [lia|done]|].
  intros s' Hs'. apply IH; auto; lia.
Qed.

Lemma for_range_empty {S} a b body (s : S) : b ≤ a → for_range a b body s = Ret s.
Proof. intros H. unfold for_range. by replace (Z.to_nat (b - a)) with O by lia. Qed.

(** ** Automation *)

Create HintDb doccr.
#[export] Hint Resolve u64_range u32_range u8_range : doccr.
#[export] Hint Rewrite @bind_Ret @length_updateZ : doccr.

(** [lia] with divisions and remainders by constants. *)
Ltac dlia := Z.to_euclidean_division_equations; lia.

(** Reflects boolean comparisons found in hypotheses or the goal. *)
Ltac zbool :=
  repeat match goal with
  | H : andb _ _ = true |- _ => apply andb_true_iff in H as [? ?]
  | H : negb _ = true |- _ => apply negb_true_iff in H
  | H : negb _ = false |- _ => apply negb_false_iff in H
  | H : orb _ _ = false |- _ => apply orb_false_iff in H as [? ?]
  | H : (_ =? _) = true |- _ => apply Z.eqb_eq in H
  | H : (_ =? _) = false |- _ => apply Z.eqb_neq in H
  | H : (_ <? _) = true |- _ => apply Z.ltb_lt in H
  | H : (_ <? _) = false |- _ => apply Z.ltb_ge in H
  | H : (_ <=? _) = true |- _ => apply Z.leb_le in H
  | H : (_ <=? _) = false |- _ => apply Z.leb_gt in H
  end.

(** Removes the wrap-arounds that [lia] shows to be superfluous, innermost
    first. *)
Ltac usimpl :=
  repeat match goal with
  | |- context [u64 ?x] =>
      lazymatch x with
      | context [u64 _] => fail
      | _ => rewrite (u64_small x) by lia
      end
  end.

(** A loop [for (i = a; i < b; i++)] over a pure body. *)
Definition upto {A} (a b : Z) (body : Z → A → A) (x : A) : A :=
  foldl (λ x i, body i x) x (seqZ a (b - a)).

(** The invariant rule of a pure counting loop. *)
Lemma upto_ind {A} (P : Z → A → Prop) a b (body : Z → A → A) (x : A) : a ≤ b →
  P a x → (∀ i y, a ≤ i < b → P i y → P (i + 1) (body i y)) → P b (upto a b body x).
Proof.
  intros Hab Hx Hstep. unfold upto. remember (Z.to_nat (b - a)) as n eqn:En.
  revert a x Hab Hx Hstep En. induction n as [|n IH]; intros a x Hab Hx Hstep En.
  - rewrite seqZ_nil by lia. cbn. by replace b with a by lia.
  - rewrite seqZ_cons by lia. cbn [foldl]. replace (Z.pred (b - a)) with (b - (a + 1)) by lia.
    apply (IH (a + 1)); [lia|apply Hstep; [lia|done]| |lia]. intros i y Hi. apply Hstep. lia.
Qed.

Lemma upto_ext {A} a b (f f' : Z → A → A) (x : A) : (∀ i y, a ≤ i < b → f i y = f' i y) → upto a b f x = upto a b f' x.
Proof.
  intros Hf. unfold upto. assert (Hl : Forall (λ i, a ≤ i < b) (seqZ a (b - a))).
  { apply Forall_forall. intros i Hi%elem_of_seqZ. lia. }
  revert x. induction Hl as [|i l Hi Hl IH]; intros x; cbn; [done|]. by rewrite Hf, IH.
Qed.

(** C's [va_arg]: the arguments of a call are a list of 64-bit words, and reading
    past its end is undefined. *)
Definition va_arg (args : list Z) : res (Z * list Z) :=
  match args with [] => Undef | w :: args => Ret (w, args) end.

(** Closed facts of arithmetic, by evaluation. *)
Ltac vdone := vm_compute; repeat split; first [reflexivity | discriminate | congruence].

(** Case split on the first boolean test of the goal. *)
Ltac zcase :=
  match goal with
  | |- context [?a =? ?b] => destruct (Z.eqb_spec a b)
  | |- context [?a <? ?b] => destruct (Z.ltb_spec a b)
  | |- context [?a <=? ?b] => destruct (Z.leb_spec a b)
  end.
