(* ===== verification/Interfaces.v ===== *)
(** Interfaces between the memory components: what the physical frame
    allocator and the kernel heap promise to their clients.  [PhysMem] and
    [Kheap] discharge them; [Paging], [Vmm] and the components above are
    proved against them. *)
From S2P Require Import Prelude.

(** [physmem_alloc_to(1)]: a fresh, page-aligned, non-null frame below [2^47],
    or 0 and an unchanged state.  [fa_used f a] says that the frame at physical
    address [a] is in use. *)
Class FrameAlloc (F : Type) := {
  fa_alloc : F → res (Z * F);
  fa_inv : F → Prop;
  fa_used : F → Z → Prop;
  fa_alloc_spec f : fa_inv f →
    returns (fa_alloc f) (λ '(a, f'),
      fa_inv f' ∧
      (a = 0 ∧ f' = f ∨
       0 < a < 2 ^ 47 ∧ a mod 4096 = 0 ∧ ¬ fa_used f a ∧
       ∀ b, b mod 4096 = 0 → fa_used f' b ↔ fa_used f b ∨ b = a));
}.

(** [kmalloc] and [kfree]: [ka_size h p] is the size of the live block that
    [kmalloc] returned at [p].  A successful allocation is fresh, at least as
    large as the request and leaves every live block alone; freeing a live
    block removes it and nothing else.  Live blocks are disjoint and lie within
    [[ka_lo, ka_hi)], the address range of the heap. *)
Class HeapAlloc (H : Type) := {
  ka_malloc : H → Z → res (Z * H);
  ka_free : H → Z → res H;
  ka_inv : H → Prop;
  ka_size : H → Z → option Z;
  ka_lo : Z;
  ka_hi : Z;
  ka_range : 0 < ka_lo ∧ ka_hi < 2 ^ 64;
  ka_size_bounds h p n : ka_inv h → ka_size h p = Some n → ka_lo ≤ p ∧ 0 ≤ n ∧ p + n ≤ ka_hi;
  ka_disjoint h p n q m : ka_inv h → ka_size h p = Some n → ka_size h q = Some m → p ≠ q →
    p + n ≤ q ∨ q + m ≤ p;
  ka_malloc_spec h n : ka_inv h → 0 < n < 2 ^ 63 →
    returns (ka_malloc h n) (λ '(p, h'),
      ka_inv h' ∧
      (p = 0 ∧ h' = h ∨
       p ≠ 0 ∧ ka_size h p = None ∧
       (∃ m, n ≤ m ∧ ka_size h' p = Some m) ∧
       ∀ q, q ≠ p → ka_size h' q = ka_size h q));
  ka_free_spec h p n : ka_inv h → ka_size h p = Some n →
    returns (ka_free h p) (λ h',
      ka_inv h' ∧ ka_size h' p = None ∧
      ∀ q, q ≠ p → ka_size h' q = ka_size h q);
}.
