(* ===== verification/Ram.v ===== *)
(** Byte-addressed memory and the routines of [mem/lib.c] on it.  Addresses
    are the kernel's virtual addresses.  [user/libc/src/string.c] has the same
    four routines for programs. *)
From S2P Require Import Prelude.

(** A byte that was never written reads as 0; any contents of RAM are some
    value of [ram]. *)
Notation ram := (gmap Z Z).

Definition ld8 (m : ram) (a : Z) : Z := u8 (default 0 (m !! a)).
Definition st8 (m : ram) (a v : Z) : ram := <[a := u8 v]> m.

(** Little-endian loads and stores of [n] bytes. *)
Fixpoint ld_le (n : nat) (m : ram) (a : Z) : Z :=
  match n with
  | O => 0
  | S n => ld8 m a + 256 * ld_le n m (a + 1)
  end.
Fixpoint st_le (n : nat) (m : ram) (a v : Z) : ram :=
  match n with
  | O => m
  | S n => st_le n (st8 m a (v mod 256)) (a + 1) (v / 256)
  end.

Definition ld16 (m : ram) (a : Z) : Z := ld_le 2 m a.
Definition ld32 (m : ram) (a : Z) : Z := ld_le 4 m a.
Definition ld64 (m : ram) (a : Z) : Z := ld_le 8 m a.
Definition st64 (m : ram) (a v : Z) : ram := st_le 8 m a v.

Module MemLib.

(** [for (i = 0; i < n; i++) p[i] = val], from [i] on. *)
Fixpoint memset_loop (k : nat) (i : Z) (m : ram) (p val : Z) : ram :=
  match k with
  | O => m
  | S k => memset_loop k (i + 1) (st8 m (u64 (p + i)) val) p val
  end.
Definition memset (m : ram) (ptr val n : Z) : ram :=
  memset_loop (Z.to_nat n) 0 m ptr val.

(** [for (i = 0; i < n; i++) d[i] = s[i]], from [i] on. *)
Fixpoint copy_up (k : nat) (i : Z) (m : ram) (d s : Z) : ram :=
  match k with
  | O => m
  | S k => copy_up k (i + 1) (st8 m (u64 (d + i)) (ld8 m (u64 (s + i)))) d s
  end.
(** [for (i = n; i > 0; i--) d[i - 1] = s[i - 1]], from [i = k] on. *)
Fixpoint copy_down (k : nat) (m : ram) (d s : Z) : ram :=
  match k with
  | O => m
  | S k => copy_down k
             (st8 m (u64 (d + Z.of_nat k)) (ld8 m (u64 (s + Z.of_nat k)))) d s
  end.

Definition memcpy (m : ram) (dst src n : Z) : ram := copy_up (Z.to_nat n) 0 m dst src.

Definition memmove (m : ram) (dst src n : Z) : ram :=
  if dst <? src then copy_up (Z.to_nat n) 0 m dst src
  else copy_down (Z.to_nat n) m dst src.

Fixpoint memcmp_loop (k : nat) (i : Z) (m : ram) (a b : Z) : Z :=
  match k with
  | O => 0
  | S k =>
      let x := ld8 m (u64 (a + i)) in
      let y := ld8 m (u64 (b + i)) in
      if x =? y then memcmp_loop k (i + 1) m a b else x - y
  end.
Definition memcmp (m : ram) (a b n : Z) : Z := memcmp_loop (Z.to_nat n) 0 m a b.

End MemLib.
Import MemLib.

(** Conversion unfolds these last: their arguments are compared first. *)
#[global] Strategy 1000 [memset memcpy memmove ld64 st64 ld_le st_le ld8 st8 u64].

(** ** Laws of single bytes and words *)

Lemma ld8_range m a : 0 ≤ ld8 m a < 256.
Proof. apply u8_range. Qed.

Lemma ld8_st8 m a b v : ld8 (st8 m a v) b = if b =? a then u8 v else ld8 m b.
Proof.
  unfold ld8, st8. zcase.
  - subst. rewrite lookup_insert_eq. cbn. unfold u8. by rewrite Z.mod_mod.
  - by rewrite lookup_insert_ne.
Qed.

Lemma ld_le_range n m a : 0 ≤ ld_le n m a < 256 ^ Z.of_nat n.
Proof.
  revert a. induction n as [|n IH]; intros a; cbn [ld_le]; [lia|].
  rewrite Nat2Z.inj_succ, Z.pow_succ_r by lia.
  pose proof (IH (a + 1)). pose proof (ld8_range m a). lia.
Qed.

Lemma ld64_range m a : 0 ≤ ld64 m a < 2 ^ 64.
Proof. apply (ld_le_range 8). Qed.

Lemma ld_le_ext n m m' a :
  (∀ b, a ≤ b < a + Z.of_nat n → ld8 m' b = ld8 m b) → ld_le n m' a = ld_le n m a.
Proof.
  revert a. induction n as [|n IH]; intros a H; cbn [ld_le]; [done|].
  rewrite H by lia. f_equal. f_equal. apply IH. intros. apply H. lia.
Qed.

Lemma ld8_st_le_out n m a v b :
  ¬ (a ≤ b < a + Z.of_nat n) → ld8 (st_le n m a v) b = ld8 m b.
Proof.
  revert m a v. induction n as [|n IH]; intros m a v H; cbn [st_le]; [done|].
  rewrite IH, ld8_st8 by lia. zcase; [lia|done].
Qed.

Lemma ld_le_st_le n m a v : ld_le n (st_le n m a v) a = v mod 256 ^ Z.of_nat n.
Proof.
  revert m a v. induction n as [|n IH]; intros m a v; cbn [ld_le st_le].
  { by rewrite Z.mod_1_r. }
  rewrite IH, ld8_st_le_out, ld8_st8, Z.eqb_refl by lia.
  rewrite Nat2Z.inj_succ, Z.pow_succ_r by lia.
  rewrite Z.rem_mul_r by lia. unfold u8. change (2 ^ 8) with 256. by rewrite Z.mod_mod.
Qed.

Lemma ld64_st64_eq m a v : 0 ≤ v < 2 ^ 64 → ld64 (st64 m a v) a = v.
Proof.
  intros. unfold ld64, st64. rewrite ld_le_st_le. change (256 ^ Z.of_nat 8) with (2 ^ 64).
  by apply Z.mod_small.
Qed.

Lemma ld64_st64_ne m a b v : a + 8 ≤ b ∨ b + 8 ≤ a → ld64 (st64 m a v) b = ld64 m b.
Proof.
  intros. apply ld_le_ext. intros. unfold st64. apply ld8_st_le_out. lia.
Qed.

(** ** Runs of bytes

    [poke m a bs] stores [bs] from [a] on, one byte at a time. *)
Fixpoint poke (m : ram) (a : Z) (bs : list Z) : ram :=
  match bs with [] => m | b :: bs => poke (st8 m a b) (a + 1) bs end.

Lemma ld8_poke_out bs : ∀ m a x, x < a ∨ a + Z.of_nat (length bs) ≤ x → ld8 (poke m a bs) x = ld8 m x.
Proof.
  induction bs as [|b bs IH]; intros m a x Hx; [done|]. cbn [poke length] in *.
  rewrite IH, ld8_st8 by lia. zcase; [lia|done].
Qed.

Lemma poke_app bs cs : ∀ m a, poke m a (bs ++ cs) = poke (poke m a bs) (a + Z.of_nat (length bs)) cs.
Proof.
  induction bs as [|b bs IH]; intros m a; [cbn; by rewrite Z.add_0_r|].
  cbn [poke app length]. rewrite IH. f_equal. lia.
Qed.

Lemma ld8_poke_in bs : ∀ m a i b, bs !! i = Some b → ld8 (poke m a bs) (a + Z.of_nat i) = u8 b.
Proof.
  induction bs as [|c bs IH]; intros m a [|i] b Hb; [done..|injection Hb as ->|]; cbn [poke].
  - rewrite ld8_poke_out, ld8_st8, Z.add_0_r, Z.eqb_refl by lia. done.
  - replace (a + Z.of_nat (S i)) with (a + 1 + Z.of_nat i) by lia. by apply IH.
Qed.

(** ** The routines *)

Section routines.
Context (m : ram).

Lemma memset_loop_spec k i m0 p v b :
  0 ≤ p → 0 ≤ i → p + i + Z.of_nat k ≤ 2 ^ 64 →
  ld8 (memset_loop k i m0 p v) b =
    if (p + i <=? b) && (b <? p + i + Z.of_nat k) then u8 v else ld8 m0 b.
Proof.
  intros Hp. revert i m0. induction k as [|k IH]; intros i m0 Hi Hk; cbn [memset_loop].
  { repeat zcase; try done; lia. }
  rewrite IH, u64_small, ld8_st8 by lia. repeat zcase; cbn; try done; try lia.
Qed.

Lemma ld8_memset p v n b :
  0 ≤ p → 0 ≤ n → p + n ≤ 2 ^ 64 →
  ld8 (memset m p v n) b = if (p <=? b) && (b <? p + n) then u8 v else ld8 m b.
Proof.
  intros. unfold memset. rewrite memset_loop_spec by lia.
  by rewrite Z.add_0_r, Z2Nat.id by lia.
Qed.

Lemma ld64_memset_in p n b :
  0 ≤ p → p + n ≤ 2 ^ 64 → p ≤ b → b + 8 ≤ p + n → ld64 (memset m p 0 n) b = 0.
Proof.
  intros. assert (E : ∀ k a, p ≤ a → a + Z.of_nat k ≤ p + n →
    ld_le k (memset m p 0 n) a = 0); [|by apply (E 8%nat b)].
  induction k as [|k IH]; intros a Ha Hk; cbn [ld_le]; [done|].
  rewrite IH, ld8_memset by lia. repeat zcase; cbn; try done; lia.
Qed.

Lemma ld64_memset_out p v n b :
  0 ≤ p → 0 ≤ n → p + n ≤ 2 ^ 64 → b + 8 ≤ p ∨ p + n ≤ b →
  ld64 (memset m p v n) b = ld64 m b.
Proof.
  intros. apply ld_le_ext. intros c Hc. rewrite ld8_memset by lia.
  repeat zcase; cbn; try done; lia.
Qed.

(** What an ascending copy leaves at [b] when the source is read before it is
    overwritten: [d <= s], or the ranges are disjoint. *)
Lemma copy_up_spec k i m0 d s b :
  0 ≤ d → 0 ≤ s → 0 ≤ i → d + i + Z.of_nat k ≤ 2 ^ 64 → s + i + Z.of_nat k ≤ 2 ^ 64 →
  d ≤ s ∨ s + i + Z.of_nat k ≤ d + i ∨ d + i + Z.of_nat k ≤ s + i →
  ld8 (copy_up k i m0 d s) b =
    if (d + i <=? b) && (b <? d + i + Z.of_nat k) then ld8 m0 (s + (b - d)) else ld8 m0 b.
Proof.
  intros Hd Hs. revert i m0. induction k as [|k IH]; intros i m0 Hi H1 H2 Hov; cbn [copy_up].
  { repeat zcase; try done; lia. }
  rewrite IH, !u64_small, !ld8_st8 by lia.
  pose proof (ld8_range m0 (s + i)).
  assert (E : u8 (ld8 m0 (s + i)) = ld8 m0 (s + i)) by (apply u8_small; lia).
  rewrite E. repeat zcase; cbn; try done; try lia; f_equal; lia.
Qed.

Lemma copy_down_spec k m0 d s b :
  0 ≤ d → 0 ≤ s → d + Z.of_nat k ≤ 2 ^ 64 → s + Z.of_nat k ≤ 2 ^ 64 → s ≤ d →
  ld8 (copy_down k m0 d s) b =
    if (d <=? b) && (b <? d + Z.of_nat k) then ld8 m0 (s + (b - d)) else ld8 m0 b.
Proof.
  intros Hd Hs. revert m0. induction k as [|k IH]; intros m0 H1 H2 Hsd; cbn [copy_down].
  { repeat zcase; try done; lia. }
  rewrite IH, !u64_small, !ld8_st8 by lia.
  pose proof (ld8_range m0 (s + Z.of_nat k)).
  assert (E : u8 (ld8 m0 (s + Z.of_nat k)) = ld8 m0 (s + Z.of_nat k)) by (apply u8_small; lia).
  rewrite E. repeat zcase; cbn; try done; try lia; f_equal; lia.
Qed.

Lemma ld8_memcpy d s n b :
  0 ≤ d → 0 ≤ s → 0 ≤ n → d + n ≤ 2 ^ 64 → s + n ≤ 2 ^ 64 → d + n ≤ s ∨ s + n ≤ d →
  ld8 (memcpy m d s n) b =
    if (d <=? b) && (b <? d + n) then ld8 m (s + (b - d)) else ld8 m b.
Proof.
  intros. unfold memcpy. rewrite copy_up_spec by lia.
  by rewrite Z.add_0_r, Z2Nat.id by lia.
Qed.

(** [memmove] copies correctly whatever the overlap of source and
    destination: afterwards the destination holds what the source held before
    the call, and no other byte changed. *)
Theorem memmove_correct d s n b :
  0 ≤ d → 0 ≤ s → 0 ≤ n → d + n ≤ 2 ^ 64 → s + n ≤ 2 ^ 64 →
  ld8 (memmove m d s n) b =
    if (d <=? b) && (b <? d + n) then ld8 m (s + (b - d)) else ld8 m b.
Proof.
  intros. unfold memmove. destruct (Z.ltb_spec d s).
  - rewrite copy_up_spec by lia. by rewrite Z.add_0_r, Z2Nat.id by lia.
  - rewrite copy_down_spec by lia. by rewrite Z2Nat.id by lia.
Qed.

Lemma memcmp_loop_zero k i a b :
  0 ≤ a → 0 ≤ b → 0 ≤ i → a + i + Z.of_nat k ≤ 2 ^ 64 → b + i + Z.of_nat k ≤ 2 ^ 64 →
  memcmp_loop k i m a b = 0 ↔
    ∀ j, i ≤ j < i + Z.of_nat k → ld8 m (a + j) = ld8 m (b + j).
Proof.
  intros Ha Hb. revert i. induction k as [|k IH]; intros i Hi H1 H2; cbn [memcmp_loop].
  { split; [intros; lia|done]. }
  rewrite !u64_small by lia.
  destruct (Z.eqb_spec (ld8 m (a + i)) (ld8 m (b + i))) as [E|E].
  - rewrite IH by lia. split; intros H j Hj; [|apply H; lia].
    destruct (Z.eq_dec j i) as [->|]; [done|]. apply H. lia.
  - split; [lia|]. intros H. destruct E. apply H. lia.
Qed.

End routines.

(** A forward overlap: [memmove(p + 2, p, 4)]. *)
Lemma memmove_witness :
  ld8 (memmove (<[100 := 7]> (<[101 := 9]> ∅)) 102 100 4) 103 = 9.
Proof.
  rewrite (memmove_correct (<[100 := 7]> (<[101 := 9]> ∅)) 102 100 4 103) by lia.
  vm_compute. reflexivity.
Defined.
