(* ===== verification/PhysMem.v ===== *)
(** The physical frame allocator, [mem/phys/physmem.c]: one bit and one
    [physmem_pageframe] per 4 KiB frame. *)
From S2P Require Import Prelude Interfaces.

Definition PAGE_SIZE : Z := 4096.

Definition FRAME_FREE : Z := 0x00.
Definition FRAME_USED : Z := 0x01.
Definition FRAME_KERNEL : Z := 0x02.
Definition FRAME_SHARED : Z := 0x10.
Definition FRAME_COW : Z := 0x20.

Record pageframe := Pageframe { rc : Z; flags : Z }.

(** The file's static variables.  [physmem_pageframes] is [None] while the
    pointer is [NULL]. *)
Record physmem := PhysMem {
  physmem_pageframes : option (list pageframe);
  physmem_total : Z;
  bitmap : list Z;
  bitmap_size : Z;
  physmem_addr_highest : Z;
}.

(** The boot loader's memory map. *)
Definition LIMINE_MEMMAP_USABLE : Z := 0.
Definition LIMINE_MEMMAP_BOOTLOADER_RECLAIMABLE : Z := 5.
Record memmap_entry := MemmapEntry {
  entry_base : Z;
  entry_length : Z;
  entry_type : Z;
}.

Definition set_bitmap (p : physmem) (b : list Z) : physmem :=
  PhysMem (physmem_pageframes p) (physmem_total p) b (bitmap_size p)
    (physmem_addr_highest p).
Definition set_pageframes (p : physmem) (f : list pageframe) : physmem :=
  PhysMem (Some f) (physmem_total p) (bitmap p) (bitmap_size p)
    (physmem_addr_highest p).

Definition bitmap_test (p : physmem) (idx : Z) : res Z :=
  b ← deref (lookupZ (bitmap p) (Z.shiftr idx 3));
  Ret (Z.land (Z.shiftr b (Z.land idx 7)) 1).

Definition bitmap_set (p : physmem) (idx : Z) : res physmem :=
  b ← deref (lookupZ (bitmap p) (Z.shiftr idx 3));
  Ret (set_bitmap p (updateZ (bitmap p) (Z.shiftr idx 3)
    (u8 (Z.lor b (Z.shiftl 1 (Z.land idx 7)))))).

Definition bitmap_clear (p : physmem) (idx : Z) : res physmem :=
  b ← deref (lookupZ (bitmap p) (Z.shiftr idx 3));
  Ret (set_bitmap p (updateZ (bitmap p) (Z.shiftr idx 3)
    (u8 (Z.land b (Z.lnot (Z.shiftl 1 (Z.land idx 7))))))).

(** [physmem_pageframes[frame]], read and written. *)
Definition pageframe_get (p : physmem) (frame : Z) : res pageframe :=
  fs ← deref (physmem_pageframes p);
  deref (lookupZ fs frame).
Definition pageframe_set (p : physmem) (frame : Z) (pf : pageframe) : res physmem :=
  fs ← deref (physmem_pageframes p);
  _ ← deref (lookupZ fs frame);
  Ret (set_pageframes p (updateZ fs frame pf)).

(** The bodies of the marking loops. *)
Definition mark_frame_used (fl frame : Z) (p : physmem) : res physmem :=
  p ← bitmap_set p frame;
  pageframe_set p frame (Pageframe 1 fl).
Definition mark_frame_free (frame : Z) (p : physmem) : res physmem :=
  p ← bitmap_clear p frame;
  pageframe_set p frame (Pageframe 0 FRAME_FREE).

Definition physmem_addr_mark_entry (p : physmem) (e : memmap_entry) : res physmem :=
  let frame_start := entry_base e / PAGE_SIZE in
  if physmem_total p <=? frame_start then Ret p else
  let frame_end := u64 (entry_base e + entry_length e) / PAGE_SIZE in
  let frame_end := if physmem_total p <? frame_end then physmem_total p else frame_end in
  if entry_type e =? LIMINE_MEMMAP_USABLE then
    for_range frame_start frame_end mark_frame_free p
  else
    for_range frame_start frame_end
      (mark_frame_used (Z.lor FRAME_USED FRAME_KERNEL)) p.

Fixpoint physmem_addr_mark_entries (p : physmem) (es : list memmap_entry) : res physmem :=
  match es with
  | [] => Ret p
  | e :: es => p ← physmem_addr_mark_entry p e; physmem_addr_mark_entries p es
  end.

Definition physmem_addr_mark (p : physmem) (mpr : list memmap_entry) : res physmem :=
  match physmem_pageframes p with
  | None => Panic
  | Some _ => physmem_addr_mark_entries p mpr
  end.

Definition physmem_addr_mark_used (p : physmem) (physmem_addr count : Z) : res physmem :=
  match physmem_pageframes p with
  | None => Panic
  | Some _ =>
      let frame_start := physmem_addr / PAGE_SIZE in
      let frame_end := u64 (frame_start + count) in
      let frame_end :=
        if physmem_total p <? frame_end then physmem_total p else frame_end in
      for_range frame_start frame_end (mark_frame_used FRAME_USED) p
  end.

Definition physmem_addr_mark_free (p : physmem) (physmem_addr count : Z) : res physmem :=
  match physmem_pageframes p with
  | None => Panic
  | Some _ =>
      let frame_start := physmem_addr / PAGE_SIZE in
      let frame_end := u64 (frame_start + count) in
      let frame_end :=
        if physmem_total p <? frame_end then physmem_total p else frame_end in
      for_range frame_start frame_end mark_frame_free p
  end.

(** The three passes of [physmem_addr_get_tracking] differ in the lowest base
    they accept. *)
Fixpoint get_tracking_from (lowest size : Z) (mpr : list memmap_entry) : option Z :=
  match mpr with
  | [] => None
  | e :: mpr =>
      if (entry_type e =? LIMINE_MEMMAP_USABLE) && (size <=? entry_length e)
         && (lowest <=? entry_base e)
      then Some (entry_base e)
      else get_tracking_from lowest size mpr
  end.

(** [NULL] is 0. *)
Definition physmem_addr_get_tracking (mpr : list memmap_entry) (size : Z) : Z :=
  match get_tracking_from 0x1000000 size mpr with
  | Some a => a
  | None =>
      match get_tracking_from 0x100000 size mpr with
      | Some a => a
      | None => default 0 (get_tracking_from 0 size mpr)
      end
  end.

Definition used_bytes_to_frame_count (size : Z) : Z :=
  u64 (u64 (size + PAGE_SIZE) - 1) / PAGE_SIZE.

Fixpoint highest_addr (mpr : list memmap_entry) (highest : Z) : Z :=
  match mpr with
  | [] => highest
  | e :: mpr =>
      let highest :=
        if (entry_type e =? LIMINE_MEMMAP_USABLE)
           || (entry_type e =? LIMINE_MEMMAP_BOOTLOADER_RECLAIMABLE) then
          let end_addr := u64 (entry_base e + entry_length e) in
          if highest <? end_addr then end_addr else highest
        else highest in
      highest_addr mpr highest
  end.

(** [sizeof(physmem_pageframe_t)] is 8.  The pageframe array is not cleared:
    [garbage] is what the memory held before. *)
Definition physmem_init (garbage : Z → pageframe) (mpr : list memmap_entry) : res physmem :=
  let highest := highest_addr mpr 0 in
  let total := highest / PAGE_SIZE in
  let physmem_size := u64 (total * 8) in
  let bsize := (total + 7) / 8 in
  let pageframe_addr := physmem_addr_get_tracking mpr (u64 (physmem_size + bsize)) in
  if pageframe_addr =? 0 then Panic else
  let p := PhysMem (Some (garbage <$> seqZ 0 total)) total
             (replicate (Z.to_nat bsize) 0xFF) bsize highest in
  p ← physmem_addr_mark p mpr;
  let to_used := used_bytes_to_frame_count (u64 (physmem_size + bsize)) in
  p ← physmem_addr_mark_used p pageframe_addr to_used;
  physmem_addr_mark_used p 0 256.

(** The search loop of [physmem_alloc_to]; [n] counts the frames left, so that
    running out of [n] is the loop's exit test.  The result is [start_frame]
    when [all_free] is set. *)
Fixpoint alloc_scan (n : nat) (p : physmem) (count frame consecutive start_frame : Z) :
    res (option Z) :=
  match n with
  | O => Ret None
  | S n =>
      t ← bitmap_test p frame;
      if t =? 0 then
        let start_frame := if consecutive =? 0 then frame else start_frame in
        let consecutive := u64 (consecutive + 1) in
        if count <=? consecutive then Ret (Some start_frame)
        else alloc_scan n p count (frame + 1) consecutive start_frame
      else alloc_scan n p count (frame + 1) 0 start_frame
  end.

Definition physmem_alloc_to (p : physmem) (count : Z) : res (Z * physmem) :=
  if count =? 0 then Ret (0, p) else
  all_free ← alloc_scan (Z.to_nat (physmem_total p)) p count 0 0 0;
  match all_free with
  | Some start_frame =>
      let physmem_addr := u64 (start_frame * PAGE_SIZE) in
      p ← physmem_addr_mark_used p physmem_addr count;
      Ret (physmem_addr, p)
  | None => Ret (0, p)
  end.

Definition physmem_free_to (p : physmem) (physmem_addr count : Z) : res physmem :=
  if count =? 0 then Ret p else physmem_addr_mark_free p physmem_addr count.

Definition physmem_free_get (p : physmem) : res Z :=
  for_range 0 (physmem_total p)
    (λ frame count, t ← bitmap_test p frame;
                    Ret (if t =? 0 then u64 (count + 1) else count)) 0.

Definition physmem_frame_rc_inc (p : physmem) (phys_addr : Z) : res physmem :=
  let frame := phys_addr / PAGE_SIZE in
  if physmem_total p <=? frame then Ret p else
  f ← pageframe_get p frame;
  pageframe_set p frame (Pageframe (u32 (rc f + 1)) (flags f)).

Definition physmem_frame_rc_dec_and_get (p : physmem) (phys_addr : Z) : res (Z * physmem) :=
  let frame := phys_addr / PAGE_SIZE in
  if physmem_total p <=? frame then Ret (0, p) else
  f ← pageframe_get p frame;
  if 0 <? rc f then
    p ← pageframe_set p frame (Pageframe (rc f - 1) (flags f));
    Ret (rc f - 1, p)
  else Ret (rc f, p).

Definition physmem_frame_flags_get (p : physmem) (phys_addr : Z) : res Z :=
  let frame := phys_addr / PAGE_SIZE in
  if physmem_total p <=? frame then Ret 0 else
  f ← pageframe_get p frame;
  Ret (flags f).

Definition physmem_frame_flags_set (p : physmem) (phys_addr fl : Z) : res physmem :=
  let frame := phys_addr / PAGE_SIZE in
  if physmem_total p <=? frame then Ret p else
  f ← pageframe_get p frame;
  pageframe_set p frame (Pageframe (rc f) fl).

(** ** The view of the state the theorems use *)

(** Frame [f] is marked in use. *)
Definition frame_bit (p : physmem) (f : Z) : bool :=
  match lookupZ (bitmap p) (f / 8) with
  | Some b => Z.testbit b (f mod 8)
  | None => false
  end.

(** The [physmem_pageframe] of frame [f]. *)
Definition frame_pf (p : physmem) (f : Z) : option pageframe :=
  match physmem_pageframes p with
  | Some fs => lookupZ fs f
  | None => None
  end.

(** The type invariant after [physmem_init]. *)
Record physmem_wf (p : physmem) : Prop := {
  wf_frames : ∃ fs, physmem_pageframes p = Some fs ∧
                    Z.of_nat (length fs) = physmem_total p;
  wf_total : 0 ≤ physmem_total p ≤ 2 ^ 35;
  wf_bitmap : Z.of_nat (length (bitmap p)) = (physmem_total p + 7) / 8;
  wf_bytes : Forall (λ b, 0 ≤ b < 2 ^ 8) (bitmap p);
}.

(** [p'] is [p] with the frames of [[a, b)] marked. *)
Record marked (v : bool) (x : pageframe) (a b : Z) (p p' : physmem) : Prop := {
  mk_wf : physmem_wf p';
  mk_total : physmem_total p' = physmem_total p;
  mk_bit f : 0 ≤ f → frame_bit p' f = if (a <=? f) && (f <? b) then v else frame_bit p f;
  mk_pf f : frame_pf p' f = if (a <=? f) && (f <? b) then Some x else frame_pf p f;
}.

(** [n] consecutive free frames from [s] on. *)
Definition free_run (p : physmem) (s n : Z) : Prop :=
  0 ≤ s ∧ s + n ≤ physmem_total p ∧ ∀ f, s ≤ f < s + n → frame_bit p f = false.

(** ** Bits *)

Lemma byte_index p f :
  physmem_wf p → 0 ≤ f < physmem_total p →
  Z.shiftr f 3 = f / 8 ∧ Z.land f 7 = f mod 8 ∧
  ∃ b, lookupZ (bitmap p) (f / 8) = Some b ∧ 0 ≤ b < 2 ^ 8.
Proof.
  intros W Hf. split_and!.
  - by rewrite Z.shiftr_div_pow2.
  - change 7 with (Z.ones 3). by rewrite Z.land_ones.
  - destruct (lookupZ_is_some (bitmap p) (f / 8)) as [b Hb].
    { rewrite (wf_bitmap _ W). dlia. }
    exists b. split; [done|]. unfold lookupZ in Hb. destruct (f / 8 <? 0); [done|].
    by eapply (Forall_lookup_1 _ _ _ _ (wf_bytes _ W)).
Qed.

Lemma bitmap_test_spec p f :
  physmem_wf p → 0 ≤ f < physmem_total p →
  bitmap_test p f = Ret (Z.b2z (frame_bit p f)).
Proof.
  intros W Hf. destruct (byte_index p f W Hf) as (H1 & H2 & b & Hb & _).
  unfold bitmap_test, frame_bit. rewrite H1, H2, Hb. cbn. f_equal.
  rewrite Z.shiftr_div_pow2 by dlia.
  change 1 with (Z.ones 1) at 1. rewrite Z.land_ones by lia.
  symmetry. apply Z.testbit_spec'. dlia.
Qed.

(** Replacing the byte of [f] by one that differs only in the bit of [f]. *)
Lemma frame_bit_update p f b b' v :
  0 ≤ f → lookupZ (bitmap p) (f / 8) = Some b →
  (∀ k, 0 ≤ k < 8 → Z.testbit b' k = if k =? f mod 8 then v else Z.testbit b k) →
  ∀ g, 0 ≤ g →
  frame_bit (set_bitmap p (updateZ (bitmap p) (f / 8) b')) g =
    if g =? f then v else frame_bit p g.
Proof.
  intros Hf Hb Hk g Hg. unfold frame_bit. cbn.
  pose proof (lookupZ_some _ _ _ Hb) as Hr.
  destruct (Z.eq_dec (g / 8) (f / 8)) as [E|E].
  - rewrite E, lookupZ_updateZ_eq, Hb, Hk by dlia.
    repeat zcase; try done; dlia.
  - rewrite lookupZ_updateZ_ne by congruence.
    zcase; [by subst|done].
Qed.

Lemma set_bitmap_wf p i b :
  physmem_wf p → 0 ≤ b < 2 ^ 8 → physmem_wf (set_bitmap p (updateZ (bitmap p) i b)).
Proof.
  intros [W1 W2 W3 W4] Hb. split; cbn; [done..| |].
  - by rewrite length_updateZ.
  - unfold updateZ. destruct (i <? 0); [done|]. by apply Forall_insert.
Qed.

Lemma testbit_set b k j :
  0 ≤ k < 8 → 0 ≤ j < 8 →
  Z.testbit (u8 (Z.lor b (Z.shiftl 1 j))) k = if k =? j then true else Z.testbit b k.
Proof.
  intros Hk Hj. unfold u8. rewrite Z.mod_pow2_bits_low by lia.
  rewrite Z.lor_spec, Z.shiftl_spec by lia. change 1 with (2 ^ 0).
  rewrite Z.pow2_bits_eqb by lia.
  repeat zcase; rewrite ?orb_true_r, ?orb_false_r; auto; lia.
Qed.

Lemma testbit_clear b k j :
  0 ≤ k < 8 → 0 ≤ j < 8 →
  Z.testbit (u8 (Z.land b (Z.lnot (Z.shiftl 1 j)))) k = if k =? j then false else Z.testbit b k.
Proof.
  intros Hk Hj. unfold u8. rewrite Z.mod_pow2_bits_low by lia.
  rewrite Z.land_spec, Z.lnot_spec, Z.shiftl_spec by lia. change 1 with (2 ^ 0).
  rewrite Z.pow2_bits_eqb by lia.
  repeat zcase; cbn; rewrite ?andb_true_r, ?andb_false_r; auto; lia.
Qed.

(** ** Marking *)

Lemma pageframe_set_spec p f x :
  physmem_wf p → 0 ≤ f < physmem_total p →
  returns (pageframe_set p f x) (λ p',
    physmem_wf p' ∧ physmem_total p' = physmem_total p ∧ bitmap p' = bitmap p ∧
    ∀ g, frame_pf p' g = if g =? f then Some x else frame_pf p g).
Proof.
  intros W Hf. destruct (wf_frames _ W) as (fs & Hfs & Hl).
  destruct (lookupZ_is_some fs f ltac:(lia)) as [y Hy].
  unfold pageframe_set. rewrite Hfs. cbn. rewrite Hy. cbn.
  destruct W as [W1 W2 W3 W4]. split_and!; [split|..]; cbn; try done.
  - exists (updateZ fs f x). by rewrite length_updateZ.
  - intros g. unfold frame_pf. rewrite Hfs. cbn. zcase; [subst|].
    + apply lookupZ_updateZ_eq. lia.
    + by apply lookupZ_updateZ_ne.
Qed.

(** One step of a marking loop, for both values of the bit. *)
Lemma mark_frame_spec (v : bool) x f p :
  physmem_wf p → 0 ≤ f < physmem_total p →
  returns (p ← (if v then bitmap_set p f else bitmap_clear p f); pageframe_set p f x)
    (marked v x f (f + 1) p).
Proof.
  intros W Hf. destruct (byte_index p f W Hf) as (H1 & H2 & b & Hb & Hbr).
  set (b' := if v then u8 (Z.lor b (Z.shiftl 1 (f mod 8)))
             else u8 (Z.land b (Z.lnot (Z.shiftl 1 (f mod 8))))).
  set (q := set_bitmap p (updateZ (bitmap p) (f / 8) b')).
  assert (Hq : (if v then bitmap_set p f else bitmap_clear p f) = Ret q).
  { subst q b'. unfold bitmap_set, bitmap_clear. rewrite H1, H2, Hb. by destruct v. }
  rewrite Hq. cbn [mbind res_bind].
  assert (Wq : physmem_wf q).
  { apply set_bitmap_wf; [done|]. subst b'. destruct v; apply u8_range. }
  eapply returns_mono; [apply (pageframe_set_spec q f x Wq Hf)|].
  intros p' (W' & Ht & Hbm & Hpf). split; [done..| |].
  - intros g Hg. transitivity (frame_bit q g).
    { unfold frame_bit. by rewrite Hbm. }
    subst q. rewrite (frame_bit_update p f b b' v); [| lia | done | | done].
    + repeat zcase; try done; lia.
    + intros k Hk. subst b'. destruct v; [apply testbit_set|apply testbit_clear]; dlia.
  - intros g. rewrite Hpf. repeat zcase; try done; lia.
Qed.

Lemma marked_trans v x a b c p q r :
  a ≤ b ≤ c → marked v x a b p q → marked v x b c q r → marked v x a c p r.
Proof.
  intros ? [W1 T1 B1 F1] [W2 T2 B2 F2]. split; [done|congruence|..].
  - intros f Hf. rewrite B2, B1 by done. repeat zcase; try done; lia.
  - intros f. rewrite F2, F1. repeat zcase; try done; lia.
Qed.

Lemma marked_refl v x a b p : physmem_wf p → b ≤ a → marked v x a b p p.
Proof. intros W H. split; try done; intros; repeat zcase; try done; lia. Qed.

Lemma mark_loop_spec (v : bool) x a b p body :
  (∀ f p, body f p = (p ← (if v then bitmap_set p f else bitmap_clear p f); pageframe_set p f x)) →
  physmem_wf p → 0 ≤ a → b ≤ physmem_total p →
  returns (for_range a b body p) (marked v x a b p).
Proof.
  intros Hbody W Ha Hb. destruct (Z.le_gt_cases a b) as [Hab|Hab].
  2:{ rewrite for_range_empty by lia. cbn. apply marked_refl; [done|lia]. }
  apply (for_range_inv (λ i, marked v x a i p)); [done|apply marked_refl; done || lia|].
  intros i q Hi M. rewrite Hbody.
  eapply returns_mono; [apply mark_frame_spec; [apply M|rewrite (mk_total _ _ _ _ _ _ M); lia]|].
  intros r Hr. eapply marked_trans; [|exact M|exact Hr]. lia.
Qed.

Lemma mark_used_spec p addr count :
  physmem_wf p → 0 ≤ addr → 0 ≤ count →
  returns (physmem_addr_mark_used p addr count)
    (marked true (Pageframe 1 FRAME_USED) (addr / PAGE_SIZE)
       (Z.min (u64 (addr / PAGE_SIZE + count)) (physmem_total p)) p).
Proof.
  intros W Ha Hc. unfold physmem_addr_mark_used.
  destruct (wf_frames _ W) as (fs & -> & _). cbv zeta.
  replace (if physmem_total p <? _ then _ else _)
    with (Z.min (u64 (addr / PAGE_SIZE + count)) (physmem_total p)).
  2:{ zcase; lia. }
  apply (mark_loop_spec true); [done..|unfold PAGE_SIZE; dlia|lia].
Qed.

Lemma mark_free_spec p addr count :
  physmem_wf p → 0 ≤ addr → 0 ≤ count →
  returns (physmem_addr_mark_free p addr count)
    (marked false (Pageframe 0 FRAME_FREE) (addr / PAGE_SIZE)
       (Z.min (u64 (addr / PAGE_SIZE + count)) (physmem_total p)) p).
Proof.
  intros W Ha Hc. unfold physmem_addr_mark_free.
  destruct (wf_frames _ W) as (fs & -> & _). cbv zeta.
  replace (if physmem_total p <? _ then _ else _)
    with (Z.min (u64 (addr / PAGE_SIZE + count)) (physmem_total p)).
  2:{ zcase; lia. }
  apply (mark_loop_spec false); [done..|unfold PAGE_SIZE; dlia|lia].
Qed.

(** ** The search *)

(** What the search knows at [frame]: the [c] frames before it are free, and
    no run of [count] frames starts before those. *)
Record scan_inv (p : physmem) (count frame c start : Z) : Prop := {
  si_c : 0 ≤ c < count ∧ c ≤ frame;
  si_start : 0 < c → start = frame - c;
  si_free f : frame - c ≤ f < frame → frame_bit p f = false;
  si_none s : 0 ≤ s < frame - c → ¬ free_run p s count;
}.

Lemma scan_inv_free p count frame c start :
  scan_inv p count frame c start → frame_bit p frame = false → c + 1 < count →
  scan_inv p count (frame + 1) (c + 1) (if c =? 0 then frame else start).
Proof.
  intros [? ? Hf Hn] Hb ?. split; [lia|zcase; lia|..].
  - intros f Hr. destruct (Z.eq_dec f frame) as [->|]; [done|]. apply Hf. lia.
  - intros s ?. apply Hn. lia.
Qed.

Lemma scan_inv_used p count frame c start :
  scan_inv p count frame c start → frame_bit p frame = true →
  scan_inv p count (frame + 1) 0 start.
Proof.
  intros [? ? ? Hn] Hb. split; [lia|lia|intros; lia|].
  intros s Hs Hr. destruct (Z.lt_ge_cases s (frame - c)); [by apply (Hn s); [lia|]|].
  destruct Hr as (_ & _ & Hr). rewrite Hr in Hb by lia. done.
Qed.

Lemma scan_inv_found p count frame c start :
  scan_inv p count frame c start → frame_bit p frame = false → c + 1 = count →
  frame < physmem_total p →
  free_run p (if c =? 0 then frame else start) count ∧
  ∀ s, 0 ≤ s < (if c =? 0 then frame else start) → ¬ free_run p s count.
Proof.
  intros [Hc Hs Hf Hn] Hb ? ?.
  assert (E : (if c =? 0 then frame else start) = frame - c) by (zcase; lia).
  rewrite E. split; [|done]. split_and!; [lia..|].
  intros f Hr. destruct (Z.eq_dec f frame) as [->|]; [done|]. apply Hf. lia.
Qed.

Lemma alloc_scan_spec p count n frame c start :
  physmem_wf p → 0 < count < 2 ^ 64 →
  frame + Z.of_nat n = physmem_total p → scan_inv p count frame c start →
  returns (alloc_scan n p count frame c start) (λ o, match o with
    | Some s => free_run p s count ∧ ∀ s', 0 ≤ s' < s → ¬ free_run p s' count
    | None => ∀ s, ¬ free_run p s count
    end).
Proof.
  intros W Hcount. revert frame c start.
  induction n as [|n IH]; intros frame c start Hn Hinv; simpl.
  - intros s Hr. destruct Hinv as [? _ _ Hnone].
    destruct (Z.lt_ge_cases s (frame - c)).
    + apply (Hnone s); [|done]. destruct Hr; lia.
    + destruct Hr as (? & ? & _). lia.
  - pose proof (si_c _ _ _ _ _ Hinv).
    rewrite bitmap_test_spec by (done || lia). cbn.
    destruct (frame_bit p frame) eqn:Hb; cbn.
    + apply IH; [lia|]. by eapply scan_inv_used.
    + rewrite (u64_small (c + 1)) by lia.
      destruct (Z.leb_spec count (c + 1)) as [Hle|Hle].
      * apply scan_inv_found; [done..|lia|lia].
      * apply IH; [lia|]. by apply scan_inv_free.
Qed.


(** What [physmem_alloc_to] does, in terms of [marked]. *)
Lemma physmem_alloc_to_marks p count :
  physmem_wf p → 0 < count < 2 ^ 64 →
  returns (physmem_alloc_to p count) (λ '(a, p'),
    (a = 0 ∧ p' = p ∧ ∀ s, ¬ free_run p s count) ∨
    ∃ s, a = s * PAGE_SIZE ∧ free_run p s count ∧
         (∀ s', 0 ≤ s' < s → ¬ free_run p s' count) ∧
         marked true (Pageframe 1 FRAME_USED) s (s + count) p p').
Proof.
  intros W Hc. unfold physmem_alloc_to. destruct (Z.eqb_spec count 0); [lia|].
  apply returns_bind. pose proof (wf_total _ W) as Ht.
  eapply returns_mono.
  { apply (alloc_scan_spec p count _ 0 0 0); [done..|lia|].
    split; [lia..|intros; lia|intros; lia]. }
  intros [s|] Hs; [|by left]. destruct Hs as [Hr Hmin].
  assert (Hs : 0 ≤ s ∧ s + count ≤ physmem_total p) by (destruct Hr; tauto).
  rewrite (u64_small (s * PAGE_SIZE)) by (unfold PAGE_SIZE; lia).
  apply returns_bind.
  eapply returns_mono; [apply mark_used_spec; [done|unfold PAGE_SIZE; lia|lia]|].
  intros p' M. right. exists s. split_and!; [done..|].
  replace (s * PAGE_SIZE / PAGE_SIZE) with s in M by (unfold PAGE_SIZE; dlia).
  rewrite u64_small in M by lia.
  by replace (Z.min (s + count) (physmem_total p)) with (s + count) in M by lia.
Qed.

(** C6. [physmem_alloc_to] is a first-fit allocator of consecutive frames: it
    always returns; it fails with 0, changing nothing, exactly when no run of
    [count] free frames exists; otherwise the result is the page-aligned address
    of the lowest such run, exactly the frames of that run become used, with a
    reference count of 1, and the bitmap and the page-frame array stay
    well-formed. *)
Theorem physmem_alloc_to_spec p count :
  physmem_wf p → frame_bit p 0 = true → 0 < count < 2 ^ 64 →
  returns (physmem_alloc_to p count) (λ '(a, p'),
    physmem_wf p' ∧ (a = 0 ↔ ∀ s, ¬ free_run p s count) ∧ (a = 0 → p' = p) ∧
    (a ≠ 0 → let s := a / PAGE_SIZE in
       a = s * PAGE_SIZE ∧ free_run p s count ∧
       (∀ s', 0 ≤ s' < s → ¬ free_run p s' count) ∧
       ∀ f, 0 ≤ f →
         frame_bit p' f = ((s <=? f) && (f <? s + count)) || frame_bit p f ∧
         frame_pf p' f = if (s <=? f) && (f <? s + count)
                         then Some (Pageframe 1 FRAME_USED) else frame_pf p f)).
Proof.
  intros W H0 Hc. eapply returns_mono; [by apply physmem_alloc_to_marks|].
  intros [a p'] [(-> & -> & Hno)|(s & -> & Hr & Hmin & M)]; [done|].
  assert (Hs : s ≠ 0).
  { intros ->. destruct Hr as (_ & _ & Hf). by rewrite Hf in H0 by lia. }
  assert (Es : s * PAGE_SIZE / PAGE_SIZE = s) by (unfold PAGE_SIZE; dlia).
  split_and!; [apply M| |unfold PAGE_SIZE; lia|].
  - split; [unfold PAGE_SIZE; lia|]. intros Hno. by destruct (Hno s).
  - intros _. cbn zeta. rewrite Es. split_and!; [done..|]. intros f Hf. split.
    + rewrite (mk_bit _ _ _ _ _ _ M) by done. by destruct (_ && _).
    + apply (mk_pf _ _ _ _ _ _ M).
Qed.

(** Freeing what [physmem_alloc_to] returned gives the bitmap back: after
    the pair of calls exactly the frames that were free before are free. *)
Theorem physmem_alloc_free_roundtrip p count :
  physmem_wf p → frame_bit p 0 = true → 0 < count < 2 ^ 64 →
  returns ('(a, p1) ← physmem_alloc_to p count;
           if a =? 0 then Ret p1 else physmem_free_to p1 a count)
    (λ p2, physmem_wf p2 ∧ ∀ f, 0 ≤ f → frame_bit p2 f = frame_bit p f).
Proof.
  intros W H0 Hc. apply returns_bind.
  eapply returns_mono; [by apply physmem_alloc_to_marks|].
  intros [a p1] [(-> & -> & _)|(s & -> & Hr & _ & M)]; [done|].
  destruct Hr as (Hs & Ht & Hf). pose proof (wf_total _ W).
  destruct (Z.eqb_spec (s * PAGE_SIZE) 0) as [E|_].
  { replace s with 0 in Hf by (unfold PAGE_SIZE in E; lia).
    rewrite Hf in H0 by lia. done. }
  unfold physmem_free_to. destruct (Z.eqb_spec count 0); [lia|].
  eapply returns_mono; [apply mark_free_spec; [apply M|unfold PAGE_SIZE; lia|lia]|].
  intros p2 [W2 _ B2 _]. split; [done|]. intros f Hf'. rewrite B2 by done.
  replace (s * PAGE_SIZE / PAGE_SIZE) with s by (unfold PAGE_SIZE; dlia).
  rewrite u64_small by lia. rewrite (mk_total _ _ _ _ _ _ M), (mk_bit _ _ _ _ _ _ M) by done.
  destruct (Z.leb_spec s f), (Z.ltb_spec f (Z.min (s + count) (physmem_total p))),
    (Z.ltb_spec f (s + count)); cbn; try done; try lia.
  by rewrite Hf by lia.
Qed.

(** The number of free frames below [n]. *)
Fixpoint free_below (p : physmem) (n : nat) : Z :=
  match n with
  | O => 0
  | S n => free_below p n + (if frame_bit p (Z.of_nat n) then 0 else 1)
  end.

Lemma free_below_bound p n : 0 ≤ free_below p n ≤ Z.of_nat n.
Proof. induction n as [|n IH]; simpl; [lia|]. destruct (frame_bit p _); lia. Qed.

(** Marking a free range as used lowers the count by its length. *)
Lemma free_below_marked p p' x s count n :
  marked true x s (s + count) p p' → 0 ≤ s → 0 ≤ count →
  (∀ f, s ≤ f < s + count → frame_bit p f = false) →
  free_below p' n = free_below p n - Z.max 0 (Z.min count (Z.of_nat n - s)).
Proof.
  intros M Hs Hc Hf. induction n as [|n IH]; simpl; [lia|].
  rewrite IH, (mk_bit _ _ _ _ _ _ M) by lia.
  destruct (Z.leb_spec s (Z.of_nat n)); cbn.
  - destruct (Z.ltb_spec (Z.of_nat n) (s + count)).
    + rewrite Hf by lia. lia.
    + destruct (frame_bit p _); lia.
  - destruct (frame_bit p _); lia.
Qed.

(** [physmem_free_get] returns the exact number of free frames, and a
    successful [physmem_alloc_to] lowers it by exactly [count]. *)
Theorem physmem_free_get_spec p count :
  physmem_wf p → 0 < count < 2 ^ 64 →
  physmem_free_get p = Ret (free_below p (Z.to_nat (physmem_total p))) ∧
  returns ('(a, p') ← physmem_alloc_to p count; n ← physmem_free_get p'; Ret (a, n))
    (λ '(a, n), a ≠ 0 → n = free_below p (Z.to_nat (physmem_total p)) - count).
Proof.
  intros W Hc.
  assert (G : ∀ q, physmem_wf q →
    physmem_free_get q = Ret (free_below q (Z.to_nat (physmem_total q)))).
  { intros q Wq. pose proof (wf_total _ Wq).
    assert (R : returns (physmem_free_get q)
      (λ n, n = free_below q (Z.to_nat (physmem_total q)))).
    { apply (for_range_inv (λ i n, n = free_below q (Z.to_nat i))); [lia|done|].
      intros i n Hi ->. rewrite bitmap_test_spec by (done || lia). cbn.
      replace (Z.to_nat (i + 1)) with (S (Z.to_nat i)) by lia. simpl.
      rewrite Z2Nat.id by lia.
      pose proof (free_below_bound q (Z.to_nat i)).
      destruct (frame_bit q i); cbn; [lia|]. apply u64_small. lia. }
    by apply returns_iff in R as (? & -> & ->). }
  split; [by apply G|]. apply returns_bind.
  eapply returns_mono; [by apply physmem_alloc_to_marks|].
  intros [a p'] Ha. destruct Ha as [(-> & -> & _)|(s & -> & Hr & _ & M)].
  { rewrite G by done. cbn. lia. }
  rewrite G by apply M. cbn. intros _. destruct Hr as (? & ? & ?).
  rewrite (mk_total _ _ _ _ _ _ M), (free_below_marked _ _ _ _ _ _ M) by (done || lia).
  lia.
Qed.

(** *** Reference counts *)

Lemma pageframe_get_spec p f :
  physmem_wf p → 0 ≤ f < physmem_total p →
  ∃ x, frame_pf p f = Some x ∧ pageframe_get p f = Ret x.
Proof.
  intros W Hf. destruct (wf_frames _ W) as (fs & Hfs & Hl).
  destruct (lookupZ_is_some fs f ltac:(lia)) as [x Hx].
  exists x. unfold frame_pf, pageframe_get. rewrite Hfs. cbn. by rewrite Hx.
Qed.

(** Reference counts behave as counters: on a frame below
    [physmem_total], [rc_inc] followed by [rc_dec_and_get] returns the old
    count and restores the frame; [rc_dec_and_get] alone never goes below 0;
    frames outside the array are left alone and report 0. *)
Theorem physmem_rc_spec p a :
  physmem_wf p → 0 ≤ a →
  let f := a / PAGE_SIZE in
  (physmem_total p ≤ f →
     physmem_frame_rc_inc p a = Ret p ∧ physmem_frame_rc_dec_and_get p a = Ret (0, p)) ∧
  (f < physmem_total p → ∃ x, frame_pf p f = Some x ∧
     (0 ≤ rc x < 2 ^ 32 - 1 →
        returns (p1 ← physmem_frame_rc_inc p a; physmem_frame_rc_dec_and_get p1 a)
          (λ '(n, p2), n = rc x ∧ bitmap p2 = bitmap p ∧
             ∀ g, frame_pf p2 g = frame_pf p g)) ∧
     (0 ≤ rc x → returns (physmem_frame_rc_dec_and_get p a)
        (λ '(n, p1), n = Z.max 0 (rc x - 1) ∧
           frame_pf p1 f = Some (Pageframe n (flags x)) ∧
           ∀ g, g ≠ f → frame_pf p1 g = frame_pf p g))).
Proof.
  intros W Ha f.
  unfold physmem_frame_rc_inc, physmem_frame_rc_dec_and_get. fold f.
  assert (0 ≤ f) by (unfold f, PAGE_SIZE; dlia).
  destruct (Z.leb_spec (physmem_total p) f) as [Hle|Hlt].
  { split; [done|lia]. }
  split; [lia|]. intros _. destruct (pageframe_get_spec p f W) as (x & Hx & Hget); [lia|].
  exists x. split_and!; [done|..].
  - intros Hrc. rewrite Hget. cbn. apply returns_bind.
    eapply returns_mono; [apply pageframe_set_spec; [done|lia]|].
    intros p1 (W1 & T1 & B1 & F1). rewrite T1.
    destruct (Z.leb_spec (physmem_total p) f); [lia|].
    destruct (pageframe_get_spec p1 f W1) as (y & Hy & ->); [lia|].
    rewrite F1, Z.eqb_refl in Hy. injection Hy as <-. cbn [mbind res_bind rc flags].
    rewrite u32_small by lia. destruct (Z.ltb_spec 0 (rc x + 1)); [|lia].
    apply returns_bind. eapply returns_mono; [apply pageframe_set_spec; [done|lia]|].
    intros p2 (W2 & T2 & B2 & F2). cbn. split_and!; [lia|congruence|].
    intros g. rewrite F2, F1. zcase; [|done]. subst. rewrite Hx. f_equal.
    destruct x; cbn. f_equal. lia.
  - intros Hrc. rewrite Hget. cbn. destruct (Z.ltb_spec 0 (rc x)).
    + apply returns_bind. eapply returns_mono; [apply pageframe_set_spec; [done|lia]|].
      intros p1 (W1 & T1 & B1 & F1). cbn. split_and!; [lia|by rewrite F1, Z.eqb_refl|].
      intros g Hg. rewrite F1. by zcase.
    + cbn. split_and!; [lia| |done]. rewrite Hx. by destruct x.
Qed.

(** *** The promise to the clients *)

(** [fa_used]: the frame at [a] is marked, or lies outside the array. *)
Definition physmem_used (p : physmem) (a : Z) : Prop :=
  ¬ (0 ≤ a / PAGE_SIZE < physmem_total p) ∨ frame_bit p (a / PAGE_SIZE) = true.
Definition physmem_inv (p : physmem) : Prop := physmem_wf p ∧ frame_bit p 0 = true.

Lemma physmem_alloc_one p :
  physmem_inv p →
  returns (physmem_alloc_to p 1) (λ '(a, p'),
    physmem_inv p' ∧
    (a = 0 ∧ p' = p ∨
     0 < a < 2 ^ 47 ∧ a mod 4096 = 0 ∧ ¬ physmem_used p a ∧
     ∀ b, b mod 4096 = 0 → physmem_used p' b ↔ physmem_used p b ∨ b = a)).
Proof.
  intros [W H0]. eapply returns_mono; [by apply physmem_alloc_to_marks|].
  intros [a p'] [(-> & -> & _)|(s & -> & Hr & _ & M)]; [by split; [|left]|].
  destruct Hr as (Hs & Ht & Hf). pose proof (wf_total _ W).
  assert (s ≠ 0) by (intros ->; rewrite Hf in H0 by lia; done).
  assert (Es : s * PAGE_SIZE / PAGE_SIZE = s) by (unfold PAGE_SIZE; dlia).
  unfold physmem_inv, physmem_used. rewrite Es. split; [split; [apply M|]|right].
  { rewrite (mk_bit _ _ _ _ _ _ M) by lia. repeat zcase; try done; lia. }
  split_and!; [unfold PAGE_SIZE; lia..|unfold PAGE_SIZE; dlia| |].
  { rewrite Hf by lia. intros [?|?]; [lia|done]. }
  intros b Hb. rewrite (mk_total _ _ _ _ _ _ M).
  assert (b / PAGE_SIZE = s ↔ b = s * PAGE_SIZE) by (unfold PAGE_SIZE; dlia).
  destruct (Z.lt_ge_cases (b / PAGE_SIZE) 0); [split; intros _; [left|]; left; lia|].
  rewrite (mk_bit _ _ _ _ _ _ M) by lia.
  destruct (Z.leb_spec s (b / PAGE_SIZE)), (Z.ltb_spec (b / PAGE_SIZE) (s + 1)); cbn;
    destruct (frame_bit p (b / PAGE_SIZE)); intuition (lia || congruence).
Qed.

#[export] Instance physmem_frame_alloc : FrameAlloc physmem := {|
  fa_alloc p := physmem_alloc_to p 1;
  fa_inv := physmem_inv;
  fa_used := physmem_used;
  fa_alloc_spec := physmem_alloc_one;
|}.

(** ** Initialisation *)

(** What the boot protocol guarantees of a memory map entry: it lies in the
    physical memory that the direct map in the upper half of the address space
    can show (2^47 bytes), and usable entries are page-aligned. *)
Definition entry_ok (e : memmap_entry) : Prop :=
  0 ≤ entry_base e ∧ 0 ≤ entry_length e ∧ entry_base e + entry_length e ≤ 2 ^ 47 ∧
  (entry_type e = LIMINE_MEMMAP_USABLE →
     entry_base e mod 4096 = 0 ∧ entry_length e mod 4096 = 0).

Definition covers (e : memmap_entry) (f : Z) : bool :=
  (entry_base e / PAGE_SIZE <=? f) && (f <? (entry_base e + entry_length e) / PAGE_SIZE).

(** The bit that the entries leave for frame [f]: the last entry that covers
    it decides. *)
Fixpoint final_bit (es : list memmap_entry) (f : Z) (b : bool) : bool :=
  match es with
  | [] => b
  | e :: es => final_bit es f
      (if covers e f then negb (entry_type e =? LIMINE_MEMMAP_USABLE) else b)
  end.

Lemma final_bit_free es f :
  final_bit es f true = false →
  ∃ e, e ∈ es ∧ entry_type e = LIMINE_MEMMAP_USABLE ∧ covers e f = true.
Proof.
  enough (∀ b, final_bit es f b = false → b = false ∨
    ∃ e, e ∈ es ∧ entry_type e = LIMINE_MEMMAP_USABLE ∧ covers e f = true) as H.
  { intros Hf. by destruct (H _ Hf). }
  induction es as [|e es IH]; simpl; [by left|].
  intros b [Hb|(e' & He' & ?)]%IH; [|right; exists e'; split; [by right|done]].
  destruct (covers e f) eqn:Hc; [|by left].
  zbool. right. exists e. split; [by left|done].
Qed.

Lemma mark_entry_spec p e :
  physmem_wf p → entry_ok e →
  returns (physmem_addr_mark_entry p e) (λ p', physmem_wf p' ∧
    physmem_total p' = physmem_total p ∧
    ∀ f, 0 ≤ f < physmem_total p →
      frame_bit p' f = if covers e f then negb (entry_type e =? LIMINE_MEMMAP_USABLE)
                       else frame_bit p f).
Proof.
  intros W (Hb & Hl & Hbl & _). unfold physmem_addr_mark_entry, covers.
  rewrite u64_small by lia.
  assert (0 ≤ entry_base e / PAGE_SIZE) by (unfold PAGE_SIZE; dlia).
  destruct (Z.leb_spec (physmem_total p) (entry_base e / PAGE_SIZE)).
  { cbn. split_and!; [done..|]. intros f Hf. repeat zcase; try done; lia. }
  cbv zeta.
  replace (if physmem_total p <? _ then _ else _)
    with (Z.min ((entry_base e + entry_length e) / PAGE_SIZE) (physmem_total p))
    by (zcase; lia).
  destruct (Z.eqb_spec (entry_type e) LIMINE_MEMMAP_USABLE).
  1: eapply returns_mono; [by apply (mark_loop_spec false); [..|lia]|].
  2: eapply returns_mono; [by apply (mark_loop_spec true); [..|lia]|].
  all: intros p' [W' T' B' _]; split_and!; [done..|]; intros f Hf; rewrite B' by lia.
  all: repeat zcase; try done; lia.
Qed.

Lemma mark_entries_spec es p :
  physmem_wf p → Forall entry_ok es →
  returns (physmem_addr_mark_entries p es) (λ p', physmem_wf p' ∧
    physmem_total p' = physmem_total p ∧
    ∀ f, 0 ≤ f < physmem_total p → frame_bit p' f = final_bit es f (frame_bit p f)).
Proof.
  intros W H. revert p W. induction H as [|e es He _ IH]; intros p W; simpl; [done|].
  apply returns_bind. eapply returns_mono; [by apply mark_entry_spec|].
  intros q (Wq & Tq & Bq). eapply returns_mono; [by apply IH|].
  intros r (Wr & Tr & Br). split_and!; [done|congruence|].
  intros f Hf. by rewrite Br, Bq by lia.
Qed.

Lemma get_tracking_from_spec lowest size mpr a :
  get_tracking_from lowest size mpr = Some a →
  ∃ e, e ∈ mpr ∧ entry_type e = LIMINE_MEMMAP_USABLE ∧ a = entry_base e ∧
       size ≤ entry_length e.
Proof.
  induction mpr as [|e mpr IH]; simpl; [done|].
  destruct (_ && _) eqn:E.
  - intros [= <-]. zbool. exists e. split_and!; [by left|done..].
  - intros (e' & ? & ?)%IH. exists e'. split; [by right|done].
Qed.

Lemma tracking_spec mpr size :
  physmem_addr_get_tracking mpr size ≠ 0 →
  ∃ e, e ∈ mpr ∧ entry_type e = LIMINE_MEMMAP_USABLE ∧
       physmem_addr_get_tracking mpr size = entry_base e ∧ size ≤ entry_length e.
Proof.
  unfold physmem_addr_get_tracking.
  repeat case_match; intros; eauto using get_tracking_from_spec.
  destruct (get_tracking_from 0 size mpr) eqn:E; cbn in *; eauto using get_tracking_from_spec.
  done.
Qed.

Lemma highest_addr_bound mpr h :
  Forall entry_ok mpr → 0 ≤ h ≤ 2 ^ 47 → 0 ≤ highest_addr mpr h ≤ 2 ^ 47.
Proof.
  intros H. revert h. induction H as [|e mpr (? & ? & ? & _) _ IH]; intros h Hh; [done|].
  simpl. apply IH. rewrite u64_small by lia. repeat case_match; lia.
Qed.

(** The state before the entries are marked: every frame reserved. *)
Lemma all_ones_wf fs total h :
  Z.of_nat (length fs) = total → 0 ≤ total ≤ 2 ^ 35 →
  let p := PhysMem (Some fs) total (replicate (Z.to_nat ((total + 7) / 8)) 0xFF)
             ((total + 7) / 8) h in
  physmem_wf p ∧ ∀ f, 0 ≤ f < total → frame_bit p f = true.
Proof.
  intros Hl Ht p. split; [split|].
  - by exists fs.
  - done.
  - cbn. rewrite length_replicate. dlia.
  - apply Forall_replicate. lia.
  - intros f Hf. unfold frame_bit, lookupZ. cbn.
    destruct (Z.ltb_spec (f / 8) 0); [dlia|].
    rewrite lookup_replicate_2 by dlia. change 255 with (Z.ones 8).
    apply Z.ones_spec_low. dlia.
Qed.

Lemma frame_count_spec size :
  0 ≤ size < 2 ^ 47 → used_bytes_to_frame_count size = (size + 4095) / 4096.
Proof.
  intros. unfold used_bytes_to_frame_count, PAGE_SIZE.
  rewrite (u64_small (size + 4096)), u64_small by lia. f_equal. lia.
Qed.

Lemma tracked_disjoint addr size total f :
  addr mod 4096 = 0 → 0 ≤ f < total →
  (addr / 4096 <=? f) && (f <? Z.min (addr / 4096 + (size + 4095) / 4096) total) = false →
  f * 4096 + 4096 ≤ addr ∨ addr + size ≤ f * 4096.
Proof.
  intros Ha Hf H.
  assert (E : addr = 4096 * (addr / 4096)) by dlia.
  assert (E' : size ≤ 4096 * ((size + 4095) / 4096)) by dlia.
  apply andb_false_iff in H as [H|H]; zbool; lia.
Qed.

Lemma covers_inside e f :
  entry_ok e → entry_type e = LIMINE_MEMMAP_USABLE → covers e f = true →
  entry_base e ≤ f * 4096 ∧ f * 4096 + 4096 ≤ entry_base e + entry_length e.
Proof.
  intros (_ & _ & _ & Hal) Hty Hc. destruct (Hal Hty).
  unfold covers, PAGE_SIZE in Hc. zbool. split; dlia.
Qed.

(** Frame [f] is reserved before the memory map has its say: the first MiB, and the
    allocator's own arrays. *)
Definition reserved (addr size f : Z) : bool :=
  (f <? 256) || ((addr / PAGE_SIZE <=? f) && (f <? addr / PAGE_SIZE + (size + 4095) / 4096)).

(** The bitmap that [physmem_init] leaves. *)
Lemma physmem_init_bits garbage mpr :
  Forall entry_ok mpr →
  let total := highest_addr mpr 0 / PAGE_SIZE in
  let size := total * 8 + (total + 7) / 8 in
  let addr := physmem_addr_get_tracking mpr size in
  (addr = 0 → physmem_init garbage mpr = Panic) ∧
  (addr ≠ 0 → returns (physmem_init garbage mpr) (λ p,
     physmem_wf p ∧ physmem_total p = total ∧
     ∀ f, 0 ≤ f < total → frame_bit p f = reserved addr size f || final_bit mpr f true)).
Proof.
  intros Hm total size addr.
  pose proof (highest_addr_bound mpr 0 Hm ltac:(lia)) as Hh.
  assert (Ht : 0 ≤ total ≤ 2 ^ 35) by (unfold total, PAGE_SIZE; dlia).
  assert (Hs : 0 ≤ size < 2 ^ 44) by (unfold size; dlia).
  unfold physmem_init. fold total. rewrite (u64_small (total * 8)) by lia.
  rewrite (u64_small (total * 8 + _)) by (fold size; lia). fold size. fold addr.
  split; intros Ha; destruct (Z.eqb_spec addr 0) as [E|E]; try done.
  destruct (tracking_spec mpr size Ha) as (et & Het & Htype & Haddr & Hfit). fold addr in Haddr.
  pose proof (Forall_elem _ _ _ Hm Het) as (Hb0 & Hl0 & Hbl & _).
  destruct (all_ones_wf (garbage <$> seqZ 0 total) total (highest_addr mpr 0)) as [W0 B0].
  { rewrite length_fmap, length_seqZ. lia. }
  { done. }
  apply returns_bind.
  eapply returns_mono; [by apply (mark_entries_spec mpr)|].
  intros p1 (W1 & T1 & B1). cbn [physmem_total] in *. apply returns_bind.
  rewrite frame_count_spec by lia.
  eapply returns_mono; [apply mark_used_spec; [done|lia|dlia]|].
  intros p2 M2. eapply returns_mono; [apply mark_used_spec; [apply M2|lia|lia]|].
  intros p3 M3. pose proof (mk_total _ _ _ _ _ _ M2) as T2.
  pose proof (mk_total _ _ _ _ _ _ M3) as T3.
  split_and!; [apply M3|congruence|]. intros f Hf.
  rewrite (mk_bit _ _ _ _ _ _ M3), (mk_bit _ _ _ _ _ _ M2), B1, B0 by lia.
  rewrite T2, T1. change (0 / PAGE_SIZE) with 0. rewrite (u64_small (0 + 256)) by lia.
  rewrite u64_small by (unfold PAGE_SIZE; dlia). unfold reserved.
  destruct (Z.leb_spec 0 f); [|lia]. cbn [andb].
  replace (f <? Z.min (0 + 256) total) with (f <? 256) by (repeat zcase; try done; lia).
  replace (f <? Z.min (addr / PAGE_SIZE + (size + 4095) / 4096) total)
    with (f <? addr / PAGE_SIZE + (size + 4095) / 4096) by (repeat zcase; try done; lia).
  by destruct (f <? 256); [|destruct (_ && _)].
Qed.

(** [physmem_init] panics exactly when no usable entry can hold the
    allocator's own arrays; otherwise it establishes the type invariant, and
    every frame it leaves free is above the first MiB, lies wholly inside a
    usable entry of the memory map, and does not overlap the arrays. *)
Theorem physmem_init_spec garbage mpr :
  Forall entry_ok mpr →
  let total := highest_addr mpr 0 / PAGE_SIZE in
  let size := total * 8 + (total + 7) / 8 in
  let addr := physmem_addr_get_tracking mpr size in
  (addr = 0 → physmem_init garbage mpr = Panic) ∧
  (addr ≠ 0 → returns (physmem_init garbage mpr) (λ p,
     physmem_wf p ∧ physmem_total p = total ∧
     ∀ f, 0 ≤ f < total → frame_bit p f = false →
       256 ≤ f ∧
       (∃ e, e ∈ mpr ∧ entry_type e = LIMINE_MEMMAP_USABLE ∧
             entry_base e ≤ f * 4096 ∧ f * 4096 + 4096 ≤ entry_base e + entry_length e) ∧
       (f * 4096 + 4096 ≤ addr ∨ addr + size ≤ f * 4096))).
Proof.
  intros Hm total size addr. destruct (physmem_init_bits garbage mpr Hm) as [H1 H2].
  split; [exact H1|]. intros Ha. eapply returns_mono; [by apply H2|]. intros p (W & T & B).
  split_and!; [done..|]. intros f Hf. rewrite B by done. unfold reserved.
  intros [[Hlow Htr]%orb_false_iff (e & He & Hty & Hc)%final_bit_free]%orb_false_iff.
  apply Z.ltb_ge in Hlow. split; [done|]. split.
  - exists e. split; [done|]. split; [done|].
    apply covers_inside; [exact (Forall_elem _ _ _ Hm He)|done..].
  - destruct (tracking_spec mpr size Ha) as (et & Het & Htype & Haddr & _). fold addr in Haddr.
    pose proof (Forall_elem _ _ _ Hm Het) as (_ & _ & _ & Hal). destruct (Hal Htype) as [Hal1 _].
    apply (tracked_disjoint _ _ total); [by rewrite Haddr|lia|].
    apply andb_false_iff in Htr as [Htr|Htr]; apply andb_false_iff; [left; exact Htr|right].
    apply Z.ltb_ge in Htr. apply Z.ltb_ge. etrans; [apply Z.le_min_l|exact Htr].
Qed.

(** ** Witnesses: a machine of 16 frames, frames 0-3 and 8 in use *)

Definition pm16 : physmem :=
  PhysMem (Some (replicate 4 (Pageframe 1 1) ++ replicate 4 (Pageframe 0 0) ++
                 [Pageframe 1 1] ++ replicate 7 (Pageframe 0 0)))
    16 [0x0F; 0x01] 2 0x10000.

Lemma pm16_wf : physmem_wf pm16.
Proof.
  split; [by eexists|by vm_compute|done|]. repeat constructor; by vm_compute.
Defined.

Lemma physmem_alloc_to_witness :
  physmem_wf pm16 ∧ ∃ a p', physmem_alloc_to pm16 5 = Ret (a, p') ∧ a = 0x9000.
Proof.
  split; [exact pm16_wf|].
  pose proof (physmem_alloc_to_spec pm16 5 pm16_wf eq_refl ltac:(lia)) as H.
  apply returns_iff in H as ([a p'] & E & _). exists a, p'. split; [exact E|].
  vm_compute in E. congruence.
Defined.

Lemma physmem_alloc_free_witness :
  returns ('(a, p1) ← physmem_alloc_to pm16 3;
           if a =? 0 then Ret p1 else physmem_free_to p1 a 3)
    (λ p2, ∀ f, 0 ≤ f → frame_bit p2 f = frame_bit pm16 f).
Proof.
  eapply returns_mono;
    [apply (physmem_alloc_free_roundtrip pm16 3); [exact pm16_wf|reflexivity|lia]|].
  intros p2 [_ H]. exact H.
Defined.

Lemma physmem_free_get_witness : physmem_free_get pm16 = Ret 11.
Proof.
  rewrite (proj1 (physmem_free_get_spec pm16 1 pm16_wf ltac:(lia))). reflexivity.
Defined.

Lemma physmem_rc_witness :
  returns (p1 ← physmem_frame_rc_inc pm16 0x8000; physmem_frame_rc_dec_and_get p1 0x8000)
    (λ '(n, p2), n = 1).
Proof.
  destruct (proj2 (physmem_rc_spec pm16 0x8000 pm16_wf ltac:(lia)) ltac:(by vm_compute))
    as (x & Hx & H & _).
  injection Hx as <-. eapply returns_mono; [apply H; by vm_compute|].
  intros [n p2] [Hn _]. exact Hn.
Defined.

(** 4 MiB of usable memory above 1 MiB, below a reserved region. *)
Definition map5 : list memmap_entry :=
  [MemmapEntry 0 0x9F000 0; MemmapEntry 0x100000 0x400000 0;
   MemmapEntry 0x500000 0x1000 1].

Lemma physmem_init_witness :
  returns (physmem_init (λ _, Pageframe 0 0) map5)
    (λ p, physmem_wf p ∧ physmem_total p = 1280).
Proof.
  assert (Hm : Forall entry_ok map5).
  { repeat constructor; by vm_compute. }
  destruct (physmem_init_spec (λ _, Pageframe 0 0) map5 Hm) as [_ H].
  eapply returns_mono; [apply H; by vm_compute|].
  intros p (W & T & _). split; [exact W|]. rewrite T. reflexivity.
Defined.
