(* ===== verification/Str.v ===== *)
(** The kernel's strings, [screen/lib/string.c]: NUL-terminated byte arrays in
    memory.  A loop that looks for a terminator has fuel; a string shorter than
    the fuel is enough.  The arrays a function keeps on its stack are given by
    their addresses. *)
From S2P Require Import Prelude Ram.

Definition SPACE : Z := 32.
Definition TAB : Z := 9.
Definition NL : Z := 10.
Definition MINUS : Z := 45.
Definition PLUS : Z := 43.
Definition CH0 : Z := 48.

(** [while (p[i] != 0) i++] *)
Fixpoint scan (fuel : nat) (m : ram) (p i : Z) : res Z :=
  match fuel with
  | O => NoFuel
  | S fuel => if ld8 m (p + i) =? 0 then Ret i else scan fuel m p (i + 1)
  end.

Section str.
Context (fuel : nat).

Definition str_len (m : ram) (str : Z) : res Z := scan fuel m str 0.

(** [dest[i] = src[j]] up to the terminator, which is stored too. *)
Fixpoint copy_loop (fuel : nat) (m : ram) (dest i src j : Z) : res ram :=
  match fuel with
  | O => NoFuel
  | S fuel =>
      if ld8 m (src + j) =? 0 then Ret (st8 m (dest + i) 0)
      else copy_loop fuel (st8 m (dest + i) (ld8 m (src + j))) dest (i + 1) src (j + 1)
  end.
Definition str_copy (m : ram) (dest src : Z) : res ram := copy_loop fuel m dest 0 src 0.
Definition str_append (m : ram) (dest src : Z) : res ram :=
  i ← scan fuel m dest 0; copy_loop fuel m dest i src 0.

(** The loops of [str_append_uint] on its array [buf]. *)
Fixpoint count_digits (n : nat) (temp digits : Z) : res Z :=
  match n with
  | O => NoFuel
  | S n => if 0 <? temp then count_digits n (temp / 10) (digits + 1) else Ret digits
  end.
Fixpoint fill_digits (n : nat) (m : ram) (buf i num : Z) : res ram :=
  match n with
  | O => NoFuel
  | S n => if 0 <? num then fill_digits n (st8 m (buf + (i - 1)) (CH0 + num mod 10)) buf (i - 1) (num / 10)
           else Ret m
  end.
(** A [u32] has at most 10 digits. *)
Definition DIGIT_FUEL : nat := 11.
Definition str_append_uint (buf : Z) (m : ram) (dest num : Z) : res ram :=
  '(m, i) ← (if num =? 0 then Ret (st8 m buf CH0, 1) else
    digits ← count_digits DIGIT_FUEL num 0;
    m ← fill_digits DIGIT_FUEL m buf digits num;
    Ret (m, digits));
  str_append (st8 m (buf + i) 0) dest buf.

Definition str_append_char (m : ram) (dest c : Z) : res ram :=
  if dest =? 0 then Ret m else
  len ← str_len m dest;
  Ret (st8 (st8 m (dest + len) c) (dest + (len + 1)) 0).

Fixpoint starts_loop (fuel : nat) (m : ram) (str prefix : Z) : res Z :=
  match fuel with
  | O => NoFuel
  | S fuel =>
      if ld8 m prefix =? 0 then Ret 1 else
      if negb (ld8 m str =? ld8 m prefix) then Ret 0 else starts_loop fuel m (str + 1) (prefix + 1)
  end.
Definition str_starts_with (m : ram) (str prefix : Z) : res Z :=
  if (str =? 0) || (prefix =? 0) then Ret 0 else starts_loop fuel m str prefix.

Fixpoint equals_loop (fuel : nat) (m : ram) (s1 s2 : Z) : res Z :=
  match fuel with
  | O => NoFuel
  | S fuel =>
      if negb (ld8 m s1 =? 0) && negb (ld8 m s2 =? 0) then
        if negb (ld8 m s1 =? ld8 m s2) then Ret 0 else equals_loop fuel m (s1 + 1) (s2 + 1)
      else Ret (if ld8 m s1 =? ld8 m s2 then 1 else 0)
  end.
Definition str_equals (m : ram) (s1 s2 : Z) : res Z :=
  if (s1 =? 0) || (s2 =? 0) then Ret 0 else equals_loop fuel m s1 s2.

Definition upper (c : Z) : Z := if (97 <=? c) && (c <=? 122) then c - 32 else c.
Definition lower (c : Z) : Z := if (65 <=? c) && (c <=? 90) then c + 32 else c.
Fixpoint map_loop (fuel : nat) (f : Z → Z) (m : ram) (str : Z) : res ram :=
  match fuel with
  | O => NoFuel
  | S fuel => if ld8 m str =? 0 then Ret m else map_loop fuel f (st8 m str (f (ld8 m str))) (str + 1)
  end.
Definition str_to_upper (m : ram) (str : Z) : res ram := if str =? 0 then Ret m else map_loop fuel upper m str.
Definition str_to_lower (m : ram) (str : Z) : res ram := if str =? 0 then Ret m else map_loop fuel lower m str.

Definition is_space (c : Z) : bool := (c =? SPACE) || (c =? TAB) || (c =? NL).
Fixpoint skip_spaces (fuel : nat) (m : ram) (start : Z) : res Z :=
  match fuel with
  | O => NoFuel
  | S fuel => if is_space (ld8 m start) then skip_spaces fuel m (start + 1) else Ret start
  end.
Fixpoint back_spaces (fuel : nat) (m : ram) (start end_ : Z) : res Z :=
  match fuel with
  | O => NoFuel
  | S fuel => if (start <? end_) && is_space (ld8 m end_) then back_spaces fuel m start (end_ - 1) else Ret end_
  end.
Definition str_trim (m : ram) (str : Z) : res ram :=
  if str =? 0 then Ret m else
  start ← skip_spaces fuel m str;
  len ← scan fuel m start 0;
  end_ ← back_spaces fuel m start (start + len - 1);
  let n := end_ + 1 - start in
  let m := upto 0 n (λ i m, st8 m (str + i) (ld8 m (start + i))) m in
  Ret (st8 m (str + Z.max 0 n) 0).

Definition swap_bytes (m : ram) (a b : Z) : ram :=
  let temp := ld8 m a in st8 (st8 m a (ld8 m b)) b temp.
Definition str_reverse (m : ram) (str : Z) : res ram :=
  if str =? 0 then Ret m else
  len ← str_len m str;
  Ret (upto 0 (len / 2) (λ i m, swap_bytes m (str + i) (str + (len - 1 - i))) m).

Fixpoint skip_blanks (fuel : nat) (m : ram) (str : Z) : res Z :=
  match fuel with
  | O => NoFuel
  | S fuel => if (ld8 m str =? SPACE) || (ld8 m str =? TAB) then skip_blanks fuel m (str + 1) else Ret str
  end.
Definition is_digit (c : Z) : bool := (48 <=? c) && (c <=? 57).
Fixpoint parse_loop (fuel : nat) (m : ram) (str result : Z) : res Z :=
  match fuel with
  | O => NoFuel
  | S fuel => if is_digit (ld8 m str) then parse_loop fuel m (str + 1) (i32 (result * 10 + (ld8 m str - CH0)))
              else Ret result
  end.
Definition str_to_int (m : ram) (str : Z) : res Z :=
  if str =? 0 then Ret 0 else
  str ← skip_blanks fuel m str;
  let '(sign, str) := if ld8 m str =? MINUS then (-1, str + 1)
                      else if ld8 m str =? PLUS then (1, str + 1) else (1, str) in
  result ← parse_loop fuel m str 0;
  Ret (i32 (result * sign)).

(** The digits of [str_from_int], least significant first; the position after
    the last. *)
Fixpoint from_int_loop (n : nat) (m : ram) (buf i value : Z) : res (ram * Z) :=
  match n with
  | O => NoFuel
  | S n => if 0 <? value then from_int_loop n (st8 m (buf + i) (CH0 + value mod 10)) buf (i + 1) (value / 10)
           else Ret (m, i)
  end.
Definition str_from_int (m : ram) (buf value : Z) : res ram :=
  if buf =? 0 then Ret m else
  if value =? 0 then Ret (st8 (st8 m buf CH0) (buf + 1) 0) else
  let is_negative := value <? 0 in
  let value := if is_negative then i32 (- value) else value in
  '(m, i) ← from_int_loop DIGIT_FUEL m buf 0 value;
  let '(m, i) := if is_negative then (st8 m (buf + i) MINUS, i + 1) else (m, i) in
  str_reverse (st8 m (buf + i) 0) buf.

Definition hexchar (d : Z) : Z := if d <? 10 then CH0 + d else 65 + (d - 10).
Fixpoint hex_digits (n : nat) (m : ram) (tmp i value : Z) : res (ram * Z) :=
  match n with
  | O => NoFuel
  | S n => if 0 <? value then hex_digits n (st8 m (tmp + i) (hexchar (Z.land value 0xF))) tmp (i + 1) (Z.shiftr value 4)
           else Ret (m, i)
  end.
(** The array [tmp] holds at most 16 digits of a [u64]. *)
Definition str_from_hex (tmp : Z) (m : ram) (buf value : Z) : res ram :=
  if value =? 0 then Ret (st8 (st8 m buf CH0) (buf + 1) 0) else
  '(m, i) ← hex_digits 17 m tmp 0 value;
  let m := upto 0 i (λ j m, st8 m (buf + j) (ld8 m (tmp + (i - 1 - j)))) m in
  Ret (st8 m (buf + i) 0).

(** [IntToString] on its array [temp]; its loop runs at least once. *)
Fixpoint do_digits (n : nat) (m : ram) (temp i value : Z) : res (ram * Z) :=
  match n with
  | O => NoFuel
  | S n =>
      let m := st8 m (temp + i) (Z.rem value 10 + CH0) in
      let value := Z.quot value 10 in
      if 0 <? value then do_digits n m temp (i + 1) value else Ret (m, i + 1)
  end.
Definition IntToString (temp : Z) (m : ram) (value buffer : Z) : res ram :=
  let isNegative := value <? 0 in
  let value := if isNegative then i32 (- value) else value in
  '(m, i) ← do_digits DIGIT_FUEL m temp 0 value;
  let '(m, i) := if isNegative then (st8 m (temp + i) MINUS, i + 1) else (m, i) in
  let m := st8 m (temp + i) 0 in
  let m := upto 0 i (λ j m, st8 m (buffer + j) (ld8 m (temp + (i - j - 1)))) m in
  Ret (st8 m (buffer + i) 0).
End str.

(** ** Strings in memory *)

(** The bytes of [s], none of them 0, stand at [p] and are followed by 0. *)
Fixpoint str_at (m : ram) (p : Z) (s : list Z) : Prop :=
  match s with
  | [] => ld8 m p = 0
  | c :: s => ld8 m p = c ∧ c ≠ 0 ∧ str_at m (p + 1) s
  end.

Lemma str_at_ext m m' s : ∀ p, (∀ x, p ≤ x ≤ p + Z.of_nat (length s) → ld8 m' x = ld8 m x) →
  str_at m p s → str_at m' p s.
Proof.
  induction s as [|c s IH]; intros p Hx; cbn [str_at length] in *; [by rewrite Hx by lia|].
  intros (Hc & Hn & Hs). split_and!; [by rewrite Hx by lia|done|]. apply IH; [|done]. intros x ?. apply Hx. lia.
Qed.

Lemma str_at_byte m s : ∀ p i, str_at m p s → 0 ≤ i < Z.of_nat (length s) → ld8 m (p + i) ≠ 0.
Proof.
  induction s as [|c s IH]; intros p i; cbn [str_at length]; [lia|]. intros (Hc & Hn & Hs) Hi.
  destruct (Z.eq_dec i 0) as [->|]; [rewrite Z.add_0_r; congruence|].
  replace (p + i) with (p + 1 + (i - 1)) by lia. apply IH; [done|lia].
Qed.

Lemma str_at_end m s : ∀ p, str_at m p s → ld8 m (p + Z.of_nat (length s)) = 0.
Proof.
  induction s as [|c s IH]; intros p; cbn [str_at length]; [by rewrite Z.add_0_r|]. intros (_ & _ & Hs).
  rewrite <- (IH _ Hs). f_equal. lia.
Qed.

Lemma str_at_lookup m s : ∀ p i c, str_at m p s → s !! i = Some c → ld8 m (p + Z.of_nat i) = c.
Proof.
  induction s as [|c0 s IH]; intros p [|i] c; cbn [str_at]; try done.
  - intros (Hc & _) [= <-]. by rewrite Z.add_0_r.
  - intros (_ & _ & Hs) Hi. rewrite <- (IH _ _ _ Hs Hi). f_equal. lia.
Qed.

(** A string, from its bytes. *)
Lemma str_at_intro m s : ∀ p, Forall (λ c, c ≠ 0) s →
  (∀ i c, s !! i = Some c → ld8 m (p + Z.of_nat i) = c) → ld8 m (p + Z.of_nat (length s)) = 0 → str_at m p s.
Proof.
  induction s as [|c s IH]; intros p Hs Hi He; cbn [str_at length] in *; [by rewrite <- He, Z.add_0_r|].
  apply Forall_cons in Hs as [Hc Hs]. split_and!; [|done|].
  - rewrite <- (Hi 0%nat c) by done. f_equal. lia.
  - apply IH; [done| |rewrite <- He; f_equal; lia]. intros i d Hd.
    rewrite <- (Hi (S i) d) by done. f_equal. lia.
Qed.


Lemma str_at_poke m p s : Forall (λ c, 0 < c < 256) s → str_at (poke m p (s ++ [0])) p s.
Proof.
  intros Hs. apply str_at_intro.
  - eapply Forall_impl; [exact Hs|]. cbn. lia.
  - intros i c Hc. rewrite (ld8_poke_in _ _ _ _ c); [|by rewrite lookup_app_l by (by eapply lookup_lt_Some)].
    apply u8_small. eapply Forall_lookup in Hs; [|done]. cbn in Hs. lia.
  - rewrite (ld8_poke_in _ _ _ _ 0); [done|]. by rewrite lookup_app_r, Nat.sub_diag by done.
Qed.

Lemma st8_poke_comm bs : ∀ m p a v, a < p ∨ p + Z.of_nat (length bs) ≤ a →
  st8 (poke m p bs) a v = poke (st8 m a v) p bs.
Proof.
  induction bs as [|b bs IH]; intros m p a v Ha; cbn [poke length] in *; [done|].
  rewrite IH by lia. f_equal. unfold st8. rewrite insert_insert_ne; [done|lia].
Qed.

(** ** Searching and copying *)

Lemma scan_spec m s : ∀ fuel p i, str_at m (p + i) s → (length s < fuel)%nat →
  scan fuel m p i = Ret (i + Z.of_nat (length s)).
Proof.
  induction s as [|c s IH]; intros [|fuel] p i Hs Hf; cbn [str_at scan length] in *; try lia.
  - rewrite Hs. cbn. f_equal. lia.
  - destruct Hs as (Hc & Hn & Hs). rewrite Hc. zcase; [done|]. rewrite IH; [f_equal; lia| |lia].
    by replace (p + (i + 1)) with (p + i + 1) by lia.
Qed.

Lemma copy_loop_spec s : ∀ fuel m dest i src j, str_at m (src + j) s → (length s < fuel)%nat →
  (dest + i + Z.of_nat (length s) < src + j ∨ src + j + Z.of_nat (length s) < dest + i) →
  copy_loop fuel m dest i src j = Ret (poke m (dest + i) (s ++ [0])).
Proof.
  induction s as [|c s IH]; intros [|fuel] m dest i src j Hs Hf Hd; cbn [str_at copy_loop length app poke] in *; try lia.
  - by rewrite Hs.
  - destruct Hs as (Hc & Hn & Hs). rewrite Hc. zcase; [done|].
    rewrite IH; [by replace (dest + (i + 1)) with (dest + i + 1) by lia| |lia|lia].
    replace (src + (j + 1)) with (src + j + 1) by lia. eapply str_at_ext; [|exact Hs].
    intros x Hx. rewrite ld8_st8. zcase; [lia|done].
Qed.

Section copies.
Context (fuel : nat).

Lemma str_len_spec m p s : str_at m p s → (length s < fuel)%nat → str_len fuel m p = Ret (Z.of_nat (length s)).
Proof. intros Hs Hf. unfold str_len. rewrite (scan_spec m s); [done| |done]. by rewrite Z.add_0_r. Qed.

Lemma str_append_spec m dest s src t : str_at m dest s → str_at m src t →
  (length s < fuel)%nat → (length t < fuel)%nat →
  (dest + Z.of_nat (length s + length t) < src ∨ src + Z.of_nat (length t) < dest + Z.of_nat (length s)) →
  str_append fuel m dest src = Ret (poke m (dest + Z.of_nat (length s)) (t ++ [0])).
Proof.
  intros Hs Ht Hfs Hft Hd. unfold str_append. rewrite (scan_spec m s) by (rewrite ?Z.add_0_r; done).
  rewrite bind_Ret, Z.add_0_l. apply copy_loop_spec; rewrite ?Z.add_0_r; [done..|lia].
Qed.
End copies.

(** ** Decimal digits *)

(** The digits of [v], at most [n], least significant first. *)
Fixpoint le_digits (n : nat) (v : Z) : list Z :=
  match n with
  | O => []
  | S n => if 0 <? v then (CH0 + v mod 10) :: le_digits n (v / 10) else []
  end.
(** An [int] as it is written; a [u32] likewise. *)
Definition decimal (v : Z) : list Z :=
  if v =? 0 then [CH0] else (if v <? 0 then [MINUS] else []) ++ reverse (le_digits 10 (Z.abs v)).
(** What a list of digits stands for after [r]. *)
Definition dec_value (r : Z) (ds : list Z) : Z := foldl (λ r c, r * 10 + (c - CH0)) r ds.

Lemma le_digits_le n : ∀ v, (length (le_digits n v) ≤ n)%nat.
Proof. induction n as [|n IH]; intros v; cbn [le_digits length]; [lia|]. zcase; cbn [length]; [specialize (IH (v / 10))|]; lia. Qed.

Lemma le_digits_range n : ∀ v, Forall (λ c, 48 ≤ c ≤ 57) (le_digits n v).
Proof.
  induction n as [|n IH]; intros v; cbn [le_digits]; [done|]. zcase; [|done].
  constructor; [|done]. unfold CH0. pose proof (Z.mod_pos_bound v 10). lia.
Qed.

Lemma le_digits_pos n v : 0 < v → (0 < n)%nat → (0 < length (le_digits n v))%nat.
Proof. destruct n; [lia|]. intros Hv _. cbn [le_digits]. zcase; cbn [length]; lia. Qed.

Lemma dec_value_app r ds es : dec_value r (ds ++ es) = dec_value (dec_value r ds) es.
Proof. unfold dec_value. by rewrite foldl_app. Qed.

Lemma dec_value_ge ds : ∀ r, Forall (λ c, 48 ≤ c ≤ 57) ds → 0 ≤ r → r ≤ dec_value r ds.
Proof.
  induction ds as [|c ds IH]; intros r Hd Hr; [done|]. apply Forall_cons in Hd as [Hc Hd].
  cbn [dec_value foldl]. unfold CH0. etransitivity; [|apply IH; [done|]]; lia.
Qed.

Lemma dec_value_digits n : ∀ v, 0 ≤ v < 10 ^ Z.of_nat n → dec_value 0 (reverse (le_digits n v)) = v.
Proof.
  induction n as [|n IH]; intros v Hv; cbn [le_digits].
  { change (10 ^ Z.of_nat 0) with 1 in Hv. cbn. lia. }
  rewrite Nat2Z.inj_succ, Z.pow_succ_r in Hv by lia. zcase; [|cbn; lia].
  rewrite reverse_cons, dec_value_app, IH; [|split; [apply Z.div_pos; lia|apply Z.div_lt_upper_bound; lia]].
  cbn. unfold CH0. pose proof (Z.div_mod v 10). lia.
Qed.

Lemma div10_bound n v : 0 ≤ v < 10 ^ Z.of_nat (S n) → 0 ≤ v / 10 < 10 ^ Z.of_nat n.
Proof.
  rewrite Nat2Z.inj_succ, Z.pow_succ_r by lia. intros Hv.
  split; [apply Z.div_pos; lia|apply Z.div_lt_upper_bound; lia].
Qed.

Lemma le_digits_enough n : ∀ k v, 0 ≤ v < 10 ^ Z.of_nat n → (n ≤ k)%nat → le_digits k v = le_digits n v.
Proof.
  induction n as [|n IH]; intros [|k] v Hv Hk; cbn [le_digits]; try done; [|lia|].
  - change (10 ^ Z.of_nat 0) with 1 in Hv. zcase; [lia|done].
  - zcase; [|done]. f_equal. apply IH; [|lia].
    by apply div10_bound.
Qed.

(** ** The digit loops *)

Lemma from_int_loop_spec n : ∀ m buf i v, 0 ≤ v < 10 ^ Z.of_nat n →
  from_int_loop (S n) m buf i v =
    Ret (poke m (buf + i) (le_digits n v), i + Z.of_nat (length (le_digits n v))).
Proof.
  induction n as [|n IH]; intros m buf i v Hv.
  { change (10 ^ Z.of_nat 0) with 1 in Hv. assert (v = 0) as -> by lia. cbn. do 2 f_equal. lia. }
  pose proof (div10_bound n v Hv). cbn [le_digits].
  change (from_int_loop (S (S n)) m buf i v) with
    (if 0 <? v then from_int_loop (S n) (st8 m (buf + i) (CH0 + v mod 10)) buf (i + 1) (v / 10) else Ret (m, i)).
  zcase; [|cbn; do 2 f_equal; lia]. rewrite IH by lia. cbn [poke length].
  replace (buf + (i + 1)) with (buf + i + 1) by lia. do 2 f_equal. lia.
Qed.

Lemma do_digits_spec n : ∀ m temp i v, 0 < v < 10 ^ Z.of_nat n →
  do_digits n m temp i v =
    Ret (poke m (temp + i) (le_digits n v), i + Z.of_nat (length (le_digits n v))).
Proof.
  induction n as [|n IH]; intros m temp i v Hv.
  { change (10 ^ Z.of_nat 0) with 1 in Hv. lia. }
  pose proof (div10_bound n v ltac:(lia)). cbn [do_digits le_digits]. rewrite Z.rem_mod_nonneg, Z.quot_div_nonneg by lia.
  rewrite (Z.add_comm (v mod 10)). destruct (Z.ltb_spec 0 v); [|lia]. zcase.
  - rewrite IH by lia. cbn [poke length]. replace (temp + (i + 1)) with (temp + i + 1) by lia. do 2 f_equal. lia.
  - assert (v / 10 = 0) as -> by lia. destruct n; cbn; do 2 f_equal; lia.
Qed.

Lemma count_digits_spec n : ∀ v d, 0 ≤ v < 10 ^ Z.of_nat n →
  count_digits (S n) v d = Ret (d + Z.of_nat (length (le_digits n v))).
Proof.
  induction n as [|n IH]; intros v d Hv.
  { change (10 ^ Z.of_nat 0) with 1 in Hv. assert (v = 0) as -> by lia. cbn. f_equal. lia. }
  pose proof (div10_bound n v Hv). cbn [le_digits].
  change (count_digits (S (S n)) v d) with (if 0 <? v then count_digits (S n) (v / 10) (d + 1) else Ret d).
  zcase; [|cbn; f_equal; lia]. rewrite IH by lia. cbn [length]. f_equal. lia.
Qed.

Lemma fill_digits_spec n : ∀ m buf i v, 0 ≤ v < 10 ^ Z.of_nat n →
  fill_digits (S n) m buf i v =
    Ret (poke m (buf + (i - Z.of_nat (length (le_digits n v)))) (reverse (le_digits n v))).
Proof.
  induction n as [|n IH]; intros m buf i v Hv.
  { change (10 ^ Z.of_nat 0) with 1 in Hv. assert (v = 0) as -> by lia. done. }
  pose proof (div10_bound n v Hv). cbn [le_digits].
  change (fill_digits (S (S n)) m buf i v) with
    (if 0 <? v then fill_digits (S n) (st8 m (buf + (i - 1)) (CH0 + v mod 10)) buf (i - 1) (v / 10) else Ret m).
  zcase; [|done]. rewrite IH by lia. cbn [length]. rewrite reverse_cons, poke_app. f_equal.
  rewrite length_reverse. cbn [poke]. rewrite <- st8_poke_comm by (rewrite length_reverse; lia).
  f_equal; [f_equal|]; lia.
Qed.

Lemma parse_loop_spec fuel m : ∀ ds p r, str_at m p ds → Forall (λ c, 48 ≤ c ≤ 57) ds → 0 ≤ r →
  dec_value r ds < 2 ^ 31 → (length ds < fuel)%nat → parse_loop fuel m p r = Ret (dec_value r ds).
Proof.
  induction fuel as [|fuel IH]; intros [|c ds] p r Hs Hd Hr Hb Hf; cbn [str_at parse_loop length] in *; try lia.
  - by rewrite Hs.
  - destruct Hs as (Hc & _ & Hs). apply Forall_cons in Hd as [Hd Hds]. rewrite Hc. unfold is_digit.
    destruct (Z.leb_spec 48 c), (Z.leb_spec c 57); try lia. cbn [andb].
    cbn [dec_value foldl] in Hb |- *. pose proof (dec_value_ge ds (r * 10 + (c - CH0)) Hds) as Hge.
    unfold dec_value, CH0 in *. rewrite i32_small by lia. apply IH; try done; lia.
Qed.

(** ** Reversal *)

Lemma reverse_at m m' src dst s : str_at m src s →
  (∀ i, 0 ≤ i < Z.of_nat (length s) → ld8 m' (dst + i) = ld8 m (src + (Z.of_nat (length s) - 1 - i))) →
  ld8 m' (dst + Z.of_nat (length s)) = 0 → str_at m' dst (reverse s).
Proof.
  intros Hs Hi He. apply str_at_intro.
  - apply Forall_reverse. apply Forall_lookup. intros i c Hc. rewrite <- (str_at_lookup _ _ _ _ _ Hs Hc).
    apply str_at_byte with (s := s); [done|]. apply lookup_lt_Some in Hc. lia.
  - intros i c Hc. pose proof (lookup_lt_Some _ _ _ Hc) as Hlt. rewrite length_reverse in Hlt.
    rewrite Hi by lia. apply reverse_lookup_Some in Hc as [Hc _].
    rewrite <- (str_at_lookup _ _ _ _ _ Hs Hc). do 2 f_equal. lia.
  - by rewrite length_reverse.
Qed.

Lemma st8_copy m a b x : ld8 (st8 m a (ld8 m b)) x = if x =? a then ld8 m b else ld8 m x.
Proof. rewrite ld8_st8. zcase; [|done]. apply u8_small. apply ld8_range. Qed.

Lemma copy_back_spec n m src dst x : 0 ≤ n → src + n ≤ dst ∨ dst + n ≤ src →
  ld8 (upto 0 n (λ j m, st8 m (dst + j) (ld8 m (src + (n - j - 1)))) m) x =
    if (dst <=? x) && (x <? dst + n) then ld8 m (src + (n - 1 - (x - dst))) else ld8 m x.
Proof.
  intros Hn Hd. pose (P := λ j m', ∀ x, ld8 m' x =
    if (dst <=? x) && (x <? dst + j) then ld8 m (src + (n - 1 - (x - dst))) else ld8 m x).
  enough (Hp : P n (upto 0 n (λ j m, st8 m (dst + j) (ld8 m (src + (n - j - 1)))) m)) by apply Hp.
  clear x. apply upto_ind; [done| |]; unfold P; clear P.
  - intros x. destruct (Z.leb_spec dst x), (Z.ltb_spec x (dst + 0)); cbn; (done || lia).
  - intros j y Hj Hy x. rewrite st8_copy, !Hy.
    destruct (Z.eqb_spec x (dst + j)) as [->|Hx].
    + destruct (Z.leb_spec dst (src + (n - j - 1))), (Z.ltb_spec (src + (n - j - 1)) (dst + j)),
        (Z.leb_spec dst (dst + j)), (Z.ltb_spec (dst + j) (dst + (j + 1))); cbn; try lia; f_equal; lia.
    + destruct (Z.leb_spec dst x), (Z.ltb_spec x (dst + j)), (Z.ltb_spec x (dst + (j + 1))); cbn; (done || lia).
Qed.

Lemma swap_bytes_spec m a b x : a ≠ b →
  ld8 (swap_bytes m a b) x = if x =? a then ld8 m b else if x =? b then ld8 m a else ld8 m x.
Proof.
  intros Hab. unfold swap_bytes. rewrite !ld8_st8. pose proof (ld8_range m a). pose proof (ld8_range m b).
  repeat zcase; subst; try done; try (by apply u8_small).
Qed.

(** Byte [x] of a buffer of [n] after its first [i] pairs were swapped. *)
Definition mirror (n i x : Z) : Z :=
  if ((0 <=? x) && (x <? i)) || ((n - i <=? x) && (x <? n)) then n - 1 - x else x.

Lemma reverse_loop_spec n m p : 0 ≤ n →
  ∀ x, ld8 (upto 0 (n / 2) (λ i m, swap_bytes m (p + i) (p + (n - 1 - i))) m) (p + x) = ld8 m (p + mirror n (n / 2) x).
Proof.
  intros Hn. apply (upto_ind (λ i m', ∀ x, ld8 m' (p + x) = ld8 m (p + mirror n i x))).
  - apply Z.div_pos; lia.
  - intros x. do 2 f_equal. unfold mirror.
    destruct (Z.leb_spec 0 x), (Z.ltb_spec x 0), (Z.leb_spec (n - 0) x), (Z.ltb_spec x n); cbn; lia.
  - intros i y Hi Hy x. pose proof (Z.mul_div_le n 2 ltac:(lia)). rewrite swap_bytes_spec by lia. rewrite !Hy.
    destruct (Z.eqb_spec (p + x) (p + i)); [|destruct (Z.eqb_spec (p + x) (p + (n - 1 - i)))].
    all: do 2 f_equal; unfold mirror.
    all: repeat match goal with |- context [?a <=? ?b] => destruct (Z.leb_spec a b) | |- context [?a <? ?b] => destruct (Z.ltb_spec a b) end;
      cbn; lia.
Qed.

Lemma str_reverse_spec fuel m p s : p ≠ 0 → str_at m p s → (length s < fuel)%nat →
  returns (str_reverse fuel m p) (λ m', str_at m' p (reverse s) ∧
    ∀ x, x < p ∨ p + Z.of_nat (length s) ≤ x → ld8 m' x = ld8 m x).
Proof.
  intros Hp Hs Hf. unfold str_reverse. destruct (Z.eqb_spec p 0) as [|_]; [done|]. rewrite (str_len_spec fuel m p s) by done. rewrite bind_Ret.
  cbn [returns]. set (n := Z.of_nat (length s)). assert (Hn : 0 ≤ n) by lia.
  pose proof (reverse_loop_spec n m p Hn) as Hl. pose proof (Z.div_mod n 2 ltac:(lia)). pose proof (Z.mod_pos_bound n 2 ltac:(lia)).
  set (m' := upto _ _ _ _) in *. clearbody m'.
  assert (Ho : ∀ x, x < 0 ∨ n ≤ x → mirror n (n / 2) x = x).
  { intros x Hx. unfold mirror. destruct (Z.leb_spec 0 x), (Z.ltb_spec x (n / 2)), (Z.leb_spec (n - n / 2) x), (Z.ltb_spec x n); cbn; lia. }
  split.
  - apply reverse_at with (m := m) (src := p); [done| |].
    + intros i Hi. rewrite Hl. do 2 f_equal. unfold mirror. fold n.
      destruct (Z.leb_spec 0 i), (Z.ltb_spec i (n / 2)), (Z.leb_spec (n - n / 2) i), (Z.ltb_spec i n); cbn; lia.
    + fold n. rewrite Hl, Ho by lia. by apply str_at_end.
  - intros x Hx. replace x with (p + (x - p)) by lia. rewrite Hl, Ho by lia. done.
Qed.

(** ** Integers as text *)

(** The digits of [v] as the two printers store them, last digit first, then the
    sign. *)
Definition backwards (v : Z) : list Z :=
  if v =? 0 then [CH0] else le_digits 10 (Z.abs v) ++ (if v <? 0 then [MINUS] else []).

Lemma reverse_backwards v : reverse (backwards v) = decimal v.
Proof. unfold backwards, decimal. repeat zcase; rewrite ?reverse_app; cbn; rewrite ?app_nil_r; done. Qed.

Lemma length_backwards v : 0 < Z.of_nat (length (backwards v)) ≤ 11.
Proof.
  unfold backwards. zcase; [cbn; lia|]. pose proof (le_digits_le 10 (Z.abs v)).
  pose proof (le_digits_pos 10 (Z.abs v) ltac:(lia) ltac:(lia)).
  rewrite length_app. zcase; cbn [length]; lia.
Qed.

Lemma backwards_bytes v : Forall (λ c, 0 < c < 256) (backwards v).
Proof.
  unfold backwards. zcase; [constructor; [unfold CH0; lia|done]|]. apply Forall_app. split.
  - eapply Forall_impl; [apply le_digits_range|]. cbn. lia.
  - zcase; [constructor; [unfold MINUS; lia|done]|done].
Qed.

Lemma length_decimal v : 0 < Z.of_nat (length (decimal v)) ≤ 11.
Proof. rewrite <- reverse_backwards, length_reverse. apply length_backwards. Qed.

Section integers.
Context (fuel : nat).

(** The loop that both printers run leaves [backwards v] in its buffer. *)
Lemma sign_step m buf v ds (E : ds = le_digits 10 (Z.abs v)) : v ≠ 0 →
  (if v <? 0 then (st8 (poke m buf ds) (buf + Z.of_nat (length ds)) MINUS, Z.of_nat (length ds) + 1)
   else (poke m buf ds, Z.of_nat (length ds))) = (poke m buf (backwards v), Z.of_nat (length (backwards v))).
Proof.
  intros Hv. unfold backwards. destruct (Z.eqb_spec v 0); [lia|]. rewrite <- E. zcase.
  - rewrite poke_app, length_app. cbn [poke length]. f_equal. lia.
  - by rewrite app_nil_r.
Qed.

Lemma str_from_int_spec m buf v : buf ≠ 0 → - 2 ^ 31 < v < 2 ^ 31 → (11 < fuel)%nat →
  returns (str_from_int fuel m buf v) (λ m', str_at m' buf (decimal v) ∧
    ∀ x, x < buf ∨ buf + 12 ≤ x → ld8 m' x = ld8 m x).
Proof.
  intros Hb Hv Hf. unfold str_from_int. destruct (Z.eqb_spec buf 0) as [|_]; [done|].
  destruct (Z.eqb_spec v 0) as [->|Hv0].
  { split; [|intros x Hx; rewrite !ld8_st8; repeat zcase; (done || lia)].
    apply (str_at_poke m buf [CH0]). constructor; [unfold CH0; lia|done]. }
  assert (Ev : (if v <? 0 then i32 (- v) else v) = Z.abs v) by (zcase; [rewrite i32_small|]; lia).
  rewrite Ev. change DIGIT_FUEL with 11%nat. rewrite (from_int_loop_spec 10) by lia. rewrite bind_Ret, Z.add_0_r, Z.add_0_l.
  rewrite (sign_step m buf v _ eq_refl) by done.
  set (s := backwards v). pose proof (length_backwards v) as Hl. fold s in Hl.
  pose proof (str_at_poke m buf s (backwards_bytes v)) as Hs. rewrite poke_app in Hs. cbn [poke] in Hs.
  eapply returns_mono; [apply (str_reverse_spec fuel _ buf s Hb Hs); lia|].
  intros m' [Hm' Ho]. rewrite <- reverse_backwards. split; [done|].
  intros x Hx. rewrite Ho, ld8_st8, ld8_poke_out by lia. zcase; [lia|done].
Qed.

Lemma do_digits_backwards temp m v : - 2 ^ 31 < v < 2 ^ 31 → ∃ m1 i,
  do_digits DIGIT_FUEL m temp 0 (if v <? 0 then i32 (- v) else v) = Ret (m1, i) ∧
  (if v <? 0 then (st8 m1 (temp + i) MINUS, i + 1) else (m1, i)) =
    (poke m temp (backwards v), Z.of_nat (length (backwards v))).
Proof.
  intros Hv. assert (Ev : (if v <? 0 then i32 (- v) else v) = Z.abs v) by (zcase; [rewrite i32_small|]; lia).
  rewrite Ev. destruct (Z.eqb_spec v 0) as [->|Hv0].
  { do 2 eexists. split; [reflexivity|]. cbn. by rewrite Z.add_0_r. }
  rewrite (do_digits_spec DIGIT_FUEL) by (change (10 ^ Z.of_nat DIGIT_FUEL) with 100000000000; lia).
  rewrite Z.add_0_r, Z.add_0_l.
  assert (E10 : le_digits DIGIT_FUEL (Z.abs v) = le_digits 10 (Z.abs v)) by (apply le_digits_enough; [change (10 ^ Z.of_nat 10) with 10000000000|unfold DIGIT_FUEL]; lia).
  rewrite E10. do 2 eexists. split; [reflexivity|]. by apply sign_step.
Qed.

Lemma IntToString_spec temp m v buf : - 2 ^ 31 < v < 2 ^ 31 → buf + 12 ≤ temp ∨ temp + 12 ≤ buf →
  returns (IntToString temp m v buf) (λ m', str_at m' buf (decimal v) ∧
    ∀ x, x < buf ∨ buf + 12 ≤ x → x < temp ∨ temp + 12 ≤ x → ld8 m' x = ld8 m x).
Proof.
  intros Hv Hd. unfold IntToString. destruct (do_digits_backwards temp m v Hv) as (m1 & i1 & -> & Hl). rewrite bind_Ret, Hl.
  set (s := backwards v). pose proof (length_backwards v) as Hlen. fold s in Hlen.
  pose proof (str_at_poke m temp s (backwards_bytes v)) as Hs. rewrite poke_app in Hs. cbn [poke] in Hs.
  cbn [returns]. set (m2 := st8 _ _ 0) in *. split.
  - rewrite <- reverse_backwards. fold s. apply reverse_at with (m := m2) (src := temp); [done| |].
    + intros i Hi. rewrite ld8_st8, copy_back_spec by lia.
      destruct (Z.eqb_spec (buf + i) (buf + Z.of_nat (length s))), (Z.leb_spec buf (buf + i)),
        (Z.ltb_spec (buf + i) (buf + Z.of_nat (length s))); cbn [andb]; try lia. do 2 f_equal. lia.
    + by rewrite ld8_st8, Z.eqb_refl.
  - intros x Hx Ht. rewrite ld8_st8, copy_back_spec by lia.
    destruct (Z.eqb_spec x (buf + Z.of_nat (length s))), (Z.leb_spec buf x), (Z.ltb_spec x (buf + Z.of_nat (length s)));
      cbn [andb]; try lia; unfold m2; rewrite ld8_st8, ld8_poke_out by lia.
    all: destruct (Z.eqb_spec x (temp + Z.of_nat (length s))); (done || lia).
Qed.

(** A run of digits after any sign. *)
Lemma str_to_int_digits m p ds : p ≠ 0 → ds ≠ [] → Forall (λ c, 48 ≤ c ≤ 57) ds → dec_value 0 ds < 2 ^ 31 →
  (length ds < fuel)%nat → str_at m p ds → str_to_int fuel m p = Ret (dec_value 0 ds).
Proof.
  intros Hp Hne Hr Hb Hf Hs. unfold str_to_int. destruct (Z.eqb_spec p 0) as [|_]; [done|].
  destruct fuel as [|f]; [lia|]. pose proof (dec_value_ge ds 0 Hr ltac:(lia)). destruct ds as [|c ds]; [done|].
  assert (Hc : ld8 m p = c) by apply Hs. assert (Hc' : 48 ≤ c ≤ 57) by (by apply Forall_cons in Hr as [? _]).
  cbn [skip_blanks]. rewrite Hc. unfold SPACE, TAB, MINUS, PLUS.
  destruct (Z.eqb_spec c 32), (Z.eqb_spec c 9); try lia. cbn [orb]. rewrite bind_Ret, Hc.
  destruct (Z.eqb_spec c 45), (Z.eqb_spec c 43); try lia.
  rewrite (parse_loop_spec (S f) m (c :: ds)) by done. rewrite bind_Ret, i32_small by lia. f_equal. lia.
Qed.

Lemma str_to_int_minus m p ds : p ≠ 0 → Forall (λ c, 48 ≤ c ≤ 57) ds → dec_value 0 ds < 2 ^ 31 →
  (length ds < fuel)%nat → str_at m p (MINUS :: ds) → str_to_int fuel m p = Ret (- dec_value 0 ds).
Proof.
  intros Hp Hr Hb Hf (Hc & _ & Hs). unfold str_to_int. destruct (Z.eqb_spec p 0) as [|_]; [done|].
  destruct fuel as [|f]; [lia|]. pose proof (dec_value_ge ds 0 Hr ltac:(lia)).
  cbn [skip_blanks]. rewrite Hc. cbn [Z.eqb MINUS SPACE TAB Pos.eqb orb]. rewrite bind_Ret, Hc, Z.eqb_refl.
  rewrite (parse_loop_spec (S f) m ds) by done. rewrite bind_Ret, i32_small by lia. f_equal. lia.
Qed.

Lemma str_to_int_spec m p v : p ≠ 0 → - 2 ^ 31 < v < 2 ^ 31 → (11 < fuel)%nat → str_at m p (decimal v) →
  str_to_int fuel m p = Ret v.
Proof.
  intros Hp Hv Hf Hs. pose proof (length_decimal v) as Hlen.
  assert (Hd : dec_value 0 (reverse (le_digits 10 (Z.abs v))) = Z.abs v) by (apply dec_value_digits; lia).
  assert (Hr : Forall (λ c, 48 ≤ c ≤ 57) (reverse (le_digits 10 (Z.abs v)))) by (apply Forall_reverse, le_digits_range).
  unfold decimal in *. destruct (Z.eqb_spec v 0) as [->|Hv0].
  { rewrite (str_to_int_digits m p [CH0]); cbn [length]; try done; try lia. constructor; [unfold CH0; lia|done]. }
  destruct (Z.ltb_spec v 0) as [Hneg|Hpos]; cbn [app length] in *.
  - rewrite (str_to_int_minus m p (reverse (le_digits 10 (Z.abs v)))) by (done || lia). f_equal. lia.
  - rewrite (str_to_int_digits m p (reverse (le_digits 10 (Z.abs v)))) by (done || lia || (intros E; rewrite E in Hlen; cbn in Hlen; lia)).
    f_equal. lia.
Qed.
End integers.

(** ** Appending *)

Lemma str_at_app m m' s t p : str_at m p s → (∀ x, p ≤ x < p + Z.of_nat (length s) → ld8 m' x = ld8 m x) →
  str_at m' (p + Z.of_nat (length s)) t → str_at m' p (s ++ t).
Proof.
  revert p. induction s as [|c s IH]; intros p; cbn [str_at app length]; [by rewrite Z.add_0_r|].
  intros (Hc & Hn & Hs) Hx Ht. split_and!; [by rewrite Hx by lia|done|]. apply IH; [done| |].
  - intros x ?. apply Hx. lia.
  - by replace (p + 1 + Z.of_nat (length s)) with (p + Z.of_nat (S (length s))) by lia.
Qed.

Section appending.
Context (fuel : nat).

(** The digits of a [u32] in the array of [str_append_uint], with the terminator. *)
Lemma uint_digits m buf num : 0 ≤ num < 2 ^ 32 →
  ('(m, i) ← (if num =? 0 then Ret (st8 m buf CH0, 1) else
     digits ← count_digits DIGIT_FUEL num 0; m ← fill_digits DIGIT_FUEL m buf digits num; Ret (m, digits));
   Ret (st8 m (buf + i) 0)) = Ret (poke m buf (decimal num ++ [0])).
Proof.
  intros Hn. unfold decimal. destruct (Z.eqb_spec num 0) as [->|H0]; [done|].
  change DIGIT_FUEL with 11%nat. rewrite (count_digits_spec 10) by lia. rewrite bind_Ret, Z.add_0_l.
  rewrite (fill_digits_spec 10), Z.sub_diag, Z.add_0_r, !bind_Ret by lia.
  destruct (Z.ltb_spec num 0); [lia|]. rewrite Z.abs_eq, poke_app, app_nil_l, length_reverse by lia. done.
Qed.

(** [str_append_uint] appends the decimal digits of any [u32] to a string, and
    a terminator; it writes nothing but these at most 11 bytes after the string
    and its own array. *)
Theorem str_append_uint_spec m dest s num buf :
  0 ≤ num < 2 ^ 32 → str_at m dest s → (length s < fuel)%nat → (11 < fuel)%nat →
  buf + 20 ≤ dest ∨ dest + Z.of_nat (length s) + 12 ≤ buf →
  returns (str_append_uint fuel buf m dest num) (λ m', str_at m' dest (s ++ decimal num) ∧
    ∀ x, x < dest + Z.of_nat (length s) ∨ dest + Z.of_nat (length s) + 12 ≤ x → x < buf ∨ buf + 20 ≤ x →
      ld8 m' x = ld8 m x).
Proof.
  intros Hn Hs Hf Hf' Hd. pose proof (uint_digits m buf num Hn) as Hu. pose proof (length_decimal num) as Hl.
  assert (Hb : Forall (λ c, 0 < c < 256) (decimal num)) by (rewrite <- reverse_backwards; apply Forall_reverse, backwards_bytes).
  unfold str_append_uint. apply bind_ret_inv in Hu as ([m1 i] & -> & Hu). injection Hu as Hu. rewrite bind_Ret, Hu.
  set (m2 := poke m buf _). assert (Ho : ∀ x, x < buf ∨ buf + 20 ≤ x → ld8 m2 x = ld8 m x).
  { intros x Hx. unfold m2. apply ld8_poke_out. rewrite length_app. cbn [length]. lia. }
  assert (Hs2 : str_at m2 dest s) by (eapply str_at_ext; [|exact Hs]; intros x Hx; apply Ho; lia).
  rewrite (str_append_spec fuel m2 dest s buf (decimal num)) by (done || apply str_at_poke, Hb || lia).
  cbn [returns]. split.
  - eapply str_at_app; [exact Hs2| |by apply str_at_poke]. intros x Hx. apply ld8_poke_out. lia.
  - intros x Hx Hxb. rewrite ld8_poke_out by (rewrite length_app; cbn [length]; lia). by apply Ho.
Qed.

(** Integers survive the way through text.  [str_from_int] and [IntToString]
    write the same text, the decimal notation of any [int] but the smallest, and
    nothing but its at most 12 bytes (and the array of [IntToString]); and
    [str_to_int] reads the same integer back from it. *)
Theorem int_string_roundtrip m buf temp v :
  - 2 ^ 31 < v < 2 ^ 31 → buf ≠ 0 → (11 < fuel)%nat → buf + 12 ≤ temp ∨ temp + 12 ≤ buf →
  returns (str_from_int fuel m buf v) (λ m', str_at m' buf (decimal v) ∧ str_to_int fuel m' buf = Ret v ∧
    ∀ x, x < buf ∨ buf + 12 ≤ x → ld8 m' x = ld8 m x) ∧
  returns (IntToString temp m v buf) (λ m', str_at m' buf (decimal v) ∧ str_to_int fuel m' buf = Ret v ∧
    ∀ x, x < buf ∨ buf + 12 ≤ x → x < temp ∨ temp + 12 ≤ x → ld8 m' x = ld8 m x).
Proof.
  intros Hv Hb Hf Hd. split.
  - eapply returns_mono; [by apply str_from_int_spec|]. cbn. intros m' [Hs Ho].
    split_and!; [done|by apply str_to_int_spec|done].
  - eapply returns_mono; [by apply IntToString_spec|]. cbn. intros m' [Hs Ho].
    split_and!; [done|by apply str_to_int_spec|done].
Qed.
End appending.

(** "-42" at 0x100. *)
Lemma int_string_witness : returns (str_from_int 20 ∅ 0x100 (-42)) (λ m', str_to_int 20 m' 0x100 = Ret (-42)).
Proof.
  destruct (int_string_roundtrip 20 ∅ 0x100 0x200 (-42)) as [Hr _]; [lia..|].
  eapply returns_mono; [exact Hr|]. intros m' (_ & Hv & _). exact Hv.
Defined.

(** "fd" followed by 7. *)
Lemma str_append_uint_witness : let m := poke ∅ 0x100 [102; 100; 0] in
  str_at m 0x100 [102; 100] ∧ returns (str_append_uint 20 0x200 m 0x100 7) (λ m', str_at m' 0x100 ([102; 100] ++ decimal 7)).
Proof.
  intros m. assert (Hm : str_at m 0x100 [102; 100]) by vdone. clearbody m. split; [exact Hm|].
  eapply returns_mono; [apply (str_append_uint_spec 20 m 0x100 [102; 100] 7 0x200 ltac:(lia) Hm); cbn [length]; lia|].
  intros m' [Hs _]. exact Hs.
Defined.

(** The array of [IntToString] holds 11 bytes: the terminator of a negative
    number of ten digits is stored behind it. *)
Example IntToString_overflow :
  returns (IntToString 0x200 (st8 ∅ (0x200 + 11) 7) (-2147483647) 0x100) (λ m', ld8 m' (0x200 + 11) = 0).
Proof. vm_compute. reflexivity. Qed.

(** The smallest [int] is its own negation: no digit is written. *)
Example str_from_int_min :
  returns (str_from_int 20 ∅ 0x100 (- 2 ^ 31)) (λ m', str_at m' 0x100 [MINUS]).
Proof. vm_compute. repeat split. discriminate. Qed.
