(* ===== verification/DList.v ===== *)
(** Intrusive doubly linked lists, as the kernel heap ([kheap_block_t]) and
    the virtual memory manager ([vmm_region_t]) keep them: nodes live at
    addresses of a store and carry [prev] and [next] addresses, 0 is [NULL].
    The lemmas here say what relinking does to the list a chain represents. *)
From S2P Require Import Prelude.

(** A node type with its links and its payload. *)
Class Linked (N D : Type) := {
  nd_next : N → Z;
  nd_prev : N → Z;
  nd_data : N → D;
  nd_set_prev : N → Z → N;
  nd_next_set_prev n p : nd_next (nd_set_prev n p) = nd_next n;
  nd_prev_set_prev n p : nd_prev (nd_set_prev n p) = p;
  nd_data_set_prev n p : nd_data (nd_set_prev n p) = nd_data n;
}.

Section dlist.
Context {N D : Type} `{Linked N D}.
Implicit Types (m : gmap Z N) (xs ys : list (Z * D)).

(** [dseg m pr p xs la nx]: from [p] on the store holds the nodes [xs]; the
    [prev] link of the first is [pr], the [next] link of the last is [nx] and
    its address is [la]. *)
Fixpoint dseg m (pr p : Z) xs (la nx : Z) : Prop :=
  match xs with
  | [] => la = pr ∧ nx = p
  | (a, d) :: xs =>
      p = a ∧ a ≠ 0 ∧
      ∃ n, m !! a = Some n ∧ nd_data n = d ∧ nd_prev n = pr ∧ dseg m a (nd_next n) xs la nx
  end.

(** A whole chain, ended by [NULL]. *)
Definition dlist m (pr p : Z) xs : Prop := ∃ la, dseg m pr p xs la 0.

Lemma dseg_app m pr p xs ys la nx :
  dseg m pr p (xs ++ ys) la nx ↔
  ∃ la' nx', dseg m pr p xs la' nx' ∧ dseg m la' nx' ys la nx.
Proof.
  revert pr p. induction xs as [|[a d] xs IH]; intros pr p; simpl.
  { split; [intros; by exists pr, p|by intros (? & ? & [-> ->] & ?)]. }
  split.
  - intros (-> & Ha & n & Hn & Hd & Hp & Hs). apply IH in Hs as (la' & nx' & ? & ?).
    exists la', nx'. eauto 10.
  - intros (la' & nx' & (-> & Ha & n & Hn & Hd & Hp & Hs) & ?).
    split_and!; [done..|]. exists n. split_and!; [done..|]. apply IH. eauto.
Qed.

(** The chain up to a node, the node, and the chain after it. *)
Lemma dlist_mid m pr p xs a d ys :
  dlist m pr p (xs ++ (a, d) :: ys) ↔
  ∃ n, a ≠ 0 ∧ m !! a = Some n ∧ nd_data n = d ∧
       dseg m pr p xs (nd_prev n) a ∧ dlist m a (nd_next n) ys.
Proof.
  unfold dlist. split.
  - intros (la & (la' & nx' & Hx & Hy)%dseg_app).
    destruct Hy as (-> & Ha & n & Hn & Hd & Hp & Hs).
    exists n. rewrite Hp. eauto 10.
  - intros (n & Ha & Hn & Hd & Hx & la & Hy). exists la. apply dseg_app.
    exists (nd_prev n), a. split; [done|]. simpl. eauto 10.
Qed.

(** Only the nodes of the segment matter. *)
Lemma dseg_frame m m' pr p xs la nx :
  (∀ a, a ∈ xs.*1 → m' !! a = m !! a) → dseg m pr p xs la nx → dseg m' pr p xs la nx.
Proof.
  revert pr p. induction xs as [|[a d] xs IH]; intros pr p Hm; simpl; [done|].
  intros (-> & Ha & n & Hn & Hd & Hp & Hs). split_and!; [done..|].
  exists n. rewrite Hm by (simpl; set_solver). split_and!; [done..|].
  apply IH; [|done]. intros b Hb. apply Hm. simpl. set_solver.
Qed.

Lemma dlist_frame m m' pr p xs :
  (∀ a, a ∈ xs.*1 → m' !! a = m !! a) → dlist m pr p xs → dlist m' pr p xs.
Proof. intros Hm [la Hs]. exists la. eauto using dseg_frame. Qed.

Lemma dseg_lookup m pr p xs la nx a :
  dseg m pr p xs la nx → a ∈ xs.*1 → a ≠ 0 ∧ is_Some (m !! a).
Proof.
  revert pr p. induction xs as [|[b d] xs IH]; intros pr p; simpl; [set_solver|].
  intros (-> & Hb & n & Hn & _ & _ & Hs) [->|Ha]%elem_of_cons; [by eauto|eauto].
Qed.

Lemma dlist_lookup m pr p xs a :
  dlist m pr p xs → a ∈ xs.*1 → a ≠ 0 ∧ is_Some (m !! a).
Proof. intros [la Hs]. eauto using dseg_lookup. Qed.

(** Nodes of a chain are found in the store, so the store's size bounds the
    number of steps a walk takes. *)
Lemma dlist_length m pr p xs :
  NoDup xs.*1 → dlist m pr p xs → (length xs ≤ size m)%nat.
Proof.
  intros Hnd Hl. rewrite <- (length_fmap fst xs).
  rewrite <- (size_list_to_set (C := gset Z) _ Hnd). rewrite <- size_dom.
  apply subseteq_size. intros a Ha%elem_of_list_to_set.
  apply elem_of_dom. by eapply dlist_lookup.
Qed.

Lemma dlist_nil m pr p : dlist m pr p [] ↔ p = 0.
Proof. split; [by intros [la [_ ?]]|intros ->; by exists pr]. Qed.

Lemma dlist_null m pr xs : dlist m pr 0 xs → xs = [].
Proof.
  intros Hl. destruct xs as [|[a d] xs]; [done|].
  destruct Hl as (la & Ha & ? & _). done.
Qed.

Lemma dlist_cons m pr p a d xs :
  dlist m pr p ((a, d) :: xs) ↔
  p = a ∧ a ≠ 0 ∧ ∃ n, m !! a = Some n ∧ nd_data n = d ∧ nd_prev n = pr ∧
    dlist m a (nd_next n) xs.
Proof.
  split; [intros (la & -> & Ha & n & ?)|intros (-> & Ha & n & ? & ? & ? & la & ?)].
  - split_and!; [done..|]. exists n. unfold dlist. naive_solver.
  - exists la. simpl. eauto 10.
Qed.

(** [if (x) x->prev = q;] *)
Definition relink_prev m (x q : Z) : res (gmap Z N) :=
  if x =? 0 then Ret m else
  n ← deref (m !! x); Ret (<[x := nd_set_prev n q]> m).

(** Giving a chain a new predecessor. *)
Lemma relink_prev_spec m pr p xs q :
  dlist m pr p xs → NoDup xs.*1 →
  ∃ m', relink_prev m p q = Ret m' ∧ dlist m' q p xs ∧ dom m' = dom m ∧
    ∀ a, a ≠ p → m' !! a = m !! a.
Proof.
  intros Hl Hnd. unfold relink_prev. destruct xs as [|[a d] xs].
  { apply dlist_nil in Hl as ->. exists m. rewrite dlist_nil. done. }
  apply dlist_cons in Hl as (-> & Ha & n & Hn & Hd & Hp & Hs).
  apply NoDup_cons in Hnd as [Hni _].
  destruct (Z.eqb_spec a 0); [done|]. rewrite Hn. cbn.
  eexists; split_and!; [done|..].
  - apply dlist_cons. split_and!; [done..|]. eexists.
    rewrite lookup_insert_eq. split_and!; [done|..].
    + by rewrite nd_data_set_prev.
    + apply nd_prev_set_prev.
    + rewrite nd_next_set_prev. eapply dlist_frame; [|done].
      intros b Hb. apply lookup_insert_ne. set_solver.
  - apply dom_insert_lookup_L. eauto.
  - intros b Hb. by apply lookup_insert_ne.
Qed.

(** Two segments joined, and taken apart. *)
Lemma dlist_app_intro m pr p xs la nx ys :
  dseg m pr p xs la nx → dlist m la nx ys → dlist m pr p (xs ++ ys).
Proof. intros Hx [la' Hy]. exists la'. apply dseg_app. eauto. Qed.

Lemma dlist_app_elim m pr p xs ys :
  dlist m pr p (xs ++ ys) → ∃ la nx, dseg m pr p xs la nx ∧ dlist m la nx ys.
Proof. intros [la (la' & nx & ? & ?)%dseg_app]. unfold dlist. eauto. Qed.

Lemma NoDup_mid (l r : list (Z * D)) a d :
  NoDup (l ++ (a, d) :: r).*1 ↔
  a ∉ l.*1 ∧ a ∉ r.*1 ∧ NoDup l.*1 ∧ NoDup r.*1 ∧ (∀ b, b ∈ l.*1 → b ∉ r.*1).
Proof.
  rewrite fmap_app, NoDup_app. simpl. rewrite NoDup_cons. split.
  - intros (Hl & Hd & Ha & Hr). split_and!; try done.
    + intros Hal. apply (Hd _ Hal). by left.
    + intros b Hb Hbr. apply (Hd _ Hb). by right.
  - intros (Hal & Har & Hl & Hr & Hd). split_and!; try done.
    intros b Hb [->|Hbr]%elem_of_cons; [done|]. by apply (Hd b).
Qed.

(** An address occurs once. *)
Lemma split_unique (l r l' r' : list (Z * D)) a d d' :
  l ++ (a, d) :: r = l' ++ (a, d') :: r' → NoDup (l ++ (a, d) :: r).*1 →
  l' = l ∧ d' = d ∧ r' = r.
Proof.
  revert l'. induction l as [|x l IH]; intros [|x' l'] E Hnd; simpl in *.
  - by injection E as -> ->.
  - injection E as <- ->. apply NoDup_cons in Hnd as [Hni _]. destruct Hni. simpl.
    rewrite fmap_app, elem_of_app. right. by left.
  - injection E as -> <-. apply NoDup_cons in Hnd as [Hni _]. destruct Hni. simpl.
    rewrite fmap_app, elem_of_app. right. by left.
  - injection E as <- E. apply NoDup_cons in Hnd as [_ Hnd].
    destruct (IH l' E Hnd) as (-> & -> & ->). done.
Qed.

(** The addresses that stay when the node after [a] goes. *)
Lemma drop_second (l r : list (Z * D)) a da da' b db :
  NoDup (l ++ (a, da) :: (b, db) :: r).*1 →
  NoDup (l ++ (a, da') :: r).*1 ∧
  ∀ c, c ∈ (l ++ (a, da') :: r).*1 → c ∈ (l ++ (a, da) :: (b, db) :: r).*1 ∧ c ≠ b.
Proof.
  intros (Hal & Har & Hl & Hnr & Hd)%NoDup_mid. simpl in Har, Hnr, Hd.
  apply NoDup_cons in Hnr as [Hbr Hnr]. apply not_elem_of_cons in Har as [Hab Har]. split.
  - apply NoDup_mid. split_and!; try done. intros c Hc Hcr. apply (Hd _ Hc). by right.
  - intros c. rewrite !fmap_app, !elem_of_app. simpl. rewrite !elem_of_cons.
    intros [Hc|[->|Hc]]; split; auto; [|congruence..].
    intros ->. apply (Hd _ Hc). by left.
Qed.

(** A new address after [a]. *)
Lemma insert_second (l r : list (Z * D)) a da da' b db :
  NoDup (l ++ (a, da) :: r).*1 → b ∉ (l ++ (a, da) :: r).*1 →
  NoDup (l ++ (a, da') :: (b, db) :: r).*1.
Proof.
  intros (Hal & Har & Hl & Hr & Hd)%NoDup_mid Hb. rewrite fmap_app in Hb. simpl in Hb.
  apply not_elem_of_app in Hb as [Hbl [Hba Hbr]%not_elem_of_cons].
  apply NoDup_mid. simpl. rewrite not_elem_of_cons, NoDup_cons. split_and!; try done.
  intros c Hc Hc'. apply elem_of_cons in Hc' as [->|Hc']; [done|]. by apply (Hd c).
Qed.

Lemma not_elem_of_cons_2 (c a b : Z) l : c ∉ a :: b :: l → c ≠ a ∧ c ≠ b ∧ c ∉ l.
Proof. rewrite !not_elem_of_cons. tauto. Qed.

(** The head of a chain is 0 or one of its addresses. *)
Lemma dlist_head m pr p xs : dlist m pr p xs → p = 0 ∨ p ∈ xs.*1.
Proof.
  destruct xs as [|[a d] xs]; [intros Hl; left; by apply dlist_nil in Hl|].
  intros (-> & _)%dlist_cons. right. simpl. set_solver.
Qed.

(** The [prev] link into a segment's end is the address of its last node. *)
Lemma dseg_last m pr p xs y d la nx : dseg m pr p (xs ++ [(y, d)]) la nx → la = y.
Proof. intros (? & ? & _ & (_ & _ & n & _ & _ & _ & -> & _))%dseg_app. done. Qed.

Lemma dseg_nonzero m pr p xs la nx : dseg m pr p xs la nx → 0 ∉ xs.*1.
Proof. intros Hs Hin. by destruct (dseg_lookup _ _ _ _ _ _ _ Hs Hin). Qed.

(** Changing the payload of one node. *)
Lemma dlist_update m pr p l a d r n n' :
  dlist m pr p (l ++ (a, d) :: r) → NoDup (l ++ (a, d) :: r).*1 →
  m !! a = Some n → nd_prev n' = nd_prev n → nd_next n' = nd_next n →
  dlist (<[a := n']> m) pr p (l ++ (a, nd_data n') :: r).
Proof.
  intros (n0 & Ha & Hn0 & _ & Hs & Hr)%dlist_mid (Hal & Har & _)%NoDup_mid Hn Hp Hx.
  replace n0 with n in * by congruence.
  apply dlist_mid. exists n'. rewrite Hp, Hx, lookup_insert_eq. split_and!; [done..| |].
  - eapply dseg_frame; [|done]. intros b Hb. apply lookup_insert_ne. congruence.
  - eapply dlist_frame; [|done]. intros b Hb. apply lookup_insert_ne. congruence.
Qed.

(** Node [a] takes over its successor [b]: [a->next = b->next], and the node
    after it points back to [a]. *)
Lemma dlist_absorb m pr p l a da b db r ca cb ca' :
  dlist m pr p (l ++ (a, da) :: (b, db) :: r) →
  NoDup (l ++ (a, da) :: (b, db) :: r).*1 →
  m !! a = Some ca → m !! b = Some cb →
  nd_prev ca' = nd_prev ca → nd_next ca' = nd_next cb →
  ∃ m', relink_prev (<[a := ca']> m) (nd_next cb) a = Ret m' ∧
    dlist m' pr p (l ++ (a, nd_data ca') :: r) ∧
    (∀ c, c ∉ a :: r.*1 → m' !! c = m !! c).
Proof.
  intros (n & Ha & Hn & _ & Hs & Hr)%dlist_mid (Hal & Har & _ & Hnd & Hd)%NoDup_mid Hca Hcb Hp Hx.
  replace n with ca in * by congruence.
  apply dlist_cons in Hr as (Hnb & _ & n' & Hn' & _ & _ & Hr).
  replace n' with cb in * by congruence. simpl in Har, Hnd, Hd.
  apply NoDup_cons in Hnd as [Hbr Hnd].
  destruct (relink_prev_spec (<[a:=ca']> m) b (nd_next cb) r a) as (m' & E & Hr' & _ & Hoff);
    [|done|].
  { eapply dlist_frame; [|exact Hr]. intros c Hc. apply lookup_insert_ne. set_solver. }
  pose proof (dlist_head _ _ _ _ Hr) as Hhd. pose proof (dseg_nonzero _ _ _ _ _ _ Hs) as H0.
  rewrite not_elem_of_cons in Har. destruct Har as [Hab Har].
  assert (Hxl : nd_next cb ∉ l.*1).
  { intros Hin. destruct Hhd as [E0|E0]; [by rewrite E0 in Hin|].
    apply (Hd _ Hin). by right. }
  assert (Hxa : nd_next cb ≠ a) by (intros E1; rewrite E1 in Hhd; by destruct Hhd).
  exists m'. split_and!; [done|..].
  - apply dlist_mid. exists ca'. rewrite Hp, Hx, Hoff, lookup_insert_eq by done.
    split_and!; [done..| |done]. eapply dseg_frame; [|exact Hs]. intros c Hc.
    rewrite Hoff, lookup_insert_ne by congruence. done.
  - intros c [Hca' Hcr]%not_elem_of_cons. destruct (decide (c = nd_next cb)) as [->|].
    + destruct Hhd as [E0|]; [|done]. rewrite E0 in E. unfold relink_prev in E.
      injection E as <-. by apply lookup_insert_ne.
    + rewrite Hoff by done. by apply lookup_insert_ne.
Qed.

(** A new node [b] between [a] and its successor. *)
Lemma dlist_insert_after m pr p l a da r b ca nb ca' :
  dlist m pr p (l ++ (a, da) :: r) → NoDup (l ++ (a, da) :: r).*1 →
  m !! a = Some ca → b ∉ (l ++ (a, da) :: r).*1 → b ≠ 0 →
  nd_prev nb = a → nd_next nb = nd_next ca → nd_prev ca' = nd_prev ca → nd_next ca' = b →
  ∃ m', relink_prev (<[b := nb]> m) (nd_next ca) b = Ret m' ∧ m' !! a = Some ca ∧
    dlist (<[a := ca']> m') pr p (l ++ (a, nd_data ca') :: (b, nd_data nb) :: r) ∧
    (∀ c, c ∉ a :: b :: r.*1 → m' !! c = m !! c).
Proof.
  intros (n & Ha & Hn & _ & Hs & Hr)%dlist_mid (Hal & Har & _ & Hnd & Hd)%NoDup_mid Hca Hb Hb0
    Hnp Hnn Hp Hx.
  replace n with ca in * by congruence. rewrite fmap_app in Hb. simpl in Hb.
  destruct (relink_prev_spec (<[b:=nb]> m) a (nd_next ca) r b) as (m' & E & Hr' & _ & Hoff);
    [|done|].
  { eapply dlist_frame; [|exact Hr]. intros c Hc. apply lookup_insert_ne. set_solver. }
  pose proof (dlist_head _ _ _ _ Hr) as Hhd. pose proof (dseg_nonzero _ _ _ _ _ _ Hs) as H0.
  rewrite not_elem_of_app, not_elem_of_cons in Hb. destruct Hb as (Hbl & Hba & Hbr).
  assert (Hxb : nd_next ca ≠ b) by (intros E1; rewrite E1 in Hhd; by destruct Hhd).
  assert (Hm' : ∀ c, c ≠ b → c ∉ r.*1 → m' !! c = m !! c).
  { intros c Hcb Hc. destruct (decide (c = nd_next ca)) as [->|].
    - destruct Hhd as [E0|]; [|done]. rewrite E0 in E. unfold relink_prev in E.
      injection E as <-. by apply lookup_insert_ne.
    - rewrite Hoff by done. by apply lookup_insert_ne. }
  exists m'. split_and!; [done|by rewrite Hm'|..].
  2:{ intros c (? & ? & ?)%not_elem_of_cons_2. by apply Hm'. }
  apply dlist_mid. exists ca'. rewrite Hp, Hx, lookup_insert_eq. split_and!; [done..| |].
  - eapply dseg_frame; [|exact Hs]. intros c Hc. rewrite lookup_insert_ne by congruence.
    apply Hm'; [congruence|by apply Hd].
  - apply dlist_cons. split_and!; [done..|]. exists nb.
    rewrite lookup_insert_ne, Hoff, lookup_insert_eq by done.
    split_and!; [done..|]. rewrite Hnn. eapply dlist_frame; [|exact Hr'].
    intros c Hc. apply lookup_insert_ne. congruence.
Qed.

End dlist.

(** ** Sums over the payloads of a list *)

Definition sum_of {D} (f : D → Z) (xs : list (Z * D)) : Z := sum_list ((λ x, f x.2) <$> xs).

Lemma sum_of_app {D} (f : D → Z) xs ys : sum_of f (xs ++ ys) = sum_of f xs + sum_of f ys.
Proof. unfold sum_of. by rewrite fmap_app, sum_list_app. Qed.
Lemma sum_of_cons {D} (f : D → Z) a d xs : sum_of f ((a, d) :: xs) = f d + sum_of f xs.
Proof. done. Qed.
Lemma sum_of_nil {D} (f : D → Z) : sum_of f [] = 0.
Proof. done. Qed.
