(* ===== verification/Kheap.v ===== *)
(** The kernel heap, [mem/kheap/kheap.c]: a first-fit allocator over a chain of
    block headers that tile the heap region. *)
From S2P Require Import Prelude Interfaces Ram DList.
Import MemLib.

Definition HEAP_START : Z := 0xFFFF880000000000.
Definition HEAP_SIZE : Z := 2 * 4096 * 4096.
Definition BLOCK_MAGIC : Z := 0xDEADBEEF.
(** [sizeof(kheap_block_t)] *)
Definition HDR : Z := 40.

Record kheap_block := Block {
  b_magic : Z;
  b_size : Z;
  b_next : Z;
  b_prev : Z;
  b_used : Z;
}.

(** [kheap_start], the headers in memory, and [kheap_stats].  A header that a
    merge absorbed stays in memory. *)
Record kheap := Kheap {
  kheap_start : Z;
  blocks : gmap Z kheap_block;
  total_size : Z;
  used_size : Z;
  free_size : Z;
  total_blocks : Z;
  used_blocks : Z;
}.

Record bdata := BD { d_magic : Z; d_size : Z; d_used : Z }.

#[export] Instance block_linked : Linked kheap_block bdata := {|
  nd_next := b_next;
  nd_prev := b_prev;
  nd_data b := BD (b_magic b) (b_size b) (b_used b);
  nd_set_prev b p := Block (b_magic b) (b_size b) (b_next b) p (b_used b);
  nd_next_set_prev _ _ := eq_refl;
  nd_prev_set_prev _ _ := eq_refl;
  nd_data_set_prev _ _ := eq_refl;
|}.

Definition set_blocks (h : kheap) (m : gmap Z kheap_block) : kheap :=
  Kheap (kheap_start h) m (total_size h) (used_size h) (free_size h)
    (total_blocks h) (used_blocks h).

Definition block_at (h : kheap) (a : Z) : res kheap_block := deref (blocks h !! a).

(** The body of the loops of [kheap_merge_free_blocks]: block [a] takes over
    its successor [b]. *)
Definition absorb (h : kheap) (a b : Z) : res kheap :=
  ca ← block_at h a;
  cb ← block_at h b;
  let m := <[a := Block (b_magic ca) (u64 (b_size ca + u64 (HDR + b_size cb)))
                    (b_next cb) (b_prev ca) (b_used ca)]> (blocks h) in
  m ← relink_prev m (b_next cb) a;
  Ret (Kheap (kheap_start h) m (total_size h) (used_size h)
         (u64 (free_size h + HDR)) (u64 (total_blocks h - 1)) (used_blocks h)).

Fixpoint merge_next (fuel : nat) (h : kheap) (current : Z) : res kheap :=
  match fuel with
  | O => NoFuel
  | S fuel =>
      c ← block_at h current;
      if b_next c =? 0 then Ret h else
      n ← block_at h (b_next c);
      if b_used n =? 0 then
        h ← absorb h current (b_next c);
        merge_next fuel h current
      else Ret h
  end.

Fixpoint merge_prev (fuel : nat) (h : kheap) (current : Z) : res kheap :=
  match fuel with
  | O => NoFuel
  | S fuel =>
      c ← block_at h current;
      if b_prev c =? 0 then Ret h else
      p ← block_at h (b_prev c);
      if b_used p =? 0 then
        h ← absorb h (b_prev c) current;
        merge_prev fuel h (b_prev c)
      else Ret h
  end.

(** A walk visits each header at most once. *)
Definition heap_fuel (h : kheap) : nat := S (size (blocks h)).

Definition kheap_merge_free_blocks (h : kheap) (block : Z) : res kheap :=
  h ← merge_next (heap_fuel h) h block;
  merge_prev (heap_fuel h) h block.

Definition kheap_init : kheap :=
  Kheap HEAP_START {[HEAP_START := Block BLOCK_MAGIC (HEAP_SIZE - HDR) 0 0 0]}
    HEAP_SIZE 0 (HEAP_SIZE - HDR) 1 0.

Fixpoint find_fit (fuel : nat) (h : kheap) (size current : Z) : res Z :=
  match fuel with
  | O => NoFuel
  | S fuel =>
      if current =? 0 then Ret 0 else
      c ← block_at h current;
      if (b_used c =? 0) && (size <=? b_size c) then Ret current
      else find_fit fuel h size (b_next c)
  end.

(** The split of [best_fit] in [kmalloc]. *)
Definition split_block (h : kheap) (best_fit size : Z) : res kheap :=
  bf ← block_at h best_fit;
  let new_block := u64 (u64 (best_fit + HDR) + size) in
  let m := <[new_block := Block BLOCK_MAGIC (u64 (u64 (b_size bf - size) - HDR))
                            (b_next bf) best_fit 0]> (blocks h) in
  m ← relink_prev m (b_next bf) new_block;
  bf ← deref (m !! best_fit);
  let m := <[best_fit := Block (b_magic bf) size new_block (b_prev bf) (b_used bf)]> m in
  Ret (Kheap (kheap_start h) m (total_size h) (used_size h)
         (u64 (free_size h - HDR)) (u64 (total_blocks h + 1)) (used_blocks h)).

Definition kmalloc (h : kheap) (size : Z) : res (Z * kheap) :=
  if size =? 0 then Ret (0, h) else
  let size := Z.land (u64 (size + 7)) (not64 7) in
  best_fit ← find_fit (heap_fuel h) h size (kheap_start h);
  if best_fit =? 0 then Ret (0, h) else
  bf ← block_at h best_fit;
  h ← (if u64 (u64 (size + HDR) + 16) <=? b_size bf
       then split_block h best_fit size else Ret h);
  bf ← block_at h best_fit;
  let m := <[best_fit := Block (b_magic bf) (b_size bf) (b_next bf) (b_prev bf) 1]> (blocks h) in
  Ret (u64 (best_fit + HDR),
       Kheap (kheap_start h) m (total_size h) (u64 (used_size h + b_size bf))
         (u64 (free_size h - b_size bf)) (total_blocks h) (u64 (used_blocks h + 1))).

Definition kfree (h : kheap) (ptr : Z) : res kheap :=
  if ptr =? 0 then Ret h else
  let blk := u64 (ptr - HDR) in
  b ← block_at h blk;
  if negb (b_magic b =? BLOCK_MAGIC) then Ret h else
  if b_used b =? 0 then Ret h else
  let m := <[blk := Block (b_magic b) (b_size b) (b_next b) (b_prev b) 0]> (blocks h) in
  let h := Kheap (kheap_start h) m (total_size h) (u64 (used_size h - b_size b))
             (u64 (free_size h + b_size b)) (total_blocks h) (u64 (used_blocks h - 1)) in
  kheap_merge_free_blocks h blk.

Definition kheap_get_total_size (h : kheap) : Z := total_size h.
Definition kheap_get_used_size (h : kheap) : Z := used_size h.
Definition kheap_get_free_size (h : kheap) : Z := free_size h.
Definition kheap_get_block_count (h : kheap) : Z := total_blocks h.
Definition kheap_get_used_block_count (h : kheap) : Z := used_blocks h.

(** [kcalloc] and [krealloc] also touch the payload, which lives in [ram]. *)
Definition kcalloc (h : kheap) (mem : ram) (count size : Z) : res (Z * kheap * ram) :=
  let total := u64 (count * size) in
  '(ptr, h) ← kmalloc h total;
  Ret (ptr, h, if ptr =? 0 then mem else memset mem ptr 0 total).

Definition krealloc (h : kheap) (mem : ram) (ptr size : Z) : res (Z * kheap * ram) :=
  if ptr =? 0 then '(p, h) ← kmalloc h size; Ret (p, h, mem) else
  if size =? 0 then h ← kfree h ptr; Ret (0, h, mem) else
  blk ← block_at h (u64 (ptr - HDR));
  if negb (b_magic blk =? BLOCK_MAGIC) then Ret (0, h, mem) else
  if size <=? b_size blk then Ret (ptr, h, mem) else
  '(ptr_new, h) ← kmalloc h size;
  if ptr_new =? 0 then Ret (0, h, mem) else
  blk ← block_at h (u64 (ptr - HDR));
  let mem := memcpy mem ptr_new ptr (b_size blk) in
  h ← kfree h ptr;
  Ret (ptr_new, h, mem).

(** ** What a heap state represents *)

Definition HEAP_END : Z := HEAP_START + HEAP_SIZE.

(** A header and its payload, as an item of the represented list. *)
Definition item_ok (d : bdata) : Prop :=
  d_magic d = BLOCK_MAGIC ∧ 0 ≤ d_size d ∧ d_size d mod 8 = 0 ∧
  (d_used d = 0 ∨ d_used d = 1).

(** The blocks [xs] lie one after the other from [a] to [e]. *)
Fixpoint tiled (a : Z) (xs : list (Z * bdata)) (e : Z) : Prop :=
  match xs with
  | [] => a = e
  | (b, d) :: xs => b = a ∧ item_ok d ∧ tiled (a + HDR + d_size d) xs e
  end.

Definition is_free (x : Z * bdata) : Prop := d_used x.2 = 0.
#[export] Instance is_free_dec x : Decision (is_free x).
Proof. unfold is_free. apply _. Defined.

(** No two neighbours are both free. *)
Fixpoint coalesced (xs : list (Z * bdata)) : Prop :=
  match xs with
  | x :: xs => match xs with
               | y :: _ => ¬ (is_free x ∧ is_free y)
               | [] => True
               end ∧ coalesced xs
  | [] => True
  end.

Definition free_of (d : bdata) : Z := if d_used d =? 0 then d_size d else 0.
Definition used_of (d : bdata) : Z := if d_used d =? 0 then 0 else d_size d.
Definition one_used (d : bdata) : Z := if d_used d =? 0 then 0 else 1.

Record heap_repr (h : kheap) (xs : list (Z * bdata)) : Prop := {
  hr_list : dlist (blocks h) 0 (kheap_start h) xs;
  hr_tiled : tiled HEAP_START xs HEAP_END;
  hr_stale a b : blocks h !! a = Some b → a ∉ xs.*1 → b_used b = 0;
  hr_total : total_size h = HEAP_SIZE;
  hr_used : used_size h = sum_of used_of xs;
  hr_free : free_size h = sum_of free_of xs;
  hr_count : total_blocks h = Z.of_nat (length xs);
  hr_ucount : used_blocks h = sum_of one_used xs;
}.

(** The invariant of the heap. *)
Definition heap_inv (h : kheap) (xs : list (Z * bdata)) : Prop :=
  heap_repr h xs ∧ coalesced xs.

(** ** Lists of blocks *)

Lemma tiled_app a xs ys e :
  tiled a (xs ++ ys) e ↔ ∃ b, tiled a xs b ∧ tiled b ys e.
Proof.
  revert a. induction xs as [|[b d] xs IH]; intros a; simpl.
  - split; [eauto|by intros (b & -> & ?)].
  - rewrite IH. naive_solver.
Qed.

Lemma tiled_le a xs e : tiled a xs e → a ≤ e.
Proof.
  revert a. induction xs as [|[b d] xs IH]; intros a; simpl; [lia|].
  intros (-> & (_ & ? & _) & Ht%IH). unfold HDR in *. lia.
Qed.

Lemma tiled_elem a xs e b d :
  tiled a xs e → (b, d) ∈ xs → item_ok d ∧ a ≤ b ∧ b + HDR + d_size d ≤ e.
Proof.
  revert a. induction xs as [|[c f] xs IH]; intros a; simpl; [set_solver|].
  intros (-> & Hok & Ht) [[= -> ->]|Hin]%elem_of_cons.
  - apply tiled_le in Ht. done.
  - destruct (IH _ Ht Hin) as (? & ? & ?). destruct Hok as (_ & ? & _).
    unfold HDR in *. split_and!; [done|lia|lia].
Qed.

(** No header lies strictly inside a block. *)
Lemma tiled_gap a xs e c b d :
  tiled a xs e → (b, d) ∈ xs → b < c < b + HDR + d_size d → c ∉ xs.*1.
Proof.
  revert a. induction xs as [|[b' d'] xs IH]; intros a; simpl; [set_solver|].
  intros (-> & (_ & ? & _) & Ht) Hin Hc. rewrite not_elem_of_cons.
  apply elem_of_cons in Hin as [[= <- <-]|Hin].
  - split; [lia|]. intros ((c' & f) & E & Hf)%list_elem_of_fmap. cbn in E. subst c'.
    destruct (tiled_elem _ _ _ _ _ Ht Hf) as (_ & ? & _). lia.
  - destruct (tiled_elem _ _ _ _ _ Ht Hin) as (_ & ? & _). split; [|eauto].
    unfold HDR in *. lia.
Qed.

Lemma tiled_NoDup a xs e : tiled a xs e → NoDup xs.*1.
Proof.
  revert a. induction xs as [|[b d] xs IH]; intros a; simpl; [by constructor|].
  intros (-> & (_ & Hsz & _) & Ht). constructor; [|eauto].
  intros ((c & f) & E & Hin)%list_elem_of_fmap. simpl in E. subst c.
  destruct (tiled_elem _ _ _ _ _ Ht Hin) as (_ & ? & _). unfold HDR in *. lia.
Qed.

Lemma coalesced_app xs ys :
  coalesced (xs ++ ys) ↔
  coalesced xs ∧ coalesced ys ∧
  ∀ x y, last xs = Some x → head ys = Some y → ¬ (is_free x ∧ is_free y).
Proof.
  induction xs as [|x xs IH].
  { simpl. naive_solver. }
  destruct xs as [|x' xs].
  - destruct ys as [|y ys]; simpl; naive_solver.
  - change (coalesced ((x :: x' :: xs) ++ ys)) with
      (¬ (is_free x ∧ is_free x') ∧ coalesced ((x' :: xs) ++ ys)).
    rewrite IH. simpl coalesced. change (last (x :: x' :: xs)) with (last (x' :: xs)).
    tauto.
Qed.

(** The list after a merge of two neighbours. *)
Definition joined (da db : bdata) : bdata :=
  BD (d_magic da) (d_size da + HDR + d_size db) (d_used da).

Lemma tiled_joined a0 l a da b db r e :
  tiled a0 (l ++ (a, da) :: (b, db) :: r) e → tiled a0 (l ++ (a, joined da db) :: r) e.
Proof.
  intros (m & Hl & -> & (? & ? & ? & ?) & -> & (? & ? & ? & ?) & Hr)%tiled_app.
  apply tiled_app. exists m. split; [done|]. cbn [tiled]. split_and!; [done|..].
  - unfold item_ok, joined, HDR in *. cbn. split_and!; [done|lia|dlia|done].
  - replace (m + HDR + _) with (m + HDR + d_size da + HDR + d_size db) by (cbn; lia).
    done.
Qed.

(** ** Reading a represented heap *)

Lemma block_at_some h a b : blocks h !! a = Some b → block_at h a = Ret b.
Proof. unfold block_at. by intros ->. Qed.

Lemma repr_item h l a d r :
  heap_repr h (l ++ (a, d) :: r) →
  item_ok d ∧ HEAP_START ≤ a ∧ a + HDR + d_size d ≤ HEAP_END.
Proof. intros Hr. eapply tiled_elem; [apply Hr|]. set_solver. Qed.

Lemma repr_NoDup h xs : heap_repr h xs → NoDup xs.*1.
Proof. intros Hr. eapply tiled_NoDup, Hr. Qed.

Lemma repr_node h l a d r :
  heap_repr h (l ++ (a, d) :: r) → ∃ n, blocks h !! a = Some n ∧ nd_data n = d.
Proof. intros Hr. pose proof (hr_list _ _ Hr) as (n & ? & ? & ? & _)%dlist_mid. eauto. Qed.

Lemma repr_fuel h xs : heap_repr h xs → (length xs < heap_fuel h)%nat.
Proof.
  intros Hr. unfold heap_fuel.
  pose proof (dlist_length _ _ _ _ (tiled_NoDup _ _ _ (hr_tiled _ _ Hr)) (hr_list _ _ Hr)).
  lia.
Qed.

(** The sizes of a represented heap are small. *)
Lemma tiled_sums a xs e :
  tiled a xs e →
  0 ≤ sum_of used_of xs ∧ 0 ≤ sum_of free_of xs ∧
  0 ≤ sum_of one_used xs ≤ Z.of_nat (length xs) ∧
  sum_of used_of xs + sum_of free_of xs + HDR * Z.of_nat (length xs) = e - a.
Proof.
  revert a. induction xs as [|[b d] xs IH]; intros a; cbn [tiled].
  { rewrite !sum_of_nil. cbn. lia. }
  intros (-> & (_ & ? & _) & Ht%IH). rewrite !sum_of_cons. cbn [length].
  assert (0 ≤ used_of d ∧ 0 ≤ free_of d ∧ 0 ≤ one_used d ≤ 1 ∧
          used_of d + free_of d = d_size d).
  { unfold used_of, free_of, one_used. destruct (d_used d =? 0); lia. }
  unfold HDR in *. lia.
Qed.

Lemma tiled_parts a l b d r e :
  tiled a (l ++ (b, d) :: r) e →
  0 ≤ sum_of used_of l + sum_of used_of r ∧ 0 ≤ sum_of free_of l + sum_of free_of r ∧
  0 ≤ sum_of one_used l + sum_of one_used r.
Proof.
  intros (m & (?&?&?&_)%tiled_sums & -> & _ & (?&?&?&_)%tiled_sums)%tiled_app. lia.
Qed.

(** ** Merging *)

Lemma absorb_spec h l a da b db r :
  heap_repr h (l ++ (a, da) :: (b, db) :: r) → d_used da = 0 → d_used db = 0 →
  ∃ h', absorb h a b = Ret h' ∧ heap_repr h' (l ++ (a, joined da db) :: r).
Proof.
  intros Hr Ha Hb.
  assert (Hr2 : heap_repr h ((l ++ [(a, da)]) ++ (b, db) :: r))
    by by rewrite <- (assoc_L (++)).
  destruct (repr_node _ _ _ _ _ Hr) as (ca & Hca & Dca).
  destruct (repr_node _ _ _ _ _ Hr2) as (cb & Hcb & Dcb).
  destruct (repr_item _ _ _ _ _ Hr) as (Ia & ? & ?).
  destruct (repr_item _ _ _ _ _ Hr2) as (Ib & ? & ?).
  pose proof (tiled_sums _ _ _ (hr_tiled _ _ Hr)) as Hsum.
  unfold absorb, block_at. rewrite Hca, Hcb. cbn [mbind res_bind deref].
  assert (Esz : u64 (b_size ca + u64 (HDR + b_size cb)) = d_size da + HDR + d_size db).
  { destruct Ia as (_ & ? & _), Ib as (_ & ? & _). subst da db. cbn in *.
    unfold HEAP_END, HEAP_START, HEAP_SIZE, HDR in *. usimpl. lia. }
  rewrite Esz. set (ca' := Block _ _ _ _ _).
  assert (Dca' : nd_data ca' = joined da db) by (subst da; done).
  destruct (dlist_absorb (blocks h) 0 (kheap_start h) l a da b db r ca cb ca')
    as (m' & Em & Hl & Hoff); [apply Hr|by apply (repr_NoDup h)|done..|].
  change (b_next cb) with (nd_next cb). rewrite Em. cbn [mbind res_bind].
  eexists; split; [reflexivity|]. rewrite Dca' in Hl.
  destruct Hr as [_ Ht Hst Htot Hus Hfr Hct Huc].
  rewrite !sum_of_app, !sum_of_cons, length_app in *. cbn [length] in *.
  split; cbn [blocks kheap_start total_size used_size free_size total_blocks used_blocks];
    rewrite ?sum_of_app, ?sum_of_cons, ?length_app; cbn [length]; try done.
  - by eapply tiled_joined.
  - intros c n Hc Hn. rewrite fmap_app in Hn. simpl in Hn.
    rewrite Hoff in Hc by set_solver. destruct (decide (c = b)) as [->|].
    + rewrite Hcb in Hc. injection Hc as <-. by subst db.
    + apply (Hst _ _ Hc). rewrite fmap_app. simpl. set_solver.
  - rewrite Hus. unfold used_of, joined. cbn. by rewrite Ha, Hb.
  - unfold free_of, joined in *. cbn in *. rewrite Ha, Hb in *. cbn in *.
    rewrite u64_small; unfold HEAP_END, HEAP_SIZE, HDR in *; lia.
  - rewrite u64_small; unfold HEAP_END, HEAP_SIZE, HDR in *; lia.
  - rewrite Huc. unfold one_used, joined. cbn. by rewrite Ha, Hb.
Qed.

(** A freed block and what follows it: it takes over the free blocks after it. *)
Fixpoint eat (d : bdata) (r : list (Z * bdata)) : bdata * list (Z * bdata) :=
  match r with
  | (_, e) :: r' => if d_used e =? 0 then eat (joined d e) r' else (d, r)
  | [] => (d, [])
  end.
(** The same to the left; the list before the block is reversed. *)
Fixpoint eat_left (rl : list (Z * bdata)) (a : Z) (d : bdata) : list (Z * bdata) * Z * bdata :=
  match rl with
  | (b, e) :: rl' => if d_used e =? 0 then eat_left rl' b (joined e d) else (rl, a, d)
  | [] => ([], a, d)
  end.

Lemma merge_next_spec h l a d r fuel :
  heap_repr h (l ++ (a, d) :: r) → d_used d = 0 → (length r < fuel)%nat →
  ∃ h', merge_next fuel h a = Ret h' ∧
    heap_repr h' (l ++ (a, (eat d r).1) :: (eat d r).2).
Proof.
  revert h d fuel. induction r as [|[b e] r IH]; intros h d fuel Hr Hd Hf;
    (destruct fuel as [|fuel]; [cbn in Hf; lia|]); cbn [merge_next eat];
    destruct (repr_node _ _ _ _ _ Hr) as (c & Hc & Dc);
    pose proof (hr_list _ _ Hr) as (c' & _ & Hc' & _ & _ & Htl)%dlist_mid;
    replace c' with c in * by congruence; rewrite (block_at_some _ _ _ Hc), bind_Ret.
  - apply dlist_nil in Htl. cbn in Htl. rewrite Htl. eauto.
  - apply dlist_cons in Htl as (Hn & Hb0 & cb & Hcb & Dcb & _). cbn in Hn. rewrite Hn.
    destruct (Z.eqb_spec b 0); [done|]. rewrite (block_at_some _ _ _ Hcb), bind_Ret. subst e. cbn [nd_data block_linked d_used].
    destruct (Z.eqb_spec (b_used cb) 0) as [Hu|Hu]; [|eauto].
    destruct (absorb_spec _ _ _ _ _ _ _ Hr Hd) as (h1 & -> & Hr1); [done|].
    cbn [mbind res_bind]. apply IH; [done|by cbn|cbn in Hf; lia].
Qed.

Lemma merge_prev_spec h rl a d r fuel :
  heap_repr h (rev rl ++ (a, d) :: r) → d_used d = 0 → (length rl < fuel)%nat →
  ∃ h', merge_prev fuel h a = Ret h' ∧
    let '(rl', a', d') := eat_left rl a d in heap_repr h' (rev rl' ++ (a', d') :: r).
Proof.
  revert h a d fuel. induction rl as [|[b e] rl IH]; intros h a d fuel Hr Hd Hf;
    (destruct fuel as [|fuel]; [cbn in Hf; lia|]); cbn [merge_prev eat_left];
    destruct (repr_node _ _ _ _ _ Hr) as (c & Hc & Dc);
    pose proof (hr_list _ _ Hr) as (c' & _ & Hc' & _ & Hsg & _)%dlist_mid;
    replace c' with c in * by congruence; rewrite (block_at_some _ _ _ Hc), bind_Ret.
  - destruct Hsg as [Hp _]. cbn in Hp. rewrite Hp. eauto.
  - cbn [rev] in Hr, Hsg. rewrite <- (assoc_L (++)) in Hr. cbn [app] in Hr.
    apply dseg_app in Hsg as (? & ? & _ & Hb & Hb0 & cb & Hcb & Dcb & _ & Hp & _).
    cbn in Hp. rewrite Hp. destruct (Z.eqb_spec b 0); [done|]. rewrite (block_at_some _ _ _ Hcb), bind_Ret.
    subst e. cbn [nd_data block_linked d_used].
    destruct (Z.eqb_spec (b_used cb) 0) as [Hu|Hu].
    + destruct (absorb_spec _ _ _ _ _ _ _ Hr) as (h1 & -> & Hr1); [done..|].
      cbn [mbind res_bind]. apply IH; [done|done|cbn in Hf; lia].
    + eexists; split; [done|]. cbn [rev]. rewrite <- (assoc_L (++)). done.
Qed.

(** ** Searching *)

Definition fits (size : Z) (x : Z * bdata) : Prop := d_used x.2 = 0 ∧ size ≤ d_size x.2.

Lemma find_fit_spec h size fuel pr p xs :
  dlist (blocks h) pr p xs → (length xs < fuel)%nat →
  returns (find_fit fuel h size p) (λ best,
    (best = 0 ∧ Forall (λ x, ¬ fits size x) xs) ∨
    ∃ l d r, xs = l ++ (best, d) :: r ∧ best ≠ 0 ∧ fits size (best, d) ∧
             Forall (λ x, ¬ fits size x) l).
Proof.
  revert pr p fuel. induction xs as [|[a d] xs IH]; intros pr p fuel Hl Hf;
    (destruct fuel as [|fuel]; [cbn in Hf; lia|]); cbn [find_fit].
  { apply dlist_nil in Hl as ->. left. done. }
  apply dlist_cons in Hl as (-> & Ha & n & Hn & Hd & _ & Hl).
  destruct (Z.eqb_spec a 0); [done|]. unfold block_at. rewrite Hn. cbn [mbind res_bind deref].
  destruct (_ && _) eqn:E.
  - zbool. right. exists [], d, xs. subst d. split_and!; done.
  - assert (Hnf : ¬ fits size (a, d)).
    { intros [H1 H2]. subst d. cbn in H1, H2. rewrite H1 in E. cbn in E.
      apply Z.leb_gt in E. lia. }
    eapply returns_mono; [apply (IH a); [done|cbn in Hf; lia]|].
    intros best [[-> Hall]|(l & d' & r & -> & ? & ? & ?)].
    + left. auto.
    + right. exists ((a, d) :: l), d', r. split_and!; auto.
Qed.

(** ** Allocation *)

(** What a free block [(a, d)] becomes when [size] bytes are taken from it. *)
Definition placed (a : Z) (d : bdata) (size : Z) : list (Z * bdata) :=
  if size + HDR + 16 <=? d_size d then
    [(a, BD BLOCK_MAGIC size 1);
     (a + HDR + size, BD BLOCK_MAGIC (d_size d - size - HDR) 0)]
  else [(a, BD BLOCK_MAGIC (d_size d) 1)].

(** The size [kmalloc] works with. *)
Definition aligned (size : Z) : Z := Z.land (u64 (size + 7)) (not64 7).

Lemma aligned_spec size :
  0 ≤ size ≤ 2 ^ 64 - 8 →
  size ≤ aligned size < size + 8 ∧ aligned size mod 8 = 0 ∧ (0 < size → 0 < aligned size).
Proof.
  intros. unfold aligned. rewrite u64_small, align8_spec by lia. dlia.
Qed.

Lemma tiled_placed a0 l a d r e size :
  tiled a0 (l ++ (a, d) :: r) e → 0 ≤ size ≤ d_size d → size mod 8 = 0 →
  tiled a0 (l ++ placed a d size ++ r) e.
Proof.
  intros (m & Hl & -> & (Hm & ? & ? & ?) & Hr)%tiled_app Hs H8.
  apply tiled_app. exists m. split; [done|]. unfold placed.
  destruct (Z.leb_spec (size + HDR + 16) (d_size d)); cbn [tiled app]; unfold item_ok;
    cbn [d_size d_used d_magic]; unfold HDR in *; split_and!; auto; try lia; try dlia.
  replace (m + _ + _ + _ + _) with (m + 40 + d_size d) by lia. done.
Qed.

Lemma coalesced_placed l a d r size :
  coalesced (l ++ (a, d) :: r) → d_used d = 0 → coalesced (l ++ placed a d size ++ r).
Proof.
  rewrite !coalesced_app. intros (Hl & Hr & Hb) Hd.
  assert (Hr' : coalesced r ∧ ∀ y, head r = Some y → ¬ is_free y).
  { destruct r as [|y r]; [done|]. destruct Hr as [Hn Hr]. split; [done|].
    intros ? [= <-] Hy. by apply Hn. }
  destruct Hr' as [Hcr Hnf]. unfold placed.
  destruct (Z.leb_spec (size + HDR + 16) (d_size d)); destruct r as [|y r];
    cbn [app coalesced head]; split_and!; try done;
    try (intros ? ? _ [= <-] [_ ?]; done);
    try (intros [? ?]; done); try apply Hcr;
    intros ? ? _ [= <-] [_ ?]; by eapply Hnf.
Qed.

(** The store after the split, as a list. *)
Lemma split_block_spec h l a d r size :
  heap_repr h (l ++ (a, d) :: r) → d_used d = 0 → 0 ≤ size → size mod 8 = 0 →
  size + HDR + 16 ≤ d_size d →
  ∃ h', split_block h a size = Ret h' ∧
    heap_repr h' (l ++ (a, BD BLOCK_MAGIC size 0) ::
                  (a + HDR + size, BD BLOCK_MAGIC (d_size d - size - HDR) 0) :: r).
Proof.
  intros Hr Hd H0 H8 Hfit.
  destruct (repr_node _ _ _ _ _ Hr) as (ca & Hca & Dca).
  destruct (repr_item _ _ _ _ _ Hr) as ((Hmg & ? & ? & _) & ? & ?).
  pose proof (tiled_sums _ _ _ (hr_tiled _ _ Hr)) as Hsum.
  pose proof (tiled_parts _ _ _ _ _ _ (hr_tiled _ _ Hr)) as Hparts.
  assert (Hsz : b_size ca = d_size d) by by subst d.
  unfold split_block. rewrite (block_at_some _ _ _ Hca), bind_Ret, Hsz.
  assert (E1 : u64 (u64 (a + HDR) + size) = a + HDR + size).
  { unfold HEAP_END, HEAP_START, HEAP_SIZE, HDR in *. by usimpl. }
  assert (E2 : u64 (u64 (d_size d - size) - HDR) = d_size d - size - HDR).
  { unfold HEAP_END, HEAP_START, HEAP_SIZE, HDR in *. by usimpl. }
  rewrite E1, E2. set (nb := Block _ _ _ _ _).
  set (ca' := Block (b_magic ca) size (a + HDR + size) (b_prev ca) (b_used ca)).
  assert (Hnew : a + HDR + size ∉ (l ++ (a, d) :: r).*1).
  { apply (tiled_gap HEAP_START _ HEAP_END _ a d); [apply Hr|set_solver|unfold HDR in *; lia]. }
  destruct (dlist_insert_after (blocks h) 0 (kheap_start h) l a d r (a + HDR + size) ca nb ca')
    as (m' & Em & Hma & Hl & Hoff);
    [apply Hr|by apply (repr_NoDup h)|done|done|unfold HDR, HEAP_START in *; lia|done..|].
  change (b_next ca) with (nd_next ca). rewrite Em. cbn [mbind res_bind].
  rewrite Hma. cbn [mbind res_bind deref]. eexists; split; [reflexivity|].
  replace (nd_data ca') with (BD BLOCK_MAGIC size 0) in Hl
    by (cbn; rewrite <- Hmg, <- Hd; by subst d).
  destruct Hr as [_ Ht Hst Htot Hus Hfr Hct Huc].
  rewrite !sum_of_app, !sum_of_cons, length_app in *. cbn [length] in *.
  split; cbn [blocks kheap_start total_size used_size free_size total_blocks used_blocks];
    rewrite ?sum_of_app, ?sum_of_cons, ?length_app; cbn [length]; try done.
  - apply (tiled_placed _ _ _ _ _ _ size) in Ht; [|unfold HDR in *; lia|done]. unfold placed in Ht.
    destruct (Z.leb_spec (size + HDR + 16) (d_size d)); [|lia]. cbn [app] in Ht.
    apply tiled_app in Ht as (m & Htl & -> & (?&?&?&?) & Htr). apply tiled_app.
    exists m. split; [done|]. split_and!; auto. unfold item_ok. cbn in *. auto.
  - intros c n Hc Hn. rewrite fmap_app in Hn. cbn in Hn.
    rewrite lookup_insert_ne, Hoff in Hc by set_solver.
    apply (Hst _ _ Hc). rewrite fmap_app. cbn. set_solver.
  - rewrite Hus. unfold used_of. cbn. rewrite Hd. cbn. lia.
  - unfold free_of in *. cbn in *. rewrite Hd in *. cbn in *.
    unfold HEAP_END, HEAP_SIZE, HDR in *. usimpl. lia.
  - unfold HEAP_END, HEAP_SIZE, HDR in *. usimpl. lia.
  - rewrite Huc. unfold one_used. cbn. rewrite Hd. cbn. lia.
Qed.

(** Setting the [used] field of one block, and the statistics with it. *)
Lemma repr_mark h l a d r n u us fs uc :
  heap_repr h (l ++ (a, d) :: r) → blocks h !! a = Some n → u = 0 ∨ u = 1 →
  let d' := BD (d_magic d) (d_size d) u in
  us = used_size h - used_of d + used_of d' →
  fs = free_size h - free_of d + free_of d' →
  uc = used_blocks h - one_used d + one_used d' →
  heap_repr (Kheap (kheap_start h)
    (<[a := Block (b_magic n) (b_size n) (b_next n) (b_prev n) u]> (blocks h))
    (total_size h) us fs (total_blocks h) uc) (l ++ (a, d') :: r).
Proof.
  intros Hr Hn Hu d' -> -> ->.
  destruct (repr_node _ _ _ _ _ Hr) as (n' & Hn' & Hd).
  replace n' with n in * by congruence.
  set (n1 := Block _ _ _ _ u).
  pose proof (dlist_update _ _ _ _ _ _ _ n n1 (hr_list _ _ Hr) (repr_NoDup _ _ Hr) Hn
    eq_refl eq_refl) as Hl.
  replace (nd_data n1) with d' in Hl by (subst d' d; done).
  destruct Hr as [_ Ht Hst Htot Hus Hfr Hct Huc]. rewrite length_app in *. cbn [length] in *.
  rewrite !sum_of_app, !sum_of_cons in *.
  split; cbn [blocks kheap_start total_size used_size free_size total_blocks used_blocks];
    rewrite ?sum_of_app, ?sum_of_cons, ?length_app; cbn [length]; try done; try lia.
  - apply tiled_app in Ht as (m & Hl' & -> & (? & ? & ? & _) & Hr'). apply tiled_app.
    exists m. split; [done|]. by split_and!.
  - intros c b Hc Hni. rewrite fmap_app in Hni. cbn in Hni.
    rewrite lookup_insert_ne in Hc by set_solver. apply (Hst _ _ Hc).
    rewrite fmap_app. done.
Qed.

(** The choice [kmalloc] makes in a represented heap. *)
Definition no_fit (size : Z) (xs : list (Z * bdata)) : Prop :=
  Forall (λ x, ¬ fits (aligned size) x) xs.

(** Splitting, or not: the chosen block ends up first in [placed]. *)
Lemma carve_spec h l a d r size :
  heap_repr h (l ++ (a, d) :: r) → d_used d = 0 → 0 ≤ size ≤ d_size d → size mod 8 = 0 →
  ∃ h1 d1 r1,
    (if u64 (u64 (size + HDR) + 16) <=? d_size d then split_block h a size else Ret h) = Ret h1 ∧
    heap_repr h1 (l ++ (a, d1) :: r1) ∧ d_used d1 = 0 ∧
    placed a d size ++ r = (a, BD (d_magic d1) (d_size d1) 1) :: r1.
Proof.
  intros Hr Hd Hs H8. destruct (repr_item _ _ _ _ _ Hr) as ((Hm & ? & ? & _) & ? & ?).
  assert (E1 : u64 (u64 (size + HDR) + 16) = size + HDR + 16).
  { unfold HEAP_END, HEAP_START, HEAP_SIZE, HDR in *. by usimpl. }
  rewrite E1. unfold placed. destruct (Z.leb_spec (size + HDR + 16) (d_size d)).
  - destruct (split_block_spec _ _ _ _ _ size Hr) as (h1 & -> & Hr1); [done|lia|done|done|].
    do 3 eexists. split_and!; [done|exact Hr1|done|done].
  - exists h, d, r. by rewrite Hm.
Qed.

(** Taking a free block, with the statistics as [kmalloc] updates them. *)
Lemma take_spec h l a d r n :
  heap_repr h (l ++ (a, d) :: r) → d_used d = 0 → blocks h !! a = Some n →
  heap_repr (Kheap (kheap_start h)
    (<[a := Block (b_magic n) (b_size n) (b_next n) (b_prev n) 1]> (blocks h))
    (total_size h) (u64 (used_size h + b_size n)) (u64 (free_size h - b_size n))
    (total_blocks h) (u64 (used_blocks h + 1))) (l ++ (a, BD (d_magic d) (d_size d) 1) :: r).
Proof.
  intros Hr Hd Hn. destruct (repr_item _ _ _ _ _ Hr) as ((_ & ? & _) & _).
  destruct (repr_node _ _ _ _ _ Hr) as (n' & Hn' & Ed). replace n' with n in * by congruence.
  assert (E2 : b_size n = d_size d) by by subst d.
  pose proof (tiled_sums _ _ _ (hr_tiled _ _ Hr)) as Hsum.
  pose proof (tiled_parts _ _ _ _ _ _ (hr_tiled _ _ Hr)) as Hparts.
  rewrite <- (hr_used _ _ Hr), <- (hr_free _ _ Hr), <- (hr_ucount _ _ Hr) in Hsum.
  pose proof (hr_free _ _ Hr) as Hf1. rewrite sum_of_app, sum_of_cons in Hf1.
  assert (free_of d = d_size d ∧ used_of d = 0 ∧ one_used d = 0).
  { unfold free_of, used_of, one_used. by rewrite Hd. }
  unfold HEAP_END, HEAP_SIZE, HDR in *.
  apply repr_mark; [done..|by right| | |]; rewrite ?E2;
    unfold used_of, free_of, one_used in *; cbn in *.
  all: usimpl; lia.
Qed.

(** What [kmalloc] does to the represented list. *)
Lemma kmalloc_step h xs size :
  heap_inv h xs → 0 < size ≤ 2 ^ 64 - 8 →
  returns (kmalloc h size) (λ '(p, h'),
    (p = 0 ∧ h' = h ∧ no_fit size xs) ∨
    ∃ l a d r, xs = l ++ (a, d) :: r ∧ fits (aligned size) (a, d) ∧ no_fit size l ∧
      p = a + HDR ∧ heap_inv h' (l ++ placed a d (aligned size) ++ r)).
Proof.
  intros [Hr Hco] Hsz. unfold kmalloc. destruct (Z.eqb_spec size 0) as [|Hs0]; [lia|].
  fold (aligned size). destruct (aligned_spec size) as ((Hge & _) & H8 & _); [lia|].
  apply returns_bind.
  eapply returns_mono; [eapply find_fit_spec; [apply Hr|by apply (repr_fuel h)]|].
  intros best [[-> Hno]|(l & d & r & -> & Hb & [Hfree Hfit] & Hno)]; [by left|].
  destruct (Z.eqb_spec best 0) as [|Hb0]; [done|]. cbn in Hfree, Hfit.
  destruct (repr_node _ _ _ _ _ Hr) as (n & Hn & Hd).
  destruct (repr_item _ _ _ _ _ Hr) as ((Hm & ? & ? & _) & ? & ?).
  rewrite (block_at_some _ _ _ Hn), bind_Ret.
  assert (E : b_size n = d_size d) by by subst d. rewrite E.
  destruct (carve_spec _ _ _ _ _ (aligned size) Hr) as (h1 & d1 & r1 & -> & Hr1 & Hd1 & Epl);
    [done|lia|done|]. rewrite bind_Ret.
  destruct (repr_node _ _ _ _ _ Hr1) as (n1 & Hn1 & _).
  rewrite (block_at_some _ _ _ Hn1), bind_Ret. right.
  exists l, best, d, r. split_and!; [done..|unfold HEAP_END, HEAP_START, HEAP_SIZE, HDR in *; by usimpl|].
  split; [|by apply coalesced_placed]. rewrite Epl. by apply take_spec.
Qed.

(** ** Release *)

(** The list after the used block [(a, d)] between [l] and [r] is freed. *)
Definition freed (l : list (Z * bdata)) (a : Z) (d : bdata) (r : list (Z * bdata)) :
    list (Z * bdata) :=
  let '(d1, r1) := eat (BD (d_magic d) (d_size d) 0) r in
  let '(rl, a2, d2) := eat_left (rev l) a d1 in
  rev rl ++ (a2, d2) :: r1.

Lemma eat_used d r : d_used (eat d r).1 = d_used d.
Proof.
  revert d. induction r as [|[b e] r IH]; intros d; simpl; [done|].
  destruct (_ =? _); [by rewrite IH|done].
Qed.

Lemma eat_coalesced d r : coalesced r →
  coalesced (eat d r).2 ∧ ∀ y, head (eat d r).2 = Some y → ¬ is_free y.
Proof.
  revert d. induction r as [|[b e] r IH]; intros d Hr; simpl; [done|].
  destruct (Z.eqb_spec (d_used e) 0); [apply IH, Hr|].
  split; [exact Hr|]. by intros y [= <-].
Qed.

Lemma eat_left_coalesced rl a d : coalesced (rev rl) → d_used d = 0 →
  let '(rl', _, d') := eat_left rl a d in
  coalesced (rev rl') ∧ (∀ y, last (rev rl') = Some y → ¬ is_free y) ∧ d_used d' = 0.
Proof.
  revert a d. induction rl as [|[b e] rl IH]; intros a d Hr Hd; simpl; [done|].
  destruct (Z.eqb_spec (d_used e) 0).
  - apply IH; [|done]. simpl in Hr. by apply coalesced_app in Hr as (? & _).
  - split_and!; [done| |done]. cbn [rev]. intros y. rewrite last_snoc. by intros [= <-].
Qed.

Lemma freed_coalesced l a d r : coalesced (l ++ (a, d) :: r) → coalesced (freed l a d r).
Proof.
  intros (Hl & Hr & _)%coalesced_app. destruct Hr as [_ Hr]. unfold freed.
  pose proof (eat_coalesced (BD (d_magic d) (d_size d) 0) r Hr) as [Hr1 Hn1].
  pose proof (eat_used (BD (d_magic d) (d_size d) 0) r) as Hu.
  destruct (eat _ r) as [d1 r1]. cbn in Hr1, Hn1, Hu.
  pose proof (eat_left_coalesced (rev l) a d1) as He. rewrite rev_involutive in He.
  specialize (He Hl Hu). destruct (eat_left _ _ _) as [[rl a2] d2].
  destruct He as (Hl1 & Hn2 & _). apply coalesced_app. split_and!; [done| |].
  - destruct r1 as [|y r1]; [done|]. split; [|done]. intros [_ ?]. by eapply Hn1.
  - intros x y Hx _ [? _]. by eapply Hn2.
Qed.

(** Marking a used block free, with the statistics as [kfree] updates them. *)
Lemma release_spec h l a d r n :
  heap_repr h (l ++ (a, d) :: r) → d_used d ≠ 0 → blocks h !! a = Some n →
  heap_repr (Kheap (kheap_start h)
    (<[a := Block (b_magic n) (b_size n) (b_next n) (b_prev n) 0]> (blocks h))
    (total_size h) (u64 (used_size h - b_size n)) (u64 (free_size h + b_size n))
    (total_blocks h) (u64 (used_blocks h - 1))) (l ++ (a, BD (d_magic d) (d_size d) 0) :: r).
Proof.
  intros Hr Hd Hn. destruct (repr_item _ _ _ _ _ Hr) as ((_ & ? & _) & _).
  destruct (repr_node _ _ _ _ _ Hr) as (n' & Hn' & Ed). replace n' with n in * by congruence.
  assert (E2 : b_size n = d_size d) by by subst d.
  pose proof (tiled_sums _ _ _ (hr_tiled _ _ Hr)) as Hsum.
  pose proof (tiled_parts _ _ _ _ _ _ (hr_tiled _ _ Hr)) as Hparts.
  rewrite <- (hr_used _ _ Hr), <- (hr_free _ _ Hr), <- (hr_ucount _ _ Hr) in Hsum.
  pose proof (hr_used _ _ Hr) as Hf1. pose proof (hr_ucount _ _ Hr) as Hf2.
  rewrite sum_of_app, sum_of_cons in Hf1, Hf2.
  assert (free_of d = 0 ∧ used_of d = d_size d ∧ one_used d = 1).
  { unfold free_of, used_of, one_used. by destruct (Z.eqb_spec (d_used d) 0). }
  unfold HEAP_END, HEAP_SIZE, HDR in *.
  assert (Hlen : 1 ≤ Z.of_nat (length (l ++ (a, d) :: r))).
  { rewrite length_app. cbn [length]. lia. }
  apply repr_mark; [done..|by left| | |]; rewrite ?E2;
    change (used_of (BD _ _ 0)) with 0; change (one_used (BD _ _ 0)) with 0;
    change (free_of (BD (d_magic d) (d_size d) 0)) with (d_size d).
  all: usimpl; lia.
Qed.

(** What [kfree] does to the represented list. *)
Lemma kfree_step h l a d r :
  heap_inv h (l ++ (a, d) :: r) → d_used d ≠ 0 →
  returns (kfree h (a + HDR)) (λ h', heap_inv h' (freed l a d r)).
Proof.
  intros [Hr Hco] Hd. destruct (repr_item _ _ _ _ _ Hr) as ((Hm & ? & ? & _) & ? & ?).
  destruct (repr_node _ _ _ _ _ Hr) as (n & Hn & Ed).
  assert (E0 : u64 (a + HDR - HDR) = a).
  { unfold HEAP_END, HEAP_START, HEAP_SIZE, HDR in *. usimpl. lia. }
  unfold kfree. destruct (Z.eqb_spec (a + HDR) 0) as [Ez|_].
  { unfold HEAP_START, HDR in *. lia. }
  rewrite E0, (block_at_some _ _ _ Hn), bind_Ret.
  assert (Em : b_magic n = BLOCK_MAGIC) by by subst d. rewrite Em, Z.eqb_refl. cbn [negb].
  destruct (Z.eqb_spec (b_used n) 0) as [Eu|_]; [by subst d|].
  pose proof (release_spec _ _ _ _ _ _ Hr Hd Hn) as Hr1. rewrite Em in Hr1.
  set (h1 := Kheap _ _ _ _ _ _ _) in *. unfold kheap_merge_free_blocks.
  pose proof (repr_fuel _ _ Hr1) as Hf. rewrite length_app in Hf. cbn [length] in Hf.
  destruct (merge_next_spec h1 l a _ r (heap_fuel h1) Hr1) as (h2 & -> & Hr2); [done|lia|].
  rewrite bind_Ret. pose proof (eat_used (BD (d_magic d) (d_size d) 0) r) as Hu.
  pose proof (freed_coalesced _ _ _ _ Hco) as Hc. unfold freed in *.
  destruct (eat _ r) as [d1 r1]. cbn [fst snd] in Hr2, Hu.
  pose proof (repr_fuel _ _ Hr2) as Hf2. rewrite length_app in Hf2. cbn [length] in Hf2.
  rewrite <- (rev_involutive l) in Hr2.
  destruct (merge_prev_spec h2 (rev l) a d1 r1 (heap_fuel h2) Hr2) as (h3 & -> & Hr3);
    [done|rewrite length_rev; lia|].
  destruct (eat_left _ _ _) as [[rl a2] d2]. by split.
Qed.

(** ** Live blocks *)

(** The payload size of the live block at [p]. *)
Definition kheap_live (h : kheap) (p : Z) : option Z :=
  match blocks h !! (p - HDR) with
  | Some b => if b_used b =? 0 then None else Some (b_size b)
  | None => None
  end.

Definition live_in (xs : list (Z * bdata)) (p n : Z) : Prop :=
  ∃ d, (p - HDR, d) ∈ xs ∧ d_used d ≠ 0 ∧ d_size d = n.

Lemma live_iff h xs p n : heap_repr h xs → kheap_live h p = Some n ↔ live_in xs p n.
Proof.
  intros Hr. unfold kheap_live, live_in. split.
  - destruct (blocks h !! (p - HDR)) as [b|] eqn:E; [|done].
    destruct (Z.eqb_spec (b_used b) 0); [done|]. intros [= <-].
    destruct (decide (p - HDR ∈ xs.*1)) as [Hin|Hni]; [|by apply (hr_stale _ _ Hr) in E].
    apply list_elem_of_fmap in Hin as ((a & d) & Ea & Hin). cbn in Ea. subst a.
    apply list_elem_of_split in Hin as (l & r & ->).
    destruct (repr_node _ _ _ _ _ Hr) as (b' & Hb' & Ed). replace b' with b in * by congruence.
    exists d. subst d. split_and!; [set_solver|done..].
  - intros (d & Hin & Hu & Hs). apply list_elem_of_split in Hin as (l & r & ->).
    destruct (repr_node _ _ _ _ _ Hr) as (b & -> & Ed). subst d. cbn in *.
    destruct (Z.eqb_spec (b_used b) 0); [done|]. by rewrite Hs.
Qed.

Lemma live_ext h xs h' ys p :
  heap_repr h xs → heap_repr h' ys → (∀ n, live_in ys p n ↔ live_in xs p n) →
  kheap_live h' p = kheap_live h p.
Proof.
  intros Hr Hr' Hl. apply option_eq. intros n.
  by rewrite (live_iff _ _ _ _ Hr), (live_iff _ _ _ _ Hr').
Qed.

Lemma live_in_app xs ys p n : live_in (xs ++ ys) p n ↔ live_in xs p n ∨ live_in ys p n.
Proof. unfold live_in. setoid_rewrite elem_of_app. naive_solver. Qed.
Lemma live_in_cons a d xs p n :
  live_in ((a, d) :: xs) p n ↔ p = a + HDR ∧ d_used d ≠ 0 ∧ d_size d = n ∨ live_in xs p n.
Proof.
  unfold live_in. setoid_rewrite elem_of_cons. split.
  - intros (e & [[= <- ->]|H] & ? & ?); [left; split_and!; [lia|done..]|right; eauto].
  - intros [(-> & ? & ?)|(e & ? & ? & ?)]; [|by eauto].
    exists d. replace (a + HDR - HDR) with a by lia. auto.
Qed.
Lemma live_in_nil p n : ¬ live_in [] p n.
Proof. intros (d & Hin & _). set_solver. Qed.

Lemma live_in_placed a d size p n :
  live_in (placed a d size) p n ↔
  p = a + HDR ∧ n = if size + HDR + 16 <=? d_size d then size else d_size d.
Proof.
  unfold placed. zcase; rewrite !live_in_cons; cbn; pose proof (live_in_nil p n); naive_solver.
Qed.

Lemma live_in_eat d r p n :
  d_used d = 0 → live_in (eat d r).2 p n ↔ live_in r p n.
Proof.
  revert d. induction r as [|[b e] r IH]; intros d Hd; simpl; [done|].
  destruct (Z.eqb_spec (d_used e) 0); [|done]. rewrite IH by done. rewrite live_in_cons. tauto.
Qed.

Lemma live_in_eat_left rl a d p n :
  let '(rl', _, _) := eat_left rl a d in live_in (rev rl') p n ↔ live_in (rev rl) p n.
Proof.
  revert a d. induction rl as [|[b e] rl IH]; intros a d; simpl; [done|].
  destruct (Z.eqb_spec (d_used e) 0); [|done].
  specialize (IH b (joined e d)). destruct (eat_left _ _ _) as [[rl' ?] ?]. rewrite IH.
  rewrite live_in_app, live_in_cons. pose proof (live_in_nil p n). tauto.
Qed.

Lemma live_in_freed l a d r p n :
  coalesced (l ++ (a, d) :: r) → live_in (freed l a d r) p n ↔ live_in l p n ∨ live_in r p n.
Proof.
  intros (Hl & _)%coalesced_app. unfold freed.
  pose proof (live_in_eat (BD (d_magic d) (d_size d) 0) r p n eq_refl) as He.
  pose proof (eat_used (BD (d_magic d) (d_size d) 0) r) as Hu.
  destruct (eat _ r) as [d1 r1]. cbn in He, Hu. rewrite <- He.
  pose proof (live_in_eat_left (rev l) a d1 p n) as Hl1.
  pose proof (eat_left_coalesced (rev l) a d1) as Hc. rewrite rev_involutive in *.
  specialize (Hc Hl Hu). destruct (eat_left _ _ _) as [[rl a2] d2]. destruct Hc as (_ & _ & Hd2).
  rewrite live_in_app, live_in_cons, Hl1. tauto.
Qed.

(** Two blocks of a tiled list do not overlap. *)
Lemma tiled_disjoint a xs e b d c f :
  tiled a xs e → (b, d) ∈ xs → (c, f) ∈ xs → b ≠ c →
  b + HDR + d_size d ≤ c ∨ c + HDR + d_size f ≤ b.
Proof.
  revert a. induction xs as [|[x g] xs IH]; intros a Ht Hb Hc Hne; [set_solver|].
  destruct Ht as (-> & _ & Ht).
  apply elem_of_cons in Hb as [[= -> ->]|Hb], Hc as [[= -> ->]|Hc]; [done|..|by eauto].
  - left. by apply (tiled_elem _ _ _ _ _ Ht Hc).
  - right. by apply (tiled_elem _ _ _ _ _ Ht Hb).
Qed.

Lemma tiled_aligned a xs e b d :
  tiled a xs e → a mod 8 = 0 → (b, d) ∈ xs → b mod 8 = 0.
Proof.
  revert a. induction xs as [|[x g] xs IH]; intros a Ht Ha Hb; [set_solver|].
  destruct Ht as (-> & (_ & ? & ? & _) & Ht).
  apply elem_of_cons in Hb as [[= -> ->]|Hb]; [done|].
  apply (IH _ Ht); [|done]. unfold HDR. dlia.
Qed.

(** The block [kmalloc] hands out. *)
Lemma placed_live l a d r size p n :
  live_in (l ++ placed a d size ++ r) p n ↔
  live_in l p n ∨ (p = a + HDR ∧ n = if size + HDR + 16 <=? d_size d then size else d_size d)
  ∨ live_in r p n.
Proof. by rewrite !live_in_app, live_in_placed. Qed.

Lemma live_in_addr xs p n : live_in xs p n → p - HDR ∈ xs.*1.
Proof. intros (d & Hin & _). apply list_elem_of_fmap. by exists (p - HDR, d). Qed.

(** [kmalloc] in terms of live blocks. *)
Lemma kmalloc_live h h' l a d r size :
  heap_inv h (l ++ (a, d) :: r) → fits size (a, d) → 0 < size →
  heap_inv h' (l ++ placed a d size ++ r) →
  a + HDR ≠ 0 ∧ kheap_live h (a + HDR) = None ∧
  (∃ m, size ≤ m ∧ kheap_live h' (a + HDR) = Some m) ∧
  ∀ q, q ≠ a + HDR → kheap_live h' q = kheap_live h q.
Proof.
  intros [Hr _] [Hu Hs] Hpos [Hr' _]. cbn in Hu, Hs.
  destruct (repr_item _ _ _ _ _ Hr) as (_ & ? & ?).
  destruct (proj1 (NoDup_mid _ _ _ _) (repr_NoDup _ _ Hr)) as (Hal & Har & _).
  assert (Ha : a + HDR - HDR = a) by lia.
  split_and!; [unfold HEAP_START, HDR in *; lia|..].
  - destruct (kheap_live h (a + HDR)) as [n|] eqn:E; [|done].
    apply (live_iff _ _ _ _ Hr) in E. rewrite live_in_app, live_in_cons in E.
    destruct E as [E%live_in_addr|[(_ & ? & _)|E%live_in_addr]]; congruence.
  - exists (if size + HDR + 16 <=? d_size d then size else d_size d).
    split; [zcase; lia|]. apply (live_iff _ _ _ _ Hr'), placed_live. auto.
  - intros q Hq. eapply live_ext; [done..|]. intros n.
    rewrite placed_live, live_in_app, live_in_cons. intuition congruence.
Qed.

(** C2. [kmalloc] is a first-fit allocator: on every heap that satisfies the
    invariant it returns; either no free block can hold the rounded-up size,
    the result is [NULL] and nothing changes, or the first free block that can
    hold it becomes a used block, split when the rest is large enough for a
    header and 16 bytes; the invariant (headers tiling the heap region, links,
    statistics, no two neighbouring free blocks) holds again, the result is
    8-byte aligned, inside the heap and disjoint from every live block, and all
    live blocks stay. *)
Theorem kmalloc_spec h xs size :
  heap_inv h xs → 0 < size ≤ 2 ^ 64 - 8 →
  returns (kmalloc h size) (λ '(p, h'),
    (p = 0 ∧ h' = h ∧ no_fit size xs) ∨
    (∃ l a d r, xs = l ++ (a, d) :: r ∧ fits (aligned size) (a, d) ∧ no_fit size l ∧
      p = a + HDR ∧ heap_inv h' (l ++ placed a d (aligned size) ++ r)) ∧
    p mod 8 = 0 ∧ HEAP_START < p ∧ p + size ≤ HEAP_END ∧
    ∀ q n, kheap_live h q = Some n →
      kheap_live h' q = Some n ∧ (q + n + HDR ≤ p ∨ p + size ≤ q - HDR)).
Proof.
  intros Hi Hsz. eapply returns_mono; [by apply kmalloc_step|]. intros [p h'].
  intros [?|(l & a & d & r & -> & Hfit & Hno & -> & Hi')]; [by left|right].
  destruct (aligned_spec size) as ((Hge & _) & H8 & Hpos); [lia|].
  destruct (kmalloc_live h h' l a d r (aligned size) Hi Hfit) as (_ & Hnone & _ & Hoth);
    [apply Hpos; lia|done|].
  split; [by eauto 10|]. destruct Hi as [Hr _]. destruct Hfit as [Hu Hs]. cbn in Hu, Hs.
  destruct (repr_item _ _ _ _ _ Hr) as (_ & ? & ?).
  assert (Ha : a mod 8 = 0).
  { eapply (tiled_aligned HEAP_START); [apply Hr|done|]. apply elem_of_app. right. by left. }
  split_and!; [unfold HDR; dlia|unfold HDR in *; lia|lia|].
  intros q n Hq. assert (q ≠ a + HDR) by congruence. rewrite Hoth by done. split; [done|].
  apply (live_iff _ _ _ _ Hr) in Hq as (f & Hin & Hf & <-).
  destruct (tiled_disjoint HEAP_START _ HEAP_END a d (q - HDR) f (hr_tiled _ _ Hr));
    try (unfold HDR in *; lia); [apply elem_of_app; right; by left|done].
Qed.

(** [kfree] in terms of live blocks. *)
Lemma kfree_live h xs p n :
  heap_inv h xs → kheap_live h p = Some n →
  returns (kfree h p) (λ h', (∃ ys, heap_inv h' ys) ∧ kheap_live h' p = None ∧
    ∀ q, q ≠ p → kheap_live h' q = kheap_live h q).
Proof.
  intros Hi Hp. pose proof Hi as [Hr Hco].
  apply (live_iff _ _ _ _ Hr) in Hp as (d & Hin & Hu & _).
  apply list_elem_of_split in Hin as (l & r & ->).
  destruct (proj1 (NoDup_mid _ _ _ _) (repr_NoDup _ _ Hr)) as (Hal & Har & _).
  pose proof (kfree_step h l _ d r Hi Hu) as Hf. replace (p - HDR + HDR) with p in Hf by lia.
  eapply returns_mono; [exact Hf|]. intros h' Hi'. split; [eexists; exact Hi'|]. pose proof Hi' as [Hr' _]. split.
  - destruct (kheap_live h' p) as [m|] eqn:E; [|done]. apply (live_iff _ _ _ _ Hr') in E.
    apply live_in_freed in E as [E%live_in_addr|E%live_in_addr]; done.
  - intros q Hq. eapply live_ext; [done..|]. intros m.
    rewrite live_in_freed, live_in_app, live_in_cons by done.
    assert (q ≠ p - HDR + HDR) by lia. tauto.
Qed.

(** C3. [kfree] frees exactly the block it is given: freeing a live block
    leaves the heap whose block list has that block free and merged with its
    free neighbours, the invariant holds again, no other live block changes.
    [NULL] is ignored, and so is, in any heap, damaged ones included, a pointer
    behind a header that has a wrong magic number or is marked free.  (A pointer
    that is not behind a header at all is not covered: [kfree] reads whatever lies
    before it.) *)
Theorem kfree_spec h xs :
  heap_inv h xs →
  kfree h 0 = Ret h ∧
  (∀ g p b, 0 < p < 2 ^ 64 → blocks g !! u64 (p - HDR) = Some b →
     b_magic b ≠ BLOCK_MAGIC ∨ b_used b = 0 → kfree g p = Ret g) ∧
  ∀ l a d r, xs = l ++ (a, d) :: r → d_used d ≠ 0 →
    returns (kfree h (a + HDR)) (λ h', heap_inv h' (freed l a d r) ∧
      kheap_live h' (a + HDR) = None ∧
      ∀ q, q ≠ a + HDR → kheap_live h' q = kheap_live h q).
Proof.
  intros Hi. split_and!; [done|..].
  - intros g p b Hp Hb Hbad. unfold kfree. destruct (Z.eqb_spec p 0); [lia|].
    rewrite (block_at_some _ _ _ Hb), bind_Ret.
    destruct (Z.eqb_spec (b_magic b) BLOCK_MAGIC); [|done].
    destruct (Z.eqb_spec (b_used b) 0); [done|]. by destruct Hbad.
  - intros l a d r -> Hd. pose proof (proj1 Hi) as Hr. eapply returns_mono.
    { apply returns_and; [by apply kfree_step|]. eapply kfree_live; [done|].
      apply (live_iff _ _ _ _ Hr), live_in_app. right. apply live_in_cons. eauto. }
    intros h' (? & _ & ? & ?). done.
Qed.

(** Distinct live blocks do not overlap. *)
Lemma live_disjoint h xs p n q m :
  heap_inv h xs → kheap_live h p = Some n → kheap_live h q = Some m → p ≠ q →
  p + n ≤ q ∨ q + m ≤ p.
Proof.
  intros [Hr _] Hp Hq Hne.
  apply (live_iff _ _ _ _ Hr) in Hp as (d & Hd & _ & <-), Hq as (f & Hf & _ & <-).
  destruct (tiled_disjoint _ _ _ _ _ _ _ (hr_tiled _ _ Hr) Hd Hf);
    unfold HDR in *; lia.
Qed.

#[export] Program Instance kheap_heap_alloc : HeapAlloc kheap := {|
  ka_malloc := kmalloc;
  ka_free := kfree;
  ka_inv h := ∃ xs, heap_inv h xs;
  ka_size := kheap_live;
  ka_lo := HEAP_START;
  ka_hi := HEAP_END;
|}.
Next Obligation. vdone. Qed.
Next Obligation.
  intros h p n [xs [Hr _]] Hp.
  apply (live_iff _ _ _ _ Hr) in Hp as (d & Hin & _ & <-).
  destruct (tiled_elem _ _ _ _ _ (hr_tiled _ _ Hr) Hin) as ((_ & ? & _) & ? & ?).
  unfold HEAP_END, HEAP_SIZE, HEAP_START, HDR in *. lia.
Qed.
Next Obligation.
  intros h p n q m [xs Hi] Hp Hq Hne. by eapply live_disjoint.
Qed.
Next Obligation.
  intros h n [xs Hi] Hn. eapply returns_mono; [apply (kmalloc_step h xs n Hi); lia|].
  intros [p h'] [(-> & -> & _)|(l & a & d & r & -> & Hfit & _ & -> & Hi')]; [eauto|].
  split; [by eauto|]. right.
  destruct (aligned_spec n) as ((Hge & _) & _ & Hpos); [lia|].
  destruct (kmalloc_live h h' l a d r (aligned n) Hi Hfit) as (? & ? & (m & ? & ?) & ?);
    [apply Hpos; lia|done|].
  split_and!; [done..| |done]. exists m. split; [lia|done].
Qed.
Next Obligation. intros h p n [xs Hi] Hp. by eapply kfree_live. Qed.

(** ** Freeing what was just allocated *)

Lemma eat_stop d r : (∀ y, head r = Some y → ¬ is_free y) → eat d r = (d, r).
Proof.
  intros Hn. destruct r as [|[b e] r]; [done|]. simpl.
  destruct (Z.eqb_spec (d_used e) 0) as [E|]; [|done]. by destruct (Hn (b, e)).
Qed.

Lemma eat_left_stop rl a d :
  (∀ y, last (rev rl) = Some y → ¬ is_free y) → eat_left rl a d = (rl, a, d).
Proof.
  intros Hn. destruct rl as [|[b e] rl]; [done|]. simpl.
  destruct (Z.eqb_spec (d_used e) 0) as [E|]; [|done].
  destruct (Hn (b, e)); [|done]. cbn [rev]. by rewrite last_snoc.
Qed.

Lemma freed_placed l a d r size d1 r1 :
  coalesced (l ++ (a, d) :: r) → d_used d = 0 → d_magic d = BLOCK_MAGIC →
  placed a d size ++ r = (a, d1) :: r1 → freed l a d1 r1 = l ++ (a, d) :: r.
Proof.
  intros (Hl & Hr & Hb)%coalesced_app Hd Hm Epl. destruct Hr as [Hn Hr].
  assert (Hn' : ∀ y, head r = Some y → ¬ is_free y).
  { destruct r as [|y r]; [done|]. intros ? [= <-] ?. by apply Hn. }
  assert (Hstop : eat_left (rev l) a d = (rev l, a, d)).
  { apply eat_left_stop. rewrite rev_involutive. intros y Hy Hf. by apply (Hb y (a, d)). }
  assert (Heat : eat (BD (d_magic d1) (d_size d1) 0) r1 = (d, r)).
  { unfold placed in Epl. destruct (Z.leb_spec (size + HDR + 16) (d_size d));
      injection Epl as <- <-; cbn [eat app d_magic d_size d_used].
    - change (0 =? 0) with true. cbn iota. rewrite (eat_stop _ r) by done.
      f_equal. destruct d as [dm ds du]. unfold joined. cbn in *. subst. f_equal. lia.
    - rewrite (eat_stop _ r) by done. destruct d as [dm ds du]. cbn in *. by subst. }
  unfold freed. rewrite Heat, Hstop, rev_involutive. done.
Qed.

(** Freeing the block that [kmalloc] has just returned restores the heap:
    the same list of blocks, hence the same statistics; no memory is lost to
    fragmentation. *)
Theorem kmalloc_kfree_roundtrip h xs size :
  heap_inv h xs → 0 < size ≤ 2 ^ 64 - 8 →
  returns ('(p, h1) ← kmalloc h size; kfree h1 p) (λ h2,
    heap_inv h2 xs ∧ used_size h2 = used_size h ∧ free_size h2 = free_size h ∧
    total_blocks h2 = total_blocks h).
Proof.
  intros Hi Hs. pose proof Hi as [Hr Hco]. apply returns_bind.
  eapply returns_mono; [by apply (kmalloc_step h xs)|].
  intros [p h1] [(-> & -> & _)|(l & a & d & r & -> & [Hd Hfit] & _ & -> & Hi1)]; [done|].
  destruct (repr_item _ _ _ _ _ Hr) as ((Hm & _) & _). cbn in Hd.
  assert (Epl : ∃ d1 r1, placed a d (aligned size) ++ r = (a, d1) :: r1 ∧ d_used d1 ≠ 0).
  { unfold placed. zcase; cbn; eauto. }
  destruct Epl as (d1 & r1 & Epl & Hu). rewrite Epl in Hi1.
  eapply returns_mono; [by apply kfree_step|]. intros h2 Hi2.
  rewrite (freed_placed _ _ _ _ _ _ _ Hco Hd Hm Epl) in Hi2. split; [done|].
  destruct Hi2 as [Hr2 _]. split_and!.
  - by rewrite (hr_used _ _ Hr2), (hr_used _ _ Hr).
  - by rewrite (hr_free _ _ Hr2), (hr_free _ _ Hr).
  - by rewrite (hr_count _ _ Hr2), (hr_count _ _ Hr).
Qed.

(** ** Initialisation and statistics *)

Lemma kheap_init_inv : heap_inv kheap_init [(HEAP_START, BD BLOCK_MAGIC (HEAP_SIZE - HDR) 0)].
Proof.
  split; [|done]. split; try reflexivity.
  - exists HEAP_START. cbn [dseg]. split_and!; [done..|].
    eexists. split; [apply lookup_singleton_eq|]. done.
  - cbn [tiled]. split_and!; [done| |reflexivity]. unfold item_ok. cbn.
    split_and!; try done. by left.
  - intros a b Hb _. cbn in Hb. apply lookup_singleton_Some in Hb as [_ <-]. done.
Qed.

(** The heap statistics are exact. After [kheap_init] the invariant holds
    of one free block; and whenever it holds, used bytes, free bytes and one
    40-byte header per block add up to the total size, the used-block counter
    is the number of live blocks, and no counter has wrapped around. *)
Theorem kheap_stats_spec :
  heap_inv kheap_init [(HEAP_START, BD BLOCK_MAGIC (HEAP_SIZE - HDR) 0)] ∧
  ∀ h xs, heap_inv h xs →
    kheap_get_used_size h + kheap_get_free_size h + HDR * kheap_get_block_count h
      = kheap_get_total_size h ∧
    kheap_get_total_size h = HEAP_SIZE ∧
    0 ≤ kheap_get_used_size h ∧ 0 ≤ kheap_get_free_size h ∧
    0 ≤ kheap_get_used_block_count h ≤ kheap_get_block_count h ∧
    kheap_get_used_block_count h = Z.of_nat (length (filter (λ x, ¬ is_free x) xs)).
Proof.
  split; [apply kheap_init_inv|]. intros h xs [Hr _].
  pose proof (tiled_sums _ _ _ (hr_tiled _ _ Hr)) as Hsum.
  rewrite <- (hr_used _ _ Hr), <- (hr_free _ _ Hr), <- (hr_count _ _ Hr), <- (hr_ucount _ _ Hr) in Hsum.
  unfold kheap_get_used_size, kheap_get_free_size, kheap_get_block_count, kheap_get_total_size,
    kheap_get_used_block_count.
  rewrite (hr_total _ _ Hr). unfold HEAP_END in Hsum.
  split_and!; try lia. rewrite (hr_ucount _ _ Hr). clear.
  induction xs as [|[a d] xs IH]; [done|]. rewrite sum_of_cons, IH, filter_cons.
  unfold one_used. destruct (decide (¬ is_free (a, d))) as [Hf|Hf]; cbn [length]; unfold is_free in Hf;
    cbn in Hf; destruct (Z.eqb_spec (d_used d) 0); try lia; by destruct Hf.
Qed.

(** ** [kcalloc] and [krealloc] *)

Lemma live_bounds h xs p n :
  heap_inv h xs → kheap_live h p = Some n →
  0 ≤ n ∧ HEAP_START + HDR ≤ p ∧ p + n ≤ HEAP_END.
Proof.
  intros [Hr _] Hp. apply (live_iff _ _ _ _ Hr) in Hp as (d & Hin & _ & <-).
  destruct (tiled_elem _ _ _ _ _ (hr_tiled _ _ Hr) Hin) as ((_ & ? & _) & ? & ?).
  unfold HDR in *. lia.
Qed.

(** [kmalloc] through the interface. *)
Lemma kmalloc_fresh h size :
  (∃ xs, heap_inv h xs) → 0 < size ≤ 2 ^ 64 - 8 →
  returns (kmalloc h size) (λ '(p, h'),
    (p = 0 ∧ h' = h) ∨
    p ≠ 0 ∧ (∃ xs, heap_inv h' xs) ∧ kheap_live h p = None ∧
    (∃ m, size ≤ m ∧ kheap_live h' p = Some m) ∧
    ∀ q, q ≠ p → kheap_live h' q = kheap_live h q).
Proof.
  intros [xs Hi] Hn. eapply returns_mono; [by apply (kmalloc_step h xs size Hi)|].
  intros [p h'] [(-> & -> & _)|(l & a & d & r & -> & Hfit & _ & -> & Hi')]; [by left|right].
  destruct (aligned_spec size) as ((Hge & _) & _ & Hpos); [lia|].
  destruct (kmalloc_live h h' l a d r (aligned size) Hi Hfit) as (? & ? & (m & ? & ?) & ?);
    [apply Hpos; lia|done|].
  split_and!; [done|by eexists|done| |done]. exists m. split; [lia|done].
Qed.

(** [kcalloc] of [count * size] bytes, when the product does not overflow,
    returns [NULL] and changes nothing, or a fresh block that can hold them all
    and whose bytes are zero; every byte outside it is unchanged. *)
Theorem kcalloc_spec h xs mem count size :
  heap_inv h xs → 0 ≤ count → 0 ≤ size → 0 < count * size ≤ 2 ^ 64 - 8 →
  returns (kcalloc h mem count size) (λ '(p, h', mem'),
    (p = 0 ∧ h' = h ∧ mem' = mem) ∨
    p ≠ 0 ∧ kheap_live h p = None ∧
    (∃ m, count * size ≤ m ∧ kheap_live h' p = Some m) ∧
    (∀ i, p ≤ i < p + count * size → ld8 mem' i = 0) ∧
    (∀ i, i < p ∨ p + count * size ≤ i → ld8 mem' i = ld8 mem i)).
Proof.
  intros Hi Hc Hs Hn. unfold kcalloc. rewrite u64_small by lia. apply returns_bind.
  eapply returns_mono; [apply kmalloc_fresh; [by eexists|done]|].
  intros [p h'] [[-> ->]|(Hp & (ys & Hi') & Hnone & (m & Hm & Hlive) & _)]; [by left|right].
  destruct (live_bounds _ _ _ _ Hi' Hlive) as (? & ? & ?).
  destruct (Z.eqb_spec p 0); [done|]. unfold HEAP_START, HEAP_END, HDR in *.
  split_and!; [done|done|by exists m|..]; intros i Hrange;
    rewrite ld8_memset by (unfold HEAP_START, HEAP_SIZE in *; lia); repeat zcase; try done; lia.
Qed.

Lemma live_header h p n : kheap_live h p = Some n → HDR ≤ p < 2 ^ 64 →
  ∃ b, blocks h !! u64 (p - HDR) = Some b ∧ b_size b = n ∧ b_used b ≠ 0.
Proof.
  unfold kheap_live. intros Hl Hp. rewrite u64_small by (unfold HDR in *; lia).
  destruct (blocks h !! (p - HDR)) as [b|]; [|done]. exists b.
  destruct (Z.eqb_spec (b_used b) 0); [done|]. by injection Hl as <-.
Qed.

Lemma live_magic h xs p n b : heap_inv h xs → kheap_live h p = Some n →
  blocks h !! (p - HDR) = Some b → b_magic b = BLOCK_MAGIC.
Proof.
  intros [Hr _] Hl Hb. apply (live_iff _ _ _ _ Hr) in Hl as (d & Hin & _).
  apply list_elem_of_split in Hin as (l & r & ->).
  destruct (repr_item _ _ _ _ _ Hr) as ((? & _) & _).
  destruct (repr_node _ _ _ _ _ Hr) as (b' & Hb' & <-). by replace b' with b in * by congruence.
Qed.

(** [krealloc] of a live block of [n] bytes to [size] bytes fails with
    [NULL] and leaves the block alone, or returns a live block of at least
    [size] bytes that starts with the old contents; if the block moved, the
    old one is freed.  Every other live block stays. *)
Theorem krealloc_spec h xs mem p n size :
  heap_inv h xs → kheap_live h p = Some n → 0 < size ≤ 2 ^ 64 - 8 →
  returns (krealloc h mem p size) (λ '(q, h', mem'),
    (∃ ys, heap_inv h' ys) ∧
    ((q = 0 ∧ h' = h ∧ mem' = mem) ∨
     q ≠ 0 ∧ (∃ m, size ≤ m ∧ kheap_live h' q = Some m) ∧
     (∀ i, 0 ≤ i < Z.min n size → ld8 mem' (q + i) = ld8 mem (p + i)) ∧
     (q ≠ p → kheap_live h' p = None ∧ kheap_live h q = None) ∧
     ∀ r, r ≠ p → r ≠ q → kheap_live h' r = kheap_live h r)).
Proof.
  intros Hi Hp Hs. destruct (live_bounds _ _ _ _ Hi Hp) as (? & ? & ?).
  unfold HEAP_END, HEAP_START, HEAP_SIZE in *. unfold krealloc.
  destruct (Z.eqb_spec p 0) as [|Hp0]; [unfold HDR in *; lia|].
  destruct (Z.eqb_spec size 0) as [|Hs0]; [lia|].
  destruct (live_header _ _ _ Hp) as (b & Hb & Hbn & Hbu); [unfold HDR in *; lia|].
  rewrite (block_at_some _ _ _ Hb), bind_Ret. rewrite u64_small in Hb by (unfold HDR in *; lia).
  rewrite (live_magic _ _ _ _ _ Hi Hp Hb), Z.eqb_refl. cbn [negb]. rewrite Hbn.
  destruct (Z.leb_spec size n) as [Hle|Hgt].
  { split; [by eexists|]. right. split_and!; naive_solver. }
  apply returns_bind. eapply returns_mono; [apply kmalloc_fresh; [by eexists|done]|].
  intros [q h'] [[-> ->]|(Hq & (ys & Hi') & Hnone & (m & Hm & Hlive) & Hoth)].
  { cbn. split; [by eexists|]. by left. }
  assert (Hqp : p ≠ q) by congruence. destruct (Z.eqb_spec q 0) as [|_]; [done|].
  assert (Hp' : kheap_live h' p = Some n) by by rewrite Hoth.
  destruct (live_header _ _ _ Hp') as (b' & Hb' & Hbn' & _); [unfold HDR in *; lia|].
  rewrite (block_at_some _ _ _ Hb'), bind_Ret, Hbn'.
  apply returns_bind. eapply returns_mono; [by eapply kfree_live|].
  intros h2 (Hi2 & Hgone & Hoth2). split; [done|]. right.
  destruct (live_bounds _ _ _ _ Hi' Hlive) as (? & ? & ?).
  pose proof (live_disjoint _ _ _ _ _ _ Hi' Hp' Hlive Hqp).
  unfold HEAP_END, HEAP_START, HEAP_SIZE, HDR in *. split_and!; [done|..].
  - exists m. rewrite Hoth2 by done. done.
  - intros i Hr. rewrite ld8_memcpy by lia. repeat zcase; try lia; cbn; f_equal; lia.
  - done.
  - intros r Hrp Hrq. rewrite Hoth2, Hoth by done. done.
Qed.

(** ** Sizes that wrap around

    The hypothesis [size ≤ 2^64 - 8] of the theorems is needed: the rounding
    [(size + 7) & ~7] wraps above it, and [kcalloc] does not check its
    product. *)
Example kmalloc_wraps :
  ∃ h, kmalloc kheap_init (2 ^ 64 - 1) = Ret (HEAP_START + HDR, h) ∧
    kheap_live h (HEAP_START + HDR) = Some 0.
Proof. eexists. split; by vm_compute. Qed.

Example kcalloc_wraps mem :
  ∃ h mem', kcalloc kheap_init mem (2 ^ 62 + 1) 4 = Ret (HEAP_START + HDR, h, mem') ∧
    kheap_live h (HEAP_START + HDR) = Some 8.
Proof. do 2 eexists. split; [reflexivity|by vm_compute]. Qed.

(** ** Concrete runs *)

Definition block0 : bdata := BD BLOCK_MAGIC (HEAP_SIZE - HDR) 0.

Lemma kmalloc_witness :
  returns (kmalloc kheap_init 100) (λ '(p, h'), p = HEAP_START + HDR).
Proof.
  pose proof (kmalloc_spec kheap_init _ 100 kheap_init_inv ltac:(lia)) as H.
  apply returns_iff in H as ([p h'] & E & _). rewrite E. cbn. vm_compute in E.
  injection E as <- _. reflexivity.
Defined.

(** The heap after [kmalloc(100)]. *)
Definition heap1 : kheap :=
  match kmalloc kheap_init 100 with Ret (_, h) => h | _ => kheap_init end.

Lemma heap1_inv : heap_inv heap1 (placed HEAP_START block0 (aligned 100)).
Proof.
  pose proof (kmalloc_step kheap_init _ 100 kheap_init_inv ltac:(lia)) as H.
  apply returns_iff in H as ([p h'] & E & H). unfold heap1. rewrite E.
  destruct H as [(-> & -> & _)|(l & a & d & r & El & _ & _ & -> & Hi)].
  { vm_compute in E. discriminate. }
  destruct l as [|x l]; [|destruct l; discriminate].
  injection El as <- <- <-. by rewrite app_nil_r in Hi.
Qed.

Lemma kfree_witness :
  returns (kfree heap1 (HEAP_START + HDR)) (λ h', kheap_live h' (HEAP_START + HDR) = None).
Proof.
  destruct (kfree_spec heap1 _ heap1_inv) as (_ & _ & H).
  eapply returns_mono;
    [apply (H [] HEAP_START (BD BLOCK_MAGIC 104 1)
             [(HEAP_START + 144, BD BLOCK_MAGIC (HEAP_SIZE - 184) 0)]); [by vm_compute|done]|].
  intros h' (_ & Hn & _). exact Hn.
Defined.

Lemma kmalloc_kfree_witness :
  returns ('(p, h1) ← kmalloc heap1 5000; kfree h1 p) (λ h2, used_size h2 = 104).
Proof.
  eapply returns_mono; [apply (kmalloc_kfree_roundtrip heap1 _ 5000 heap1_inv); lia|].
  intros h2 (_ & -> & _). by vm_compute.
Defined.

Lemma kheap_stats_witness : kheap_get_used_size heap1 + kheap_get_free_size heap1 = HEAP_SIZE - 80.
Proof.
  destruct (proj2 kheap_stats_spec heap1 _ heap1_inv) as (H & Ht & _).
  rewrite Ht in H. revert H. by vm_compute.
Defined.

Lemma kcalloc_witness :
  returns (kcalloc heap1 ∅ 4 25) (λ '(p, h', mem'), p ≠ 0 → ld8 mem' (p + 99) = 0).
Proof.
  pose proof (kcalloc_spec heap1 _ ∅ 4 25 heap1_inv ltac:(lia) ltac:(lia) ltac:(lia)) as H.
  eapply returns_mono; [exact H|]. intros [[p h'] mem'].
  intros [(E & _)|(_ & _ & _ & Hz & _)] Hp; [contradiction|]. apply Hz. clear. lia.
Defined.

Lemma krealloc_witness :
  returns (krealloc heap1 ∅ (HEAP_START + HDR) 1000)
    (λ '(q, h', mem'), q ≠ 0 → ld8 mem' (q + 103) = ld8 ∅ (HEAP_START + HDR + 103)).
Proof.
  pose proof (krealloc_spec heap1 _ ∅ (HEAP_START + HDR) 104 1000 heap1_inv
    ltac:(by vm_compute) ltac:(lia)) as H.
  eapply returns_mono; [exact H|]. intros [[q h'] mem'].
  intros (_ & [(E & _)|(_ & _ & Hb & _)]) Hq; [contradiction|]. apply Hb. clear. lia.
Defined.
