(* ===== verification/Paging.v ===== *)
(** Four-level page tables, [mem/paging/paging.c]: creating the tables of a
    path, mapping, unmapping and translating a page, over the bytes of memory
    and any allocator of physical frames. *)
From S2P Require Import Prelude Interfaces Ram PhysMem Kheap.
Import MemLib.

Definition PTE_PRESENT : Z := 1.
Definition PTE_WRITABLE : Z := 2.
Definition PTE_USER : Z := 4.
Definition PTE_HUGE : Z := Z.shiftl 1 7.
Definition PTE_NO_EXEC : Z := Z.shiftl 1 63.
Definition PTE_ADDR_MASK : Z := 0x000FFFFFFFFFF000.

(** [kernel_pml4] is a pointer, 0 before [paging_init]. *)
Record paging := Paging {
  kernel_pml4 : Z;
  hhdm_offset : Z;
}.

Definition pml4_index (va : Z) : Z := Z.land (Z.shiftr va 39) 0x1FF.
Definition pdp_index (va : Z) : Z := Z.land (Z.shiftr va 30) 0x1FF.
Definition pd_index (va : Z) : Z := Z.land (Z.shiftr va 21) 0x1FF.
Definition pt_index (va : Z) : Z := Z.land (Z.shiftr va 12) 0x1FF.

(** [table->entries[i]], for a pointer [table]. *)
Definition get_entry (m : ram) (table i : Z) : Z := ld64 m (table + 8 * i).
Definition set_entry (m : ram) (table i e : Z) : ram := st64 m (table + 8 * i) e.

#[global] Arguments get_entry : simpl never.
#[global] Arguments set_entry : simpl never.

Section ops.
Context {F : Type} `{FrameAlloc F}.

(** One "get or create" block of the mapping functions; [tflags] are the flags
    of a new table. *)
Definition get_or_create (off tflags : Z) (m : ram) (f : F) (table i : Z) :
    res (Z * ram * F) :=
  let e := get_entry m table i in
  if has e PTE_PRESENT then Ret (u64 (Z.land e PTE_ADDR_MASK + off), m, f) else
  '(phys, f) ← fa_alloc f;
  if phys =? 0 then Panic else
  let m := set_entry m table i (Z.lor (Z.land phys PTE_ADDR_MASK) tflags) in
  let t := u64 (phys + off) in
  Ret (t, memset m t 0 4096, f).

Definition map_page (off tflags : Z) (m : ram) (f : F) (pml4 va pa flags : Z) :
    res (ram * F) :=
  '(pdpt, m, f) ← get_or_create off tflags m f pml4 (pml4_index va);
  '(pd, m, f) ← get_or_create off tflags m f pdpt (pdp_index va);
  '(pt, m, f) ← get_or_create off tflags m f pd (pd_index va);
  Ret (set_entry m pt (pt_index va) (Z.lor (Z.land pa PTE_ADDR_MASK) flags), f).

Definition paging_map_page (g : paging) (off : Z) (m : ram) (f : F) (va pa flags : Z) :
    res (ram * F) :=
  map_page off (Z.lor PTE_PRESENT PTE_WRITABLE) m f (kernel_pml4 g) va pa flags.

Definition paging_map_page_in (g : paging) (m : ram) (f : F) (pml4_phys va pa flags : Z) :
    res (ram * F) :=
  map_page (hhdm_offset g) (Z.lor (Z.lor PTE_PRESENT PTE_WRITABLE) PTE_USER) m f
    (u64 (pml4_phys + hhdm_offset g)) va pa flags.
End ops.

(** The walk down to the page table: [None] at an absent table. *)
Definition walk (off : Z) (m : ram) (table i : Z) : option Z :=
  let e := get_entry m table i in
  if has e PTE_PRESENT then Some (u64 (Z.land e PTE_ADDR_MASK + off)) else None.

Definition walk_pt (off : Z) (m : ram) (pml4 va : Z) : option Z :=
  pdpt ← walk off m pml4 (pml4_index va);
  pd ← walk off m pdpt (pdp_index va);
  walk off m pd (pd_index va).

Definition paging_get_physical_address (g : paging) (m : ram) (va : Z) : Z :=
  if kernel_pml4 g =? 0 then 0 else
  match walk_pt (hhdm_offset g) m (kernel_pml4 g) va with
  | None => 0
  | Some pt =>
      let e := get_entry m pt (pt_index va) in
      if has e PTE_PRESENT then Z.lor (Z.land e PTE_ADDR_MASK) (Z.land va 0xFFF) else 0
  end.

Definition unmap_page (off : Z) (m : ram) (pml4 va : Z) : ram :=
  match walk_pt off m pml4 va with
  | None => m
  | Some pt =>
      if has (get_entry m pt (pt_index va)) PTE_PRESENT
      then set_entry m pt (pt_index va) 0 else m
  end.

Definition paging_unmap_page (g : paging) (m : ram) (va : Z) : ram :=
  if kernel_pml4 g =? 0 then m else unmap_page (hhdm_offset g) m (kernel_pml4 g) va.

Definition paging_unmap_page_in (g : paging) (m : ram) (pml4_phys va : Z) : ram :=
  unmap_page (hhdm_offset g) m (u64 (pml4_phys + hhdm_offset g)) va.

(** [paging_init]: [cr3] is the value of the register, [off] the offset in the
    response of the boot loader. *)
Definition paging_init (cr3 off : Z) (m : ram) (f : physmem) : res (paging * ram * physmem) :=
  if (off <=? HEAP_START) && (HEAP_START <? u64 (off + 0x1000000000)) then Panic else
  let g := Paging (u64 (Z.land cr3 PTE_ADDR_MASK + off)) off in
  let heap_frames_len := HEAP_SIZE / PAGE_SIZE in
  '(phys, f) ← physmem_alloc_to f heap_frames_len;
  if phys =? 0 then Panic else
  '(m, f) ← for_range 0 heap_frames_len (λ i '(m, f),
    paging_map_page g off m f (u64 (HEAP_START + i * PAGE_SIZE)) (u64 (phys + i * PAGE_SIZE))
      (Z.lor PTE_PRESENT PTE_WRITABLE)) (m, f);
  Ret (g, m, f).

(** ** Page tables as trees *)

Lemma idx_range va k : 0 ≤ Z.land (Z.shiftr va k) 0x1FF < 512.
Proof. pose proof (land_bound (Z.shiftr va k) 0x1FF). lia. Qed.

Definition frame_ok (t : Z) : Prop := 0 < t < 2 ^ 47 ∧ t mod 4096 = 0.

Lemma mask_frame t : frame_ok t → Z.land t PTE_ADDR_MASK = t.
Proof.
  intros [? E]. change PTE_ADDR_MASK with (2 ^ 52 - 1 - (2 ^ 12 - 1)).
  rewrite (land_clear_low 52 12) by lia. change (2 ^ 12) with 4096. lia.
Qed.

(** A table entry made of a frame and flags. *)
Lemma entry_frame t fl :
  frame_ok t → Z.land fl PTE_ADDR_MASK = 0 →
  Z.land (Z.lor t fl) PTE_ADDR_MASK = t.
Proof. intros Ht Hf. by rewrite Z.land_lor_distr_l, Hf, Z.lor_0_r, mask_frame. Qed.

Section tree.
(** [off] is the offset of the direct map of physical memory; [D] says which
    slots of the top table are described (the boot loader's own mappings use
    large pages, which the code never walks). *)
Context (off : Z) (Hoff : 0 ≤ off ∧ off + 2 ^ 47 ≤ 2 ^ 64) (D : Z → Prop).

Implicit Types (m : ram) (t : Z) (p q : list Z).

(** The table below entry [i] of the table at physical address [t]. *)
Definition next m t i : option Z :=
  let e := get_entry m (u64 (t + off)) i in
  if has e PTE_PRESENT then Some (Z.land e PTE_ADDR_MASK) else None.

(** The physical address of the table reached from the table [r] by a path. *)
Definition table_at m r p : option Z :=
  foldl (λ o i, t ← o; next m t i) (Some r) p.

Definition path_ok p : Prop :=
  (length p ≤ 3)%nat ∧ Forall (λ i, 0 ≤ i < 512) p ∧ ∀ i, head p = Some i → D i.

(** The tables reached from [r] are frames in use, and no table is reached
    twice. *)
Record pt_wf (U : Z → Prop) m r : Prop := {
  wf_frame p t : path_ok p → table_at m r p = Some t → frame_ok t ∧ U t;
  wf_inj p q t : path_ok p → path_ok q →
    table_at m r p = Some t → table_at m r q = Some t → p = q;
}.

Lemma table_at_snoc m r p i : table_at m r (p ++ [i]) = t ← table_at m r p; next m t i.
Proof. unfold table_at. by rewrite foldl_snoc. Qed.

Lemma path_ok_nil : path_ok [].
Proof. split_and!; [cbn; lia|constructor|done]. Qed.

Lemma path_ok_snoc p i : path_ok (p ++ [i]) → path_ok p ∧ 0 ≤ i < 512 ∧ (length p < 3)%nat.
Proof.
  intros (Hl & Hf & Hd). rewrite length_app in Hl. cbn in Hl.
  apply Forall_app in Hf as [Hf Hi]. inversion Hi; subst.
  split_and!; [split_and!; [lia|done|]|lia|lia|lia].
  destruct p as [|j p]; [done|]. intros k [= <-]. by apply Hd.
Qed.

Lemma path_ok_prefix p q : p `prefix_of` q → path_ok q → path_ok p.
Proof.
  intros [k ->]. induction k as [|x k IH] using rev_ind; [by rewrite app_nil_r|].
  rewrite (assoc_L (++)). by intros [? _]%path_ok_snoc; auto.
Qed.

Lemma table_va t : frame_ok t → u64 (t + off) = t + off.
Proof. intros [? _]. apply u64_small. lia. Qed.

(** Different tables, or different entries, do not overlap. *)
Lemma entry_disjoint t i t' i' :
  frame_ok t → frame_ok t' → 0 ≤ i < 512 → 0 ≤ i' < 512 → (t, i) ≠ (t', i') →
  let a := u64 (t + off) + 8 * i in let b := u64 (t' + off) + 8 * i' in
  a + 8 ≤ b ∨ b + 8 ≤ a.
Proof.
  intros Ht Ht' Hi Hi' Hne. rewrite !table_va by done. destruct Ht as [_ Ht], Ht' as [_ Ht'].
  destruct (Z.eq_dec t t') as [->|].
  - assert (i ≠ i') by congruence. lia.
  - assert (t + 4096 ≤ t' ∨ t' + 4096 ≤ t) by dlia. lia.
Qed.

(** *** The effect of a change at one entry

    [m'] differs from [m] in entry [i] of the table [t] at path [p] only, as
    far as the tables of [r] are concerned. *)
Definition changes_only (U : Z → Prop) m m' t i : Prop :=
  ∀ t' j, frame_ok t' → U t' → 0 ≤ j < 512 → (t', j) ≠ (t, i) →
    get_entry m' (u64 (t' + off)) j = get_entry m (u64 (t' + off)) j.

Lemma table_at_other U m m' r p t i q :
  pt_wf U m r → path_ok p → table_at m r p = Some t → changes_only U m m' t i →
  path_ok q → ¬ (p ++ [i]) `prefix_of` q → table_at m' r q = table_at m r q.
Proof.
  intros Hwf Hp Ht Hch. induction q as [|j q IH] using rev_ind; intros Hq Hpre; [done|].
  rewrite !table_at_snoc. apply path_ok_snoc in Hq as (Hq & Hj & _).
  rewrite IH by (try done; intros Hx; apply Hpre; by apply prefix_app_r).
  destruct (table_at m r q) as [t'|] eqn:E; [|done]. cbn. unfold next.
  destruct (wf_frame _ _ _ Hwf _ _ Hq E) as [Hf Hu].
  rewrite (Hch t' j); try done. intros [= -> ->]. apply Hpre.
  by rewrite (wf_inj _ _ _ Hwf q p t Hq Hp E Ht).
Qed.

(** Changing a final entry leaves every table in place. *)
Lemma table_at_leaf U m m' r p t i q :
  pt_wf U m r → path_ok p → length p = 3%nat → table_at m r p = Some t →
  changes_only U m m' t i → path_ok q → table_at m' r q = table_at m r q.
Proof.
  intros Hwf Hp Hl Ht Hch Hq. apply (table_at_other U m m' r p t i q); try done.
  intros Hpre%prefix_length. rewrite length_app in Hpre. destruct Hq as (? & _). cbn in Hpre. lia.
Qed.

(** *** Writing an entry *)

Lemma get_set_entry_eq m T i e : 0 ≤ e < 2 ^ 64 → get_entry (set_entry m T i e) T i = e.
Proof. apply ld64_st64_eq. Qed.

Lemma set_entry_changes U m t i e :
  frame_ok t → 0 ≤ i < 512 → changes_only U m (set_entry m (u64 (t + off)) i e) t i.
Proof.
  intros Ht Hi t' j Ht' _ Hj Hne. apply ld64_st64_ne.
  apply entry_disjoint; congruence || done.
Qed.

(** The memory after entry [i] of [t] is set to [e] and the new table [n] is
    cleared. *)
Definition with_table m t i e n : ram :=
  memset (set_entry m (u64 (t + off)) i e) (u64 (n + off)) 0 4096.

Lemma with_table_eq m t i e n :
  memset (set_entry m (u64 (t + off)) i e) (u64 (n + off)) 0 4096 = with_table m t i e n.
Proof. done. Qed.

Lemma get_entry_memset_other m n t j v :
  frame_ok n → frame_ok t → t ≠ n → 0 ≤ j < 512 →
  get_entry (memset m (u64 (n + off)) v 4096) (u64 (t + off)) j = get_entry m (u64 (t + off)) j.
Proof.
  intros Hn Ht Hne Hj. rewrite !table_va by done. destruct Hn as [? Hn], Ht as [? Ht].
  assert (t + 4096 ≤ n ∨ n + 4096 ≤ t) by dlia. apply ld64_memset_out; dlia.
Qed.

Lemma get_entry_cleared m n j :
  frame_ok n → 0 ≤ j < 512 →
  get_entry (memset m (u64 (n + off)) 0 4096) (u64 (n + off)) j = 0.
Proof.
  intros Hn Hj. rewrite !table_va by done. destruct Hn as [? Hn]. apply ld64_memset_in; dlia.
Qed.

Lemma with_table_changes (U : Z → Prop) m t i e n :
  frame_ok t → 0 ≤ i < 512 → frame_ok n → ¬ U n → changes_only U m (with_table m t i e n) t i.
Proof.
  intros Ht Hi Hn Hu t' j Ht' Hu' Hj Hne. unfold with_table.
  rewrite get_entry_memset_other by (try done; congruence).
  by apply (set_entry_changes U).
Qed.

Lemma table_at_none m r p k : table_at m r p = None → table_at m r (p ++ k) = None.
Proof.
  intros Hp. induction k as [|x k IH] using rev_ind; [by rewrite app_nil_r|].
  by rewrite (assoc_L (++)), table_at_snoc, IH.
Qed.

Lemma next_with_table m t i e n :
  frame_ok t → frame_ok n → t ≠ n → 0 ≤ i < 512 → 0 ≤ e < 2 ^ 64 → has e PTE_PRESENT = true →
  Z.land e PTE_ADDR_MASK = n → next (with_table m t i e n) t i = Some n.
Proof.
  intros Ht Hn Hne Hi He Hp Hm. unfold next, with_table.
  rewrite get_entry_memset_other, get_set_entry_eq by done. by rewrite Hp, Hm.
Qed.

(** The tables after the creation of a table: one more, at [p ++ [i]]. *)
Lemma table_at_create (U : Z → Prop) m r p t i e n q :
  pt_wf U m r → path_ok (p ++ [i]) → table_at m r p = Some t → next m t i = None →
  frame_ok n → ¬ U n → 0 ≤ e < 2 ^ 64 → has e PTE_PRESENT = true →
  Z.land e PTE_ADDR_MASK = n → path_ok q →
  table_at (with_table m t i e n) r q = if decide (q = p ++ [i]) then Some n else table_at m r q.
Proof.
  intros Hwf Hpi Ht Hnext Hn Hnu He Hpe Hme Hq.
  pose proof (path_ok_snoc _ _ Hpi) as (Hp & Hi & _).
  destruct (wf_frame _ _ _ Hwf _ _ Hp Ht) as [Hft Hut].
  set (m' := with_table m t i e n).
  assert (Hch : changes_only U m m' t i) by by apply with_table_changes.
  assert (Hpi' : table_at m' r (p ++ [i]) = Some n).
  { rewrite table_at_snoc, (table_at_other U m m' r p t i p), Ht; try done.
    - cbn. apply next_with_table; try done. congruence.
    - intros Hx%prefix_length. rewrite length_app in Hx. cbn in Hx. lia. }
  case_decide as Hd; [by subst q|].
  destruct (decide ((p ++ [i]) `prefix_of` q)) as [[k ->]|Hpre].
  2:{ by apply (table_at_other U m m' r p t i q). }
  rewrite (table_at_none m); [|rewrite table_at_snoc, Ht; done].
  destruct k as [|j k]; [by rewrite app_nil_r in Hd|].
  change (j :: k) with ([j] ++ k). rewrite (assoc_L (++)). apply table_at_none.
  rewrite table_at_snoc, Hpi'. cbn. unfold next, m', with_table.
  rewrite get_entry_cleared; [done|done|].
  destruct Hq as (_ & Hq & _). apply Forall_app in Hq as [_ Hq]. by inversion Hq.
Qed.

(** The bytes of frames in use that are not page tables of [r], and of memory
    outside the direct map, are untouched. *)
Definition kept (U : Z → Prop) m m' r : Prop :=
  (∀ a x, frame_ok a → U a → (∀ q, path_ok q → table_at m r q ≠ Some a) →
     a + off ≤ x < a + off + 4096 → ld8 m' x = ld8 m x) ∧
  (∀ x, x < off ∨ off + 2 ^ 47 ≤ x → ld8 m' x = ld8 m x).

Lemma ld8_set_entry m T i e x :
  x < T + 8 * i ∨ T + 8 * i + 8 ≤ x → ld8 (set_entry m T i e) x = ld8 m x.
Proof. intros. apply ld8_st_le_out. lia. Qed.

Lemma set_entry_kept U m r p t i e :
  path_ok p → table_at m r p = Some t → frame_ok t → 0 ≤ i < 512 →
  kept U m (set_entry m (u64 (t + off)) i e) r.
Proof.
  intros Hp Ht Hf Hi. rewrite table_va by done. pose proof Hf as [? Ht0]. split.
  - intros a x [? Ha] _ Hna Hx. assert (a ≠ t) by (intros ->; by apply (Hna p)).
    assert (t + 4096 ≤ a ∨ a + 4096 ≤ t) by dlia. apply ld8_set_entry. lia.
  - intros x Hx. apply ld8_set_entry. dlia.
Qed.

Lemma with_table_kept (U : Z → Prop) m r p t i e n :
  path_ok p → table_at m r p = Some t → frame_ok t → 0 ≤ i < 512 → frame_ok n → ¬ U n →
  kept U m (with_table m t i e n) r.
Proof.
  intros Hp Ht Hf Hi Hn Hu. destruct (set_entry_kept U m r p t i e Hp Ht Hf Hi) as [H1 H2].
  unfold with_table. rewrite (table_va n) by done. pose proof Hn as [? Hn0]. split.
  - intros a x Ha Hua Hna Hx. rewrite <- (H1 a x) by done. destruct Ha as [? Ha].
    assert (a ≠ n) by (intros ->; done). assert (n + 4096 ≤ a ∨ a + 4096 ≤ n) by dlia.
    rewrite ld8_memset by dlia. repeat zcase; try done; lia.
  - intros x Hx. rewrite <- (H2 x) by done. rewrite ld8_memset by dlia.
    repeat zcase; try done; dlia.
Qed.

(** *** Page table entries *)

Definition pt_path (va : Z) : list Z := [pml4_index va; pdp_index va; pd_index va].

(** The present page table entry of an address. *)
Definition pte_at m r va : option Z :=
  t ← table_at m r (pt_path va);
  let e := get_entry m (u64 (t + off)) (pt_index va) in
  if has e PTE_PRESENT then Some e else None.

(** The page number of an address: 36 bits are translated. *)
Definition page_of (va : Z) : Z := (va / 4096) mod 2 ^ 36.

Lemma index_div va k : 0 ≤ k → Z.land (Z.shiftr va k) 0x1FF = (va / 2 ^ k) mod 512.
Proof.
  intros Hk. change 0x1FF with (Z.ones 9). rewrite Z.land_ones, Z.shiftr_div_pow2 by lia. done.
Qed.

Lemma page_of_indices va :
  page_of va = ((pml4_index va * 512 + pdp_index va) * 512 + pd_index va) * 512 + pt_index va.
Proof.
  unfold page_of, pml4_index, pdp_index, pd_index, pt_index. rewrite !index_div by lia.
  change (2 ^ 39) with (4096 * (512 * (512 * 512))). change (2 ^ 30) with (4096 * (512 * 512)).
  change (2 ^ 21) with (4096 * 512). change (2 ^ 12) with 4096.
  rewrite <- !Z.div_div by lia. generalize (va / 4096). clear. intros x. dlia.
Qed.

Lemma page_of_eq va va' :
  page_of va = page_of va' → pt_path va = pt_path va' ∧ pt_index va = pt_index va'.
Proof.
  rewrite !page_of_indices. unfold pt_path.
  pose proof (idx_range va 12). pose proof (idx_range va 21). pose proof (idx_range va 30).
  pose proof (idx_range va 39). pose proof (idx_range va' 12). pose proof (idx_range va' 21).
  pose proof (idx_range va' 30). pose proof (idx_range va' 39).
  fold (pt_index va) (pd_index va) (pdp_index va) (pml4_index va) in *.
  fold (pt_index va') (pd_index va') (pdp_index va') (pml4_index va') in *.
  intros E. assert (pt_index va = pt_index va' ∧ pd_index va = pd_index va' ∧
    pdp_index va = pdp_index va' ∧ pml4_index va = pml4_index va') as (-> & -> & -> & ->) by lia.
  done.
Qed.

Lemma pt_path_ok va : D (pml4_index va) → path_ok (pt_path va).
Proof.
  intros Hd. split_and!; [done| |].
  - repeat constructor; apply idx_range.
  - intros i [= <-]. done.
Qed.

(** Creating a table does not change any translation. *)
Lemma pte_at_create (U : Z → Prop) m r p t i e n va :
  pt_wf U m r → path_ok (p ++ [i]) → table_at m r p = Some t → next m t i = None →
  frame_ok n → ¬ U n → 0 ≤ e < 2 ^ 64 → has e PTE_PRESENT = true →
  Z.land e PTE_ADDR_MASK = n → D (pml4_index va) →
  pte_at (with_table m t i e n) r va = pte_at m r va.
Proof.
  intros Hwf Hpi Ht Hnext Hn Hnu He Hpe Hme Hd.
  pose proof (path_ok_snoc _ _ Hpi) as (Hp & Hi & Hlen).
  destruct (wf_frame _ _ _ Hwf _ _ Hp Ht) as [Hft Hut].
  unfold pte_at. rewrite (table_at_create U m r p t i e n) by (try done; by apply pt_path_ok).
  case_decide as Hd'.
  - rewrite Hd', table_at_snoc, Ht. cbn. rewrite Hnext. unfold with_table.
    rewrite get_entry_cleared; [done|done|apply idx_range].
  - destruct (table_at m r (pt_path va)) as [t1|] eqn:E1; [|done]. cbn.
    destruct (wf_frame _ _ _ Hwf _ _ (pt_path_ok _ Hd) E1) as [Hf1 Hu1].
    rewrite (with_table_changes U m t i e n Hft Hi Hn Hnu t1); [done..|apply idx_range|].
    intros [= -> _]. rewrite (wf_inj _ _ _ Hwf p (pt_path va) t) in Hlen; try done.
    + cbn in Hlen. lia.
    + by apply pt_path_ok.
Qed.

(** Writing a page table entry. *)
Lemma pte_at_set U m r va t e va' :
  pt_wf U m r → D (pml4_index va) → D (pml4_index va') → table_at m r (pt_path va) = Some t →
  0 ≤ e < 2 ^ 64 →
  pte_at (set_entry m (u64 (t + off)) (pt_index va) e) r va' =
    if decide (page_of va' = page_of va) then (if has e PTE_PRESENT then Some e else None)
    else pte_at m r va'.
Proof.
  intros Hwf Hd Hd' Ht He. pose proof (pt_path_ok _ Hd) as Hp. pose proof (pt_path_ok _ Hd') as Hp'.
  destruct (wf_frame _ _ _ Hwf _ _ Hp Ht) as [Hft Hut].
  pose proof (set_entry_changes U m t (pt_index va) e Hft (idx_range _ _)) as Hch.
  unfold pte_at. rewrite (table_at_leaf U m _ r (pt_path va) t _ (pt_path va')) by done.
  case_decide as Hs.
  - apply page_of_eq in Hs as [-> ->]. rewrite Ht. cbn. by rewrite get_set_entry_eq.
  - destruct (table_at m r (pt_path va')) as [t1|] eqn:E1; [|done]. cbn.
    destruct (wf_frame _ _ _ Hwf _ _ Hp' E1) as [Hf1 Hu1].
    rewrite (Hch t1); [done..|apply idx_range|].
    intros [= -> Hi]. apply Hs. pose proof (wf_inj _ _ _ Hwf _ _ _ Hp' Hp E1 Ht) as E.
    rewrite !page_of_indices, Hi. by injection E as -> -> ->.
Qed.
End tree.

(** ** The operations *)

Section spec.
Context {F : Type} `{FA : FrameAlloc F}.
Context (off : Z) (Hoff : 0 ≤ off ∧ off + 2 ^ 47 ≤ 2 ^ 64) (D : Z → Prop).
Implicit Types (m : ram) (f : F).

(** What every operation on the tables of [r] guarantees. *)
Record pt_step (f : F) m (f' : F) m' r : Prop := {
  ps_inv : fa_inv f';
  ps_wf : pt_wf off D (fa_used f') m' r;
  ps_used a : a mod 4096 = 0 → fa_used f a → fa_used f' a;
  ps_keep q t : path_ok D q → table_at off m r q = Some t → table_at off m' r q = Some t;
  ps_new q t : path_ok D q → table_at off m' r q = Some t →
    table_at off m r q = Some t ∨ ¬ fa_used f t;
  ps_kept : kept off D (fa_used f) m m' r;
}.

Lemma pt_step_refl f m r :
  fa_inv f → pt_wf off D (fa_used f) m r → pt_step f m f m r.
Proof. intros. split; auto. by split. Qed.

Lemma pt_step_trans f m f1 m1 f2 m2 r :
  pt_step f m f1 m1 r → pt_step f1 m1 f2 m2 r → pt_step f m f2 m2 r.
Proof.
  intros [? W1 U1 K1 N1 [B1 C1]] [? W2 U2 K2 N2 [B2 C2]]. split; auto.
  - intros q t Hq Ht. destruct (N2 _ _ Hq Ht) as [?|Hn]; [by apply N1|].
    right. intros Hu. apply Hn, U1; [|done]. by apply (wf_frame _ _ _ _ _ W2 _ _ Hq Ht).
  - split; [|intros x Hx; by rewrite C2, C1].
    intros a x Ha Hu Hna Hx. rewrite (B2 a), (B1 a); try done.
    + apply U1; [apply Ha|done].
    + intros q Hq Hx'. destruct (N1 _ _ Hq Hx') as [?|?]; [by apply (Hna q)|done].
Qed.

(** Flags that [map_page] puts on new tables. *)
Definition table_flags (tf : Z) : Prop :=
  0 ≤ tf < 2 ^ 12 ∧ has tf PTE_PRESENT = true.

Lemma table_flags_mask tf : table_flags tf → Z.land tf PTE_ADDR_MASK = 0.
Proof.
  intros [Ht _]. apply Z.bits_inj'; intros n Hn. rewrite Z.land_spec, Z.bits_0.
  destruct (Z.ltb_spec n 12).
  - change PTE_ADDR_MASK with (Z.shiftl (Z.ones 40) 12).
    rewrite Z.shiftl_spec_low by lia. by rewrite andb_false_r.
  - destruct (Z.eq_dec tf 0) as [->|]; [by rewrite Z.bits_0|].
    rewrite (Z.bits_above_log2 tf); [done|lia|].
    assert (Z.log2 tf < 12); [apply Z.log2_lt_pow2; lia|lia].
Qed.

Lemma lor_bound a b n : 0 ≤ n → 0 ≤ a < 2 ^ n → 0 ≤ b < 2 ^ n → 0 ≤ Z.lor a b < 2 ^ n.
Proof.
  intros Hn Ha Hb. split; [apply Z.lor_nonneg; lia|].
  destruct (Z.eq_dec (Z.lor a b) 0) as [->|Hne]; [lia|].
  assert (0 ≤ Z.lor a b) by (apply Z.lor_nonneg; lia).
  apply Z.log2_lt_pow2; [lia|]. rewrite Z.log2_lor by lia.
  apply Z.max_lub_lt.
  - destruct (Z.eq_dec a 0) as [->|]; [|apply Z.log2_lt_pow2; lia].
    cbn. destruct (Z.eq_dec n 0) as [->|]; [|lia]. assert (b = 0) as -> by lia. done.
  - destruct (Z.eq_dec b 0) as [->|]; [|apply Z.log2_lt_pow2; lia].
    cbn. destruct (Z.eq_dec n 0) as [->|]; [|lia]. assert (a = 0) as -> by lia. done.
Qed.

Lemma entry_flags n tf :
  frame_ok n → table_flags tf →
  let e := Z.lor (Z.land n PTE_ADDR_MASK) tf in
  0 ≤ e < 2 ^ 64 ∧ has e PTE_PRESENT = true ∧ Z.land e PTE_ADDR_MASK = n.
Proof.
  intros Hn Ht e. subst e. rewrite mask_frame by done.
  split; [apply lor_bound; [lia|destruct Hn; lia|destruct Ht; lia]|split].
  - rewrite has_lor. destruct Ht as [_ ->]. apply orb_true_r.
  - apply entry_frame; [done|by apply table_flags_mask].
Qed.

Definition same_view m m' r : Prop :=
  ∀ va, D (pml4_index va) → pte_at off m' r va = pte_at off m r va.

Lemma get_or_create_spec tf m f r p t i :
  table_flags tf → fa_inv f → pt_wf off D (fa_used f) m r → path_ok D (p ++ [i]) →
  table_at off m r p = Some t →
  or_panic (get_or_create off tf m f (u64 (t + off)) i) (λ '(T, m', f'),
    pt_step f m f' m' r ∧ same_view m m' r ∧
    ∃ n, T = u64 (n + off) ∧ table_at off m' r (p ++ [i]) = Some n).
Proof.
  intros Htf Hf Hwf Hpi Ht. pose proof (path_ok_snoc _ _ _ Hpi) as (Hp & Hi & _).
  destruct (wf_frame _ _ _ _ _ Hwf _ _ Hp Ht) as [Hft Hut]. unfold get_or_create.
  destruct (has _ PTE_PRESENT) eqn:Eh.
  { split_and!; [by apply pt_step_refl|done|]. eexists. split; [done|].
    rewrite table_at_snoc, Ht. cbn. unfold next. by rewrite Eh. }
  apply or_panic_bind. pose proof (fa_alloc_spec f Hf) as Ha.
  apply returns_iff in Ha as ([n f'] & -> & Hf' & [[-> ->]|(Hn1 & Hn2 & Hnu & Hu)]); [done|].
  cbn [or_panic]. destruct (Z.eqb_spec n 0) as [|_]; [lia|]. cbn [or_panic].
  assert (Hn : frame_ok n) by done. destruct (entry_flags n tf Hn Htf) as (He & Hpe & Hme).
  set (e := Z.lor _ tf) in *. rewrite (with_table_eq off m t i e n).
  assert (Hnext : next off m t i = None) by (unfold next; by rewrite Eh).
  assert (Hta : ∀ q, path_ok D q → table_at off (with_table off m t i e n) r q =
    if decide (q = p ++ [i]) then Some n else table_at off m r q).
  { intros q Hq. by apply (table_at_create off Hoff D (fa_used f)). }
  split_and!.
  - split; [done| |..].
    + split.
      * intros q a Hq. rewrite Hta by done. case_decide.
        -- intros [= <-]. split; [done|]. apply Hu; auto.
        -- intros Ea. destruct (wf_frame _ _ _ _ _ Hwf _ _ Hq Ea) as [Hfa Hua].
           split; [done|]. apply Hu; [apply Hfa|auto].
      * intros q q' a Hq Hq'. rewrite !Hta by done.
        assert (Hnn : ∀ q, path_ok D q → table_at off m r q ≠ Some n).
        { intros q0 Hq0 E0. by destruct (wf_frame _ _ _ _ _ Hwf _ _ Hq0 E0). }
        case_decide as D1; case_decide as D2; intros E1 E2.
        -- by rewrite D1, D2.
        -- destruct (Hnn q' Hq'). congruence.
        -- destruct (Hnn q Hq). congruence.
        -- by apply (wf_inj _ _ _ _ _ Hwf q q' a).
    + intros a Ha Hua. apply Hu; auto.
    + intros q a Hq Hqa. rewrite Hta by done. case_decide as Hd; [|done]. subst q.
      rewrite table_at_snoc, Ht in Hqa. cbn in Hqa. congruence.
    + intros q a Hq. rewrite Hta by done. case_decide; [|auto]. intros [= <-]. auto.
    + by apply (with_table_kept off Hoff D (fa_used f) m r p).
  - intros va Hd. by apply (pte_at_create off Hoff D (fa_used f) m r p).
  - exists n. split; [done|]. rewrite Hta by done. by rewrite decide_True.
Qed.

Lemma set_leaf_step m f r va t e :
  fa_inv f → pt_wf off D (fa_used f) m r → D (pml4_index va) →
  table_at off m r (pt_path va) = Some t →
  pt_step f m f (set_entry m (u64 (t + off)) (pt_index va) e) r.
Proof.
  intros Hf Hwf Hd Ht. pose proof (pt_path_ok _ _ Hd) as Hp.
  destruct (wf_frame _ _ _ _ _ Hwf _ _ Hp Ht) as [Hft Hut].
  pose proof (set_entry_changes off Hoff D (fa_used f) m t (pt_index va) e Hft (idx_range _ _)) as Hch.
  assert (Hta : ∀ q, path_ok D q →
    table_at off (set_entry m (u64 (t + off)) (pt_index va) e) r q = table_at off m r q).
  { intros q Hq. by apply (table_at_leaf off D (fa_used f) m _ r (pt_path va) t (pt_index va)). }
  split; auto.
  - split.
    + intros q a Hq. rewrite Hta by done. by apply (wf_frame _ _ _ _ _ Hwf).
    + intros q q' a Hq Hq'. rewrite !Hta by done. by apply (wf_inj _ _ _ _ _ Hwf).
  - intros q a Hq Ha. by rewrite Hta.
  - intros q a Hq. rewrite Hta by done. auto.
  - apply (set_entry_kept off Hoff D _ m r (pt_path va)); try done. apply idx_range.
Qed.

(** The entry that maps a page. *)
Definition leaf_entry (pa flags : Z) : Z := Z.lor (Z.land pa PTE_ADDR_MASK) flags.

Lemma map_page_spec tf m f r va pa flags :
  table_flags tf → fa_inv f → pt_wf off D (fa_used f) m r → D (pml4_index va) →
  0 ≤ flags < 2 ^ 64 →
  or_panic (map_page off tf m f (u64 (r + off)) va pa flags) (λ '(m', f'),
    pt_step f m f' m' r ∧
    ∀ va', D (pml4_index va') → pte_at off m' r va' =
      if decide (page_of va' = page_of va)
      then (if has (leaf_entry pa flags) PTE_PRESENT then Some (leaf_entry pa flags) else None)
      else pte_at off m r va').
Proof.
  intros Htf Hf Hwf Hd Hfl. unfold map_page.
  pose proof (pt_path_ok _ _ Hd) as Hp3. pose proof (path_ok_snoc _ [_; _] _ Hp3) as (Hp2 & _).
  pose proof (path_ok_snoc _ [_] _ Hp2) as (Hp1 & _).
  apply or_panic_bind. eapply or_panic_mono;
    [by apply (get_or_create_spec tf m f r [] r)|].
  intros [[T1 m1] f1] (S1 & V1 & n1 & -> & E1). cbn beta iota.
  apply or_panic_bind. eapply or_panic_mono;
    [apply (get_or_create_spec tf m1 f1 r [pml4_index va] n1); try done; apply S1|].
  intros [[T2 m2] f2] (S2 & V2 & n2 & -> & E2). cbn beta iota.
  apply or_panic_bind. eapply or_panic_mono;
    [apply (get_or_create_spec tf m2 f2 r [pml4_index va; pdp_index va] n2); try done; apply S2|].
  intros [[T3 m3] f3] (S3 & V3 & n3 & -> & E3). cbn beta iota.
  assert (He : 0 ≤ leaf_entry pa flags < 2 ^ 64).
  { apply lor_bound; [lia| |done]. pose proof (land_bound pa PTE_ADDR_MASK).
    unfold PTE_ADDR_MASK in *. lia. }
  split.
  - eapply pt_step_trans; [exact S1|]. eapply pt_step_trans; [exact S2|].
    eapply pt_step_trans; [exact S3|]. apply set_leaf_step; try done; apply S3.
  - intros va' Hd'. rewrite (pte_at_set off Hoff D (fa_used f3) m3 r va n3); try done; [|apply S3].
    case_decide; [done|]. by rewrite V3, V2, V1.
Qed.

(** *** Translation as the code reads it *)

Lemma walk_next m t i : walk off m (u64 (t + off)) i = (λ t', u64 (t' + off)) <$> next off m t i.
Proof. unfold walk, next. by destruct (has _ _). Qed.

Lemma walk_pt_table m r va :
  walk_pt off m (u64 (r + off)) va = (λ t, u64 (t + off)) <$> table_at off m r (pt_path va).
Proof.
  unfold walk_pt, table_at, pt_path. rewrite walk_next. cbn.
  destruct (next off m r _) as [t1|]; [|done]. cbn. rewrite walk_next.
  destruct (next off m t1 _) as [t2|]; [|done]. cbn. by rewrite walk_next.
Qed.

Lemma get_phys_pte g m U r va :
  kernel_pml4 g = u64 (r + off) → hhdm_offset g = off → pt_wf off D U m r → 
  paging_get_physical_address g m va =
    match pte_at off m r va with
    | None => 0
    | Some e => Z.lor (Z.land e PTE_ADDR_MASK) (Z.land va 0xFFF)
    end.
Proof.
  intros Hk Ho Hwf. unfold paging_get_physical_address. rewrite Hk, Ho.
  destruct (wf_frame _ _ _ _ _ Hwf [] r) as [Hr _]; [apply path_ok_nil|done|].
  rewrite walk_pt_table. rewrite table_va at 1 by done.
  destruct (Z.eqb_spec (r + off) 0) as [E|_]; [destruct Hr; lia|].
  unfold pte_at. destruct (table_at off m r (pt_path va)) as [t|]; [|done]. cbn.
  by destruct (has _ _).
Qed.

Lemma unmap_page_spec m f r va :
  fa_inv f → pt_wf off D (fa_used f) m r → D (pml4_index va) →
  let m' := unmap_page off m (u64 (r + off)) va in
  pt_step f m f m' r ∧
  ∀ va', D (pml4_index va') → pte_at off m' r va' =
    if decide (page_of va' = page_of va) then None else pte_at off m r va'.
Proof.
  intros Hf Hwf Hd m'. subst m'. unfold unmap_page. rewrite walk_pt_table.
  assert (Hsame : ∀ va', page_of va' = page_of va → pte_at off m r va' = pte_at off m r va).
  { intros va' [E1 E2]%page_of_eq. unfold pte_at. by rewrite E1, E2. }
  destruct (table_at off m r (pt_path va)) as [t|] eqn:Et; cbn [fmap option_fmap option_map].
  2:{ split; [by apply pt_step_refl|]. intros va' Hd'. case_decide as E; [|done].
      rewrite Hsame by done. unfold pte_at. by rewrite Et. }
  destruct (has _ PTE_PRESENT) eqn:Ep.
  - split; [by apply set_leaf_step|]. intros va' Hd'.
    by rewrite (pte_at_set off Hoff D (fa_used f) m r va t) by done.
  - split; [by apply pt_step_refl|]. intros va' Hd'. case_decide as E; [|done].
    rewrite Hsame by done. unfold pte_at. rewrite Et. cbn. by rewrite Ep.
Qed.
End spec.

(** The flag sets of the two mapping functions. *)
Lemma kernel_flags : table_flags (Z.lor PTE_PRESENT PTE_WRITABLE).
Proof. by split. Qed.
Lemma user_flags : table_flags (Z.lor (Z.lor PTE_PRESENT PTE_WRITABLE) PTE_USER).
Proof. by split. Qed.

Lemma leaf_entry_addr pa flags :
  Z.land flags PTE_ADDR_MASK = 0 →
  Z.land (leaf_entry pa flags) PTE_ADDR_MASK = Z.land pa PTE_ADDR_MASK.
Proof.
  intros Hf. unfold leaf_entry. rewrite Z.land_lor_distr_l, Hf, Z.lor_0_r.
  by rewrite <- Z.land_assoc, Z.land_diag.
Qed.

(** The kernel's page tables: [r] is the frame of [kernel_pml4]. *)
Record kernel_tables {F} `{FrameAlloc F} (D : Z → Prop) (g : paging) (m : ram) (f : F)
    (r : Z) : Prop := {
  kt_off : 0 ≤ hhdm_offset g ∧ hhdm_offset g + 2 ^ 47 ≤ 2 ^ 64;
  kt_root : kernel_pml4 g = u64 (r + hhdm_offset g);
  kt_inv : fa_inv f;
  kt_wf : pt_wf (hhdm_offset g) D (fa_used f) m r;
}.

(** C4. [paging_map_page] maps one page and nothing else: unless it panics for
    want of a frame, afterwards the page translates to the given physical page,
    every other address translates as before, the tables are well-formed again
    (distinct frames, all in use), and every frame in use that is not one of
    the tables keeps its contents, as does all memory outside the direct map. *)
Theorem paging_map_page_spec {F} `{FrameAlloc F} D g m (f : F) r va pa flags :
  kernel_tables D g m f r → D (pml4_index va) → 0 ≤ flags < 2 ^ 64 →
  has flags PTE_PRESENT = true → Z.land flags PTE_ADDR_MASK = 0 →
  or_panic (paging_map_page g (hhdm_offset g) m f va pa flags) (λ '(m', f'),
    kernel_tables D g m' f' r ∧ kept (hhdm_offset g) D (fa_used f) m m' r ∧
    paging_get_physical_address g m' va = Z.lor (Z.land pa PTE_ADDR_MASK) (Z.land va 0xFFF) ∧
    ∀ va', D (pml4_index va') → page_of va' ≠ page_of va →
      paging_get_physical_address g m' va' = paging_get_physical_address g m va').
Proof.
  intros [Ho Hr Hf Hwf] Hd Hfl Hp Hm. unfold paging_map_page. rewrite Hr.
  eapply or_panic_mono; [by apply (map_page_spec _ Ho D _ m f r); [apply kernel_flags|..]|].
  intros [m' f'] [S V]. split; [split; try done; apply S|]. split; [apply S|].
  assert (G : ∀ va', paging_get_physical_address g m' va' = _)
    by (intros va'; apply (get_phys_pte _ Ho D g m' (fa_used f') r); [done..|apply S]).
  assert (G0 : ∀ va', paging_get_physical_address g m va' = _)
    by (intros va'; by apply (get_phys_pte _ Ho D g m (fa_used f) r)).
  split; [|intros va' Hd' Hne]; rewrite G, V by done.
  - rewrite decide_True by done. replace (has _ _) with true by
      (unfold leaf_entry; by rewrite has_lor, Hp, orb_true_r).
    by rewrite leaf_entry_addr.
  - by rewrite decide_False, G0.
Qed.

(** [paging_unmap_page] removes exactly one translation: afterwards
    addresses of that page translate to [NULL] and all others as before, and
    the tables stay well-formed. *)
Theorem paging_unmap_page_spec {F} `{FrameAlloc F} D g m (f : F) r va :
  kernel_tables D g m f r → D (pml4_index va) →
  kernel_tables D g (paging_unmap_page g m va) f r ∧
  kept (hhdm_offset g) D (fa_used f) m (paging_unmap_page g m va) r ∧
  ∀ va', D (pml4_index va') →
    paging_get_physical_address g (paging_unmap_page g m va) va' =
      if decide (page_of va' = page_of va) then 0 else paging_get_physical_address g m va'.
Proof.
  intros [Ho Hr Hf Hwf] Hd. unfold paging_unmap_page.
  destruct (wf_frame _ _ _ _ _ Hwf [] r) as [Hfr _]; [apply path_ok_nil|done|].
  destruct (Z.eqb_spec (kernel_pml4 g) 0) as [E|_].
  { rewrite Hr, table_va in E by done. destruct Hfr. lia. }
  rewrite Hr. destruct (unmap_page_spec _ Ho D m f r va Hf Hwf Hd) as [S V].
  split; [split; try done; apply S|]. split; [apply S|]. intros va' Hd'.
  rewrite (get_phys_pte _ Ho D g _ (fa_used f) r va') by (try done; apply S).
  rewrite (get_phys_pte _ Ho D g m (fa_used f) r va') by done.
  rewrite V by done. by case_decide.
Qed.

(** ** Several address spaces *)

Lemma pt_wf_mono off D (U U' : Z → Prop) m r :
  pt_wf off D U m r → (∀ a, a mod 4096 = 0 → U a → U' a) → pt_wf off D U' m r.
Proof.
  intros Hwf HU. split; [|apply Hwf]. intros p t Hp Ht.
  destruct (wf_frame _ _ _ _ _ Hwf _ _ Hp Ht) as [Hf Hu]. split; [done|]. apply HU; [apply Hf|done].
Qed.

Section isolation.
Context (off : Z) (Hoff : 0 ≤ off ∧ off + 2 ^ 47 ≤ 2 ^ 64) (D : Z → Prop).

(** The tables of two roots are distinct. *)
Definition pt_disjoint (m : ram) (r1 r2 : Z) : Prop :=
  ∀ p q t, path_ok D p → path_ok D q → table_at off m r1 p = Some t → table_at off m r2 q ≠ Some t.

Lemma kept_entry (U : Z → Prop) m m' r a i :
  kept off D U m m' r → frame_ok a → U a → (∀ q, path_ok D q → table_at off m r q ≠ Some a) →
  0 ≤ i < 512 → get_entry m' (u64 (a + off)) i = get_entry m (u64 (a + off)) i.
Proof.
  intros [Hk _] Ha Hu Hn Hi. rewrite table_va by done. unfold get_entry, ld64. apply ld_le_ext.
  intros b Hb. apply (Hk a); try done. lia.
Qed.

(** [m'] and [m] agree on the tables of [r]. *)
Definition agree (m m' : ram) (r : Z) : Prop :=
  ∀ q t i, path_ok D q → table_at off m r q = Some t → 0 ≤ i < 512 →
    get_entry m' (u64 (t + off)) i = get_entry m (u64 (t + off)) i.

Lemma agree_tables m m' r q : agree m m' r → path_ok D q → table_at off m' r q = table_at off m r q.
Proof.
  intros Ha. induction q as [|i q IH] using rev_ind; intros Hq; [done|].
  rewrite !table_at_snoc. apply path_ok_snoc in Hq as (Hq & Hi & _). rewrite IH by done.
  destruct (table_at off m r q) as [t|] eqn:E; [|done]. cbn. unfold next.
  by rewrite (Ha q t i Hq E Hi).
Qed.

Lemma agree_pte m m' r va : agree m m' r → D (pml4_index va) → pte_at off m' r va = pte_at off m r va.
Proof.
  intros Ha Hd. pose proof (pt_path_ok _ _ Hd) as Hp. unfold pte_at. rewrite (agree_tables m m') by done.
  destruct (table_at off m r (pt_path va)) as [t|] eqn:E; [|done]. cbn.
  rewrite (Ha _ t (pt_index va) Hp E); [done|apply idx_range].
Qed.

Lemma agree_wf U m m' r : agree m m' r → pt_wf off D U m r → pt_wf off D U m' r.
Proof.
  intros Ha Hwf. split.
  - intros p t Hp. rewrite (agree_tables m m') by done. by apply (wf_frame _ _ _ _ _ Hwf).
  - intros p q t Hp Hq. rewrite !(agree_tables m m') by done. by apply (wf_inj _ _ _ _ _ Hwf).
Qed.

(** Bytes written to a frame that is no table of [r]. *)
Lemma agree_frame m m' U r a :
  pt_wf off D U m r → frame_ok a → (∀ q, path_ok D q → table_at off m r q ≠ Some a) →
  (∀ x, x < a + off ∨ a + off + 4096 ≤ x → ld8 m' x = ld8 m x) → agree m m' r.
Proof.
  intros Hwf Ha Hna Hx q t i Hq Ht Hi. destruct (wf_frame _ _ _ _ _ Hwf _ _ Hq Ht) as [Hft _].
  rewrite table_va by done. unfold get_entry, ld64. apply ld_le_ext. intros b Hb. apply Hx.
  assert (a ≠ t) by (intros ->; by apply (Hna q)). destruct Ha, Hft.
  assert (t + 4096 ≤ a ∨ a + 4096 ≤ t) by dlia. lia.
Qed.

(** A space whose tables are not those of [r1] is not affected by a change to
    the tables of [r1]. *)
Lemma kept_agree (U : Z → Prop) m m' r1 r2 :
  kept off D U m m' r1 → pt_wf off D U m r2 → pt_disjoint m r1 r2 → agree m m' r2.
Proof.
  intros Hk Hwf Hdj q t i Hq Ht Hi. destruct (wf_frame _ _ _ _ _ Hwf _ _ Hq Ht) as [Hf Hu].
  apply (kept_entry U m m' r1); try done. intros p Hp Ht'. by apply (Hdj p q t).
Qed.

Lemma kept_tables (U : Z → Prop) m m' r1 r2 q :
  kept off D U m m' r1 → pt_wf off D U m r2 → pt_disjoint m r1 r2 → path_ok D q →
  table_at off m' r2 q = table_at off m r2 q.
Proof. intros Hk Hwf Hdj. apply agree_tables. by eapply kept_agree. Qed.

Lemma kept_pte (U : Z → Prop) m m' r1 r2 va :
  kept off D U m m' r1 → pt_wf off D U m r2 → pt_disjoint m r1 r2 → D (pml4_index va) →
  pte_at off m' r2 va = pte_at off m r2 va.
Proof. intros Hk Hwf Hdj. apply agree_pte. by eapply kept_agree. Qed.

Lemma kept_wf (U U' : Z → Prop) m m' r1 r2 :
  kept off D U m m' r1 → pt_wf off D U m r2 → pt_disjoint m r1 r2 →
  (∀ a, a mod 4096 = 0 → U a → U' a) → pt_wf off D U' m' r2.
Proof.
  intros Hk Hwf Hdj HU. apply (pt_wf_mono off D U); [|done].
  eapply agree_wf; [by eapply kept_agree|done].
Qed.
End isolation.

Lemma step_disjoint {F} `{FrameAlloc F} off D (f : F) m f' m' r1 r2 :
  0 ≤ off ∧ off + 2 ^ 47 ≤ 2 ^ 64 →
  pt_step off D f m f' m' r1 → pt_wf off D (fa_used f) m r2 → pt_disjoint off D m r1 r2 →
  pt_disjoint off D m' r1 r2.
Proof.
  intros Ho S Hwf Hdj p q t Hp Hq Ht. rewrite (kept_tables off Ho D (fa_used f) m m' r1 r2);
    [|apply S|done..].
  intros Ht2. destruct (ps_new _ _ _ _ _ _ _ S p t Hp Ht) as [Ht'|Hnu].
  - by apply (Hdj p q t).
  - apply Hnu. by apply (wf_frame _ _ _ _ _ Hwf _ _ Hq Ht2).
Qed.

(** C5. [paging_map_page_in] maps one page in one address space and no other:
    unless it panics for want of a frame, in the space [r1] exactly that page's
    entry becomes the given one, and in any space [r2] whose user tables are
    not shared with [r1] every translation is unchanged; the tables of both
    stay well-formed and disjoint. *)
Theorem paging_map_page_in_isolated {F} `{FrameAlloc F} D g m (f : F) r1 r2 va pa flags :
  let off := hhdm_offset g in
  0 ≤ off ∧ off + 2 ^ 47 ≤ 2 ^ 64 → fa_inv f →
  pt_wf off D (fa_used f) m r1 → pt_wf off D (fa_used f) m r2 → pt_disjoint off D m r1 r2 →
  D (pml4_index va) → 0 ≤ flags < 2 ^ 64 → has flags PTE_PRESENT = true →
  or_panic (paging_map_page_in g m f r1 va pa flags) (λ '(m', f'),
    fa_inv f' ∧ pt_wf off D (fa_used f') m' r1 ∧ pt_wf off D (fa_used f') m' r2 ∧
    pt_disjoint off D m' r1 r2 ∧
    (∀ va', D (pml4_index va') →
       pte_at off m' r1 va' = if decide (page_of va' = page_of va)
                              then Some (leaf_entry pa flags) else pte_at off m r1 va') ∧
    (∀ va', D (pml4_index va') → pte_at off m' r2 va' = pte_at off m r2 va')).
Proof.
  intros off Ho Hf Hwf1 Hwf2 Hdj Hd Hfl Hp. unfold paging_map_page_in.
  eapply or_panic_mono; [by apply (map_page_spec off Ho D _ m f r1); [apply user_flags|..]|].
  intros [m' f'] [S V]. split_and!; try apply S.
  - apply (kept_wf off Ho D (fa_used f) _ m m' r1); try done; apply S.
  - by eapply step_disjoint.
  - intros va' Hd'. rewrite V by done. case_decide; [|done].
    replace (has _ _) with true; [done|]. unfold leaf_entry.
    by rewrite has_lor, Hp, orb_true_r.
  - intros va' Hd'. apply (kept_pte off Ho D (fa_used f) m m' r1 r2); try done. apply S.
Qed.

(** ** Initialisation *)

(** The page-map slot of the heap. *)
Definition heap_slot (i : Z) : Prop := i = pml4_index HEAP_START.

(** Page [j] of the heap. *)
Definition heap_page (j : Z) : Z := HEAP_START + j * PAGE_SIZE.

Lemma heap_page_slot j : 0 ≤ j < HEAP_SIZE / PAGE_SIZE → heap_slot (pml4_index (heap_page j)).
Proof.
  unfold heap_slot, heap_page, pml4_index. rewrite !index_div by lia.
  unfold HEAP_START, HEAP_SIZE, PAGE_SIZE. intros. dlia.
Qed.

Lemma heap_page_inj i j :
  0 ≤ i < HEAP_SIZE / PAGE_SIZE → 0 ≤ j < HEAP_SIZE / PAGE_SIZE →
  page_of (heap_page i) = page_of (heap_page j) → i = j.
Proof. unfold page_of, heap_page, HEAP_START, HEAP_SIZE, PAGE_SIZE. intros. dlia. Qed.

(** The loop of [paging_init]. *)
Definition heap_flags : Z := Z.lor PTE_PRESENT PTE_WRITABLE.

Record heap_mapped (off phys : Z) (m0 : ram) (f0 : physmem) (r i : Z) (s : ram * physmem) : Prop := {
  hm_step : pt_step off heap_slot f0 m0 s.2 s.1 r;
  hm_pte j : 0 ≤ j < i →
    pte_at off s.1 r (heap_page j) = Some (leaf_entry (phys + j * PAGE_SIZE) heap_flags);
}.

Lemma paging_init_loop g off phys m f r :
  0 ≤ off ∧ off + 2 ^ 47 ≤ 2 ^ 64 → kernel_pml4 g = u64 (r + off) →
  0 ≤ phys → phys + HEAP_SIZE ≤ 2 ^ 47 →
  fa_inv f → pt_wf off heap_slot (fa_used f) m r →
  or_panic (for_range 0 (HEAP_SIZE / PAGE_SIZE) (λ i '(m, f),
    paging_map_page g off m f (u64 (HEAP_START + i * PAGE_SIZE)) (u64 (phys + i * PAGE_SIZE))
      (Z.lor PTE_PRESENT PTE_WRITABLE)) (m, f))
    (heap_mapped off phys m f r (HEAP_SIZE / PAGE_SIZE)).
Proof.
  intros Ho Hg Hp0 Hp Hf Hwf. apply (for_range_panic (heap_mapped off phys m f r)).
  - unfold HEAP_SIZE, PAGE_SIZE. dlia.
  - split; [by apply pt_step_refl|lia].
  - intros i [m1 f1] Hi [S V]. cbn [fst snd] in S, V. unfold paging_map_page. rewrite Hg.
    fold (heap_page i). pose proof (heap_page_slot i Hi) as Hsl.
    assert (Hi' : 0 ≤ i < 8192) by done.
    rewrite (u64_small (heap_page i)) by (unfold heap_page, HEAP_START, PAGE_SIZE; lia).
    rewrite (u64_small (phys + _)) by (unfold HEAP_SIZE, PAGE_SIZE in *; lia).
    eapply or_panic_mono.
    { apply (map_page_spec off Ho heap_slot _ m1 f1 r); try done; apply S. }
    intros [m2 f2] [S2 V2]. split; cbn [fst snd]; [by eapply pt_step_trans|].
    intros j Hj. assert (0 ≤ j < HEAP_SIZE / PAGE_SIZE) by lia.
    rewrite V2 by by apply heap_page_slot. case_decide as Hd.
    + apply heap_page_inj in Hd; [|done..]. subst j. unfold leaf_entry, heap_flags.
      by rewrite has_lor, orb_true_r.
    + apply V. assert (j ≠ i) by congruence. lia.
Qed.

Lemma physmem_alloc_frames p count :
  physmem_inv p → 0 < count < 2 ^ 47 →
  returns (physmem_alloc_to p count) (λ '(a, p'),
    physmem_inv p' ∧ (a = 0 ∧ p' = p ∨
      0 < a ∧ a + count * PAGE_SIZE ≤ 2 ^ 47 ∧ a mod 4096 = 0 ∧
      (∀ b, b mod 4096 = 0 → physmem_used p b → physmem_used p' b) ∧
      ∀ b, b mod 4096 = 0 → a ≤ b < a + count * PAGE_SIZE → ¬ physmem_used p b ∧ physmem_used p' b)).
Proof.
  intros [W H0] Hc. eapply returns_mono; [apply physmem_alloc_to_marks; [done|lia]|].
  intros [a p'] [(-> & -> & _)|(s & -> & Hr & _ & M)]; [by split; [|left]|].
  destruct Hr as (Hs & Ht & Hf). pose proof (wf_total _ W).
  assert (s ≠ 0) by (intros ->; rewrite Hf in H0 by lia; done).
  assert (Hbit : ∀ f, 0 ≤ f → frame_bit p' f = _) by apply (mk_bit _ _ _ _ _ _ M).
  split; [split; [apply M|]|right].
  { rewrite Hbit by lia. repeat zcase; try done; lia. }
  unfold physmem_used. rewrite (mk_total _ _ _ _ _ _ M).
  split_and!; [unfold PAGE_SIZE; lia|unfold PAGE_SIZE; lia|unfold PAGE_SIZE; dlia|..].
  - intros b Hb [?|Hu]; [by left|].
    destruct (Z.lt_ge_cases (b / PAGE_SIZE) 0); [left; lia|]. right. rewrite Hbit by done.
    by destruct (_ && _).
  - intros b Hb Hrange.
    assert (s ≤ b / PAGE_SIZE < s + count) by (unfold PAGE_SIZE in *; dlia). split.
    + rewrite Hf by done. intros [?|?]; [lia|done].
    + right. rewrite Hbit by lia. repeat zcase; try done; lia.
Qed.

(** [paging_init] backs the kernel heap: unless it panics (the heap lies in
    the direct-map window, or memory runs out), every heap address [va]
    translates to [phys + (va - HEAP_START)] for one run [phys] of frames that
    were free before the call and are in use after it, none of which is a page
    table; the kernel's tables are well-formed afterwards. *)
Theorem paging_init_spec cr3 off m f :
  let r := Z.land cr3 PTE_ADDR_MASK in
  0 ≤ off ∧ off + 2 ^ 47 ≤ 2 ^ 64 → fa_inv f → pt_wf off heap_slot (fa_used f) m r →
  or_panic (paging_init cr3 off m f) (λ '(g, m', f'),
    kernel_tables heap_slot g m' f' r ∧ ∃ phys, phys mod 4096 = 0 ∧
      (∀ va, HEAP_START ≤ va < HEAP_START + HEAP_SIZE →
         paging_get_physical_address g m' va = phys + (va - HEAP_START)) ∧
      (∀ b, b mod 4096 = 0 → phys ≤ b < phys + HEAP_SIZE →
         ¬ physmem_used f b ∧ physmem_used f' b)).
Proof.
  intros r Ho Hf Hwf. unfold paging_init. destruct (_ && _); [done|].
  apply or_panic_bind, returns_or_panic.
  eapply returns_mono; [apply physmem_alloc_frames; [done|done]|].
  intros [phys f1] (Hf1 & [[-> ->]|(Hp & Hpe & Hal & Hmono & Hfresh)]); [done|].
  destruct (Z.eqb_spec phys 0) as [|_]; [lia|]. apply or_panic_bind.
  change (HEAP_SIZE / PAGE_SIZE * PAGE_SIZE) with HEAP_SIZE in *.
  eapply or_panic_mono.
  { apply (paging_init_loop (Paging (u64 (r + off)) off) off phys m f1 r); try done; try lia.
    by eapply pt_wf_mono. }
  intros [m2 f2] [S V]. cbn [fst snd or_panic] in *.
  split; [split; try done; apply S|]. exists phys. split; [done|]. split.
  - intros va Hva. set (j := (va - HEAP_START) / PAGE_SIZE).
    assert (Hj : 0 ≤ j < HEAP_SIZE / PAGE_SIZE) by (unfold j, HEAP_SIZE, PAGE_SIZE in *; dlia).
    rewrite (get_phys_pte off Ho heap_slot _ m2 (fa_used f2) r) by (try done; apply S).
    assert (Hj' : 0 ≤ j < 8192) by exact Hj.
    assert (Hpg : page_of va = page_of (heap_page j)).
    { unfold page_of, heap_page, j, HEAP_START, PAGE_SIZE in *. f_equal. dlia. }
    apply page_of_eq in Hpg as [E1 E2].
    assert (Hpte : pte_at off m2 r va = pte_at off m2 r (heap_page j))
      by (unfold pte_at; by rewrite E1, E2).
    rewrite Hpte, V by done. rewrite leaf_entry_addr by done.
    rewrite mask_frame by (unfold frame_ok, HEAP_SIZE, PAGE_SIZE in *; split; [lia|dlia]).
    change 0xFFF with (Z.ones 12). rewrite Z.land_ones by lia.
    change (2 ^ 12) with 4096. rewrite (lor_low 12).
    + unfold j, HEAP_START, PAGE_SIZE in *. dlia.
    + lia.
    + change (2 ^ 12) with 4096. unfold PAGE_SIZE. dlia.
    + change (2 ^ 12) with 4096. dlia.
  - intros b Hb Hr. destruct (Hfresh b Hb Hr) as [? Hu]. split; [done|]. by apply S.
Qed.

(** ** Concrete runs: empty tables at frames 1 and 2 of a 16-frame machine *)

Lemma ld_le_empty n a : ld_le n ∅ a = 0.
Proof.
  revert a. induction n as [|n IH]; intros a; cbn [ld_le]; [done|].
  rewrite IH. unfold ld8. by rewrite lookup_empty.
Qed.

Lemma next_empty off t i : next off ∅ t i = None.
Proof. unfold next, get_entry, ld64. by rewrite ld_le_empty. Qed.

Lemma table_at_empty off r p t : table_at off ∅ r p = Some t → p = [] ∧ t = r.
Proof.
  induction p as [|i p _] using rev_ind; [by intros [= <-]|].
  rewrite table_at_snoc. destruct (table_at off ∅ r p); cbn; [by rewrite next_empty|done].
Qed.

Lemma pt_wf_empty off D (U : Z → Prop) r : frame_ok r → U r → pt_wf off D U ∅ r.
Proof.
  intros Hr Hu. split.
  - intros p t _ [_ ->]%table_at_empty. done.
  - intros p q t _ _ [-> _]%table_at_empty [-> _]%table_at_empty. done.
Qed.

Definition hhdm : Z := 0xFFFF800000000000.
Definition paging0 : paging := Paging (0x1000 + hhdm) hhdm.
Definition user_slot (i : Z) : Prop := i < 256.

Lemma pm16_inv : fa_inv pm16.
Proof. split; [exact pm16_wf|reflexivity]. Defined.

Lemma paging0_tables : kernel_tables user_slot paging0 ∅ pm16 0x1000.
Proof.
  split; [vdone|reflexivity|exact pm16_inv|].
  apply pt_wf_empty; [vdone|]. right. reflexivity.
Defined.

Lemma paging_map_page_witness :
  returns (paging_map_page paging0 hhdm ∅ pm16 0x400000 0x8000 3)
    (λ '(m', f'), paging_get_physical_address paging0 m' 0x400000 = 0x8000).
Proof.
  pose proof (paging_map_page_spec user_slot paging0 ∅ pm16 0x1000 0x400000 0x8000 3
    paging0_tables eq_refl ltac:(lia) eq_refl eq_refl) as H.
  eapply returns_mono; [apply (or_panic_returns _ _ H); vm_compute; reflexivity|]. intros [m' f'] (_ & _ & Hp & _). exact Hp.
Defined.

Lemma paging_unmap_page_witness :
  paging_get_physical_address paging0 (paging_unmap_page paging0 ∅ 0x400000) 0x400FFF = 0.
Proof.
  destruct (paging_unmap_page_spec user_slot paging0 ∅ pm16 0x1000 0x400000
    paging0_tables eq_refl) as (_ & _ & H).
  rewrite (H 0x400FFF eq_refl). vdone.
Defined.

Lemma paging_map_page_in_witness :
  returns (paging_map_page_in paging0 ∅ pm16 0x1000 0x400000 0x8000 7)
    (λ '(m', f'), pte_at hhdm m' 0x1000 0x400000 = Some 0x8007 ∧
                  pte_at hhdm m' 0x2000 0x400000 = None).
Proof.
  assert (W : ∀ r, frame_ok r → frame_bit pm16 (r / PAGE_SIZE) = true →
    pt_wf hhdm user_slot (fa_used pm16) ∅ r) by (intros r Hr Hb; apply pt_wf_empty; [done|by right]).
  pose proof (paging_map_page_in_isolated user_slot paging0 ∅ pm16 0x1000 0x2000 0x400000 0x8000 7
    ltac:(vdone) pm16_inv (W 0x1000 ltac:(vdone) eq_refl)
    (W 0x2000 ltac:(vdone) eq_refl)) as H.
  assert (Hdj : pt_disjoint hhdm user_slot ∅ 0x1000 0x2000).
  { intros p q t _ _ [_ ->]%table_at_empty [_ E]%table_at_empty. done. }
  specialize (H Hdj eq_refl ltac:(lia) eq_refl).
  eapply returns_mono; [apply (or_panic_returns _ _ H); vm_compute; reflexivity|]. intros [m' f'] (_ & _ & _ & _ & H1 & H2). split.
  - etransitivity; [apply (H1 0x400000 eq_refl)|]. vm_compute. reflexivity.
  - etransitivity; [apply (H2 0x400000 eq_refl)|]. reflexivity.
Defined.

(** 128 MiB of memory, the first 4 MiB in use. *)
Definition pm128 : physmem :=
  PhysMem (Some (replicate 1024 (Pageframe 1 1) ++ replicate 31744 (Pageframe 0 0)))
    32768 (replicate 128 0xFF ++ replicate 3968 0) 4096 0x8000000.

Lemma pm128_inv : fa_inv pm128.
Proof.
  split; [|reflexivity]. split; [by eexists|vdone|vdone|].
  apply Forall_app. split; by apply Forall_replicate.
Defined.

Lemma paging_init_witness :
  or_panic (paging_init 0x1000 0xFFFF800000000000 ∅ pm128) (λ '(g, m', f'), ∃ phys,
    paging_get_physical_address g m' (HEAP_START + 0x1234567) = phys + 0x1234567).
Proof.
  pose proof (paging_init_spec 0x1000 hhdm ∅ pm128 ltac:(vdone) pm128_inv) as H.
  assert (W : pt_wf hhdm heap_slot (fa_used pm128) ∅ 0x1000).
  { apply pt_wf_empty; [vdone|]. right. vdone. }
  eapply or_panic_mono; [exact (H W)|]. intros [[g m'] f'] (_ & phys & _ & Hva & _).
  exists phys. rewrite (Hva (HEAP_START + 0x1234567)) by vdone.
  unfold HEAP_START. lia.
Defined.
