(* ===== verification/Vmm.v ===== *)
(** The kernel's virtual address arena, the first half of [mem/vmm/vmm.c]:
    regions that tile [[VMM_BASE, VMM_LIMIT)], kept in a linked list whose nodes
    come from the kernel heap. *)
From S2P Require Import Prelude Interfaces DList Kheap.

Definition VMM_REGION_FREE : Z := 0x00.
Definition VMM_REGION_USED : Z := 0x01.
Definition VMM_REGION_USER : Z := 0x04.
Definition VMM_REGION_READ : Z := 0x10.
Definition VMM_REGION_WRITE : Z := 0x20.
Definition VMM_REGION_EXEC : Z := 0x40.
Definition VMM_REGION_COW : Z := 0x100.
Definition VMM_REGION_MMIO : Z := 0x200.

Definition VMM_BASE : Z := 0xFFFF900000000000.
Definition VMM_LIMIT : Z := 0xFFFFF00000000000.

Definition PAGE_ALIGN_UP (x : Z) : Z := Z.land (u64 (x + 0xFFF)) (not64 0xFFF).
Definition PAGE_ALIGN_DOWN (x : Z) : Z := Z.land x (not64 0xFFF).

(** [vmm_region_t]; [sizeof] is 40. *)
Record vmm_region := Region {
  r_base : Z;
  r_size : Z;
  r_flags : Z;
  r_prev : Z;
  r_next : Z;
}.
Record rdata := RD { d_base : Z; d_size : Z; d_flags : Z }.

#[export] Instance region_linked : Linked vmm_region rdata := {|
  nd_next := r_next;
  nd_prev := r_prev;
  nd_data r := RD (r_base r) (r_size r) (r_flags r);
  nd_set_prev r p := Region (r_base r) (r_size r) (r_flags r) p (r_next r);
  nd_next_set_prev _ _ := eq_refl;
  nd_prev_set_prev _ _ := eq_refl;
  nd_data_set_prev _ _ := eq_refl;
|}.

(** The allocated region nodes.  A freed node leaves the store: a later access
    to it is undefined. *)
Notation nodes := (gmap Z vmm_region).

Definition set_next (r : vmm_region) (n : Z) : vmm_region :=
  Region (r_base r) (r_size r) (r_flags r) (r_prev r) n.

Section arena.
Context {H : Type} `{HeapAlloc H}.

(** [region_alloc] and [region_free]; 0 is [NULL]. *)
Definition region_alloc (ns : nodes) (h : H) : res (Z * nodes * H) :=
  '(r, h) ← ka_malloc h 40;
  if r =? 0 then Ret (0, ns, h) else Ret (r, <[r := Region 0 0 0 0 0]> ns, h).

Definition region_free (ns : nodes) (h : H) (r : Z) : res (nodes * H) :=
  if r =? 0 then Ret (ns, h) else
  h ← ka_free h r; Ret (delete r ns, h).

Record arena := Arena {
  vmm_head : Z;
  vmm_nodes : nodes;
  vmm_heap : H;
  vmm_total : Z;
  vmm_used : Z;
  vmm_free_bytes : Z;
  vmm_regions : Z;
  vmm_used_regions : Z;
}.

Definition node (ns : nodes) (a : Z) : res vmm_region := deref (ns !! a).

Definition merge_with_next (v : arena) (r : Z) : res arena :=
  if r =? 0 then Ret v else
  rn ← node (vmm_nodes v) r;
  if r_next rn =? 0 then Ret v else
  nx ← node (vmm_nodes v) (r_next rn);
  if has (r_flags rn) VMM_REGION_USED || has (r_flags nx) VMM_REGION_USED then Ret v else
  if negb (u64 (r_base rn + r_size rn) =? r_base nx) then Ret v else
  let ns := <[r := Region (r_base rn) (u64 (r_size rn + r_size nx)) (r_flags rn) (r_prev rn)
                     (r_next nx)]> (vmm_nodes v) in
  ns ← relink_prev ns (r_next nx) r;
  '(ns, h) ← region_free ns (vmm_heap v) (r_next rn);
  Ret (Arena (vmm_head v) ns h (vmm_total v) (vmm_used v) (vmm_free_bytes v)
         (u64 (vmm_regions v - 1)) (vmm_used_regions v)).

(** The walk that frees the old list, at the head of [vmm_init]. *)
Fixpoint free_list (fuel : nat) (ns : nodes) (h : H) (cur : Z) : res (nodes * H) :=
  match fuel with
  | O => NoFuel
  | S fuel =>
      if cur =? 0 then Ret (ns, h) else
      c ← node ns cur;
      '(ns, h) ← region_free ns h cur;
      free_list fuel ns h (r_next c)
  end.

Definition vmm_fuel (v : arena) : nat := S (size (vmm_nodes v)).

(** [vmm_init]; the second result is [kernel_space.pml4_phys]. *)
Definition vmm_init (v : arena) (kpml4 hhdm : Z) : res (arena * Z) :=
  '(ns, h) ← free_list (vmm_fuel v) (vmm_nodes v) (vmm_heap v) (vmm_head v);
  let total := VMM_LIMIT - VMM_BASE in
  '(head, ns, h) ← region_alloc ns h;
  if head =? 0 then Panic else
  let ns := <[head := Region VMM_BASE total VMM_REGION_FREE 0 0]> ns in
  if kpml4 =? 0 then Panic else
  Ret (Arena head ns h total 0 total 1 0, u64 (kpml4 - hhdm)).

(** The walk of [vmm_alloc]: the first free region of at least [size] bytes. *)
Fixpoint vmm_find_fit (fuel : nat) (ns : nodes) (size cur : Z) : res Z :=
  match fuel with
  | O => NoFuel
  | S fuel =>
      if cur =? 0 then Ret 0 else
      c ← node ns cur;
      if negb (has (r_flags c) VMM_REGION_USED) && (size <=? r_size c) then Ret cur
      else vmm_find_fit fuel ns size (r_next c)
  end.

Definition set_heap (v : arena) (h : H) : arena :=
  Arena (vmm_head v) (vmm_nodes v) h (vmm_total v) (vmm_used v) (vmm_free_bytes v)
    (vmm_regions v) (vmm_used_regions v).

(** The split in [vmm_alloc]; [false] when no node can be allocated. *)
Definition vmm_split (v : arena) (cur size : Z) : res (bool * arena) :=
  c ← node (vmm_nodes v) cur;
  let leftover := u64 (r_size c - size) in
  if leftover <? 0x1000 then Ret (true, v) else
  '(split, ns, h) ← region_alloc (vmm_nodes v) (vmm_heap v);
  if split =? 0 then Ret (false, set_heap v h) else
  let ns := <[split := Region (u64 (r_base c + size)) leftover VMM_REGION_FREE cur (r_next c)]> ns in
  ns ← relink_prev ns (r_next c) split;
  c ← node ns cur;
  let ns := <[cur := set_next c split]> ns in
  Ret (true, Arena (vmm_head v) ns h (vmm_total v) (vmm_used v) (vmm_free_bytes v)
               (u64 (vmm_regions v + 1)) (vmm_used_regions v)).

(** The body of the loop of [vmm_alloc], for the region it takes. *)
Definition vmm_take (v : arena) (cur size flags : Z) : res (Z * arena) :=
  '(ok, v) ← vmm_split v cur size;
  if negb ok then Ret (0, v) else
  c ← node (vmm_nodes v) cur;
  let ns := <[cur := Region (r_base c) size (Z.lor VMM_REGION_USED flags) (r_prev c)
                       (r_next c)]> (vmm_nodes v) in
  Ret (r_base c, Arena (vmm_head v) ns (vmm_heap v) (vmm_total v) (u64 (vmm_used v + size))
         (u64 (vmm_free_bytes v - size)) (vmm_regions v) (u64 (vmm_used_regions v + 1))).

Definition vmm_alloc (v : arena) (size flags : Z) : res (Z * arena) :=
  if size =? 0 then Ret (0, v) else
  let size := PAGE_ALIGN_UP size in
  cur ← vmm_find_fit (vmm_fuel v) (vmm_nodes v) size (vmm_head v);
  if cur =? 0 then Ret (0, v) else vmm_take v cur size flags.

(** The walk of [vmm_free]: the used region that starts at [base]. *)
Fixpoint vmm_find_used (fuel : nat) (ns : nodes) (base cur : Z) : res Z :=
  match fuel with
  | O => NoFuel
  | S fuel =>
      if cur =? 0 then Ret 0 else
      c ← node ns cur;
      if (r_base c =? base) && has (r_flags c) VMM_REGION_USED then Ret cur
      else vmm_find_used fuel ns base (r_next c)
  end.

Definition vmm_free (v : arena) (base : Z) : res arena :=
  if base =? 0 then Ret v else
  cur ← vmm_find_used (vmm_fuel v) (vmm_nodes v) base (vmm_head v);
  if cur =? 0 then Ret v else
  c ← node (vmm_nodes v) cur;
  let ns := <[cur := Region (r_base c) (r_size c) VMM_REGION_FREE (r_prev c) (r_next c)]>
              (vmm_nodes v) in
  v ← merge_with_next (Arena (vmm_head v) ns (vmm_heap v) (vmm_total v)
        (u64 (vmm_used v - r_size c)) (u64 (vmm_free_bytes v + r_size c)) (vmm_regions v)
        (u64 (vmm_used_regions v - 1))) cur;
  c ← node (vmm_nodes v) cur;
  if r_prev c =? 0 then Ret v else merge_with_next v (r_prev c).

Fixpoint vmm_find_from (fuel : nat) (ns : nodes) (base cur : Z) : res Z :=
  match fuel with
  | O => NoFuel
  | S fuel =>
      if cur =? 0 then Ret 0 else
      c ← node ns cur;
      if r_base c =? base then Ret cur else vmm_find_from fuel ns base (r_next c)
  end.
Definition vmm_find (v : arena) (base : Z) : res Z :=
  vmm_find_from (vmm_fuel v) (vmm_nodes v) base (vmm_head v).

Record vmm_stats := VmmStats {
  total_virtual : Z; used_virtual : Z; free_virtual : Z;
  region_count : Z; used_region_count : Z;
}.
Definition vmm_get_stats (v : arena) : vmm_stats :=
  VmmStats (vmm_total v) (vmm_used v) (vmm_free_bytes v) (vmm_regions v) (vmm_used_regions v).
Definition vmm_get_used (v : arena) : Z := vmm_used v.
Definition vmm_get_free (v : arena) : Z := vmm_free_bytes v.
Definition vmm_get_region_count (v : arena) : Z := vmm_regions v.
End arena.
Arguments arena : clear implicits.

(** ** What an arena represents *)

Section repr.
Context {H : Type} `{HA : HeapAlloc H}.
Implicit Types (v : arena H) (xs l r : list (Z * rdata)).

(** The regions [xs] cover [[b, e)], each a non-empty number of pages. *)
Fixpoint covers (b : Z) xs (e : Z) : Prop :=
  match xs with
  | [] => b = e
  | (_, d) :: xs =>
      d_base d = b ∧ 0 < d_size d ∧ d_size d mod 4096 = 0 ∧ covers (b + d_size d) xs e
  end.

Definition is_used (d : rdata) : bool := has (d_flags d) VMM_REGION_USED.

(** No two neighbouring regions are both free. *)
Fixpoint merged xs : Prop :=
  match xs with
  | x :: xs => match xs with
               | y :: _ => is_used x.2 = true ∨ is_used y.2 = true
               | [] => True
               end ∧ merged xs
  | [] => True
  end.

Definition used_of (d : rdata) : Z := if is_used d then d_size d else 0.
Definition free_of (d : rdata) : Z := if is_used d then 0 else d_size d.
Definition one_used (d : rdata) : Z := if is_used d then 1 else 0.

Record arena_repr v xs : Prop := {
  ar_list : dlist (vmm_nodes v) 0 (vmm_head v) xs;
  ar_nodup : NoDup xs.*1;
  ar_covers : covers VMM_BASE xs VMM_LIMIT;
  ar_heap : ka_inv (vmm_heap v);
  ar_live a : a ∈ xs.*1 → ∃ n, ka_size (vmm_heap v) a = Some n ∧ 40 ≤ n;
  ar_dom a : is_Some (vmm_nodes v !! a) → a ∈ xs.*1;
  ar_total : vmm_total v = VMM_LIMIT - VMM_BASE;
  ar_used : vmm_used v = sum_of used_of xs;
  ar_free : vmm_free_bytes v = sum_of free_of xs;
  ar_count : vmm_regions v = Z.of_nat (length xs);
  ar_ucount : vmm_used_regions v = sum_of one_used xs;
}.

(** A region that is not in use has no other flag either. *)
Definition plain xs : Prop := Forall (λ x, is_used x.2 = true ∨ d_flags x.2 = VMM_REGION_FREE) xs.
Definition tidy xs : Prop := merged xs ∧ plain xs.

Definition arena_inv v xs : Prop := arena_repr v xs ∧ tidy xs.

(** ** Lists of regions *)

Lemma covers_app b xs ys e : covers b (xs ++ ys) e ↔ ∃ c, covers b xs c ∧ covers c ys e.
Proof.
  revert b. induction xs as [|[a d] xs IH]; intros b; simpl.
  - split; [eauto|by intros (c & -> & ?)].
  - rewrite IH. naive_solver.
Qed.

Lemma covers_sums b xs e :
  covers b xs e →
  0 ≤ sum_of used_of xs ∧ 0 ≤ sum_of free_of xs ∧
  0 ≤ sum_of one_used xs ≤ Z.of_nat (length xs) ∧
  sum_of used_of xs + sum_of free_of xs = e - b ∧ 4096 * Z.of_nat (length xs) ≤ e - b.
Proof.
  revert b. induction xs as [|[a d] xs IH]; intros b; cbn [covers].
  { rewrite !sum_of_nil. cbn. lia. }
  intros (<- & ? & ? & Hc%IH). rewrite !sum_of_cons. cbn [length].
  unfold used_of at 1 3, free_of at 1 3, one_used at 1 3. assert (4096 ≤ d_size d) by dlia.
  destruct (is_used d); lia.
Qed.

Lemma covers_elem b xs e a d :
  covers b xs e → (a, d) ∈ xs → b ≤ d_base d ∧ 0 < d_size d ∧ d_base d + d_size d ≤ e ∧
    d_size d mod 4096 = 0 ∧ (b mod 4096 = 0 → d_base d mod 4096 = 0).
Proof.
  revert b. induction xs as [|[a' d'] xs IH]; intros b; cbn [covers]; [set_solver|].
  intros (<- & ? & ? & Hc) [[= <- <-]|Hin]%elem_of_cons.
  - apply covers_sums in Hc as (?&?&?&?&?). split_and!; try lia; done.
  - destruct (IH _ Hc Hin) as (? & ? & ? & ? & Hm). split_and!; try lia.
    intros Hb. apply Hm. dlia.
Qed.

Lemma merged_app xs ys :
  merged (xs ++ ys) ↔ merged xs ∧ merged ys ∧
  ∀ x y, last xs = Some x → head ys = Some y → is_used x.2 = true ∨ is_used y.2 = true.
Proof.
  induction xs as [|x xs IH]; [simpl; naive_solver|].
  destruct xs as [|x' xs].
  - destruct ys as [|y ys]; simpl; naive_solver.
  - change (merged ((x :: x' :: xs) ++ ys)) with
      ((is_used x.2 = true ∨ is_used x'.2 = true) ∧ merged ((x' :: xs) ++ ys)).
    rewrite IH. simpl merged. change (last (x :: x' :: xs)) with (last (x' :: xs)). tauto.
Qed.

(** ** Reading *)

Lemma arena_node v l a d r :
  arena_repr v (l ++ (a, d) :: r) →
  ∃ n, a ≠ 0 ∧ vmm_nodes v !! a = Some n ∧ nd_data n = d ∧
    (∃ p, dseg (vmm_nodes v) 0 p l (nd_prev n) a) ∧ dlist (vmm_nodes v) a (nd_next n) r.
Proof.
  intros Hr. pose proof (ar_list _ _ Hr) as (n & ? & ? & ? & ? & ?)%dlist_mid. eauto 10.
Qed.

Lemma arena_fuel v xs : arena_repr v xs → (length xs < vmm_fuel v)%nat.
Proof.
  intros Hr. unfold vmm_fuel.
  pose proof (dlist_length _ _ _ _ (ar_nodup _ _ Hr) (ar_list _ _ Hr)). lia.
Qed.

Lemma node_some ns a n : ns !! a = Some n → node ns a = Ret n.
Proof. unfold node. by intros ->. Qed.

(** ** Merging *)

Definition joined (da db : rdata) : rdata := RD (d_base da) (d_size da + d_size db) (d_flags da).

Lemma covers_joined b l a da c dc r e :
  covers b (l ++ (a, da) :: (c, dc) :: r) e → covers b (l ++ (a, joined da dc) :: r) e.
Proof.
  intros (m & Hl & <- & ? & ? & E & ? & ? & Hr)%covers_app. apply covers_app.
  exists (d_base da). split; [done|]. cbn. split_and!; [done|lia|dlia|].
  by rewrite Z.add_assoc.
Qed.

Lemma arena_bounds v l a d r :
  arena_repr v (l ++ (a, d) :: r) →
  VMM_BASE ≤ d_base d ∧ 0 < d_size d ∧ d_base d + d_size d ≤ VMM_LIMIT ∧
  d_size d mod 4096 = 0 ∧ d_base d mod 4096 = 0.
Proof.
  intros Hr. destruct (covers_elem VMM_BASE (l ++ (a, d) :: r) VMM_LIMIT a d) as (?&?&?&?&Hm);
    [apply Hr|apply elem_of_app; right; by left|]. split_and!; auto.
Qed.

(** The nodes after the merge, as a list. *)
Lemma absorb_nodes v l a da b db r ca cb :
  arena_repr v (l ++ (a, da) :: (b, db) :: r) →
  vmm_nodes v !! a = Some ca → vmm_nodes v !! b = Some cb →
  ∃ m', relink_prev (<[a := Region (r_base ca) (d_size da + d_size db) (r_flags ca) (r_prev ca)
      (r_next cb)]> (vmm_nodes v)) (r_next cb) a = Ret m' ∧
    dlist (delete b m') 0 (vmm_head v) (l ++ (a, joined da db) :: r) ∧
    ∀ c, is_Some (delete b m' !! c) → c ∈ (l ++ (a, joined da db) :: r).*1.
Proof.
  intros Hr Hca Hcb. destruct (arena_node _ _ _ _ _ Hr) as (ca' & _ & Hca' & Dca & _).
  replace ca' with ca in * by congruence.
  set (ca1 := Region _ _ _ _ _).
  destruct (dlist_absorb (vmm_nodes v) 0 (vmm_head v) l a da b db r ca cb ca1)
    as (m' & Em & Hl & Hoff); [apply Hr|apply Hr|done..|].
  exists m'. split; [exact Em|].
  replace (nd_data ca1) with (joined da db) in Hl by (by subst da).
  pose proof (ar_nodup _ _ Hr) as Hnd. split.
  - eapply dlist_frame; [|exact Hl]. intros c Hc. apply lookup_delete_ne. intros <-.
    apply NoDup_mid in Hnd as (Hal & Har & _ & Hnr & Hd).
    cbn in Har, Hnr, Hd. apply NoDup_cons in Hnr as [Hbr _].
    rewrite fmap_app in Hc. cbn in Hc. apply elem_of_app in Hc as [Hc|[->|Hc]%elem_of_cons].
    + apply (Hd _ Hc). by left.
    + apply Har. by left.
    + done.
  - intros c [n Hc]. apply lookup_delete_Some in Hc as [Hcb' Hc].
    rewrite fmap_app. cbn. destruct (decide (c ∈ a :: r.*1)) as [Hin|Hni].
    + apply elem_of_app. by right.
    + rewrite Hoff in Hc by done. assert (Hin : c ∈ (l ++ (a, da) :: (b, db) :: r).*1)
        by (apply (ar_dom _ _ Hr); by eexists).
      rewrite fmap_app in Hin. cbn in Hin.
      apply elem_of_app in Hin as [?|[->|[->|?]%elem_of_cons]%elem_of_cons];
        [apply elem_of_app; by left|..]; [by destruct Hni; left|done|by destruct Hni; right].
Qed.

(** The tests of [merge_with_next] on two free neighbours. *)
Lemma absorb_tests v l a da b db r ca cb :
  arena_repr v (l ++ (a, da) :: (b, db) :: r) →
  vmm_nodes v !! a = Some ca → vmm_nodes v !! b = Some cb →
  is_used da = false → is_used db = false →
  has (r_flags ca) VMM_REGION_USED || has (r_flags cb) VMM_REGION_USED = false ∧
  (u64 (r_base ca + r_size ca) =? r_base cb) = true ∧
  u64 (r_size ca + r_size cb) = d_size da + d_size db.
Proof.
  intros Hr Hca Hcb Ha Hb.
  assert (Hr2 : arena_repr v ((l ++ [(a, da)]) ++ (b, db) :: r)) by by rewrite <- (assoc_L (++)).
  destruct (arena_node _ _ _ _ _ Hr) as (ca' & _ & Hca' & Dca & _).
  destruct (arena_node _ _ _ _ _ Hr2) as (cb' & _ & Hcb' & Dcb & _).
  replace ca' with ca in * by congruence. replace cb' with cb in * by congruence.
  destruct (arena_bounds _ _ _ _ _ Hr) as (?&?&?&?&_).
  destruct (arena_bounds _ _ _ _ _ Hr2) as (?&?&?&?&_).
  pose proof (ar_covers _ _ Hr) as Hcov.
  apply covers_app in Hcov as (x & _ & <- & _ & _ & Ebase & _).
  subst da db. unfold is_used in *. cbn in *. rewrite Ha, Hb.
  unfold VMM_BASE, VMM_LIMIT in *. rewrite !u64_small by lia.
  split_and!; [done| |done]. apply Z.eqb_eq. lia.
Qed.

Lemma merge_absorb v l a da b db r :
  arena_repr v (l ++ (a, da) :: (b, db) :: r) → is_used da = false → is_used db = false →
  returns (merge_with_next v a) (λ v', arena_repr v' (l ++ (a, joined da db) :: r)).
Proof.
  intros Hr Ha Hb.
  assert (Hr2 : arena_repr v ((l ++ [(a, da)]) ++ (b, db) :: r)) by by rewrite <- (assoc_L (++)).
  destruct (arena_node _ _ _ _ _ Hr) as (ca & Ha0 & Hca & Dca & _ & Hnx).
  destruct (arena_node _ _ _ _ _ Hr2) as (cb & Hb0 & Hcb & Dcb & _).
  apply dlist_cons in Hnx as (Hnx & _). cbn in Hnx.
  destruct (absorb_nodes _ _ _ _ _ _ _ _ _ Hr Hca Hcb) as (m' & Em & Hl & Hdom).
  unfold merge_with_next. destruct (Z.eqb_spec a 0) as [|_]; [done|].
  rewrite (node_some _ _ _ Hca), bind_Ret, Hnx.
  destruct (Z.eqb_spec b 0) as [|_]; [done|]. rewrite (node_some _ _ _ Hcb), bind_Ret.
  destruct (absorb_tests _ _ _ _ _ _ _ _ _ Hr Hca Hcb Ha Hb) as (-> & -> & ->). cbn [negb].
  rewrite Em, bind_Ret. unfold region_free. destruct (Z.eqb_spec b 0) as [|_]; [done|].
  destruct (ar_live _ _ Hr b) as (n & Hn & _).
  { rewrite fmap_app. cbn. apply elem_of_app. right. right. by left. }
  apply returns_bind. apply returns_bind.
  eapply returns_mono; [by apply (ka_free_spec _ _ _ (ar_heap _ _ Hr) Hn)|].
  intros h' (Hh & _ & Hoth). cbn [returns].
  pose proof (covers_sums _ _ _ (ar_covers _ _ Hr)) as Hsum. unfold VMM_BASE, VMM_LIMIT in Hsum.
  destruct (drop_second _ _ _ _ (joined da db) _ _ (ar_nodup _ _ Hr)) as [Hnd Hsub].
  destruct Hr as [_ _ Hcov _ Hlive _ Ht Hu Hfr Hct Huc].
  rewrite length_app in *. cbn [length] in *. rewrite !sum_of_app, !sum_of_cons in *.
  split; cbn [vmm_nodes vmm_head vmm_heap vmm_total vmm_used vmm_free_bytes vmm_regions vmm_used_regions];
    rewrite ?sum_of_app, ?sum_of_cons, ?length_app; cbn [length]; try done.
  - by eapply covers_joined.
  - intros c (Hc & Hcb')%Hsub. rewrite Hoth by done. by apply Hlive.
  - unfold used_of, joined, is_used in *. cbn. rewrite Ha, Hb in *. lia.
  - unfold free_of, joined, is_used in *. cbn. rewrite Ha, Hb in *. lia.
  - rewrite u64_small; lia.
  - unfold one_used, joined, is_used in *. cbn. rewrite Ha, Hb in *. lia.
Qed.

(** A free region takes over a free region after it. *)
Definition merge1 (x : Z * rdata) r : (Z * rdata) * list (Z * rdata) :=
  match r with
  | (_, db) :: r' =>
      if negb (is_used x.2) && negb (is_used db) then ((x.1, joined x.2 db), r') else (x, r)
  | [] => (x, [])
  end.

Lemma merge_with_next_spec v l a d r :
  arena_repr v (l ++ (a, d) :: r) →
  returns (merge_with_next v a) (λ v',
    arena_repr v' (l ++ (merge1 (a, d) r).1 :: (merge1 (a, d) r).2)).
Proof.
  intros Hr. destruct (arena_node _ _ _ _ _ Hr) as (n & Ha0 & Hn & Dn & _ & Hnx).
  destruct r as [|[b db] r].
  { apply dlist_nil in Hnx. cbn in Hnx. unfold merge_with_next.
    destruct (Z.eqb_spec a 0) as [|_]; [done|]. rewrite (node_some _ _ _ Hn), bind_Ret, Hnx.
    done. }
  cbn [merge1 fst snd].
  destruct (is_used d) eqn:Ha, (is_used db) eqn:Hb; cbn [negb andb fst snd];
    [..|by eapply merge_absorb]; apply dlist_cons in Hnx as (Hnx & Hb0 & nb & Hnb & Dnb & _);
    cbn in Hnx; unfold merge_with_next; destruct (Z.eqb_spec a 0) as [|_]; try done;
    rewrite (node_some _ _ _ Hn), bind_Ret, Hnx; destruct (Z.eqb_spec b 0) as [|_]; try done;
    rewrite (node_some _ _ _ Hnb), bind_Ret; subst d db; unfold is_used in *; cbn in Ha, Hb;
    by rewrite Ha, Hb.
Qed.

(** ** Changing the payload of a node *)

Lemma arena_update v l a d r n flags us fs uc :
  arena_repr v (l ++ (a, d) :: r) → vmm_nodes v !! a = Some n →
  let d' := RD (d_base d) (d_size d) flags in
  us = vmm_used v - used_of d + used_of d' → fs = vmm_free_bytes v - free_of d + free_of d' →
  uc = vmm_used_regions v - one_used d + one_used d' →
  arena_repr (Arena (vmm_head v)
    (<[a := Region (d_base d) (d_size d) flags (r_prev n) (r_next n)]> (vmm_nodes v))
    (vmm_heap v) (vmm_total v) us fs (vmm_regions v) uc) (l ++ (a, d') :: r).
Proof.
  intros Hr Hn d' -> -> ->. set (n1 := Region _ _ _ _ _).
  pose proof (dlist_update _ _ _ _ _ _ _ n n1 (ar_list _ _ Hr) (ar_nodup _ _ Hr) Hn
    eq_refl eq_refl) as Hl.
  replace (nd_data n1) with d' in Hl by done.
  assert (Hdom : ∀ c, c ∈ (l ++ (a, d') :: r).*1 ↔ c ∈ (l ++ (a, d) :: r).*1)
    by (intros c; by rewrite !fmap_app).
  destruct Hr as [_ Hnd Hcov Hh Hlive Hd Ht Hu Hf Hct Huc].
  rewrite length_app in *. cbn [length] in *. rewrite !sum_of_app, !sum_of_cons in *.
  split; cbn [vmm_nodes vmm_head vmm_heap vmm_total vmm_used vmm_free_bytes vmm_regions vmm_used_regions];
    rewrite ?sum_of_app, ?sum_of_cons, ?length_app; cbn [length]; try done; try lia.
  - by rewrite fmap_app in *.
  - by apply covers_app in Hcov; apply covers_app.
  - intros c Hc. by apply Hlive, Hdom.
  - intros c Hc. apply Hdom. destruct (decide (c = a)) as [->|].
    + rewrite fmap_app, elem_of_app. right. by left.
    + rewrite lookup_insert_ne in Hc by done. by apply Hd.
Qed.

(** ** Searching *)

Definition fits (size : Z) (x : Z * rdata) : Prop := is_used x.2 = false ∧ size ≤ d_size x.2.

Lemma vmm_find_fit_spec ns size fuel pr p xs :
  dlist ns pr p xs → (length xs < fuel)%nat →
  returns (vmm_find_fit fuel ns size p) (λ cur,
    (cur = 0 ∧ Forall (λ x, ¬ fits size x) xs) ∨
    ∃ l d r, xs = l ++ (cur, d) :: r ∧ cur ≠ 0 ∧ fits size (cur, d) ∧
             Forall (λ x, ¬ fits size x) l).
Proof.
  revert pr p fuel. induction xs as [|[a d] xs IH]; intros pr p fuel Hl Hf;
    (destruct fuel as [|fuel]; [cbn in Hf; lia|]); cbn [vmm_find_fit].
  { apply dlist_nil in Hl as ->. by left. }
  apply dlist_cons in Hl as (-> & Ha & n & Hn & Hd & _ & Hl).
  destruct (Z.eqb_spec a 0); [done|]. rewrite (node_some _ _ _ Hn), bind_Ret.
  destruct (_ && _) eqn:E.
  - zbool. right. exists [], d, xs. subst d. split_and!; done.
  - assert (Hnf : ¬ fits size (a, d)).
    { intros [H1 H2]. subst d. unfold is_used in H1. cbn in H1, H2. rewrite H1 in E. cbn in E.
      apply Z.leb_gt in E. lia. }
    eapply returns_mono; [apply (IH a); [done|cbn in Hf; lia]|].
    intros cur [[-> Hall]|(l & d' & r & -> & ? & ? & ?)].
    + left. auto.
    + right. exists ((a, d) :: l), d', r. split_and!; auto.
Qed.

Definition used_at (base : Z) (x : Z * rdata) : Prop :=
  d_base x.2 = base ∧ is_used x.2 = true.

Lemma vmm_find_used_spec ns base fuel pr p xs :
  dlist ns pr p xs → (length xs < fuel)%nat →
  returns (vmm_find_used fuel ns base p) (λ cur,
    (cur = 0 ∧ Forall (λ x, ¬ used_at base x) xs) ∨
    ∃ l d r, xs = l ++ (cur, d) :: r ∧ cur ≠ 0 ∧ used_at base (cur, d)).
Proof.
  revert pr p fuel. induction xs as [|[a d] xs IH]; intros pr p fuel Hl Hf;
    (destruct fuel as [|fuel]; [cbn in Hf; lia|]); cbn [vmm_find_used].
  { apply dlist_nil in Hl as ->. by left. }
  apply dlist_cons in Hl as (-> & Ha & n & Hn & Hd & _ & Hl).
  destruct (Z.eqb_spec a 0); [done|]. rewrite (node_some _ _ _ Hn), bind_Ret.
  destruct (_ && _) eqn:E.
  - zbool. right. exists [], d, xs. subst d. split_and!; done.
  - assert (Hnf : ¬ used_at base (a, d)).
    { intros [H1 H2]. subst d. unfold is_used in H2. cbn in H1, H2.
      by rewrite H1, H2, Z.eqb_refl in E. }
    eapply returns_mono; [apply (IH a); [done|cbn in Hf; lia]|].
    intros cur [[-> Hall]|(l & d' & r & -> & ? & ?)].
    + left. auto.
    + right. exists ((a, d) :: l), d', r. split_and!; auto.
Qed.

(** ** Allocation *)

Lemma page_align_up x : 0 ≤ x ≤ 2 ^ 64 - 4096 →
  x ≤ PAGE_ALIGN_UP x < x + 4096 ∧ PAGE_ALIGN_UP x mod 4096 = 0.
Proof.
  intros Hx. unfold PAGE_ALIGN_UP. rewrite u64_small, align_down_spec by lia. dlia.
Qed.

(** What the chosen free region becomes. *)
Definition placed (a : Z) (d : rdata) (size flags split : Z) : list (Z * rdata) :=
  (a, RD (d_base d) size (Z.lor VMM_REGION_USED flags)) ::
  if d_size d =? size then [] else [(split, RD (d_base d + size) (d_size d - size) VMM_REGION_FREE)].

Lemma covers_split b l a d r size flags p fl e :
  covers b (l ++ (a, d) :: r) e → 0 < size < d_size d → size mod 4096 = 0 →
  covers b (l ++ (a, RD (d_base d) size flags) ::
    (p, RD (d_base d + size) (d_size d - size) fl) :: r) e.
Proof.
  intros (m & Hl & <- & ? & ? & Hr)%covers_app Hs H8. apply covers_app. exists (d_base d).
  split; [done|]. cbn. split_and!; try done; try lia; [dlia|].
  replace (_ + _ + _) with (d_base d + d_size d) by lia. done.
Qed.

(** The store after the split, as a list. *)
Lemma insert_nodes v l a d r n p size :
  arena_repr v (l ++ (a, d) :: r) → vmm_nodes v !! a = Some n →
  ka_size (vmm_heap v) p = None → p ≠ 0 →
  let nb := Region (d_base d + size) (d_size d - size) VMM_REGION_FREE a (r_next n) in
  p ∉ (l ++ (a, d) :: r).*1 ∧
  ∃ m', relink_prev (<[p := nb]> (vmm_nodes v)) (r_next n) p = Ret m' ∧ m' !! a = Some n ∧
    dlist (<[a := set_next n p]> m') 0 (vmm_head v) (l ++ (a, d) :: (p, nd_data nb) :: r) ∧
    ∀ c, is_Some (<[a := set_next n p]> m' !! c) → c ∈ (l ++ (a, d) :: (p, nd_data nb) :: r).*1.
Proof.
  intros Hr Hn Hp Hp0 nb. destruct (arena_node _ _ _ _ _ Hr) as (n' & _ & Hn' & Dn & _).
  replace n' with n in * by congruence.
  assert (Hni : p ∉ (l ++ (a, d) :: r).*1).
  { intros Hin. destruct (ar_live _ _ Hr _ Hin) as (? & ? & _). congruence. }
  split; [done|].
  destruct (dlist_insert_after (vmm_nodes v) 0 (vmm_head v) l a d r p n nb (set_next n p))
    as (m' & Em & Hma & Hl & Hoff); [apply Hr|apply Hr|done..|].
  replace (nd_data (set_next n p)) with d in Hl by (by subst d).
  exists m'. split_and!; try done.
  intros c Hc. rewrite fmap_app, elem_of_app. cbn. rewrite !elem_of_cons.
  destruct (decide (c = a)) as [->|Hca]; [tauto|]. rewrite lookup_insert_ne in Hc by done.
  destruct (decide (c ∈ a :: p :: r.*1)) as [Hin|Hnin]; [rewrite !elem_of_cons in Hin; tauto|].
  rewrite Hoff in Hc by done. apply (ar_dom _ _ Hr) in Hc.
  rewrite fmap_app, elem_of_app in Hc. cbn in Hc. rewrite elem_of_cons in Hc. tauto.
Qed.

(** The counters after [size] bytes were taken. *)
Lemma take_sums (v : arena H) l a d r size flags :
  arena_repr v (l ++ (a, d) :: r) → is_used d = false → 0 < size ≤ d_size d →
  let d' := RD (d_base d) size (Z.lor VMM_REGION_USED flags) in
  is_used d' = true ∧
  u64 (vmm_used v + size) = vmm_used v + size ∧
  u64 (vmm_free_bytes v - size) = vmm_free_bytes v - size ∧
  u64 (vmm_used_regions v + 1) = vmm_used_regions v + 1 ∧
  u64 (vmm_regions v + 1) = vmm_regions v + 1.
Proof.
  intros Hr Hu Hs d'. pose proof (covers_sums _ _ _ (ar_covers _ _ Hr)) as Hsum.
  pose proof (ar_covers _ _ Hr) as (m & Hc1 & <- & ? & ? & Hc2)%covers_app.
  apply covers_sums in Hc1, Hc2.
  rewrite <- (ar_used _ _ Hr), <- (ar_ucount _ _ Hr) in Hsum.
  pose proof (ar_free _ _ Hr) as Hfr. rewrite (ar_count _ _ Hr). 
  rewrite sum_of_app, sum_of_cons in *. unfold free_of at 2 in Hfr. rewrite Hu in Hfr.
  unfold VMM_BASE, VMM_LIMIT in *.
  split; [unfold is_used, d'; cbn; by rewrite has_lor|].
  rewrite !u64_small by lia. done.
Qed.

(** A node [p] added after the taken node [a]. *)
Lemma insert_repr v l a d r p size flags ns h :
  arena_repr v (l ++ (a, d) :: r) → is_used d = false → 0 < size < d_size d → size mod 4096 = 0 →
  p ∉ (l ++ (a, d) :: r).*1 →
  let xs := l ++ (a, RD (d_base d) size (Z.lor VMM_REGION_USED flags)) ::
              (p, RD (d_base d + size) (d_size d - size) VMM_REGION_FREE) :: r in
  dlist ns 0 (vmm_head v) xs → (∀ c, is_Some (ns !! c) → c ∈ xs.*1) →
  ka_inv h → (∃ n, ka_size h p = Some n ∧ 40 ≤ n) →
  (∀ q, q ≠ p → ka_size h q = ka_size (vmm_heap v) q) →
  arena_repr (Arena (vmm_head v) ns h (vmm_total v) (vmm_used v + size) (vmm_free_bytes v - size)
    (vmm_regions v + 1) (vmm_used_regions v + 1)) xs.
Proof.
  intros Hr Hu Hs H8 Hp xs Hl Hdom Hh Hlive Hoth.
  destruct (take_sums v l a d r size flags Hr Hu) as (Hus & _); [lia|].
  pose proof (ar_nodup _ _ Hr) as Hnd.
  assert (Hin : ∀ c, c ∈ xs.*1 ↔ c = p ∨ c ∈ (l ++ (a, d) :: r).*1).
  { intros c. unfold xs. rewrite !fmap_app, !elem_of_app. cbn. rewrite !elem_of_cons. tauto. }
  assert (V : used_of d = 0 ∧ free_of d = d_size d ∧ one_used d = 0)
    by (unfold used_of, free_of, one_used; by rewrite Hu).
  set (d1 := RD (d_base d) size _) in *.
  assert (V1 : used_of d1 = size ∧ free_of d1 = 0 ∧ one_used d1 = 1)
    by (unfold used_of, free_of, one_used; by rewrite Hus).
  set (d2 := RD _ _ VMM_REGION_FREE) in *.
  assert (V2 : used_of d2 = 0 ∧ free_of d2 = d_size d - size ∧ one_used d2 = 0) by done.
  unfold xs in *. split; cbn [vmm_nodes vmm_head vmm_heap vmm_total vmm_used vmm_free_bytes
    vmm_regions vmm_used_regions]; try done.
  - by eapply insert_second.
  - eapply covers_split; [apply Hr|done|done].
  - intros c [->|Hc]%Hin; [done|]. rewrite Hoth by congruence. by apply (ar_live _ _ Hr).
  - apply Hr.
  - rewrite (ar_used _ _ Hr), !sum_of_app, !sum_of_cons. lia.
  - rewrite (ar_free _ _ Hr), !sum_of_app, !sum_of_cons. lia.
  - rewrite (ar_count _ _ Hr), !length_app. cbn. lia.
  - rewrite (ar_ucount _ _ Hr), !sum_of_app, !sum_of_cons. lia.
Qed.

Lemma vmm_take_spec v l a d r size flags :
  arena_repr v (l ++ (a, d) :: r) → is_used d = false → 0 < size ≤ d_size d → size mod 4096 = 0 →
  returns (vmm_take v a size flags) (λ '(b, v'),
    (b = 0 ∧ v' = v ∧ d_size d ≠ size ∧ ∃ h, ka_malloc (vmm_heap v) 40 = Ret (0, h)) ∨
    b = d_base d ∧ ∃ p, (d_size d ≠ size → ka_size (vmm_heap v) p = None) ∧
      arena_repr v' (l ++ placed a d size flags p ++ r)).
Proof.
  intros Hr Hu Hs H8. destruct (arena_node _ _ _ _ _ Hr) as (n & Ha0 & Hn & Dn & _).
  destruct (arena_bounds _ _ _ _ _ Hr) as (?&?&?&?&?). unfold VMM_BASE, VMM_LIMIT in *.
  destruct (take_sums v l a d r size flags Hr Hu Hs) as (Hus & E1 & E2 & E3 & E4).
  assert (F : r_size n = d_size d ∧ r_base n = d_base d) by by subst d. destruct F as [Fs Fb].
  unfold vmm_take, vmm_split. rewrite (node_some _ _ _ Hn), bind_Ret, Fs, Fb.
  rewrite (u64_small (d_size d - size)), (u64_small (d_base d + size)) by lia.
  unfold placed. destruct (Z.ltb_spec (d_size d - size) 0x1000) as [Hlo|Hlo].
  - assert (d_size d = size) as Esz by dlia. rewrite bind_Ret. cbn [negb].
    rewrite (node_some _ _ _ Hn), bind_Ret, Fb. right. split; [done|].
    exists 0. split; [done|]. subst size. rewrite Z.eqb_refl, E1, E2, E3.
    pose proof (arena_update v l a d r n (Z.lor VMM_REGION_USED flags)) as Hup.
    apply Hup; try done; unfold used_of, free_of, one_used; rewrite Hu, Hus; cbn; lia.
  - destruct (Z.eqb_spec (d_size d) size) as [|Hne]; [lia|].
    pose proof (ka_malloc_spec _ 40 (ar_heap _ _ Hr) ltac:(lia)) as Hk.
    apply returns_iff in Hk as
      ([p h'] & Ek & Hh' & [[-> ->]|(Hp0 & Hpn & (sz & Hsz1 & Hsz2) & Hoth)]);
      unfold region_alloc; rewrite Ek, bind_Ret.
    { left. split_and!; [done|by destruct v|done|by eexists]. }
    destruct (Z.eqb_spec p 0) as [|_]; [done|]. rewrite bind_Ret.
    destruct (Z.eqb_spec p 0) as [|_]; [done|]. rewrite insert_insert_eq.
    destruct (insert_nodes v l a d r n p size Hr Hn Hpn Hp0) as (Hpl & m' & -> & Hma & Hl & Hdom).
    rewrite bind_Ret, (node_some _ _ _ Hma), !bind_Ret. cbn [returns negb vmm_nodes].
    rewrite (node_some _ a (set_next n p)) by apply lookup_insert_eq.
    rewrite bind_Ret. cbn [set_next r_base r_prev r_next r_size r_flags vmm_used vmm_free_bytes
      vmm_head vmm_heap vmm_total vmm_regions vmm_used_regions returns].
    right. split; [by rewrite Fb|]. exists p. split; [done|]. rewrite insert_insert_eq, Fb, E1, E2, E3, E4.
    change (nd_data _) with (RD (d_base d + size) (d_size d - size) VMM_REGION_FREE) in Hl, Hdom.
    set (n2 := Region _ _ _ _ p).
    pose proof (dlist_update _ _ _ _ _ _ _ (set_next n p) n2 Hl) as Hl2.
    rewrite insert_insert_eq in Hl2.
    apply (insert_repr v l a d r p size flags); try done; [lia|..|by exists sz].
    + apply Hl2; [|apply lookup_insert_eq|done|done]. apply (insert_second _ _ _ d); [apply Hr|done].
    + intros c Hc. assert (Hc' : is_Some (<[a := set_next n p]> m' !! c)).
      { destruct (decide (c = a)) as [->|]; [rewrite lookup_insert_eq; by eexists|].
        rewrite lookup_insert_ne in Hc |- * by done. done. }
      apply Hdom in Hc'. by rewrite !fmap_app in *.
Qed.

Lemma merged_placed l a d r size flags p :
  merged (l ++ (a, d) :: r) → is_used d = false →
  merged (l ++ placed a d size flags p ++ r).
Proof.
  rewrite !(merged_app l). intros (Hl & Hr & Hb) Hd.
  assert (Hu : is_used (RD (d_base d) size (Z.lor VMM_REGION_USED flags)) = true)
    by (unfold is_used; cbn; by rewrite has_lor).
  assert (Hr' : merged r ∧ ∀ y, head r = Some y → is_used y.2 = true).
  { destruct r as [|y r]; [done|]. destruct Hr as [[Hx|Hy] Hr]; [cbn in Hx; congruence|].
    split; [done|]. by intros ? [= <-]. }
  destruct Hr' as [Hr' Hn]. split; [done|split].
  - unfold placed. destruct (_ =? _); cbn [app].
    + split; [|done]. destruct r; [done|by left].
    + split; [by left|]. split; [|done]. destruct r as [|y r]; [done|]. right. by apply Hn.
  - intros x y Hx [= <-]. right. done.
Qed.

Lemma tidy_placed l a d r size flags p :
  tidy (l ++ (a, d) :: r) → is_used d = false → tidy (l ++ placed a d size flags p ++ r).
Proof.
  intros [Hm Hp] Hu. split; [by apply merged_placed|].
  apply Forall_app in Hp as [Hl [_ Hr]%Forall_cons]. apply Forall_app. split; [done|].
  apply Forall_app. split; [|done]. unfold placed. constructor.
  - left. unfold is_used. cbn. by rewrite has_lor.
  - destruct (_ =? _); [constructor|]. constructor; [by right|constructor].
Qed.

(** What [vmm_alloc] does to the represented list. *)
Lemma vmm_alloc_step v xs size flags :
  arena_inv v xs → 0 < size ≤ 2 ^ 64 - 4096 →
  returns (vmm_alloc v size flags) (λ '(b, v'),
    (b = 0 ∧ v' = v ∧ (Forall (λ x, ¬ fits (PAGE_ALIGN_UP size) x) xs ∨
                       ∃ h, ka_malloc (vmm_heap v) 40 = Ret (0, h))) ∨
    ∃ l a d r p, xs = l ++ (a, d) :: r ∧ fits (PAGE_ALIGN_UP size) (a, d) ∧
      Forall (λ x, ¬ fits (PAGE_ALIGN_UP size) x) l ∧ b = d_base d ∧
      arena_inv v' (l ++ placed a d (PAGE_ALIGN_UP size) flags p ++ r)).
Proof.
  intros [Hr Hm] Hs. destruct (page_align_up size) as ((Hge & _) & H8); [lia|].
  unfold vmm_alloc. destruct (Z.eqb_spec size 0) as [|_]; [lia|]. apply returns_bind.
  eapply returns_mono; [eapply vmm_find_fit_spec; [apply Hr|by apply (arena_fuel v)]|].
  intros cur [[-> Hno]|(l & d & r & -> & Hc & [Hfree Hfit] & Hno)]; [left; auto|].
  destruct (Z.eqb_spec cur 0) as [|_]; [done|]. cbn in Hfree, Hfit.
  eapply returns_mono; [apply (vmm_take_spec v l cur d r _ flags Hr Hfree); [lia|done]|].
  intros [b v'] [(-> & -> & _ & Hk)|(-> & p & _ & Hr')]; [left; auto|right].
  exists l, cur, d, r, p. split_and!; try done. split; [done|]. by apply tidy_placed.
Qed.

(** ** Release *)

(** The list after the region [(a, d)] between [l] and [r] is freed. *)
Definition freed l (a : Z) (d : rdata) r : list (Z * rdata) :=
  let x := merge1 (a, RD (d_base d) (d_size d) VMM_REGION_FREE) r in
  match rev l with
  | [] => x.1 :: x.2
  | y :: rl => let z := merge1 y (x.1 :: x.2) in rev rl ++ z.1 :: z.2
  end.

Lemma merge1_addr x r : (merge1 x r).1.1 = x.1.
Proof. destruct r as [|[b db] r]; [done|]. cbn. by destruct (_ && _). Qed.

Lemma merge1_used x r : is_used (merge1 x r).1.2 = is_used x.2.
Proof. destruct r as [|[b db] r]; [done|]. cbn. by destruct (_ && _). Qed.

Lemma merge1_merged x r : merged r → merged ((merge1 x r).1 :: (merge1 x r).2).
Proof.
  destruct r as [|[b db] r]; intros Hr; [done|]. cbn [merge1].
  destruct (is_used x.2) eqn:Hx; cbn [negb andb].
  - split; [by left|done].
  - destruct (is_used db) eqn:Hb; cbn [negb]; [by split; [right|]|].
    destruct Hr as [Hn Hr]. split; [|done]. destruct r as [|y r]; [done|].
    destruct Hn as [Hn|Hn]; [cbn in Hn; congruence|by right].
Qed.

Lemma freed_merged l a d r : merged (l ++ (a, d) :: r) → merged (freed l a d r).
Proof.
  intros (Hl & [_ Hr] & _)%merged_app. unfold freed.
  set (x := merge1 _ r). assert (Hx : merged (x.1 :: x.2)) by by apply merge1_merged.
  destruct (rev l) as [|y rl] eqn:E; [done|].
  assert (El : l = rev rl ++ [y]) by (rewrite <- (rev_involutive l), E; done).
  rewrite El in Hl. apply merged_app in Hl as (Hl & _ & Hb).
  apply merged_app. split; [done|split; [by apply merge1_merged|]].
  intros u w Hu Hw. cbn [head] in Hw. apply (inj Some) in Hw. subst w.
  rewrite merge1_used. by apply Hb.
Qed.

Lemma merge1_plain x r : plain (x :: r) → plain ((merge1 x r).1 :: (merge1 x r).2).
Proof.
  intros [Hx Hr]%Forall_cons. destruct r as [|[b db] r]; [by constructor|]. cbn.
  apply Forall_cons in Hr as [Hb Hr]. destruct (_ && _); constructor; try done. by constructor.
Qed.

Lemma freed_tidy l a d r : tidy (l ++ (a, d) :: r) → tidy (freed l a d r).
Proof.
  intros [Hm Hp]. split; [by apply freed_merged|].
  apply Forall_app in Hp as [Hl [_ Hr]%Forall_cons]. unfold freed.
  set (x := merge1 _ r).
  assert (Hx : plain (x.1 :: x.2)) by (apply merge1_plain; constructor; [by right|done]).
  destruct (rev l) as [|y rl] eqn:E; [done|].
  assert (El : l = rev rl ++ [y]) by (rewrite <- (rev_involutive l), E; done).
  rewrite El in Hl. apply Forall_app in Hl as [Hl [Hy _]%Forall_cons].
  apply Forall_app. split; [done|]. apply merge1_plain. by constructor.
Qed.

Lemma merge1_sum x r :
  sum_of used_of ((merge1 x r).1 :: (merge1 x r).2) = used_of x.2 + sum_of used_of r.
Proof.
  destruct x as [a d], r as [|[b db] r]; [done|]. cbn [merge1 fst snd].
  destruct (is_used d) eqn:Ha, (is_used db) eqn:Hb; cbn [negb andb fst snd];
    rewrite ?sum_of_cons; try done.
  assert (V : used_of d = 0 ∧ used_of db = 0 ∧ used_of (joined d db) = 0).
  { unfold used_of, joined, is_used in *. cbn. by rewrite Ha, Hb. }
  lia.
Qed.

Lemma freed_used l a d r : sum_of used_of (freed l a d r) = sum_of used_of l + sum_of used_of r.
Proof.
  unfold freed. set (x := merge1 _ r).
  assert (Hx : sum_of used_of (x.1 :: x.2) = sum_of used_of r) by (unfold x; by rewrite merge1_sum).
  destruct (rev l) as [|y rl] eqn:E.
  - apply (f_equal (@rev _)) in E. rewrite rev_involutive in E. by rewrite E, Hx.
  - assert (El : l = rev rl ++ [y]) by (rewrite <- (rev_involutive l), E; done).
    rewrite sum_of_app, merge1_sum, Hx, El, sum_of_app. destruct y as [b db].
    rewrite sum_of_cons, sum_of_nil. cbn. lia.
Qed.

Lemma free_sums v l a d r :
  arena_repr v (l ++ (a, d) :: r) → is_used d = true →
  let d' := RD (d_base d) (d_size d) VMM_REGION_FREE in
  u64 (vmm_used v - d_size d) = vmm_used v - used_of d + used_of d' ∧
  u64 (vmm_free_bytes v + d_size d) = vmm_free_bytes v - free_of d + free_of d' ∧
  u64 (vmm_used_regions v - 1) = vmm_used_regions v - one_used d + one_used d'.
Proof.
  intros Hr Hu d'. pose proof (covers_sums _ _ _ (ar_covers _ _ Hr)) as Hsum.
  pose proof (ar_covers _ _ Hr) as (m & Hc1 & <- & ? & ? & Hc2)%covers_app.
  apply covers_sums in Hc1, Hc2.
  rewrite (ar_used _ _ Hr), (ar_free _ _ Hr), (ar_ucount _ _ Hr).
  rewrite !sum_of_app, !sum_of_cons in *.
  assert (V : used_of d = d_size d ∧ free_of d = 0 ∧ one_used d = 1)
    by (unfold used_of, free_of, one_used; by rewrite Hu).
  assert (V1 : used_of d' = 0 ∧ free_of d' = d_size d ∧ one_used d' = 0) by done.
  unfold VMM_BASE, VMM_LIMIT in *. rewrite length_app in Hsum. cbn [length] in Hsum.
  usimpl. lia.
Qed.

Lemma vmm_free_step v xs b :
  arena_inv v xs →
  returns (vmm_free v b) (λ v',
    (v' = v ∧ Forall (λ x, ¬ used_at b x) xs) ∨
    ∃ l a d r, xs = l ++ (a, d) :: r ∧ used_at b (a, d) ∧ arena_inv v' (freed l a d r)).
Proof.
  intros [Hr Hm]. unfold vmm_free. destruct (Z.eqb_spec b 0) as [->|Hb].
  { left. split; [done|]. apply Forall_forall. intros [a d] Hin [E _]. cbn in E.
    destruct (covers_elem _ _ _ _ _ (ar_covers _ _ Hr) Hin) as (? & _).
    unfold VMM_BASE in *. lia. }
  apply returns_bind.
  eapply returns_mono; [eapply vmm_find_used_spec; [apply Hr|by apply (arena_fuel v)]|].
  intros cur [[-> Hno]|(l & d & r & -> & Hc & [Hbase Hu])]; [by left|]. cbn in Hbase, Hu.
  destruct (Z.eqb_spec cur 0) as [|_]; [done|].
  destruct (arena_node _ _ _ _ _ Hr) as (n & _ & Hn & Dn & _).
  rewrite (node_some _ _ _ Hn), bind_Ret.
  assert (F : r_base n = d_base d ∧ r_size n = d_size d) by by subst d.
  destruct F as [-> ->].
  destruct (free_sums v l cur d r Hr Hu) as (-> & -> & ->).
  pose proof (arena_update v l cur d r n VMM_REGION_FREE _ _ _ Hr Hn eq_refl eq_refl eq_refl) as Hr1.
  set (d1 := RD _ _ VMM_REGION_FREE) in *. pose proof (freed_tidy _ _ _ _ Hm) as Hm'.
  unfold freed in Hm'. fold d1 in Hm'.
  apply returns_bind. eapply returns_mono; [apply (merge_with_next_spec _ _ _ _ _ Hr1)|].
  intros v2 Hr2. set (x := merge1 (cur, d1) r) in *.
  assert (Ex : x.1 = (cur, x.1.2)) by (rewrite (surjective_pairing x.1); unfold x;
    by rewrite merge1_addr).
  rewrite Ex in Hr2. destruct (arena_node _ _ _ _ _ Hr2) as (n2 & _ & Hn2 & _ & (p & Hsg) & _).
  rewrite (node_some _ _ _ Hn2), bind_Ret. 
  assert (Hfin : ∀ v', arena_repr v' (freed l cur d r) →
    (v' = v ∧ Forall (λ x, ¬ used_at b x) (l ++ (cur, d) :: r)) ∨
    ∃ l0 a d0 r0, l ++ (cur, d) :: r = l0 ++ (a, d0) :: r0 ∧ used_at b (a, d0) ∧
      arena_inv v' (freed l0 a d0 r0)).
  { intros v' Hv'. right. exists l, cur, d, r. by split_and!. }
  unfold freed in Hfin. fold d1 x in Hfin.
  destruct (rev l) as [|[y dy] rl] eqn:El.
  - apply (f_equal (@rev _)) in El. rewrite rev_involutive in El. cbn in El. subst l.
    destruct Hsg as [Hp _]. cbn in Hp. rewrite Hp. apply Hfin. by rewrite Ex.
  - assert (E : l = rev rl ++ [(y, dy)]) by (rewrite <- (rev_involutive l), El; done).
    rewrite E in Hsg, Hr2. rewrite (dseg_last _ _ _ _ _ _ _ _ Hsg : r_prev n2 = y).
    rewrite <- (assoc_L (++)) in Hr2. cbn [app] in Hr2.
    destruct (arena_node _ _ _ _ _ Hr2) as (_ & Hy0 & _).
    destruct (Z.eqb_spec y 0) as [|_]; [done|].
    eapply returns_mono; [apply (merge_with_next_spec _ _ _ _ _ Hr2)|].
    intros v' Hv'. apply Hfin. by rewrite Ex.
Qed.

Lemma covers_disjoint b xs e a d a' d' :
  covers b xs e → (a, d) ∈ xs → (a', d') ∈ xs → a ≠ a' →
  d_base d + d_size d ≤ d_base d' ∨ d_base d' + d_size d' ≤ d_base d.
Proof.
  revert b. induction xs as [|[x dx] xs IH]; intros b Hc H1 H2 Hne; [set_solver|].
  destruct Hc as (<- & ? & _ & Hc).
  apply elem_of_cons in H1 as [[= -> ->]|H1], H2 as [[= -> ->]|H2]; [done|..|by eauto].
  - left. by apply (covers_elem _ _ _ _ _ Hc H2).
  - right. by apply (covers_elem _ _ _ _ _ Hc H1).
Qed.

(** A base address names one region. *)
Lemma base_unique v xs a d a' d' :
  arena_repr v xs → (a, d) ∈ xs → (a', d') ∈ xs → d_base d = d_base d' → a = a'.
Proof.
  intros Hr H1 H2 E. destruct (decide (a = a')) as [|Hne]; [done|].
  destruct (covers_elem _ _ _ _ _ (ar_covers _ _ Hr) H1) as (_ & ? & _).
  destruct (covers_elem _ _ _ _ _ (ar_covers _ _ Hr) H2) as (_ & ? & _).
  destruct (covers_disjoint _ _ _ a d a' d' (ar_covers _ _ Hr)); try done; lia.
Qed.

(** ** Initialisation *)

Lemma free_list_spec xs ns h pr p fuel :
  dlist ns pr p xs → NoDup xs.*1 → ka_inv h → (length xs < fuel)%nat →
  (∀ a, a ∈ xs.*1 → is_Some (ka_size h a)) →
  returns (free_list fuel ns h p) (λ '(ns', h'),
    ka_inv h' ∧ ∀ c, ns' !! c = if decide (c ∈ xs.*1) then None else ns !! c).
Proof.
  revert ns h pr p fuel. induction xs as [|[a d] xs IH]; intros ns h pr p fuel Hl Hnd Hh Hf Hlive;
    (destruct fuel as [|fuel]; [cbn in Hf; lia|]); cbn [free_list].
  { apply dlist_nil in Hl as ->. cbn. split; [done|]. intros c. by rewrite decide_False by set_solver. }
  apply dlist_cons in Hl as (-> & Ha & n & Hn & _ & _ & Hl). cbn in Hnd.
  apply NoDup_cons in Hnd as [Hna Hnd].
  destruct (Z.eqb_spec a 0) as [|_]; [done|]. rewrite (node_some _ _ _ Hn), bind_Ret.
  unfold region_free. destruct (Z.eqb_spec a 0) as [|_]; [done|].
  destruct (Hlive a) as [m Hm]; [by left|]. apply returns_bind, returns_bind.
  eapply returns_mono; [by apply (ka_free_spec _ _ _ Hh Hm)|].
  intros h1 (Hh1 & _ & Hoth). cbn [returns].
  assert (Hne : ∀ c, c ∈ xs.*1 → c ≠ a) by congruence.
  eapply returns_mono; [apply (IH (delete a ns) h1 a (r_next n)); try done|].
  - eapply dlist_frame; [|exact Hl]. intros c Hc. apply lookup_delete_ne. by apply not_eq_sym, Hne.
  - cbn in Hf. lia.
  - intros c Hc. rewrite Hoth by by apply Hne. apply Hlive. by right.
  - intros [ns' h'] [Hh' Hns]. split; [done|]. intros c. rewrite Hns. cbn.
    destruct (decide (c ∈ xs.*1)) as [Hc|Hc]; [rewrite decide_True by (by right); done|].
    destruct (decide (c = a)) as [->|].
    + rewrite lookup_delete_eq, decide_True by (by left). done.
    + rewrite lookup_delete_ne by congruence. rewrite decide_False; [done|].
      by intros [?|?]%elem_of_cons.
Qed.

(** A state [vmm_init] may be called in: before the first call, or any arena. *)
Record arena_old v xs : Prop := {
  ao_list : dlist (vmm_nodes v) 0 (vmm_head v) xs;
  ao_nodup : NoDup xs.*1;
  ao_heap : ka_inv (vmm_heap v);
  ao_live a : a ∈ xs.*1 → is_Some (ka_size (vmm_heap v) a);
  ao_dom a : is_Some (vmm_nodes v !! a) → a ∈ xs.*1;
}.

(** [vmm_init] gives back every node of the old list to the heap and leaves
    one free region that covers the whole arena, with exact statistics; the
    kernel's address space gets the physical address of its top table.  It
    panics only when the heap is exhausted. *)
Theorem vmm_init_spec v xs kpml4 hhdm :
  arena_old v xs → kpml4 ≠ 0 →
  or_panic (vmm_init v kpml4 hhdm) (λ '(v', pml4_phys), pml4_phys = u64 (kpml4 - hhdm) ∧
    ∃ a, arena_inv v' [(a, RD VMM_BASE (VMM_LIMIT - VMM_BASE) VMM_REGION_FREE)]).
Proof.
  intros [Hl Hnd Hh Hlive Hdom] Hk. unfold vmm_init. apply or_panic_bind, returns_or_panic.
  eapply returns_mono.
  { apply (free_list_spec xs _ _ 0); try done. unfold vmm_fuel.
    pose proof (dlist_length _ _ _ _ Hnd Hl). lia. }
  intros [ns h] [Hh' Hns]. unfold region_alloc. apply or_panic_bind, returns_or_panic, returns_bind.
  eapply returns_mono; [apply (ka_malloc_spec _ 40 Hh'); lia|].
  intros [p h2] [Hh2 [[-> ->]|(Hp0 & _ & (sz & Hsz & Hlv) & _)]]; [done|].
  destruct (Z.eqb_spec p 0) as [|Hp]; [done|]. cbn [returns].
  destruct (Z.eqb_spec p 0) as [|_]; [done|]. destruct (Z.eqb_spec kpml4 0) as [|_]; [done|].
  split; [done|]. exists p. split; [|split; [done|constructor; [by right|constructor]]]. split; try done.
  - apply dlist_cons. split_and!; [done..|]. cbn. rewrite lookup_insert_eq. eexists.
    split_and!; [done..|]. by apply dlist_nil.
  - apply NoDup_singleton.
  - intros a Ha%list_elem_of_singleton. subst a. by exists sz.
  - intros a Ha. cbn in Ha. apply list_elem_of_singleton. destruct (decide (a = p)) as [|Hne]; [done|].
    rewrite !lookup_insert_ne, Hns in Ha by done. case_decide as Hin; [by destruct Ha|].
    by destruct Hin; apply Hdom.
Qed.

(** ** The operations *)

(** C7. [vmm_alloc] hands out disjoint ranges of the arena, first fit: it fails
    (with 0, nothing changed) only when no free region can hold the size
    rounded up to pages or when no node can be allocated; otherwise it takes
    the front of the first region that can, the result is page-aligned, lies
    inside the arena and overlaps no region in use, and the invariant (the
    regions tile the arena, links, node lifetimes, statistics, no two
    neighbouring free regions) holds again. *)
Theorem vmm_alloc_spec v xs size flags :
  arena_inv v xs → 0 < size ≤ 2 ^ 64 - 4096 →
  returns (vmm_alloc v size flags) (λ '(b, v'),
    (b = 0 ∧ v' = v ∧ (Forall (λ x, ¬ fits (PAGE_ALIGN_UP size) x) xs ∨
                       ∃ h, ka_malloc (vmm_heap v) 40 = Ret (0, h))) ∨
    (∃ l a d r p, xs = l ++ (a, d) :: r ∧ fits (PAGE_ALIGN_UP size) (a, d) ∧
      Forall (λ x, ¬ fits (PAGE_ALIGN_UP size) x) l ∧ b = d_base d ∧
      arena_inv v' (l ++ placed a d (PAGE_ALIGN_UP size) flags p ++ r)) ∧
    b mod 4096 = 0 ∧ VMM_BASE ≤ b ∧ b + size ≤ VMM_LIMIT ∧
    ∀ x, x ∈ xs → is_used x.2 = true →
      d_base x.2 + d_size x.2 ≤ b ∨ b + PAGE_ALIGN_UP size ≤ d_base x.2).
Proof.
  intros Hi Hs. eapply returns_mono; [by apply (vmm_alloc_step v xs)|].
  intros [b v'] [?|(l & a & d & r & p & -> & [Hu Hfit] & Hno & -> & Hi')]; [by left|right].
  destruct (page_align_up size) as ((? & _) & _); [lia|].
  destruct (arena_bounds _ _ _ _ _ (proj1 Hi)) as (?&?&?&?&?). cbn in Hu, Hfit.
  split; [exists l, a, d, r, p; done|]. split_and!; [done|done|lia|].
  intros [a' d'] Hin Hu'. cbn in *.
  assert (a ≠ a').
  { intros <-. pose proof (ar_nodup _ _ (proj1 Hi)) as (Hal & Har & _)%NoDup_mid.
    apply elem_of_app in Hin as [Hin|[[= ->]|Hin]%elem_of_cons]; [|congruence|];
      apply (list_elem_of_fmap_2 fst) in Hin; done. }
  destruct (covers_disjoint _ _ _ a d a' d' (ar_covers _ _ (proj1 Hi))); try done;
    [apply elem_of_app; right; by left|lia..].
Qed.

(** [vmm_free] of the base of a region in use frees that region and merges
    it with its free neighbours, giving the nodes of absorbed regions back to
    the heap exactly once; any other argument changes nothing. The invariant
    holds again; no node is used after it was freed. *)
Theorem vmm_free_spec v xs b :
  arena_inv v xs →
  returns (vmm_free v b) (λ v',
    (v' = v ∧ Forall (λ x, ¬ used_at b x) xs) ∨
    ∃ l a d r, xs = l ++ (a, d) :: r ∧ used_at b (a, d) ∧ arena_inv v' (freed l a d r) ∧
      vmm_get_used v' = vmm_get_used v - d_size d ∧
      vmm_get_free v' = vmm_get_free v + d_size d).
Proof.
  intros Hi. eapply returns_mono; [by apply vmm_free_step|].
  intros v' [?|(l & a & d & r & -> & Hu & Hi')]; [by left|right].
  exists l, a, d, r. destruct Hi as [Hr _]. pose proof Hi' as [Hr' _]. unfold vmm_get_used, vmm_get_free.
  pose proof (covers_sums _ _ _ (ar_covers _ _ Hr)) as (_ & _ & _ & E & _).
  pose proof (covers_sums _ _ _ (ar_covers _ _ Hr')) as (_ & _ & _ & E' & _).
  rewrite (ar_used _ _ Hr), (ar_used _ _ Hr'), (ar_free _ _ Hr), (ar_free _ _ Hr').
  assert (V : used_of d = d_size d) by (unfold used_of; by rewrite (proj2 Hu : is_used d = true)).
  pose proof (freed_used l a d r). pose proof (sum_of_app used_of l ((a, d) :: r)) as E1.
  rewrite sum_of_cons in E1. split_and!; try done; lia.
Qed.

Lemma merge1_stop x r :
  (is_used x.2 = true ∨ ∀ y, head r = Some y → is_used y.2 = true) → merge1 x r = (x, r).
Proof.
  intros Hs. destruct r as [|[b db] r]; [done|]. cbn.
  destruct Hs as [->|Hs]; [done|]. pose proof (Hs (b, db) eq_refl) as E. cbn in E.
  by rewrite E, andb_false_r.
Qed.

(** Freeing what was placed gives the list back. *)
Lemma freed_region_placed l a d r size flags p :
  merged (l ++ (a, d) :: r) → is_used d = false → d_flags d = VMM_REGION_FREE → 
  ∃ d1 r1, placed a d size flags p ++ r = (a, d1) :: r1 ∧ freed l a d1 r1 = l ++ (a, d) :: r.
Proof.
  intros (Hl & Hr & Hb)%(merged_app l) Hu Hf.
  assert (Hn : ∀ y, head r = Some y → is_used y.2 = true).
  { destruct r as [|y r]; [done|]. intros ? [= <-]. destruct Hr as [[Hx|Hy] _]; [|done].
    cbn in Hx. congruence. }
  exists (RD (d_base d) size (Z.lor VMM_REGION_USED flags)),
    ((if d_size d =? size then []
      else [(p, RD (d_base d + size) (d_size d - size) VMM_REGION_FREE)]) ++ r).
  split; [done|]. unfold freed. cbn [d_base d_size].
  assert (Em : merge1 (a, RD (d_base d) size VMM_REGION_FREE)
    ((if d_size d =? size then []
      else [(p, RD (d_base d + size) (d_size d - size) VMM_REGION_FREE)]) ++ r) = ((a, d), r)).
  { destruct (Z.eqb_spec (d_size d) size) as [<-|]; cbn [app].
    - rewrite merge1_stop by auto. destruct d; cbn in *. by subst.
    - cbn. unfold joined. cbn. f_equal. f_equal. destruct d as [bb ss ff]; cbn in *. subst ff.
      f_equal. lia. }
  rewrite Em. cbn [fst snd]. destruct (rev l) as [|y rl] eqn:El.
  - apply (f_equal (@rev _)) in El. rewrite rev_involutive in El. by rewrite El.
  - assert (E : l = rev rl ++ [y]) by (rewrite <- (rev_involutive l), El; done).
    assert (Hy : is_used y.2 = true).
    { destruct (Hb y (a, d)) as [|Hx]; [by rewrite E, last_snoc|done|done|]. cbn in Hx. congruence. }
    rewrite merge1_stop by by left. cbn [fst snd]. rewrite E, <- (assoc_L (++)). done.
Qed.

(** Freeing the range that [vmm_alloc] has just returned restores the
    arena: the same regions in the same nodes and the same statistics, for any
    sequence of earlier operations. *)
Theorem vmm_alloc_free_roundtrip v xs size flags :
  arena_inv v xs → 0 < size ≤ 2 ^ 64 - 4096 →
  returns ('(b, v1) ← vmm_alloc v size flags; vmm_free v1 b) (λ v2,
    arena_inv v2 xs ∧ vmm_get_stats v2 = vmm_get_stats v).
Proof.
  intros Hi Hs.
  assert (Hst : ∀ v2, arena_inv v2 xs → arena_inv v2 xs ∧ vmm_get_stats v2 = vmm_get_stats v).
  { intros v2 Hi2. split; [done|]. destruct Hi as [Hr _], Hi2 as [Hr2 _]. unfold vmm_get_stats.
    by rewrite (ar_total _ _ Hr), (ar_used _ _ Hr), (ar_free _ _ Hr), (ar_count _ _ Hr),
      (ar_ucount _ _ Hr), (ar_total _ _ Hr2), (ar_used _ _ Hr2), (ar_free _ _ Hr2),
      (ar_count _ _ Hr2), (ar_ucount _ _ Hr2). }
  apply returns_bind. eapply returns_mono; [by apply (vmm_alloc_step v xs)|].
  intros [b v1] [(-> & -> & _)|(l & a & d & r & p & -> & [Hu Hfit] & _ & -> & Hi1)].
  { by apply Hst. }
  cbn in Hu, Hfit. destruct (proj2 Hi) as [Hm Hpl].
  assert (Hf : d_flags d = VMM_REGION_FREE).
  { apply Forall_app in Hpl as [_ [[Hx|Hx] _]%Forall_cons]; cbn in Hx; [congruence|done]. }
  destruct (freed_region_placed l a d r (PAGE_ALIGN_UP size) flags p Hm Hu Hf) as (d1 & r1 & E & Efr).
  rewrite E in Hi1. eapply returns_mono; [by apply (vmm_free_step v1 (l ++ (a, d1) :: r1) (d_base d))|].
  assert (Hd1 : d1 = RD (d_base d) (PAGE_ALIGN_UP size) (Z.lor VMM_REGION_USED flags))
    by (unfold placed in E; by injection E as <- _).
  assert (Hua : used_at (d_base d) (a, d1)).
  { subst d1. split; [done|]. unfold is_used. cbn. by rewrite has_lor. }
  intros v2 [[-> Hno]|(l0 & a0 & d0 & r0 & E0 & [Hb0 Hu0] & Hi2)].
  { exfalso. apply Forall_app in Hno as [_ [Hno _]%Forall_cons]. done. }
  apply Hst. replace (l ++ (a, d) :: r) with (freed l0 a0 d0 r0); [done|]. rewrite <- Efr.
  assert (a0 = a) as ->.
  { apply (base_unique v1 _ a0 d0 a d1 (proj1 Hi1)); [|apply elem_of_app; right; by left|].
    - rewrite E0. apply elem_of_app. right. by left.
    - by subst d1. }
  pose proof (ar_nodup _ _ (proj1 Hi1)) as Hnd.
  destruct (split_unique l r1 l0 r0 a d1 d0) as (-> & -> & ->); [done..|]. done.
Qed.
End repr.

(** ** Concrete runs over the kernel heap *)

(** The size rounds up to 0 when it is within a page of [2^64]: the call takes
    an empty region. *)
Definition arena0 : arena kheap := Arena 0 ∅ kheap_init 0 0 0 0 0.

Lemma arena0_old : arena_old arena0 [].
Proof.
  split; try done.
  - by apply dlist_nil.
  - constructor.
  - eexists. apply kheap_init_inv.
  - by intros a Ha%elem_of_nil.
  - intros a [n Hn]. cbn in Hn. by rewrite lookup_empty in Hn.
Defined.

Lemma vmm_init_witness :
  returns (vmm_init arena0 0xFFFF800000001000 0xFFFF800000000000)
    (λ '(v, pml4), pml4 = 0x1000 ∧ vmm_regions v = 1).
Proof.
  pose proof (vmm_init_spec arena0 [] 0xFFFF800000001000 0xFFFF800000000000 arena0_old
    ltac:(done)) as Hs.
  eapply returns_mono; [apply (or_panic_returns _ _ Hs); vm_compute; reflexivity|].
  intros [v pml4] [-> [a [Hr _]]]. split; [reflexivity|]. exact (ar_count _ _ Hr).
Defined.

Definition arena1 : arena kheap :=
  match vmm_init arena0 0xFFFF800000001000 0xFFFF800000000000 with Ret (v, _) => v | _ => arena0 end.
Definition region1 : rdata := RD VMM_BASE (VMM_LIMIT - VMM_BASE) VMM_REGION_FREE.

Lemma arena1_inv : arena_inv arena1 [(HEAP_START + HDR, region1)].
Proof.
  assert (E : arena1 = Arena (HEAP_START + HDR)
    {[HEAP_START + HDR := Region VMM_BASE (VMM_LIMIT - VMM_BASE) VMM_REGION_FREE 0 0]}
    (vmm_heap arena1) (VMM_LIMIT - VMM_BASE) 0 (VMM_LIMIT - VMM_BASE) 1 0) by (vm_compute; reflexivity).
  assert (Hh : ka_inv (vmm_heap arena1)).
  { pose proof (ka_malloc_spec kheap_init 40 (ex_intro _ _ kheap_init_inv) ltac:(lia)) as Hk.
    apply returns_iff in Hk as ([p h] & Ek & Hh & _).
    assert (Eh : vmm_heap arena1 = match ka_malloc kheap_init 40 with
      | Ret (_, h) => h | _ => kheap_init end) by (vm_compute; reflexivity).
    by rewrite Eh, Ek. }
  split; [|split; [done|constructor; [by right|constructor]]].
  assert (Hl : ka_size (vmm_heap arena1) (HEAP_START + HDR) = Some 40) by (vm_compute; reflexivity).
  revert Hh Hl. rewrite E. generalize (vmm_heap arena1). clear E. intros h Hh Hl.
  split; cbn [vmm_nodes vmm_head vmm_heap]; try done.
  - apply dlist_cons. split_and!; [done..|]. rewrite lookup_singleton_eq. eexists.
    split_and!; [done..|]. by apply dlist_nil.
  - apply NoDup_singleton.
  - intros a ->%list_elem_of_singleton. by exists 40.
  - intros a [n Hn]. apply lookup_singleton_Some in Hn as [<- _]. by left.
Qed.

Lemma vmm_alloc_witness :
  returns (vmm_alloc arena1 5000 VMM_REGION_WRITE) (λ '(b, v), b = 0 ∨ b + 5000 ≤ VMM_LIMIT).
Proof.
  eapply returns_mono; [apply (vmm_alloc_spec arena1 _ 5000 VMM_REGION_WRITE arena1_inv); lia|].
  intros [b v] [(-> & _)|(_ & _ & _ & Hb & _)]; [by left|by right].
Defined.

Lemma vmm_free_witness : returns (vmm_free arena1 VMM_BASE) (λ v, v = arena1).
Proof.
  eapply returns_mono; [apply (vmm_free_spec arena1 _ VMM_BASE arena1_inv)|].
  intros v [[-> _]|(l & a & d & r & E & [_ Hu] & _)]; [reflexivity|].
  destruct l as [|x l]; [|by destruct l]. injection E as <- <- <-. discriminate.
Defined.

Lemma vmm_alloc_free_witness :
  returns ('(b, v1) ← vmm_alloc arena1 5000 VMM_REGION_WRITE; vmm_free v1 b)
    (λ v2, vmm_get_used v2 = 0).
Proof.
  eapply returns_mono;
    [apply (vmm_alloc_free_roundtrip arena1 _ 5000 VMM_REGION_WRITE arena1_inv); lia|].
  intros v2 [_ E]. apply (f_equal used_virtual) in E. exact E.
Defined.

Example vmm_alloc_wraps :
  ∃ v, vmm_alloc arena1 (2 ^ 64 - 1) VMM_REGION_WRITE = Ret (VMM_BASE, v) ∧
    vmm_used v = 0 ∧ vmm_used_regions v = 1.
Proof. eexists. split; [vm_compute; reflexivity|by vm_compute]. Qed.
