(* ===== verification/Boot.v ===== *)
(** The memory components together, in the order [_start] of [kernel.c] starts
    them: the frame allocator, the page tables of the kernel heap, the heap and the
    virtual address arena. *)
From S2P Require Import Prelude Interfaces Ram PhysMem DList Kheap Paging Vmm.

(** The memory part of [_start]: [mpr] is the memory map, [off] the offset of the direct
    map and [cr3] the register that the boot loader left; [garbage] is what the
    array of page frames held before. The arena starts from the zeroed static
    variables of [vmm.c]. *)
Definition memory_init (garbage : Z → pageframe) (mpr : list memmap_entry) (cr3 off : Z) (m : ram)
    : res (physmem * paging * ram * arena kheap * Z) :=
  p ← physmem_init garbage mpr;
  '(g, m, p) ← paging_init cr3 off m p;
  '(v, pml4_phys) ← vmm_init (Arena 0 ∅ kheap_init 0 0 0 0 0) (kernel_pml4 g) (hhdm_offset g);
  Ret (p, g, m, v, pml4_phys).

(** ** Frames to spare *)

(** At least [k] frames are free. *)
Definition spare (p : physmem) (k : nat) : Prop :=
  ∃ l : list Z, NoDup l ∧ length l = k ∧ ∀ f, f ∈ l → 0 ≤ f < physmem_total p ∧ frame_bit p f = false.

Lemma spare_run p s n : free_run p s (Z.of_nat n) → spare p n.
Proof.
  intros (Hs & Ht & Hf). exists (seqZ s (Z.of_nat n)). split_and!.
  - apply NoDup_seqZ.
  - rewrite length_seqZ. lia.
  - intros f Hin%elem_of_seqZ. split; [lia|by apply Hf].
Qed.

Lemma spare_le p j k : (j ≤ k)%nat → spare p k → spare p j.
Proof.
  intros Hjk (l & Hn & Hl & Hf). exists (take j l). split_and!.
  - eapply sublist_NoDup; [exact Hn|apply sublist_take].
  - rewrite length_take. lia.
  - intros f Hin. apply Hf. by eapply elem_of_take in Hin as (i & Hi & _); apply list_elem_of_lookup_2 in Hi.
Qed.

(** An allocation of [count] frames takes at most [count] of them. *)
Lemma spare_marked p p' s count k :
  marked true (Pageframe 1 FRAME_USED) s (s + Z.of_nat count) p p' → spare p (count + k) → spare p' k.
Proof.
  intros M (l & Hn & Hl & Hf).
  set (taken := λ f, s ≤ f < s + Z.of_nat count).
  set (ins := filter taken l). set (l' := filter (λ f, ¬ taken f) l).
  assert (Hsplit : ins ++ l' ≡ₚ l) by apply filter_app_complement.
  assert (Hins : (length ins ≤ count)%nat).
  { assert (length (seqZ s (Z.of_nat count)) = count) as Hc by (rewrite length_seqZ; lia).
    rewrite <-Hc. apply submseteq_length, NoDup_submseteq; [by apply NoDup_filter|].
    intros f [Hin _]%list_elem_of_filter. by apply elem_of_seqZ. }
  apply (spare_le _ _ (length l')).
  { apply Permutation_length in Hsplit. rewrite length_app in Hsplit. lia. }
  exists l'. split_and!; [by apply NoDup_filter|done|]. intros f [Hout Hin]%list_elem_of_filter.
  destruct (Hf f Hin) as [Hr Hb]. rewrite (mk_total _ _ _ _ _ _ M). split; [done|].
  rewrite (mk_bit _ _ _ _ _ _ M) by lia. unfold taken in Hout. repeat zcase; try done; lia.
Qed.

(** With a frame to spare, one frame is found. *)
Lemma alloc_spare p k : physmem_inv p → spare p (S k) →
  returns (physmem_alloc_to p 1) (λ '(a, p'), a ≠ 0 ∧ physmem_inv p' ∧ spare p' k).
Proof.
  intros Hp Hs. pose proof (physmem_alloc_one p Hp) as H1. pose proof (physmem_alloc_to_marks p 1 (proj1 Hp) ltac:(lia)) as H2.
  apply returns_iff in H1 as ([a p'] & E & Hp' & _). rewrite E in *. cbn in H2 |- *.
  destruct H2 as [(-> & -> & Hno)|(s & -> & Hr & _ & M)].
  - destruct Hs as ([|f l] & _ & Hl & Hf); [done|]. destruct (Hf f) as [Hr Hb]; [by left|].
    destruct (Hno f). split_and!; [lia|lia|]. intros f' Hf'. by replace f' with f by lia.
  - split_and!; [|done|by apply (spare_marked p p' s 1)].
    assert (s ≠ 0). { intros ->. destruct Hr as (_ & _ & Hf). destruct Hp as [_ H0]. by rewrite Hf in H0 by lia. }
    unfold PAGE_SIZE. lia.
Qed.

(** Mapping a page makes at most three tables. *)
Lemma get_or_create_spare off tf m p t i k : physmem_inv p → spare p (S k) →
  returns (get_or_create off tf m p t i) (λ '(_, _, p'), physmem_inv p' ∧ spare p' k).
Proof.
  intros Hp Hs. unfold get_or_create. destruct (has _ _).
  { split; [done|]. eapply spare_le; [|exact Hs]. lia. }
  apply returns_bind. eapply returns_mono; [by apply alloc_spare|]. intros [a p'] (Ha & Hp' & Hs').
  destruct (Z.eqb_spec a 0); [done|]. by split.
Qed.

Lemma map_page_spare off tf m p t va pa fl k : physmem_inv p → spare p (3 + k) →
  returns (map_page off tf m p t va pa fl) (λ '(_, p'), physmem_inv p' ∧ spare p' k).
Proof.
  intros Hp Hs. unfold map_page.
  apply returns_bind. eapply returns_mono; [by apply (get_or_create_spare _ _ _ _ _ _ (2 + k))|]. intros [[t1 m1] p1] [Hp1 Hs1].
  apply returns_bind. eapply returns_mono; [by apply (get_or_create_spare _ _ _ _ _ _ (1 + k))|]. intros [[t2 m2] p2] [Hp2 Hs2].
  apply returns_bind. eapply returns_mono; [by apply (get_or_create_spare _ _ _ _ _ _ k)|]. by intros [[t3 m3] p3].
Qed.

(** The frames [paging_init] may take: those of the heap, and three tables for each
    of its pages. *)
Definition HEAP_FRAMES : Z := HEAP_SIZE / PAGE_SIZE.
Definition PAGING_FRAMES : Z := HEAP_FRAMES + 3 * HEAP_FRAMES.

Lemma paging_init_returns cr3 off m p s :
  (off <=? HEAP_START) && (HEAP_START <? u64 (off + 0x1000000000)) = false →
  physmem_inv p → free_run p s PAGING_FRAMES → is_ret (paging_init cr3 off m p) = true.
Proof.
  intros Hw Hp Hrun. assert (H : returns (paging_init cr3 off m p) (λ _, True)).
  2:{ apply returns_iff in H as (? & -> & _). done. }
  unfold paging_init. rewrite Hw. fold HEAP_FRAMES.
  assert (Hs : spare p (Z.to_nat PAGING_FRAMES)) by (apply (spare_run p s); by rewrite Z2Nat.id by done).
  pose proof (physmem_alloc_frames p HEAP_FRAMES Hp ltac:(done)) as H1.
  pose proof (physmem_alloc_to_marks p HEAP_FRAMES (proj1 Hp) ltac:(done)) as H2.
  apply returns_iff in H1 as ([phys p1] & E & Hp1 & Hcase). rewrite E in *. cbn [returns] in H2. rewrite bind_Ret.
  destruct H2 as [(-> & -> & Hno)|(s' & -> & Hr & _ & M)].
  { destruct (Hno s). destruct Hrun as (? & Ht & Hf). unfold PAGING_FRAMES in *.
    assert (0 ≤ HEAP_FRAMES) by done. split_and!; [done|lia|]. intros f ?. apply Hf. lia. }
  destruct Hcase as [[E0 ->]|(Hpos & _)].
  { destruct Hr as (Hs0 & _ & Hf). assert (s' = 0) as -> by (unfold PAGE_SIZE in E0; lia).
    destruct Hp as [_ H0]. rewrite Hf in H0; [done|]. by split. }
  destruct (Z.eqb_spec (s' * PAGE_SIZE) 0); [lia|].
  assert (Hs1 : spare p1 (3 * Z.to_nat HEAP_FRAMES)).
  { apply (spare_marked p p1 s' (Z.to_nat HEAP_FRAMES)); [by rewrite Z2Nat.id by done|].
    eapply spare_le; [|exact Hs]. unfold PAGING_FRAMES. lia. }
  apply returns_bind.
  eapply returns_mono; [apply (for_range_inv (λ i '(_, q), physmem_inv q ∧ spare q (3 * Z.to_nat (HEAP_FRAMES - i))))|].
  - done.
  - by rewrite Z.sub_0_r.
  - intros i [m2 q] Hi [Hq Hsq]. apply map_page_spare; [done|]. eapply spare_le; [|exact Hsq]. lia.
  - by intros [m2 q] _.
Qed.

(** ** The memory map *)

(** The bytes of the allocator's arrays for a memory map, and where they go. *)
Definition tracking_size (mpr : list memmap_entry) : Z :=
  let total := highest_addr mpr 0 / PAGE_SIZE in total * 8 + (total + 7) / 8.
Definition tracking_addr (mpr : list memmap_entry) : Z := physmem_addr_get_tracking mpr (tracking_size mpr).
(** The frame at [a] lies in a usable entry. *)
Definition usable_frame (mpr : list memmap_entry) (a : Z) : Prop :=
  ∃ e, e ∈ mpr ∧ entry_type e = LIMINE_MEMMAP_USABLE ∧ entry_base e ≤ a ∧ a + 4096 ≤ entry_base e + entry_length e.
(** Entry [e] is usable, overlaps no other, and holds the arrays and [n] frames
    more. *)
Record roomy (mpr : list memmap_entry) (e : memmap_entry) (n : Z) : Prop := {
  rm_in : e ∈ mpr;
  rm_usable : entry_type e = LIMINE_MEMMAP_USABLE;
  rm_base : 0x100000 ≤ entry_base e;
  rm_apart e' : e' ∈ mpr → e' = e ∨ entry_base e' + entry_length e' ≤ entry_base e ∨
    entry_base e + entry_length e ≤ entry_base e';
  rm_size : tracking_size mpr + 4096 + n * 4096 ≤ entry_length e;
}.

Lemma highest_addr_mono mpr h : h ≤ highest_addr mpr h.
Proof. revert h. induction mpr as [|e mpr IH]; intros h; cbn [highest_addr]; [done|]. etrans; [|apply IH]. repeat case_match; zbool; lia. Qed.

Lemma highest_addr_ge mpr e h : Forall entry_ok mpr → e ∈ mpr → entry_type e = LIMINE_MEMMAP_USABLE →
  entry_base e + entry_length e ≤ highest_addr mpr h.
Proof.
  intros Hok Hin Hty. revert h. induction Hok as [|e' mpr He' _ IH]; [by apply elem_of_nil in Hin|].
  intros h. cbn [highest_addr]. apply elem_of_cons in Hin as [->|Hin]; [|by apply IH].
  rewrite Hty, Z.eqb_refl. cbn [orb]. destruct He' as (? & ? & ? & _). rewrite u64_small by lia.
  etrans; [|apply highest_addr_mono]. case_match; zbool; lia.
Qed.

Lemma get_tracking_from_above lowest size mpr a : get_tracking_from lowest size mpr = Some a → lowest ≤ a.
Proof.
  induction mpr as [|e mpr IH]; cbn [get_tracking_from]; [done|].
  destruct (_ && _) eqn:E; [|exact IH]. intros [= <-]. zbool. lia.
Qed.
Lemma get_tracking_from_some lowest size mpr e :
  e ∈ mpr → entry_type e = LIMINE_MEMMAP_USABLE → size ≤ entry_length e → lowest ≤ entry_base e →
  is_Some (get_tracking_from lowest size mpr).
Proof.
  intros Hin Hty Hs Hl. induction mpr as [|e' mpr IH]; [by apply elem_of_nil in Hin|]. cbn [get_tracking_from].
  destruct (_ && _) eqn:E; [by eexists|].
  apply elem_of_cons in Hin as [->|Hin]; [|by apply IH].
  rewrite Hty, Z.eqb_refl in E. cbn [andb] in E. apply andb_false_iff in E as [E|E]; zbool; lia.
Qed.

Lemma tracking_found mpr e n : 0 ≤ n → roomy mpr e n → tracking_addr mpr ≠ 0.
Proof.
  intros Hn [Hin Hty Hb _ Hsz]. unfold tracking_addr, physmem_addr_get_tracking.
  destruct (get_tracking_from 0x1000000 _ mpr) as [a|] eqn:E1; [apply get_tracking_from_above in E1; lia|].
  destruct (get_tracking_from_some 0x100000 (tracking_size mpr) mpr e Hin Hty) as [a E2]; [lia|done|].
  rewrite E2. apply get_tracking_from_above in E2. lia.
Qed.

(** A frame that only usable entries cover, and one of them does, ends up free. *)
Lemma final_bit_covered es f b e :
  e ∈ es → PhysMem.covers e f = true → (∀ e', e' ∈ es → PhysMem.covers e' f = true → entry_type e' = LIMINE_MEMMAP_USABLE) →
  final_bit es f b = false.
Proof.
  intros Hin Hc Hall.
  assert (H : (∃ e, e ∈ es ∧ PhysMem.covers e f = true) ∨ b = false) by eauto. clear e Hin Hc.
  revert b H. induction es as [|e es IH]; intros b; cbn [final_bit]; [by intros [(? & ?%elem_of_nil & _)|]|].
  intros H. apply IH; [intros e' He'; apply Hall; by right|].
  destruct (PhysMem.covers e f) eqn:Hc; [right; by rewrite (Hall e) by (done || by left)|].
  destruct H as [(e' & [->|He']%elem_of_cons & Hc')|]; [congruence|left; by eexists|by right].
Qed.

Lemma covers_iff e f : entry_ok e → entry_type e = LIMINE_MEMMAP_USABLE →
  PhysMem.covers e f = true ↔ entry_base e ≤ f * 4096 ∧ f * 4096 + 4096 ≤ entry_base e + entry_length e.
Proof.
  intros (H0 & H1 & H2 & Hal) Hty. destruct (Hal Hty) as [Ha1 Ha2]. unfold PhysMem.covers, PAGE_SIZE. rewrite andb_true_iff, Z.leb_le, Z.ltb_lt.
  split; intros [??]; split; dlia.
Qed.

(** The frames of [e] behind the arrays. *)
Definition run_start (mpr : list memmap_entry) (e : memmap_entry) : Z :=
  entry_base e / PAGE_SIZE + (tracking_size mpr + 4095) / 4096.

Lemma roomy_frame mpr e n f : Forall entry_ok mpr → 0 ≤ n → roomy mpr e n →
  run_start mpr e ≤ f < run_start mpr e + n →
  f < highest_addr mpr 0 / PAGE_SIZE ∧ reserved (tracking_addr mpr) (tracking_size mpr) f || final_bit mpr f true = false.
Proof.
  intros Hok Hn Hr Hf. pose proof (tracking_found mpr e n Hn Hr) as Ht. destruct Hr as [Hin Hty Hb Hap Hsz].
  pose proof (Forall_elem _ _ _ Hok Hin) as He. pose proof He as (_ & Hl0 & Hl & Hal). destruct (Hal Hty) as [Ha1 Ha2].
  pose proof (highest_addr_ge mpr e 0 Hok Hin Hty) as Hh.
  destruct (tracking_spec mpr (tracking_size mpr) Ht) as (et & Het & Htt & Eaddr & Hfit). fold (tracking_addr mpr) in Eaddr.
  pose proof (Forall_elem _ _ _ Hok Het) as (Ht0 & _ & _ & Halt). destruct (Halt Htt) as [Ht1 Ht2].
  assert (0 ≤ tracking_size mpr).
  { unfold tracking_size. assert (0 ≤ highest_addr mpr 0) by lia. unfold PAGE_SIZE. dlia. }
  unfold run_start, PAGE_SIZE in Hf.
  assert (Hcov : PhysMem.covers e f = true) by (apply covers_iff; [done..|]; split; dlia).
  split; [unfold PAGE_SIZE; dlia|]. apply orb_false_iff. split.
  - unfold reserved. apply orb_false_iff. split; [apply Z.ltb_ge; dlia|]. rewrite Eaddr.
    apply andb_false_iff. rewrite Z.leb_gt, Z.ltb_ge. unfold PAGE_SIZE.
    destruct (Hap et Het) as [->|[Hd|Hd]]; [right; lia|right; dlia|left; dlia].
  - apply (final_bit_covered mpr f true e); [done..|]. intros e' He' Hc'.
    destruct (Hap e' He') as [->|Hd]; [done|]. exfalso. apply covers_iff in Hcov; [|done..].
    unfold PhysMem.covers, PAGE_SIZE in Hc'. apply andb_true_iff in Hc' as [Hc1%Z.leb_le Hc2%Z.ltb_lt]. destruct Hd; dlia.
Qed.

(** ** The sequence *)

Lemma vmm_init_boot kpml4 off : kpml4 ≠ 0 → is_ret (vmm_init (Arena 0 ∅ kheap_init 0 0 0 0 0) kpml4 off) = true.
Proof.
  intros Hk. unfold vmm_init.
  assert (∃ hd ns h, region_alloc (H:=kheap) ∅ kheap_init = Ret (hd, ns, h) ∧ (hd =? 0) = false) as (hd & ns & h & E & Hhd).
  { eexists _, _, _. split; vm_compute; reflexivity. }
  set (v0 := Arena _ _ _ _ _ _ _ _).
  assert (Ef : free_list (vmm_fuel v0) (vmm_nodes v0) (vmm_heap v0) (vmm_head v0) = Ret (∅, kheap_init)) by reflexivity.
  rewrite Ef, bind_Ret, E, bind_Ret, Hhd. by destruct (Z.eqb_spec kpml4 0).
Qed.

Lemma paging_init_globals cr3 off m p g m' p' :
  paging_init cr3 off m p = Ret (g, m', p') → g = Paging (u64 (Z.land cr3 PTE_ADDR_MASK + off)) off.
Proof.
  unfold paging_init. destruct (_ && _); [done|]. destruct (physmem_alloc_to _ _) as [[phys p1]| | |]; [|done..].
  rewrite bind_Ret. destruct (phys =? 0); [done|]. destruct (for_range _ _ _ _) as [[m2 p2]| | |]; [|done..].
  rewrite bind_Ret. by intros [= <- _ _].
Qed.

(** C1. Starting the memory of the kernel.  When the boot loader hands over a memory
    map with a usable entry that holds the arrays of the frame allocator, the heap
    and its page tables, a direct map that leaves the heap's addresses alone,
    and page tables outside usable memory, the four initialisers run through
    without a panic. Then the kernel's page tables are well-formed and made of
    frames in use; every address of the heap is backed by one run of usable frames
    that are in use, so that no later allocation returns them, and that lie
    apart from the arrays of the frame allocator; the virtual arena is one free
    region, and the kernel's address space has the boot page tables. *)
Theorem memory_init_spec garbage mpr e cr3 off m :
  let r := Z.land cr3 PTE_ADDR_MASK in
  Forall entry_ok mpr → roomy mpr e PAGING_FRAMES →
  0 ≤ off ∧ off + 2 ^ 47 ≤ 2 ^ 64 → (off <=? HEAP_START) && (HEAP_START <? u64 (off + 0x1000000000)) = false →
  pt_wf off heap_slot (λ a, ¬ usable_frame mpr a) m r →
  returns (memory_init garbage mpr cr3 off m) (λ '(p, g, m', v, pml4_phys),
    kernel_tables heap_slot g m' p r ∧ pml4_phys = r ∧
    (∃ a, arena_inv v [(a, RD VMM_BASE (VMM_LIMIT - VMM_BASE) VMM_REGION_FREE)]) ∧
    ∃ phys, phys mod 4096 = 0 ∧
      (∀ va, HEAP_START ≤ va < HEAP_START + HEAP_SIZE →
         paging_get_physical_address g m' va = phys + (va - HEAP_START)) ∧
      ∀ b, b mod 4096 = 0 → phys ≤ b < phys + HEAP_SIZE →
        physmem_used p b ∧ usable_frame mpr b ∧
        (b + 4096 ≤ tracking_addr mpr ∨ tracking_addr mpr + tracking_size mpr ≤ b)).
Proof.
  intros r Hok Hroom Ho Hw Hpt. unfold memory_init.
  assert (Hn : 0 ≤ PAGING_FRAMES) by done. pose proof (tracking_found _ _ _ Hn Hroom) as Ht.
  pose proof (proj2 (physmem_init_bits garbage mpr Hok) Ht) as Hb.
  pose proof (proj2 (physmem_init_spec garbage mpr Hok) Ht) as Hsafe.
  apply returns_iff in Hb as (p & E & W & T & B). rewrite E in *. cbn [returns] in Hsafe. rewrite bind_Ret.
  destruct Hsafe as (_ & _ & Hsafe). fold (tracking_size mpr) in B, Hsafe. fold (tracking_addr mpr) in B, Hsafe.
  assert (Hstart : 0 ≤ run_start mpr e).
  { destruct Hroom. unfold run_start, tracking_size, PAGE_SIZE. pose proof (highest_addr_mono mpr 0). dlia. }
  assert (Hrun : free_run p (run_start mpr e) PAGING_FRAMES).
  { assert (Hf : ∀ f, run_start mpr e ≤ f < run_start mpr e + PAGING_FRAMES → f < physmem_total p ∧ frame_bit p f = false).
    { intros f Hf. destruct (roomy_frame mpr e _ f Hok Hn Hroom Hf) as [H1 H2]. rewrite T. split; [done|]. rewrite B; [done|lia]. }
    split_and!; [done| |intros f ?; by apply Hf].
    destruct (Hf (run_start mpr e + PAGING_FRAMES - 1)); [|lia]. assert (0 < PAGING_FRAMES) by done. lia. }
  assert (Hp : physmem_inv p).
  { split; [done|]. assert (0 < PAGING_FRAMES) by done. destruct Hrun as (_ & ? & _). rewrite B; [done|lia]. }
  assert (Hwf : pt_wf off heap_slot (fa_used p) m r).
  { eapply pt_wf_mono; [exact Hpt|]. intros a Ha Hnu. unfold fa_used; cbn. unfold physmem_used.
    destruct (decide (0 ≤ a / PAGE_SIZE < physmem_total p)) as [Hd|]; [right|by left].
    destruct (frame_bit p (a / PAGE_SIZE)) eqn:Hbit; [done|]. exfalso. rewrite T in Hd.
    destruct (Hsafe _ Hd Hbit) as (_ & (e' & ? & ? & ? & ?) & _). apply Hnu. exists e'. unfold PAGE_SIZE in *. split_and!; [done..| |]; dlia. }
  pose proof (or_panic_returns _ _ (paging_init_spec cr3 off m p Ho Hp Hwf) (paging_init_returns cr3 off m p _ Hw Hp Hrun)) as Hpg.
  apply returns_iff in Hpg as ([[g m'] p'] & Eg & Hkt & phys & Hal & Hva & Hfr). rewrite Eg, bind_Ret.
  pose proof (paging_init_globals _ _ _ _ _ _ _ Eg) as ->. cbn [kernel_pml4 hhdm_offset]. fold r.
  destruct (wf_frame _ _ _ _ _ Hwf [] r) as [Hr _]; [split_and!; [cbn; lia|constructor|done]|done|].
  assert (Hk : u64 (r + off) = r + off) by (apply u64_small; destruct Hr; lia). rewrite Hk.
  assert (Hk0 : r + off ≠ 0) by (destruct Hr; lia).
  pose proof (or_panic_returns _ _ (vmm_init_spec _ [] (r + off) off arena0_old Hk0) (vmm_init_boot _ off Hk0)) as Hv.
  apply returns_iff in Hv as ([v pml4] & Ev & -> & Hv). unfold arena0 in Ev. rewrite Ev, bind_Ret. cbn [returns].
  fold r in Hkt, Hva. rewrite Hk in Hkt, Hva.
  split_and!; [done| |done|].
  { replace (r + off - off) with r by lia. apply u64_small. destruct Hr; lia. }
  exists phys. split_and!; [done..|]. intros b Hb Hin. destruct (Hfr b Hb Hin) as [Hfree Hused]. split; [done|].
  unfold physmem_used in Hfree. destruct (decide (0 ≤ b / PAGE_SIZE < physmem_total p)) as [Hd|Hd]; [|destruct Hfree; by left].
  destruct (frame_bit p (b / PAGE_SIZE)) eqn:Hbit; [destruct Hfree; by right|]. rewrite T in Hd.
  destruct (Hsafe _ Hd Hbit) as (_ & (e' & ? & ? & ? & ?) & Hapart). unfold PAGE_SIZE in *. split.
  - exists e'. split_and!; [done..| |]; dlia.
  - destruct Hapart; [left|right]; dlia.
Qed.

(** A machine of 512 MiB: low memory is reserved, and the boot page table lies in
    it. *)
Definition demo_map : list memmap_entry :=
  [MemmapEntry 0 0x100000 1; MemmapEntry 0x100000 0x1FF00000 LIMINE_MEMMAP_USABLE].
Lemma demo_map_ok : Forall entry_ok demo_map.
Proof. repeat constructor; by vm_compute. Qed.
Lemma demo_map_roomy : roomy demo_map (MemmapEntry 0x100000 0x1FF00000 LIMINE_MEMMAP_USABLE) PAGING_FRAMES.
Proof.
  split; [right; by left|done|done| |by vm_compute].
  intros e' [->|[->|He]%elem_of_cons]%elem_of_cons; [right; left; by vm_compute|by left|by apply elem_of_nil in He].
Qed.
Lemma demo_boot_tables : pt_wf 0xFFFF800000000000 heap_slot (λ a, ¬ usable_frame demo_map a) ∅ 0x1000.
Proof.
  apply pt_wf_empty; [vdone|].
  intros (e & [->|[->|He]%elem_of_cons]%elem_of_cons & Hty & Hb & _); [done|cbn in Hb; lia|by apply elem_of_nil in He].
Qed.

Lemma memory_init_witness :
  returns (memory_init (λ _, Pageframe 0 0) demo_map 0x1000 0xFFFF800000000000 ∅) (λ '(p, g, m', v, pml4_phys),
    pml4_phys = 0x1000 ∧ ∃ phys, paging_get_physical_address g m' (HEAP_START + 0x123456) = phys + 0x123456).
Proof.
  eapply returns_mono.
  { apply (memory_init_spec (λ _, Pageframe 0 0) demo_map (MemmapEntry 0x100000 0x1FF00000 LIMINE_MEMMAP_USABLE) 0x1000 0xFFFF800000000000 ∅);
      [exact demo_map_ok|exact demo_map_roomy|vdone|vdone|exact demo_boot_tables]. }
  intros [[[[p g] m'] v] pml4] (_ & -> & _ & phys & _ & Hva & _). split; [vdone|]. exists phys.
  rewrite (Hva (HEAP_START + 0x123456)) by vdone. unfold HEAP_START. lia.
Defined.
