(* ===== verification/RunQueue.v ===== *)
(** The ready queue of [proc/scheduler.c]: a ring of 64 thread pointers, and
    the list it represents. *)
From S2P Require Import Prelude.

Definition SCHED_MAX_THREADS : Z := 64.

Record rq := Rq {
  queue : list Z;
  head : Z;
  tail : Z;
  cnt : Z;
}.

Definition q_init (q : rq) : rq := Rq (queue q) 0 0 0.

Definition q_empty (q : rq) : bool := cnt q =? 0.

(** [q->queue[i]] *)
Definition q_get (q : rq) (i : Z) : res Z := deref (lookupZ (queue q) i).
Definition q_set (q : rq) (i t : Z) : res rq :=
  _ ← q_get q i; Ret (Rq (updateZ (queue q) i t) (head q) (tail q) (cnt q)).

Definition q_push (q : rq) (t : Z) : res rq :=
  if SCHED_MAX_THREADS <=? cnt q then Ret q else
  q ← q_set q (tail q) t;
  Ret (Rq (queue q) (head q) (Z.rem (tail q + 1) SCHED_MAX_THREADS) (cnt q + 1)).

Definition q_pop (q : rq) : res (Z * rq) :=
  if q_empty q then Ret (0, q) else
  t ← q_get q (head q);
  Ret (t, Rq (queue q) (Z.rem (head q + 1) SCHED_MAX_THREADS) (tail q) (cnt q - 1)).

(** The two loops of [sched_remove]. *)
Fixpoint rq_find (n : nat) (q : rq) (t i : Z) : res (option Z) :=
  match n with
  | O => Ret None
  | S n =>
      x ← q_get q (Z.rem (head q + i) SCHED_MAX_THREADS);
      if x =? t then Ret (Some i) else rq_find n q t (i + 1)
  end.

Definition rq_shift (q : rq) (i : Z) : res rq :=
  for_range i (cnt q - 1) (λ j q,
    x ← q_get q (Z.rem (head q + j + 1) SCHED_MAX_THREADS);
    q_set q (Z.rem (head q + j) SCHED_MAX_THREADS) x) q.

Definition rq_remove (q : rq) (t : Z) : res rq :=
  o ← rq_find (Z.to_nat (cnt q)) q t 0;
  match o with
  | None => Ret q
  | Some i =>
      q ← rq_shift q i;
      Ret (Rq (queue q) (head q) (Z.rem (tail q - 1 + SCHED_MAX_THREADS) SCHED_MAX_THREADS)
             (cnt q - 1))
  end.

(** ** The list a ring represents *)

Record rq_wf (q : rq) : Prop := {
  rq_len : length (queue q) = 64%nat;
  rq_head : 0 ≤ head q < 64;
  rq_cnt : 0 ≤ cnt q ≤ 64;
  rq_tail : tail q = (head q + cnt q) mod 64;
}.

(** Entry [k] of the queue, from its front. *)
Definition slot (q : rq) (k : Z) : Z :=
  default 0 (lookupZ (queue q) ((head q + k) mod 64)).
Definition contents (q : rq) : list Z := slot q <$> seqZ 0 (cnt q).

Lemma length_contents q : rq_wf q → Z.of_nat (length (contents q)) = cnt q.
Proof. intros W. unfold contents. rewrite length_fmap, length_seqZ. pose proof (rq_cnt _ W). lia. Qed.

Lemma contents_lookup q k :
  rq_wf q → contents q !! k = if decide (Z.of_nat k < cnt q) then Some (slot q (Z.of_nat k)) else None.
Proof.
  intros W. unfold contents. rewrite list_lookup_fmap. case_decide as Hk.
  - rewrite lookup_seqZ_lt by lia. done.
  - rewrite lookup_seqZ_ge by lia. done.
Qed.

(** Two rings with the same entries represent the same list. *)
Lemma contents_ext q (xs : list Z) :
  rq_wf q → length xs = Z.to_nat (cnt q) →
  (∀ k, 0 ≤ k < cnt q → xs !! Z.to_nat k = Some (slot q k)) → contents q = xs.
Proof.
  intros W Hl Hs. apply list_eq. intros k. rewrite contents_lookup by done. case_decide as Hk.
  - rewrite <- (Hs (Z.of_nat k)) by lia. by rewrite Nat2Z.id.
  - symmetry. apply lookup_ge_None. lia.
Qed.

Lemma q_get_slot q k : rq_wf q → 0 ≤ k ≤ 64 → q_get q (Z.rem (head q + k) SCHED_MAX_THREADS) = Ret (slot q k).
Proof.
  intros W Hk. pose proof (rq_head _ W). unfold q_get, slot, SCHED_MAX_THREADS.
  rewrite Z.rem_mod_nonneg by lia.
  destruct (lookupZ_is_some (queue q) ((head q + k) mod 64)) as [x ->]; [|done].
  rewrite (rq_len _ W). dlia.
Qed.

(** Writing entry [k]. *)
Lemma q_set_slot q k t : rq_wf q → 0 ≤ k < 64 →
  ∃ q', q_set q (Z.rem (head q + k) SCHED_MAX_THREADS) t = Ret q' ∧
    rq_wf q' ∧ head q' = head q ∧ tail q' = tail q ∧ cnt q' = cnt q ∧
    ∀ j, 0 ≤ j < 64 → slot q' j = if j =? k then t else slot q j.
Proof.
  intros W Hk. unfold q_set. rewrite q_get_slot by (done || lia). rewrite bind_Ret.
  eexists. split; [done|]. pose proof (rq_head _ W).
  split; [split; cbn; rewrite ?length_updateZ; apply W|]. cbn. split_and!; [done..|].
  intros j Hj. unfold slot, SCHED_MAX_THREADS. cbn. rewrite Z.rem_mod_nonneg by lia. zcase.
  - subst j. rewrite lookupZ_updateZ_eq; [done|]. rewrite (rq_len _ W). dlia.
  - rewrite lookupZ_updateZ_ne; [done|]. dlia.
Qed.

(** ** The operations on the list *)

Lemma q_init_spec q : length (queue q) = 64%nat → rq_wf (q_init q) ∧ contents (q_init q) = [].
Proof. intros Hl. split; [split; cbn; try lia; done|done]. Qed.

Lemma q_empty_spec q : rq_wf q → q_empty q = true ↔ contents q = [].
Proof.
  intros W. unfold q_empty. rewrite Z.eqb_eq, <- (length_contents q W).
  destruct (contents q); cbn; split; try done; lia.
Qed.

Lemma q_push_spec q t : rq_wf q →
  ∃ q', q_push q t = Ret q' ∧ rq_wf q' ∧
    contents q' = if 64 <=? cnt q then contents q else contents q ++ [t].
Proof.
  intros W. unfold q_push. change SCHED_MAX_THREADS with 64 at 1.
  destruct (Z.leb_spec 64 (cnt q)) as [|Hlt]; [by exists q|].
  pose proof (rq_cnt _ W) as Hc. pose proof (rq_head _ W) as Hh.
  assert (Et : tail q = Z.rem (head q + cnt q) SCHED_MAX_THREADS).
  { rewrite (rq_tail _ W). unfold SCHED_MAX_THREADS. by rewrite Z.rem_mod_nonneg by lia. }
  replace (q_set q (tail q) t) with (q_set q (Z.rem (head q + cnt q) SCHED_MAX_THREADS) t)
    by by rewrite <- Et.
  destruct (q_set_slot q (cnt q) t W ltac:(lia)) as (q1 & -> & W1 & H1 & T1 & C1 & S1).
  rewrite bind_Ret, H1, C1, T1. eexists. split; [done|].
  set (q2 := Rq _ _ _ _).
  assert (W2 : rq_wf q2).
  { split; cbn; [apply W1|lia|lia|]. rewrite (rq_tail _ W). unfold SCHED_MAX_THREADS.
    rewrite Z.rem_mod_nonneg by dlia. dlia. }
  split; [done|]. apply contents_ext; [done|rewrite length_app; pose proof (length_contents q W); cbn; lia|].
  intros k Hk. cbn in Hk.
  assert (Esl : slot q2 k = slot q1 k) by (unfold slot; cbn; by rewrite H1). rewrite Esl, S1 by lia.
  pose proof (length_contents q W). zcase.
  - subst k. rewrite lookup_app_r by lia. by replace (_ - _)%nat with O by lia.
  - rewrite lookup_app_l by lia. rewrite contents_lookup by done. rewrite decide_True by lia.
    by rewrite Z2Nat.id by lia.
Qed.

Lemma q_pop_spec q : rq_wf q →
  ∃ t q', q_pop q = Ret (t, q') ∧ rq_wf q' ∧
    match contents q with
    | [] => t = 0 ∧ q' = q
    | x :: xs => t = x ∧ contents q' = xs
    end.
Proof.
  intros W. unfold q_pop. destruct (q_empty q) eqn:E.
  { apply q_empty_spec in E; [|done]. rewrite E. by exists 0, q. }
  assert (Hne : contents q ≠ []) by (intros Hx; apply q_empty_spec in Hx; congruence).
  pose proof (rq_cnt _ W) as Hc. pose proof (rq_head _ W) as Hh.
  pose proof (length_contents q W) as Hl.
  assert (Hc1 : 0 < cnt q) by (destruct (contents q); cbn in Hl; [done|lia]).
  pose proof (q_get_slot q 0 W ltac:(lia)) as Hg. rewrite Z.add_0_r in Hg.
  unfold SCHED_MAX_THREADS in Hg. rewrite Z.rem_small in Hg by lia. rewrite Hg, bind_Ret.
  set (q1 := Rq _ _ _ _).
  assert (W1 : rq_wf q1).
  { split; cbn; unfold SCHED_MAX_THREADS; rewrite ?Z.rem_mod_nonneg by lia;
      [apply W|dlia|lia|]. rewrite (rq_tail _ W). dlia. }
  exists (slot q 0), q1. split; [done|]. split; [done|].
  pose proof (contents_lookup q 0 W) as H0. rewrite decide_True in H0 by lia.
  destruct (contents q) as [|x xs] eqn:Ec; [done|]. cbn in H0. injection H0 as ->.
  split; [done|]. apply contents_ext; [done|cbn in *; lia|].
  intros k Hk. cbn in Hk. pose proof (contents_lookup q (S (Z.to_nat k)) W) as Hs.
  rewrite Ec, decide_True in Hs by lia. etransitivity; [exact Hs|]. f_equal.
  unfold slot, q1, SCHED_MAX_THREADS. cbn. rewrite Z.rem_mod_nonneg by lia. f_equal. f_equal.
  dlia.
Qed.

(** The first occurrence of [t] in [xs]. *)
Fixpoint find_first (t : Z) (xs : list Z) : option nat :=
  match xs with
  | [] => None
  | x :: xs => if x =? t then Some O else S <$> find_first t xs
  end.

Lemma rq_find_spec n q t i :
  rq_wf q → 0 ≤ i → i + Z.of_nat n = cnt q →
  rq_find n q t i = Ret ((λ k, i + Z.of_nat k) <$> find_first t (drop (Z.to_nat i) (contents q))).
Proof.
  intros W. revert i. induction n as [|n IH]; intros i Hi Hn; cbn [rq_find].
  { rewrite drop_ge; [done|]. pose proof (length_contents q W). lia. }
  pose proof (rq_cnt _ W). rewrite q_get_slot by (done || lia). rewrite bind_Ret.
  pose proof (contents_lookup q (Z.to_nat i) W) as Hs. rewrite decide_True, Z2Nat.id in Hs by lia.
  rewrite (drop_S _ _ _ Hs). cbn [find_first]. zcase.
  - cbn. f_equal. f_equal. lia.
  - rewrite IH by lia. replace (Z.to_nat (i + 1)) with (S (Z.to_nat i)) by lia.
    destruct (find_first t _); [|done]. cbn. f_equal. f_equal. lia.
Qed.

Lemma find_first_bound t xs k : find_first t xs = Some k → (k < length xs)%nat.
Proof.
  revert k. induction xs as [|x xs IH]; intros k; cbn; [done|].
  destruct (x =? t); [intros [= <-]; lia|].
  destruct (find_first t xs) as [j|]; [|done]. intros [= <-]. specialize (IH _ eq_refl). lia.
Qed.

Lemma rq_shift_spec q i : rq_wf q → 0 ≤ i < cnt q →
  returns (rq_shift q i) (λ q',
    rq_wf q' ∧ head q' = head q ∧ tail q' = tail q ∧ cnt q' = cnt q ∧
    ∀ k, 0 ≤ k < cnt q - 1 → slot q' k = slot q (if k <? i then k else k + 1)).
Proof.
  intros W Hi. pose proof (rq_cnt _ W).
  eapply returns_mono; [apply (for_range_inv (λ j q',
    rq_wf q' ∧ head q' = head q ∧ tail q' = tail q ∧ cnt q' = cnt q ∧
    ∀ k, 0 ≤ k < cnt q → slot q' k = slot q (if (i <=? k) && (k <? j) then k + 1 else k)))|].
  - lia.
  - split_and!; try done. intros k Hk. by repeat zcase; cbn; try lia.
  - intros j q' Hj (W' & H' & T' & C' & S'). rewrite <- Z.add_assoc.
    rewrite q_get_slot by (done || lia). rewrite bind_Ret.
    destruct (q_set_slot q' j (slot q' (j + 1)) W' ltac:(lia)) as (q2 & -> & W2 & H2 & T2 & C2 & S2).
    cbn. split_and!; [done|congruence..|]. intros k Hk. rewrite S2 by lia.
    destruct (Z.eqb_spec k j) as [->|].
    + rewrite S' by lia. repeat zcase; cbn; try lia; done.
    + rewrite S' by lia. repeat zcase; cbn; try lia; done.
  - intros q' (W' & H' & T' & C' & S'). split_and!; try done. intros k Hk. rewrite S' by lia.
    repeat zcase; cbn; try lia; done.
Qed.

Lemma rq_remove_spec q t : rq_wf q →
  ∃ q', rq_remove q t = Ret q' ∧ rq_wf q' ∧
    contents q' = match find_first t (contents q) with
                  | Some k => delete k (contents q)
                  | None => contents q
                  end.
Proof.
  intros W. pose proof (rq_cnt _ W). pose proof (rq_head _ W).
  pose proof (length_contents q W) as Hl. unfold rq_remove.
  rewrite (rq_find_spec _ q t 0) by (done || lia). rewrite bind_Ret.
  change (drop (Z.to_nat 0) (contents q)) with (contents q).
  destruct (find_first t (contents q)) as [i|] eqn:Ef; cbn [fmap option_fmap option_map]; [|by exists q].
  rewrite Z.add_0_l.
  apply find_first_bound in Ef.
  pose proof (rq_shift_spec q (Z.of_nat i) W ltac:(lia)) as Hs.
  apply returns_iff in Hs as (q1 & -> & W1 & H1 & T1 & C1 & S1). rewrite bind_Ret, H1, C1, T1.
  eexists. split; [done|]. set (q2 := Rq _ _ _ _).
  assert (W2 : rq_wf q2).
  { split; cbn; [apply W1|lia|lia|]. rewrite (rq_tail _ W). unfold SCHED_MAX_THREADS.
    rewrite Z.rem_mod_nonneg by dlia. dlia. }
  split; [done|]. apply contents_ext; [done|rewrite length_delete by (apply lookup_lt_is_Some; lia); cbn; lia|].
  intros k Hk. cbn in Hk.
  assert (Esl : slot q2 k = slot q1 k) by (unfold slot; cbn; by rewrite H1). rewrite Esl, S1 by lia.
  zcase.
  - rewrite list_lookup_delete_lt, contents_lookup by (done || lia).
    rewrite decide_True by lia. by rewrite Z2Nat.id by lia.
  - rewrite list_lookup_delete_ge, contents_lookup by (done || lia).
    rewrite decide_True by lia. by replace (Z.of_nat (S (Z.to_nat k))) with (k + 1) by lia.
Qed.

(** C16. The ring buffer of the scheduler implements a bounded FIFO queue: on
    every well-formed ring each operation returns a well-formed ring, [q_push]
    appends unless 64 threads are queued (then the thread is dropped), [q_pop]
    takes the front or returns [NULL] on the empty queue, and the removal loop
    of [sched_remove] deletes the first occurrence and keeps the order of the
    others. *)
Theorem run_queue_refines_fifo q t : rq_wf q →
  returns (q_push q t) (λ q', rq_wf q' ∧
    contents q' = if decide (length (contents q) < 64)%nat then contents q ++ [t] else contents q) ∧
  returns (q_pop q) (λ '(x, q'), rq_wf q' ∧
    x = default 0 (hd_error (contents q)) ∧ contents q' = tl (contents q)) ∧
  returns (rq_remove q t) (λ q', rq_wf q' ∧
    contents q' = match find_first t (contents q) with
                  | Some k => delete k (contents q)
                  | None => contents q
                  end).
Proof.
  intros W. split_and!.
  - destruct (q_push_spec q t W) as (q' & -> & W' & E). split; [done|]. rewrite E.
    pose proof (length_contents q W). zcase; case_decide; try done; lia.
  - destruct (q_pop_spec q W) as (x & q' & -> & W' & E). split; [done|].
    destruct (contents q) eqn:Ec; destruct E as [-> E]; [by subst|done].
  - destruct (rq_remove_spec q t W) as (q' & -> & W' & E). done.
Qed.

Lemma run_queue_witness :
  returns (q_push (Rq (replicate 64 5) 63 0 1) 9) (λ q', contents q' = [5; 9]).
Proof.
  assert (W : rq_wf (Rq (replicate 64 5) 63 0 1)) by (split; [done|done|done|reflexivity]).
  destruct (run_queue_refines_fifo _ 9 W) as (H & _).
  eapply returns_mono; [exact H|]. intros q' [_ E]. exact E.
Defined.
