(* ===== verification/Space.v ===== *)
(** Address spaces and copy-on-write, the second half of [mem/vmm/vmm.c]. *)
From S2P Require Import Prelude Interfaces Ram PhysMem DList Kheap Paging Vmm.
Import MemLib.

(** [vmm_space_t]; [sizeof] is 32. *)
Record vmm_space := Space {
  pml4_phys : Z;
  regions : Z;
  sp_region_count : Z;
  sp_used_virtual : Z;
}.

(** The state the address-space code works on: memory, the frame allocator,
    the kernel heap with the region nodes and spaces that live in it, the
    paging globals, [&kernel_space] and [active_space]. *)
Record mm {H : Type} := MM {
  mm_ram : ram;
  mm_frames : physmem;
  mm_heap : H;
  mm_nodes : nodes;
  mm_spaces : gmap Z vmm_space;
  mm_paging : paging;
  kernel_space : Z;
  active_space : Z;
}.
Arguments mm : clear implicits.
Arguments MM {H}.

Section space.
Context {H : Type} `{HeapAlloc H}.
Implicit Types (s : mm H).

Definition with_mem s (m : ram) (f : physmem) : mm H :=
  MM m f (mm_heap s) (mm_nodes s) (mm_spaces s) (mm_paging s) (kernel_space s) (active_space s).
Definition with_nodes s (ns : nodes) (h : H) : mm H :=
  MM (mm_ram s) (mm_frames s) h ns (mm_spaces s) (mm_paging s) (kernel_space s) (active_space s).
Definition with_heap s (h : H) : mm H := with_nodes s (mm_nodes s) h.
Definition with_space s (a : Z) (sp : vmm_space) : mm H :=
  MM (mm_ram s) (mm_frames s) (mm_heap s) (mm_nodes s) (<[a := sp]> (mm_spaces s)) (mm_paging s)
    (kernel_space s) (active_space s).
Definition drop_space s (a : Z) : mm H :=
  MM (mm_ram s) (mm_frames s) (mm_heap s) (mm_nodes s) (delete a (mm_spaces s)) (mm_paging s)
    (kernel_space s) (active_space s).
Definition with_active s (a : Z) : mm H :=
  MM (mm_ram s) (mm_frames s) (mm_heap s) (mm_nodes s) (mm_spaces s) (mm_paging s)
    (kernel_space s) a.
Definition mm_hhdm s : Z := hhdm_offset (mm_paging s).
Definition get_space s (a : Z) : res vmm_space := deref (mm_spaces s !! a).

Definition mm_region_alloc s : res (Z * mm H) :=
  '(r, ns, h) ← region_alloc (mm_nodes s) (mm_heap s); Ret (r, with_nodes s ns h).
Definition mm_region_free s (r : Z) : res (mm H) :=
  '(ns, h) ← region_free (mm_nodes s) (mm_heap s) r; Ret (with_nodes s ns h).
Definition mm_map_page_in s (pml4 va pa flags : Z) : res (mm H) :=
  '(m, f) ← paging_map_page_in (mm_paging s) (mm_ram s) (mm_frames s) pml4 va pa flags;
  Ret (with_mem s m f).
Definition mm_unmap_page_in s (pml4 va : Z) : mm H :=
  with_mem s (paging_unmap_page_in (mm_paging s) (mm_ram s) pml4 va) (mm_frames s).

Definition flags_to_pte (flags : Z) : Z :=
  let pte := PTE_PRESENT in
  let pte := if has flags VMM_REGION_WRITE then Z.lor pte PTE_WRITABLE else pte in
  let pte := if has flags VMM_REGION_USER then Z.lor pte PTE_USER else pte in
  if has flags VMM_REGION_EXEC then pte else Z.lor pte PTE_NO_EXEC.

(** ** Creating a space *)

(** The loop that shares the kernel half. *)
Definition copy_kernel_half (m : ram) (pml4 kpml4 : Z) : ram :=
  foldl (λ m i, set_entry m pml4 i (get_entry m kpml4 i)) m (seqZ 256 256).

Definition vmm_space_create s : res (Z * mm H) :=
  '(space, h) ← ka_malloc (mm_heap s) 32;
  if space =? 0 then Ret (0, with_heap s h) else
  '(pml4, f) ← physmem_alloc_to (mm_frames s) 1;
  if pml4 =? 0 then
    h ← ka_free h space; Ret (0, with_heap (with_mem s (mm_ram s) f) h)
  else
  let pml4_virt := u64 (pml4 + mm_hhdm s) in
  let m := memset (mm_ram s) pml4_virt 0 4096 in
  let m := copy_kernel_half m pml4_virt (kernel_pml4 (mm_paging s)) in
  Ret (space, with_space (with_heap (with_mem s m f) h) space (Space pml4 0 0 0)).

(** ** The region list of a space *)

(** The walk to the insertion point: the last region below [vaddr] and the one
    after it. *)
Fixpoint insert_pos (fuel : nat) (ns : nodes) (vaddr prev cur : Z) : res (Z * Z) :=
  match fuel with
  | O => NoFuel
  | S fuel =>
      if cur =? 0 then Ret (prev, cur) else
      c ← node ns cur;
      if r_base c <? vaddr then insert_pos fuel ns vaddr cur (r_next c) else Ret (prev, cur)
  end.

(** Links node [nd] into the list [head]; returns the nodes and the new head. *)
Definition link_region (ns : nodes) (head nd : Z) : res (nodes * Z) :=
  n ← node ns nd;
  '(prev, cur) ← insert_pos (S (size ns)) ns (r_base n) 0 head;
  let ns := <[nd := Region (r_base n) (r_size n) (r_flags n) prev cur]> ns in
  '(ns, head) ← (if prev =? 0 then Ret (ns, nd) else
                  p ← node ns prev; Ret (<[prev := set_next p nd]> ns, head));
  ns ← relink_prev ns cur nd;
  Ret (ns, head).

Definition unlink_region (ns : nodes) (head cur : Z) : res (nodes * Z) :=
  c ← node ns cur;
  '(ns, head) ← (if r_prev c =? 0 then Ret (ns, r_next c) else
                  p ← node ns (r_prev c); Ret (<[r_prev c := set_next p (r_next c)]> ns, head));
  ns ← relink_prev ns (r_next c) (r_prev c);
  Ret (ns, head).

(** Writes a filled node and links it; the end of [vmm_space_alloc],
    [vmm_map_phys] and of an iteration of [vmm_clone_space]. *)
Definition add_region s (space nd vaddr size flags : Z) : res (mm H) :=
  sp ← get_space s space;
  let ns := <[nd := Region vaddr size flags 0 0]> (mm_nodes s) in
  '(ns, head) ← link_region ns (regions sp) nd;
  Ret (with_space (with_nodes s ns (mm_heap s)) space
         (Space (pml4_phys sp) head (u64 (sp_region_count sp + 1))
            (u64 (sp_used_virtual sp + size)))).

(** ** Allocation *)

(** The mapping loop from page [i] on; [false] when memory runs out, after the
    pages mapped so far were unmapped. *)
Fixpoint alloc_pages (n : nat) (i : Z) s (pml4 vaddr pte_flags : Z) : res (bool * mm H) :=
  match n with
  | O => Ret (true, s)
  | S n =>
      '(phys, f) ← physmem_alloc_to (mm_frames s) 1;
      let s := with_mem s (mm_ram s) f in
      if phys =? 0 then
        Ret (false, foldl (λ s j, mm_unmap_page_in s pml4 (u64 (vaddr + j * 4096))) s (seqZ 0 i))
      else
      s ← mm_map_page_in s pml4 (u64 (vaddr + i * 4096)) phys pte_flags;
      alloc_pages n (i + 1) s pml4 vaddr pte_flags
  end.

Definition vmm_space_alloc s (space vaddr page_count flags : Z) : res (Z * mm H) :=
  if (space =? 0) || (page_count =? 0) then Ret (0, s) else
  let vaddr := PAGE_ALIGN_DOWN vaddr in
  let size := u64 (page_count * 4096) in
  '(nd, s) ← mm_region_alloc s;
  if nd =? 0 then Ret (0, s) else
  sp ← get_space s space;
  '(ok, s) ← alloc_pages (Z.to_nat page_count) 0 s (pml4_phys sp) vaddr (flags_to_pte flags);
  if negb ok then s ← mm_region_free s nd; Ret (0, s) else
  s ← add_region s space nd vaddr size (Z.lor VMM_REGION_USED flags);
  Ret (vaddr, s).

Definition vmm_map_phys s (space vaddr phys_addr page_count flags : Z) : res (Z * mm H) :=
  if (space =? 0) || (page_count =? 0) then Ret (0, s) else
  let vaddr := PAGE_ALIGN_DOWN vaddr in
  let phys_addr := PAGE_ALIGN_DOWN phys_addr in
  let size := u64 (page_count * 4096) in
  '(nd, s) ← mm_region_alloc s;
  if nd =? 0 then Ret (0, s) else
  sp ← get_space s space;
  s ← for_range 0 page_count (λ i s,
    mm_map_page_in s (pml4_phys sp) (u64 (vaddr + i * 4096)) (u64 (phys_addr + i * 4096))
      (flags_to_pte flags)) s;
  s ← add_region s space nd vaddr size (Z.lor (Z.lor VMM_REGION_USED VMM_REGION_MMIO) flags);
  Ret (vaddr, s).

(** ** Release *)

(** The loops over [entries[k]]. *)
Definition table_empty (m : ram) (table : Z) : bool :=
  forallb (λ k, negb (has (get_entry m table k) PTE_PRESENT)) (seqZ 0 512).

(** Gives a data frame back when its last reference goes. *)
Definition release_frame (f : physmem) (phys : Z) : res physmem :=
  '(rc, f) ← physmem_frame_rc_dec_and_get f phys;
  if rc =? 0 then
    f ← physmem_frame_flags_set f phys FRAME_FREE; physmem_free_to f phys 1
  else Ret f.

(** Clears entry [i] of [table] and frees the table it pointed to. *)
Definition drop_table (m : ram) (f : physmem) (table i : Z) : res (ram * physmem) :=
  let phys := Z.land (get_entry m table i) PTE_ADDR_MASK in
  let m := set_entry m table i 0 in
  f ← physmem_free_to f phys 1;
  Ret (m, f).

(** One iteration of the page loop of [vmm_space_free]. *)
Definition free_page (off : Z) (m : ram) (f : physmem) (pml4_phys va : Z) (is_mmio : bool) :
    res (ram * physmem) :=
  let pml4 := u64 (pml4_phys + off) in
  match walk off m pml4 (pml4_index va) with
  | None => Ret (m, f)
  | Some pdpt =>
  match walk off m pdpt (pdp_index va) with
  | None => Ret (m, f)
  | Some pd =>
  match walk off m pd (pd_index va) with
  | None => Ret (m, f)
  | Some pt =>
      let e := get_entry m pt (pt_index va) in
      if negb (has e PTE_PRESENT) then Ret (m, f) else
      f ← (if is_mmio then Ret f else release_frame f (Z.land e PTE_ADDR_MASK));
      let m := set_entry m pt (pt_index va) 0 in
      if negb (table_empty m pt) then Ret (m, f) else
      '(m, f) ← drop_table m f pd (pd_index va);
      if negb (table_empty m pd) then Ret (m, f) else
      '(m, f) ← drop_table m f pdpt (pdp_index va);
      if negb (table_empty m pdpt) then Ret (m, f) else
      drop_table m f pml4 (pml4_index va)
  end end end.

Definition vmm_space_free s (space vaddr : Z) : res (mm H) :=
  if (space =? 0) || (vaddr =? 0) then Ret s else
  sp ← get_space s space;
  cur ← vmm_find_used (S (size (mm_nodes s))) (mm_nodes s) vaddr (regions sp);
  if cur =? 0 then Ret s else
  c ← node (mm_nodes s) cur;
  '(m, f) ← for_range 0 (r_size c / 4096) (λ i '(m, f),
    free_page (mm_hhdm s) m f (pml4_phys sp) (u64 (vaddr + i * 4096))
      (has (r_flags c) VMM_REGION_MMIO)) (mm_ram s, mm_frames s);
  let s := with_mem s m f in
  '(ns, head) ← unlink_region (mm_nodes s) (regions sp) cur;
  let s := with_space (with_nodes s ns (mm_heap s)) space
             (Space (pml4_phys sp) head (u64 (sp_region_count sp - 1))
                (u64 (sp_used_virtual sp - r_size c))) in
  mm_region_free s cur.

Definition vmm_unmap_phys s (space vaddr : Z) : res (mm H) := vmm_space_free s space vaddr.

(** The loop of [vmm_space_destroy]. *)
Fixpoint destroy_regions (fuel : nat) s (space cur : Z) : res (mm H) :=
  match fuel with
  | O => NoFuel
  | S fuel =>
      if cur =? 0 then Ret s else
      c ← node (mm_nodes s) cur;
      s ← vmm_space_free s space (r_base c);
      sp ← get_space s space;
      destroy_regions fuel s space (regions sp)
  end.

Definition vmm_space_destroy s (space : Z) : res (mm H) :=
  if space =? 0 then Ret s else
  if space =? kernel_space s then Ret s else
  sp ← get_space s space;
  s ← destroy_regions (S (size (mm_nodes s))) s space (regions sp);
  sp ← get_space s space;
  s ← (if pml4_phys sp =? 0 then Ret s else
         f ← physmem_free_to (mm_frames s) (pml4_phys sp) 1; Ret (with_mem s (mm_ram s) f));
  h ← ka_free (mm_heap s) space;
  Ret (drop_space (with_heap s h) space).

(** ** Lookup *)

Fixpoint space_find_from (fuel : nat) (ns : nodes) (vaddr cur : Z) : res Z :=
  match fuel with
  | O => NoFuel
  | S fuel =>
      if cur =? 0 then Ret 0 else
      c ← node ns cur;
      if (r_base c <=? vaddr) && (vaddr <? u64 (r_base c + r_size c)) then Ret cur
      else space_find_from fuel ns vaddr (r_next c)
  end.

Definition vmm_space_find s (space vaddr : Z) : res Z :=
  if space =? 0 then Ret 0 else
  sp ← get_space s space;
  space_find_from (S (size (mm_nodes s))) (mm_nodes s) vaddr (regions sp).

Definition pte_lookup s (space va : Z) : res Z :=
  sp ← get_space s space;
  Ret (match walk_pt (mm_hhdm s) (mm_ram s) (u64 (pml4_phys sp + mm_hhdm s)) va with
       | None => 0
       | Some pt =>
           let e := get_entry (mm_ram s) pt (pt_index va) in
           if has e PTE_PRESENT then Z.land e PTE_ADDR_MASK else 0
       end).

Definition vmm_space_get_phys s (space vaddr : Z) : res Z :=
  if space =? 0 then Ret 0 else pte_lookup s space (PAGE_ALIGN_DOWN vaddr).

(** ** Copy on write *)

(** One iteration of the page loop of [vmm_clone_space]. *)
Definition clone_page s (src dst va pte_flags src_flags : Z) : res (mm H) :=
  phys ← pte_lookup s src va;
  if phys =? 0 then Ret s else
  f ← physmem_frame_rc_inc (mm_frames s) phys;
  fl ← physmem_frame_flags_get f phys;
  f ← physmem_frame_flags_set f phys (Z.lor (Z.lor fl FRAME_COW) FRAME_SHARED);
  let s := with_mem s (mm_ram s) f in
  dsp ← get_space s dst;
  s ← mm_map_page_in s (pml4_phys dsp) va phys pte_flags;
  ssp ← get_space s src;
  mm_map_page_in s (pml4_phys ssp) va phys
    (Z.land (flags_to_pte src_flags) (not64 PTE_WRITABLE)).

(** [(flags | VMM_REGION_COW) & ~VMM_REGION_WRITE] *)
Definition cow_flags (flags : Z) : Z :=
  Z.land (Z.lor flags VMM_REGION_COW) (not32 VMM_REGION_WRITE).

(** The loop over the pages of region [c]. *)
Definition clone_pages s (src dst : Z) (c : vmm_region) : res (mm H) :=
  for_range 0 (r_size c / 4096) (λ i s,
    clone_page s src dst (u64 (r_base c + i * 4096))
      (Z.land (flags_to_pte (cow_flags (r_flags c))) (not64 PTE_WRITABLE)) (r_flags c)) s.

(** The region loop. *)
Fixpoint clone_regions (fuel : nat) s (src dst cur : Z) : res (Z * mm H) :=
  match fuel with
  | O => NoFuel
  | S fuel =>
      if cur =? 0 then Ret (dst, s) else
      c ← node (mm_nodes s) cur;
      '(nd, s) ← mm_region_alloc s;
      if nd =? 0 then s ← vmm_space_destroy s dst; Ret (0, s) else
      let flags := cow_flags (r_flags c) in
      s ← clone_pages s src dst c;
      c ← node (mm_nodes s) cur;
      let s := with_nodes s (<[cur := Region (r_base c) (r_size c) (cow_flags (r_flags c))
                                        (r_prev c) (r_next c)]> (mm_nodes s)) (mm_heap s) in
      s ← add_region s dst nd (r_base c) (r_size c) flags;
      clone_regions fuel s src dst (r_next c)
  end.

Definition vmm_clone_space s (src : Z) : res (Z * mm H) :=
  if src =? 0 then Ret (0, s) else
  '(dst, s) ← vmm_space_create s;
  if dst =? 0 then Ret (0, s) else
  ssp ← get_space s src;
  clone_regions (S (size (mm_nodes s))) s src dst (regions ssp).

(** [VMM_REGION_USED | (flags & ~VMM_REGION_COW) | VMM_REGION_WRITE] *)
Definition broken_flags (flags : Z) : Z :=
  Z.lor VMM_REGION_USED (Z.lor (Z.land flags (not32 VMM_REGION_COW)) VMM_REGION_WRITE).

(** Both ways [vmm_cow_break] ends: the region becomes writable and the page is
    mapped to [phys]. *)
Definition cow_remap s (space region fault_addr phys : Z) : res (mm H) :=
  c ← node (mm_nodes s) region;
  let flags := broken_flags (r_flags c) in
  let s := with_nodes s (<[region := Region (r_base c) (r_size c) flags (r_prev c) (r_next c)]>
                           (mm_nodes s)) (mm_heap s) in
  sp ← get_space s space;
  mm_map_page_in s (pml4_phys sp) fault_addr phys (flags_to_pte flags).

Definition vmm_cow_break s (space fault_addr : Z) : res (mm H) :=
  if space =? 0 then Ret s else
  let fault_addr := PAGE_ALIGN_DOWN fault_addr in
  region ← vmm_space_find s space fault_addr;
  if region =? 0 then Ret s else
  c ← node (mm_nodes s) region;
  if negb (has (r_flags c) VMM_REGION_COW) then Ret s else
  sp ← get_space s space;
  match walk_pt (mm_hhdm s) (mm_ram s) (u64 (pml4_phys sp + mm_hhdm s)) fault_addr with
  | None => Ret s
  | Some pt =>
      let e := get_entry (mm_ram s) pt (pt_index fault_addr) in
      if negb (has e PTE_PRESENT) then Ret s else
      let old_phys := Z.land e PTE_ADDR_MASK in
      '(rc, f) ← physmem_frame_rc_dec_and_get (mm_frames s) old_phys;
      if rc =? 0 then
        f ← physmem_frame_flags_set f old_phys FRAME_USED;
        cow_remap (with_mem s (mm_ram s) f) space region fault_addr old_phys
      else
      '(new_phys, f) ← physmem_alloc_to f 1;
      if new_phys =? 0 then Panic else
      let m := memcpy (mm_ram s) (u64 (new_phys + mm_hhdm s)) (u64 (old_phys + mm_hhdm s)) 4096 in
      f ← physmem_frame_flags_set f new_phys FRAME_USED;
      cow_remap (with_mem s m f) space region fault_addr new_phys
  end.

(** The page-fault handler: [err] is the error code of the exception. *)
Definition cow_page_fault_handler s (fault_addr err : Z) : res (mm H) :=
  let present := has err 1 in
  let write := has err 2 in
  let space := active_space s in
  if present && write && negb (space =? 0) then
    region ← vmm_space_find s space fault_addr;
    if region =? 0 then Panic else
    c ← node (mm_nodes s) region;
    if has (r_flags c) VMM_REGION_COW then vmm_cow_break s space fault_addr else Panic
  else Panic.

(** ** Switching; the first result is the value loaded into [cr3], if any *)
Definition vmm_space_activate s (space : Z) : res (option Z * mm H) :=
  if space =? 0 then Ret (None, s) else
  sp ← get_space s space;
  if pml4_phys sp =? 0 then Ret (None, s) else
  if space =? active_space s then Ret (None, s) else
  Ret (Some (pml4_phys sp), with_active s space).

Definition vmm_get_active_space s : Z := active_space s.
Definition vmm_get_kernel_space s : Z := kernel_space s.
End space.

(** ** Frames under reference-count updates *)

Lemma pageframe_update_inv p f x :
  physmem_inv p → 0 ≤ f < physmem_total p →
  ∃ p', pageframe_set p f x = Ret p' ∧ physmem_inv p' ∧
    (∀ b, physmem_used p' b ↔ physmem_used p b) ∧
    ∀ g, frame_pf p' g = if g =? f then Some x else frame_pf p g.
Proof.
  intros [W H0] Hf. pose proof (pageframe_set_spec p f x W Hf) as Hs.
  apply returns_iff in Hs as (p' & -> & W' & T' & B' & F'). exists p'.
  assert (Hb : ∀ g, frame_bit p' g = frame_bit p g) by (intros g; unfold frame_bit; by rewrite B').
  split; [done|]. split; [split; [done|by rewrite Hb]|]. split; [|done].
  intros b. unfold physmem_used. by rewrite T', Hb.
Qed.

Lemma rc_dec_inv p a x :
  physmem_inv p → 0 ≤ a → frame_pf p (a / PAGE_SIZE) = Some x → 0 < rc x →
  a / PAGE_SIZE < physmem_total p →
  ∃ p', physmem_frame_rc_dec_and_get p a = Ret (rc x - 1, p') ∧ physmem_inv p' ∧
    (∀ b, physmem_used p' b ↔ physmem_used p b) ∧
    frame_pf p' (a / PAGE_SIZE) = Some (Pageframe (rc x - 1) (flags x)).
Proof.
  intros Hi Ha Hx Hrc Hlt. unfold physmem_frame_rc_dec_and_get.
  destruct (Z.leb_spec (physmem_total p) (a / PAGE_SIZE)); [lia|].
  assert (Hf : 0 ≤ a / PAGE_SIZE < physmem_total p) by (unfold PAGE_SIZE in *; dlia).
  destruct (pageframe_get_spec p (a / PAGE_SIZE) (proj1 Hi) Hf) as (y & Hy & ->).
  assert (y = x) as -> by congruence. rewrite bind_Ret. destruct (Z.ltb_spec 0 (rc x)); [|lia].
  destruct (pageframe_update_inv p _ (Pageframe (rc x - 1) (flags x)) Hi Hf)
    as (p' & -> & Hi' & Hu & Hg).
  exists p'. split_and!; try done. by rewrite Hg, Z.eqb_refl.
Qed.

Lemma rc_inc_inv p a :
  physmem_inv p → 0 ≤ a →
  ∃ p', physmem_frame_rc_inc p a = Ret p' ∧ physmem_inv p' ∧
    ∀ b, physmem_used p' b ↔ physmem_used p b.
Proof.
  intros Hi Ha. unfold physmem_frame_rc_inc.
  destruct (Z.leb_spec (physmem_total p) (a / PAGE_SIZE)); [by exists p|].
  assert (Hf : 0 ≤ a / PAGE_SIZE < physmem_total p) by (unfold PAGE_SIZE in *; dlia).
  destruct (pageframe_get_spec p (a / PAGE_SIZE) (proj1 Hi) Hf) as (y & Hy & ->). rewrite bind_Ret.
  destruct (pageframe_update_inv p _ (Pageframe (u32 (rc y + 1)) (flags y)) Hi Hf)
    as (p' & -> & ? & ? & _). by exists p'.
Qed.

Lemma flags_set_inv p a fl :
  physmem_inv p → 0 ≤ a →
  ∃ p', physmem_frame_flags_set p a fl = Ret p' ∧ physmem_inv p' ∧
    (∀ b, physmem_used p' b ↔ physmem_used p b) ∧
    ∀ g, rc <$> frame_pf p' g = rc <$> frame_pf p g.
Proof.
  intros Hi Ha. unfold physmem_frame_flags_set.
  destruct (Z.leb_spec (physmem_total p) (a / PAGE_SIZE)); [by exists p|].
  assert (Hf : 0 ≤ a / PAGE_SIZE < physmem_total p) by (unfold PAGE_SIZE in *; dlia).
  destruct (pageframe_get_spec p (a / PAGE_SIZE) (proj1 Hi) Hf) as (y & Hy & ->). rewrite bind_Ret.
  destruct (pageframe_update_inv p _ (Pageframe (rc y) fl) Hi Hf) as (p' & -> & Hi' & Hu & Hg).
  exists p'. split_and!; try done. intros g. rewrite Hg. zcase; [|done]. subst. by rewrite Hy.
Qed.

(** ** Breaking copy-on-write *)

Section cow.
Context {H : Type} `{HeapAlloc H} (D : Z → Prop).
Implicit Types (s : mm H).

(** A fault at a present page of a copy-on-write region of [space]: its entry
    is [e], its region [c], and [x] the page-frame record of the frame. *)
Record cow_fault s (space va : Z) (sp : vmm_space) (region : Z) (c : vmm_region) (e : Z)
    (x : pageframe) : Prop := {
  cf_off : 0 ≤ mm_hhdm s ∧ mm_hhdm s + 2 ^ 47 ≤ 2 ^ 64;
  cf_inv : physmem_inv (mm_frames s);
  cf_null : space ≠ 0;
  cf_space : mm_spaces s !! space = Some sp;
  cf_wf : pt_wf (mm_hhdm s) D (physmem_used (mm_frames s)) (mm_ram s) (pml4_phys sp);
  cf_slot : D (pml4_index (PAGE_ALIGN_DOWN va));
  cf_find : vmm_space_find s space (PAGE_ALIGN_DOWN va) = Ret region;
  cf_region0 : region ≠ 0;
  cf_region : mm_nodes s !! region = Some c;
  cf_cow : has (r_flags c) VMM_REGION_COW = true;
  cf_pte : pte_at (mm_hhdm s) (mm_ram s) (pml4_phys sp) (PAGE_ALIGN_DOWN va) = Some e;
  cf_frame : frame_ok (Z.land e PTE_ADDR_MASK);
  cf_used : physmem_used (mm_frames s) (Z.land e PTE_ADDR_MASK);
  cf_total : Z.land e PTE_ADDR_MASK / PAGE_SIZE < physmem_total (mm_frames s);
  cf_data q : path_ok D q →
    table_at (mm_hhdm s) (mm_ram s) (pml4_phys sp) q ≠ Some (Z.land e PTE_ADDR_MASK);
  cf_pf : frame_pf (mm_frames s) (Z.land e PTE_ADDR_MASK / PAGE_SIZE) = Some x;
}.

Lemma pte_at_walk off m r va e :
  pte_at off m r va = Some e →
  ∃ t, walk_pt off m (u64 (r + off)) va = Some (u64 (t + off)) ∧
    get_entry m (u64 (t + off)) (pt_index va) = e ∧ has e PTE_PRESENT = true.
Proof.
  unfold pte_at. rewrite walk_pt_table.
  destruct (table_at off m r (pt_path va)) as [t|]; [|done]. cbn [mbind option_bind].
  destruct (has _ _) eqn:Eh; [|done]. intros [= <-]. exists t. done.
Qed.

(** The end of both branches. *)
Lemma cow_remap_spec s space sp region c va phys :
  0 ≤ mm_hhdm s ∧ mm_hhdm s + 2 ^ 47 ≤ 2 ^ 64 → physmem_inv (mm_frames s) →
  pt_wf (mm_hhdm s) D (physmem_used (mm_frames s)) (mm_ram s) (pml4_phys sp) →
  D (pml4_index va) → mm_spaces s !! space = Some sp → mm_nodes s !! region = Some c →
  let e := leaf_entry phys (flags_to_pte (broken_flags (r_flags c))) in
  or_panic (cow_remap s space region va phys) (λ s',
    pt_step (mm_hhdm s) D (mm_frames s) (mm_ram s) (mm_frames s') (mm_ram s') (pml4_phys sp) ∧
    (∀ va', D (pml4_index va') → pte_at (mm_hhdm s) (mm_ram s') (pml4_phys sp) va' =
       if decide (page_of va' = page_of va) then Some e
       else pte_at (mm_hhdm s) (mm_ram s) (pml4_phys sp) va') ∧
    mm_spaces s' = mm_spaces s ∧ has e PTE_WRITABLE = true ∧
    (mm_nodes s' !! region) = Some (Region (r_base c) (r_size c) (broken_flags (r_flags c))
                                      (r_prev c) (r_next c))).
Proof.
  intros Ho Hi Hwf Hd Hsp Hc e. unfold cow_remap. rewrite (node_some _ _ _ Hc), bind_Ret.
  change (get_space _ space) with (get_space s space). unfold get_space. rewrite Hsp.
  cbn [deref]. rewrite bind_Ret.
  unfold mm_map_page_in, paging_map_page_in. cbn [with_nodes mm_paging mm_ram mm_frames].
  fold (mm_hhdm s). set (fl := flags_to_pte _) in *.
  assert (Hw : has (broken_flags (r_flags c)) VMM_REGION_WRITE = true).
  { unfold broken_flags. rewrite !has_lor. cbn. by rewrite !orb_true_r. }
  assert (Hfl : 0 ≤ fl < 2 ^ 64 ∧ has fl PTE_PRESENT = true ∧ has fl PTE_WRITABLE = true).
  { unfold fl, flags_to_pte. rewrite Hw. destruct (has _ VMM_REGION_USER), (has _ VMM_REGION_EXEC); vdone. }
  apply or_panic_bind. eapply or_panic_mono.
  { apply (map_page_spec _ Ho D _ _ _ (pml4_phys sp)); try done. apply Hfl. }
  intros [m' f'] [S V]. cbn [or_panic]. split_and!; try done.
  - intros va' Hd'. etransitivity; [exact (V va' Hd')|]. case_decide; [|done].
    replace (has _ PTE_PRESENT) with true; [done|]. unfold leaf_entry.
    rewrite has_lor. destruct Hfl as (_ & -> & _). by rewrite orb_true_r.
  - unfold e, leaf_entry. rewrite has_lor. destruct Hfl as (_ & _ & ->). by rewrite orb_true_r.
  - cbn. apply lookup_insert_eq.
Qed.

(** C8. Breaking copy-on-write on a shared frame gives the faulting space its
    own copy: unless memory runs out (a panic), the page is mapped writable to
    a frame that was free, with the bytes of the old frame; the old frame keeps
    its bytes; every other page of the space and every page of every other space
    keep their entries. *)
Theorem vmm_cow_break_copies s space va sp region c e x :
  cow_fault s space va sp region c e x → 1 < rc x →
  let old := Z.land e PTE_ADDR_MASK in let off := mm_hhdm s in
  let page := PAGE_ALIGN_DOWN va in let r := pml4_phys sp in
  or_panic (vmm_cow_break s space va) (λ s', ∃ new,
    ¬ physmem_used (mm_frames s) new ∧ new ≠ old ∧
    pte_at off (mm_ram s') r page =
      Some (leaf_entry new (flags_to_pte (broken_flags (r_flags c)))) ∧
    has (leaf_entry new (flags_to_pte (broken_flags (r_flags c)))) PTE_WRITABLE = true ∧
    (∀ i, 0 ≤ i < 4096 → ld8 (mm_ram s') (new + off + i) = ld8 (mm_ram s) (old + off + i) ∧
                         ld8 (mm_ram s') (old + off + i) = ld8 (mm_ram s) (old + off + i)) ∧
    (∀ va', D (pml4_index va') → page_of va' ≠ page_of page →
       pte_at off (mm_ram s') r va' = pte_at off (mm_ram s) r va') ∧
    (∀ r2 va', pt_wf off D (physmem_used (mm_frames s)) (mm_ram s) r2 →
       pt_disjoint off D (mm_ram s) r r2 → D (pml4_index va') →
       pte_at off (mm_ram s') r2 va' = pte_at off (mm_ram s) r2 va')).
Proof.
  intros [Ho Hi Hs0 Hsp Hwf Hd Hfind Hr0 Hc Hcow Hpte Hfr Hus Htot Hdata Hpf] Hrc old off page r.
  change (Z.land e PTE_ADDR_MASK) with old in Hfr, Hus, Htot, Hdata, Hpf. unfold vmm_cow_break. destruct (Z.eqb_spec space 0) as [|_]; [done|]. rewrite Hfind, bind_Ret.
  destruct (Z.eqb_spec region 0) as [|_]; [done|]. rewrite (node_some _ _ _ Hc), bind_Ret, Hcow.
  cbn [negb]. unfold get_space at 1. rewrite Hsp. cbn [deref]. rewrite bind_Ret.
  destruct (pte_at_walk _ _ _ _ _ Hpte) as (t & -> & -> & ->). cbn [negb].
  change (Z.land e PTE_ADDR_MASK) with old.
  destruct (rc_dec_inv (mm_frames s) old x) as (p1 & -> & Hi1 & Hu1 & Hx1);
    [done|destruct Hfr; unfold old; lia|done|lia|done|]. rewrite bind_Ret.
  destruct (Z.eqb_spec (rc x - 1) 0) as [|_]; [lia|]. apply or_panic_bind, returns_or_panic.
  eapply returns_mono; [by apply (physmem_alloc_one p1)|].
  intros [new p2] [Hi2 [[-> ->]|(Hn1 & Hn2 & Hnu & Hu2)]]; [done|].
  destruct (Z.eqb_spec new 0) as [|_]; [lia|]. rewrite Hu1 in Hnu.
  assert (Hne : new ≠ old) by (intros ->; done). assert (Hnf : frame_ok new) by done.
  destruct (flags_set_inv p2 new FRAME_USED Hi2) as (p3 & -> & Hi3 & Hu3 & _); [lia|].
  rewrite bind_Ret. fold off. rewrite !(table_va off Ho) by done.
  set (m1 := memcpy _ _ _ _).
  assert (Hb : ∀ y, ld8 m1 y = if (new + off <=? y) && (y <? new + off + 4096)
    then ld8 (mm_ram s) (old + off + (y - (new + off))) else ld8 (mm_ram s) y).
  { intros y. destruct Hfr as [? Ho1]. unfold off in *.
    assert (new + 4096 ≤ old ∨ old + 4096 ≤ new) by dlia. apply ld8_memcpy; try lia; dlia. }
  assert (Hag : ∀ r2, pt_wf off D (physmem_used (mm_frames s)) (mm_ram s) r2 →
    agree off D (mm_ram s) m1 r2).
  { intros r2 Hw2. apply (agree_frame off Ho D _ _ (physmem_used (mm_frames s)) r2 new); try done.
    - intros q Hq Ht. by destruct (wf_frame _ _ _ _ _ Hw2 _ _ Hq Ht).
    - intros y Hy. rewrite Hb. repeat zcase; cbn; try done; lia. }
  assert (Hu13 : ∀ a, a mod 4096 = 0 → physmem_used p3 a ↔ physmem_used (mm_frames s) a ∨ a = new)
    by (intros a Ha; by rewrite Hu3, Hu2, Hu1).
  assert (Hmono : ∀ r2, pt_wf off D (physmem_used (mm_frames s)) (mm_ram s) r2 →
    pt_wf off D (physmem_used p3) m1 r2).
  { intros r2 Hw2. apply (pt_wf_mono off D (physmem_used (mm_frames s))); [|intros; rewrite Hu13; auto].
    eapply agree_wf; [by apply Hag|done]. }
  eapply or_panic_mono.
  { apply (cow_remap_spec (with_mem s m1 p3) space sp region c page new); try done. by apply Hmono. }
  intros s' (S & V & _ & Hw & _).
  change (mm_hhdm (with_mem s m1 p3)) with off in S, V. change (mm_ram (with_mem s m1 p3)) with m1 in S, V.
  change (mm_frames (with_mem s m1 p3)) with p3 in S. fold r in S, V.
  assert (Hkeep : ∀ a i, frame_ok a → physmem_used p3 a → 0 ≤ i < 4096 →
    (∀ q, path_ok D q → table_at off (mm_ram s) r q ≠ Some a) →
    ld8 (mm_ram s') (a + off + i) = ld8 m1 (a + off + i)).
  { intros a i Ha Hua Hi' Hna. apply (proj1 (ps_kept _ _ _ _ _ _ _ S) a); try done; [|lia].
    intros q Hq. rewrite (agree_tables off D (mm_ram s) m1) by (try done; by apply Hag). by apply Hna. }
  assert (Hnt : ∀ q, path_ok D q → table_at off (mm_ram s) r q ≠ Some new).
  { intros q Hq Ht. by destruct (wf_frame _ _ _ _ _ Hwf _ _ Hq Ht). }
  exists new. split_and!; try done.
  - by rewrite V, decide_True.
  - intros i Hr. rewrite !Hkeep; try done; try (apply Hu13; [apply Hnf || apply Hfr|auto]).
    rewrite !Hb. destruct Hfr as [? Ho1].
    assert (new + 4096 ≤ old ∨ old + 4096 ≤ new) by dlia.
    split; repeat zcase; cbn; try lia; try done; f_equal; lia.
  - intros va' Hd' Hpg. rewrite V, decide_False by done. apply (agree_pte off D); [by apply Hag|done].
  - intros r2 va' Hw2 Hdj Hd'. rewrite (kept_pte off Ho D (physmem_used p3) m1 _ r r2); try done.
    + apply (agree_pte off D); [by apply Hag|done].
    + apply S.
    + by apply Hmono.
    + intros q q' a Hq Hq'. rewrite !(agree_tables off D (mm_ram s) m1) by (try done; by apply Hag).
      by apply Hdj.
Qed.
End cow.

(** ** Destroying a space with a region at address 0

    [vmm_space_free] ignores the address 0, so the loop of [vmm_space_destroy]
    makes no progress on such a region: no amount of fuel is enough. *)
Theorem vmm_space_destroy_stuck {H} `{HeapAlloc H} (s : mm H) space sp c fuel :
  mm_spaces s !! space = Some sp → regions sp ≠ 0 → mm_nodes s !! regions sp = Some c →
  r_base c = 0 → destroy_regions fuel s space (regions sp) = NoFuel.
Proof.
  intros Hsp Hr0 Hc Hb. induction fuel as [|fuel IH]; [done|]. cbn [destroy_regions].
  destruct (Z.eqb_spec (regions sp) 0) as [|_]; [done|].
  rewrite (node_some _ _ _ Hc), bind_Ret, Hb. unfold vmm_space_free. rewrite orb_true_r, bind_Ret.
  unfold get_space. rewrite Hsp. cbn [deref]. rewrite bind_Ret. exact IH.
Qed.

(** ** A concrete fault: page [0x400000] of one space, frame 3 shared by two *)

Definition cow_mem : ram * physmem :=
  match paging_map_page_in paging0 ∅ pm16 0x1000 0x400000 0x3000 5 with
  | Ret (m, f) => (m, match physmem_frame_rc_inc f 0x3000 with Ret f => f | _ => f end)
  | _ => (∅, pm16)
  end.

Definition cow_space : vmm_space := Space 0x1000 0x500 1 0x1000.
Definition cow_region : vmm_region :=
  Region 0x400000 0x1000 (Z.lor VMM_REGION_USED (Z.lor VMM_REGION_USER VMM_REGION_COW)) 0 0.
Definition cow_state : mm kheap :=
  MM cow_mem.1 cow_mem.2 kheap_init {[0x500 := cow_region]} {[0x600 := cow_space]} paging0 0x700 0x600.

Lemma cow_mem_step :
  returns (paging_map_page_in paging0 ∅ pm16 0x1000 0x400000 0x3000 5) (λ '(m, f),
    pt_step Paging.hhdm user_slot pm16 ∅ f m 0x1000).
Proof.
  pose proof (map_page_spec Paging.hhdm ltac:(vdone) user_slot
    (Z.lor (Z.lor PTE_PRESENT PTE_WRITABLE) PTE_USER) ∅ pm16 0x1000 0x400000 0x3000 5
    user_flags pm16_inv) as Hs.
  assert (W : pt_wf Paging.hhdm user_slot (fa_used pm16) ∅ 0x1000)
    by (apply pt_wf_empty; [vdone|by right]).
  specialize (Hs W ltac:(vdone) ltac:(lia)).
  eapply returns_mono; [apply (or_panic_returns _ _ Hs); vm_compute; reflexivity|].
  intros [m f] [S _]. exact S.
Qed.

Lemma cow_state_fault :
  cow_fault user_slot cow_state 0x600 0x400010 cow_space 0x500 cow_region 0x3005 (Pageframe 2 1).
Proof.
  destruct (proj1 (returns_iff _ _) cow_mem_step) as ([m f] & E & S).
  assert (Em : cow_mem = (m, match physmem_frame_rc_inc f 0x3000 with Ret f => f | _ => f end)).
  { unfold cow_mem. rewrite E. reflexivity. }
  clear E. destruct (rc_inc_inv f 0x3000 (ps_inv _ _ _ _ _ _ _ S) ltac:(lia)) as (f' & Ef & Hi & Hu).
  rewrite Ef in Em. clear Ef.
  assert (E1 : cow_mem.1 = m) by (rewrite Em; reflexivity).
  assert (E2 : cow_mem.2 = f') by (rewrite Em; reflexivity).
  clear Em.
  assert (Ht : ∀ q, path_ok user_slot q → table_at Paging.hhdm m 0x1000 q ≠ Some 0x3000).
  { intros q Hq Hx. destruct (ps_new _ _ _ _ _ _ _ S q _ Hq Hx) as [Hy|Hy].
    - apply table_at_empty in Hy as [_ Hy]. done.
    - apply Hy. by right. }
  assert (Hused : physmem_used f' 0x3000) by (apply Hu, S; [done|by right]).
  assert (Hwf : pt_wf Paging.hhdm user_slot (physmem_used f') m 0x1000)
    by (eapply pt_wf_mono; [apply S|]; intros; by apply Hu).
  split.
  - vdone.
  - change (physmem_inv cow_mem.2). rewrite E2. exact Hi.
  - discriminate.
  - reflexivity.
  - change (pt_wf Paging.hhdm user_slot (physmem_used cow_mem.2) cow_mem.1 0x1000).
    rewrite E1, E2. exact Hwf.
  - vdone.
  - vm_compute. reflexivity.
  - discriminate.
  - reflexivity.
  - reflexivity.
  - vm_compute. reflexivity.
  - vdone.
  - change (physmem_used cow_mem.2 0x3000). rewrite E2. exact Hused.
  - vm_compute. reflexivity.
  - change (∀ q, path_ok user_slot q → table_at Paging.hhdm cow_mem.1 0x1000 q ≠ Some 0x3000).
    rewrite E1. exact Ht.
  - vm_compute. reflexivity.
Qed.

Lemma vmm_cow_break_witness :
  returns (vmm_cow_break cow_state 0x600 0x400010) (λ s', ∃ new, new ≠ 0x3000 ∧
    ∀ i, 0 ≤ i < 4096 →
      ld8 (mm_ram s') (new + mm_hhdm cow_state + i) =
      ld8 (mm_ram cow_state) (0x3000 + mm_hhdm cow_state + i)).
Proof.
  pose proof (vmm_cow_break_copies user_slot cow_state 0x600 0x400010 cow_space 0x500 cow_region
    0x3005 (Pageframe 2 1) cow_state_fault ltac:(vdone)) as Hs.
  eapply returns_mono; [apply (or_panic_returns _ _ Hs); vm_compute; reflexivity|].
  intros s' (new & _ & Hne & _ & _ & Hb & _). exists new. split; [exact Hne|].
  intros i Hi. exact (proj1 (Hb i Hi)).
Defined.
