(* ===== verification/Clone.v ===== *)
(** Sharing the pages of a space with its clone: what the page loop of
    [vmm_clone_space] does to the tables of both spaces, to the frames and to
    everything else. *)
From S2P Require Import Prelude Interfaces Ram PhysMem DList Kheap Paging Vmm Space.
Import MemLib.

(** The record of a frame after [k] more spaces got it. *)
Definition share_pf (k : Z) (x : pageframe) : pageframe :=
  if k =? 0 then x else Pageframe (u32 (rc x + k)) (Z.lor (Z.lor (flags x) FRAME_COW) FRAME_SHARED).

Lemma share_pf_S k x : 0 ≤ k → share_pf 1 (share_pf k x) = share_pf (k + 1) x.
Proof.
  intros Hk. unfold share_pf at 1. cbn [Z.eqb]. unfold share_pf.
  destruct (Z.eqb_spec (k + 1) 0); [lia|]. zcase; [subst; done|]. cbn [rc flags]. f_equal.
  - unfold u32. rewrite Zplus_mod_idemp_l. f_equal. lia.
  - rewrite <-!Z.lor_assoc. f_equal.
Qed.

(** ** Frames *)

(** The frames of [p'] are those of [p], with at most some free ones taken. *)
Record frames_kept (p p' : physmem) : Prop := {
  fk_total : physmem_total p' = physmem_total p;
  fk_pf g : 0 ≤ g < physmem_total p → physmem_used p (g * PAGE_SIZE) → frame_pf p' g = frame_pf p g;
}.

Lemma frames_kept_refl p : frames_kept p p.
Proof. by split. Qed.

Lemma page_frame g : g * PAGE_SIZE / PAGE_SIZE = g.
Proof. unfold PAGE_SIZE. dlia. Qed.

(** The three updates of an iteration. *)
Lemma share_frame p a x : physmem_inv p → 0 ≤ a → a / PAGE_SIZE < physmem_total p →
  frame_pf p (a / PAGE_SIZE) = Some x →
  ∃ p', (f ← physmem_frame_rc_inc p a; fl ← physmem_frame_flags_get f a;
         physmem_frame_flags_set f a (Z.lor (Z.lor fl FRAME_COW) FRAME_SHARED)) = Ret p' ∧
    physmem_inv p' ∧ physmem_total p' = physmem_total p ∧ (∀ b, physmem_used p' b ↔ physmem_used p b) ∧
    ∀ g, frame_pf p' g = if g =? a / PAGE_SIZE then Some (share_pf 1 x) else frame_pf p g.
Proof.
  intros [W H0] Ha Hlt Hx. assert (Hf : 0 ≤ a / PAGE_SIZE < physmem_total p) by (unfold PAGE_SIZE in *; dlia).
  unfold physmem_frame_rc_inc. destruct (Z.leb_spec (physmem_total p) (a / PAGE_SIZE)); [lia|].
  destruct (pageframe_get_spec p _ W Hf) as (y & Hy & ->). assert (y = x) as -> by congruence. rewrite bind_Ret.
  destruct (proj1 (returns_iff _ _) (pageframe_set_spec p _ (Pageframe (u32 (rc x + 1)) (flags x)) W Hf)) as (p1 & -> & W1 & T1 & B1 & F1).
  rewrite bind_Ret. unfold physmem_frame_flags_get, physmem_frame_flags_set. rewrite T1.
  destruct (Z.leb_spec (physmem_total p) (a / PAGE_SIZE)); [lia|].
  destruct (pageframe_get_spec p1 (a / PAGE_SIZE) W1 ltac:(lia)) as (z & Hz & ->).
  rewrite F1, Z.eqb_refl in Hz. injection Hz as <-. rewrite !bind_Ret. cbn [flags rc].
  destruct (proj1 (returns_iff _ _) (pageframe_set_spec p1 (a / PAGE_SIZE) (share_pf 1 x) W1 ltac:(lia))) as (p2 & E2 & W2 & T2 & B2 & F2).
  exists p2. assert (Hb : ∀ g, frame_bit p2 g = frame_bit p g) by (intros g; unfold frame_bit; by rewrite B2, B1).
  split; [exact E2|]. split; [split; [done|by rewrite Hb]|]. split; [lia|]. split.
  - intros b. unfold physmem_used. rewrite Hb. by replace (physmem_total p2) with (physmem_total p) by lia.
  - intros g. rewrite F2, F1. by zcase.
Qed.

(** Mapping a page takes frames that were free, and leaves the others alone. *)
Lemma alloc_one_kept p : physmem_inv p → returns (physmem_alloc_to p 1) (λ '(_, p'),
  physmem_inv p' ∧ frames_kept p p' ∧ ∀ g, physmem_used p (g * PAGE_SIZE) → physmem_used p' (g * PAGE_SIZE)).
Proof.
  intros Hi. pose proof (physmem_alloc_to_marks p 1 (proj1 Hi) ltac:(lia)) as Hm. pose proof (physmem_alloc_one p Hi) as Ho.
  eapply returns_mono; [exact (returns_and _ _ _ Hm Ho)|]. intros [a p'] [M [Hi' U]]. split; [done|].
  destruct M as [(-> & -> & _)|(s & -> & (Hs & Ht & Hf) & _ & M)]; [by split|]. split; [split; [apply M|]|].
  - intros g Hg Hu. rewrite (mk_pf _ _ _ _ _ _ M). destruct (Z.leb_spec s g), (Z.ltb_spec g (s + 1)); try done.
    unfold physmem_used in Hu. rewrite page_frame, Hf in Hu by lia. destruct Hu as [?|?]; [lia|done].
  - intros g Hu. destruct U as [[_ ->]|(_ & _ & _ & U)]; [done|]. apply U; [unfold PAGE_SIZE; dlia|by left].
Qed.

Lemma get_or_create_kept off tf m p table i : physmem_inv p →
  or_panic (get_or_create off tf m p table i) (λ '(_, _, p'),
    physmem_inv p' ∧ frames_kept p p' ∧ ∀ g, physmem_used p (g * PAGE_SIZE) → physmem_used p' (g * PAGE_SIZE)).
Proof.
  intros Hi. unfold get_or_create. destruct (has _ _); [by split_and!; [|apply frames_kept_refl|]|].
  apply or_panic_bind, returns_or_panic. eapply returns_mono; [by apply (alloc_one_kept p)|].
  intros [a p'] Hp. destruct (a =? 0); [done|exact Hp].
Qed.

Lemma frames_kept_trans p q r : frames_kept p q → frames_kept q r →
  (∀ g, physmem_used p (g * PAGE_SIZE) → physmem_used q (g * PAGE_SIZE)) → frames_kept p r.
Proof. intros [T1 F1] [T2 F2] Hu. split; [congruence|]. intros g Hg Hug. rewrite F2, F1; auto. by rewrite T1. Qed.

Lemma map_page_kept off tf m p pml4 va pa fl : physmem_inv p →
  or_panic (map_page off tf m p pml4 va pa fl) (λ '(_, p'), frames_kept p p').
Proof.
  intros Hi. unfold map_page.
  apply or_panic_bind. eapply or_panic_mono; [by apply get_or_create_kept|]. intros [[T1 m1] p1] (I1 & K1 & U1).
  apply or_panic_bind. eapply or_panic_mono; [by apply get_or_create_kept|]. intros [[T2 m2] p2] (I2 & K2 & U2).
  apply or_panic_bind. eapply or_panic_mono; [by apply get_or_create_kept|]. intros [[T3 m3] p3] (I3 & K3 & U3).
  cbn. eapply frames_kept_trans; [|exact K3|auto]. by eapply frames_kept_trans.
Qed.

(** ** The page loop *)

Section clone.
Context (D : Z → Prop) (off : Z) (Hoff : 0 ≤ off ∧ off + 2 ^ 47 ≤ 2 ^ 64).

(** [a] is no table of the two spaces. *)
Definition no_table (m : ram) (r1 r2 a : Z) : Prop :=
  ∀ q, path_ok D q → table_at off m r1 q ≠ Some a ∧ table_at off m r2 q ≠ Some a.

(** The tables of two spaces, grown from those of [m0]: well-formed, apart, on frames
    that were free or tables before; the bytes of all other frames in use are kept. *)
Record pair_ok (r1 r2 : Z) (m0 : ram) (f0 : physmem) (m : ram) (f : physmem) : Prop := {
  po_inv : physmem_inv f;
  po_wf1 : pt_wf off D (physmem_used f) m r1;
  po_wf2 : pt_wf off D (physmem_used f) m r2;
  po_dj : pt_disjoint off D m r1 r2;
  po_used a : a mod 4096 = 0 → physmem_used f0 a → physmem_used f a;
  po_new1 q t : path_ok D q → table_at off m r1 q = Some t → table_at off m0 r1 q = Some t ∨ ¬ physmem_used f0 t;
  po_new2 q t : path_ok D q → table_at off m r2 q = Some t → table_at off m0 r2 q = Some t ∨ ¬ physmem_used f0 t;
  po_bytes a x : frame_ok a → physmem_used f0 a → no_table m0 r1 r2 a →
    a + off ≤ x < a + off + 4096 → ld8 m x = ld8 m0 x;
}.

Lemma pair_sym r1 r2 m0 f0 m f : pair_ok r1 r2 m0 f0 m f → pair_ok r2 r1 m0 f0 m f.
Proof.
  intros [? ? ? Hdj ? ? ? Hb]. split; try done.
  - intros p q t Hp Hq H1 H2. by apply (Hdj q p t).
  - intros a x Ha Hu Hn Hx. apply (Hb a); try done. intros q Hq. split; by apply Hn.
Qed.

Lemma pair_frames r1 r2 m0 f0 m f f1 : pair_ok r1 r2 m0 f0 m f → physmem_inv f1 →
  (∀ b, physmem_used f1 b ↔ physmem_used f b) → pair_ok r1 r2 m0 f0 m f1.
Proof.
  intros [? W1 W2 ? Hu ? ? ?] I1 U1. split; try done.
  - apply (pt_wf_mono off D (physmem_used f)); [done|]. intros a _ ?. by apply U1.
  - apply (pt_wf_mono off D (physmem_used f)); [done|]. intros a _ ?. by apply U1.
  - intros a Ha H1. apply U1. by apply Hu.
Qed.

(** A change to the tables of one space. *)
Lemma pair_step r1 r2 m0 f0 m f m' f' : pair_ok r1 r2 m0 f0 m f → pt_step off D f m f' m' r1 →
  pair_ok r1 r2 m0 f0 m' f' ∧ ∀ va, D (pml4_index va) → pte_at off m' r2 va = pte_at off m r2 va.
Proof.
  intros [I W1 W2 Hdj Hu Hn1 Hn2 Hb] S.
  assert (Hk : ∀ q, path_ok D q → table_at off m' r2 q = table_at off m r2 q).
  { intros q Hq. apply (kept_tables off Hoff D (fa_used f) m m' r1 r2); try done. apply S. }
  split; [|intros va Hva; apply (kept_pte off Hoff D (fa_used f) m m' r1 r2); try done; apply S].
  split; try apply S.
  - apply (kept_wf off Hoff D (fa_used f) _ m m' r1 r2); try done; apply S.
  - by apply (step_disjoint off D f m f' m' r1 r2).
  - intros a Ha H1. apply S; [done|]. by apply Hu.
  - intros q t Hq Ht. destruct (ps_new _ _ _ _ _ _ _ S q t Hq Ht) as [Ht'|Hnu]; [auto|]. right. intros H1. apply Hnu, Hu; [|done].
    by apply (wf_frame _ _ _ _ _ (ps_wf _ _ _ _ _ _ _ S) q t Hq Ht).
  - intros q t Hq Ht. rewrite Hk in Ht by done. auto.
  - intros a x Ha Hua Hna Hx. rewrite (proj1 (ps_kept _ _ _ _ _ _ _ S) a x); try done; [by apply (Hb a)|apply Hu; [apply Ha|done]|].
    intros q Hq E. destruct (Hn1 q a Hq E) as [?|?]; [by destruct (Hna q Hq)|done].
Qed.

(** The tables of the two spaces, the region and the state before the loop. *)
Context (r1 r2 : Z) (c : vmm_region) (m0 : ram) (f0 : physmem).

(** The entry flags of the region's pages in the source and in the clone. *)
Definition src_fl : Z := Z.land (flags_to_pte (r_flags c)) (not64 PTE_WRITABLE).
Definition dst_fl : Z := Z.land (flags_to_pte (cow_flags (r_flags c))) (not64 PTE_WRITABLE).

Definition page_va (j : Z) : Z := r_base c + j * 4096.
(** The pages before the [i]-th of the region. *)
Definition in_pages (i va : Z) : Prop := page_of (r_base c) ≤ page_of va < page_of (r_base c) + i.
#[export] Instance in_pages_dec i va : Decision (in_pages i va).
Proof. apply _. Defined.

Definition frame_of (e : Z) : Z := Z.land e PTE_ADDR_MASK.
(** The pages before the [i]-th that show frame [g]. *)
Definition refs (i g : Z) : Z :=
  Z.of_nat (length (filter (λ j, (λ e, frame_of e / PAGE_SIZE) <$> pte_at off m0 r1 (page_va j) = Some g) (seqZ 0 i))).

(** A frame of data: in use, with a record, and no table of either space. *)
Definition data_frame (a : Z) : Prop :=
  frame_ok a ∧ physmem_used f0 a ∧ a / PAGE_SIZE < physmem_total f0 ∧ no_table m0 r1 r2 a.

Record region_ok : Prop := {
  ro_inv : physmem_inv f0;
  ro_wf1 : pt_wf off D (physmem_used f0) m0 r1;
  ro_wf2 : pt_wf off D (physmem_used f0) m0 r2;
  ro_dj : pt_disjoint off D m0 r1 r2;
  ro_base : 0 ≤ r_base c ∧ r_base c mod 4096 = 0 ∧ 0 ≤ r_size c ∧ r_base c + r_size c ≤ 2 ^ 48;
  ro_slots j : 0 ≤ j < r_size c / 4096 → D (pml4_index (page_va j));
  ro_data j e : 0 ≤ j < r_size c / 4096 → pte_at off m0 r1 (page_va j) = Some e → data_frame (frame_of e);
}.

(** After [i] pages: those of them that the source shows are shown by both spaces,
    without the right to write, and nothing else has changed. *)
Record shared (i : Z) (m : ram) (f : physmem) : Prop := {
  sh_pair : pair_ok r1 r2 m0 f0 m f;
  sh_src va : D (pml4_index va) → pte_at off m r1 va =
    if decide (in_pages i va) then (λ e, leaf_entry (frame_of e) src_fl) <$> pte_at off m0 r1 va else pte_at off m0 r1 va;
  sh_dst va : D (pml4_index va) → pte_at off m r2 va =
    match pte_at off m0 r1 va with
    | Some e => if decide (in_pages i va) then Some (leaf_entry (frame_of e) dst_fl) else pte_at off m0 r2 va
    | None => pte_at off m0 r2 va
    end;
  sh_total : physmem_total f = physmem_total f0;
  sh_pf g : 0 ≤ g < physmem_total f0 → physmem_used f0 (g * PAGE_SIZE) →
    frame_pf f g = share_pf (refs i g) <$> frame_pf f0 g;
}.

Lemma clone_flags fl : fl = src_fl ∨ fl = dst_fl →
  0 ≤ fl < 2 ^ 64 ∧ has fl PTE_PRESENT = true ∧ has fl PTE_WRITABLE = false ∧ Z.land fl PTE_ADDR_MASK = 0.
Proof.
  intros [-> | ->]; unfold src_fl, dst_fl, flags_to_pte;
    destruct (has _ VMM_REGION_WRITE), (has _ VMM_REGION_USER), (has _ VMM_REGION_EXEC); vdone.
Qed.

Lemma clone_leaf a fl : fl = src_fl ∨ fl = dst_fl →
  has (leaf_entry a fl) PTE_PRESENT = true.
Proof. intros (_ & Hp & _)%clone_flags. unfold leaf_entry. by rewrite has_lor, Hp, orb_true_r. Qed.

Hypothesis R : region_ok.

Lemma page_va_of j : 0 ≤ j < r_size c / 4096 → page_of (page_va j) = page_of (r_base c) + j ∧ u64 (page_va j) = page_va j.
Proof.
  intros Hj. destruct (ro_base R) as (? & ? & ? & ?). unfold page_of, page_va. split.
  - rewrite !Z.mod_small by dlia. dlia.
  - apply u64_small. dlia.
Qed.

Lemma in_pages_S i va : 0 ≤ i < r_size c / 4096 →
  in_pages (i + 1) va ↔ in_pages i va ∨ page_of va = page_of (page_va i).
Proof. intros Hi. rewrite (proj1 (page_va_of i Hi)). unfold in_pages. lia. Qed.

Lemma not_in_pages i : 0 ≤ i < r_size c / 4096 → ¬ in_pages i (page_va i).
Proof. intros Hi. unfold in_pages. rewrite (proj1 (page_va_of i Hi)). lia. Qed.

Lemma refs_S i g : 0 ≤ i → refs (i + 1) g = refs i g +
  if decide ((λ e, frame_of e / PAGE_SIZE) <$> pte_at off m0 r1 (page_va i) = Some g) then 1 else 0.
Proof.
  intros Hi. unfold refs. rewrite seqZ_app by lia. rewrite filter_app, length_app. cbn [seqZ].
  replace (seqZ (0 + i) 1) with [i] by done. rewrite filter_cons, filter_nil. case_decide; cbn [length]; lia.
Qed.

Lemma refs_nonneg i g : 0 ≤ refs i g.
Proof. unfold refs. lia. Qed.

Lemma same_pte m va va' r : page_of va = page_of va' → pte_at off m r va = pte_at off m r va'.
Proof. intros [E1 E2]%page_of_eq. unfold pte_at. by rewrite E1, E2. Qed.

Lemma shared_start : shared 0 m0 f0.
Proof.
  destruct R as [? ? ? ? ? ? ?]. split; [split; auto|..]; [| |done|].
  - intros va _. rewrite decide_False; [done|]. unfold in_pages. lia.
  - intros va _. destruct (pte_at off m0 r1 va); [|done]. rewrite decide_False; [done|]. unfold in_pages. lia.
  - intros g Hg _. destruct (pageframe_get_spec f0 g) as (x & -> & _); [by destruct ro_inv0|done|done].
Qed.

(** A page that the source does not show is passed over. *)
Lemma shared_skip i m f : 0 ≤ i < r_size c / 4096 → pte_at off m0 r1 (page_va i) = None →
  shared i m f → shared (i + 1) m f.
Proof.
  intros Hi He [? Hs Hd ? Hp]. split; try done.
  - intros va Hva. rewrite Hs by done. rewrite (decide_ext _ _ _ _ (in_pages_S i va Hi)).
    destruct (decide (in_pages i va)) as [?|?]; [rewrite decide_True by auto; done|].
    case_decide as Hor; [|done]. destruct Hor as [?|E]; [done|]. by rewrite (same_pte m0 _ _ r1 E), He.
  - intros va Hva. rewrite Hd by done. destruct (pte_at off m0 r1 va) eqn:E; [|done].
    rewrite (decide_ext _ _ _ _ (in_pages_S i va Hi)).
    destruct (decide (in_pages i va)) as [?|?]; [rewrite decide_True by auto; done|].
    case_decide as Hor; [|done]. destruct Hor as [?|E']; [done|]. rewrite (same_pte m0 _ _ r1 E'), He in E. done.
  - intros g Hg Hu. rewrite refs_S, He by lia. cbn. rewrite Z.add_0_r. by apply Hp.
Qed.

(** The frame that page [i] shows, in the state of the loop. *)
Lemma shared_frame i m f e : 0 ≤ i < r_size c / 4096 → pte_at off m0 r1 (page_va i) = Some e → shared i m f →
  let a := frame_of e in
  pte_at off m r1 (page_va i) = Some e ∧ data_frame a ∧
  ∃ x, frame_pf f0 (a / PAGE_SIZE) = Some x ∧ frame_pf f (a / PAGE_SIZE) = Some (share_pf (refs i (a / PAGE_SIZE)) x).
Proof.
  intros Hi He S a. pose proof (ro_data R i e Hi He) as Hda. fold a in Hda. split; [|split; [done|]].
  - rewrite (sh_src _ _ _ S), decide_False; [done|by apply not_in_pages|by apply (ro_slots R)].
  - destruct Hda as ([Ha Ha0] & Hu & Ht & _).
    destruct (pageframe_get_spec f0 (a / PAGE_SIZE)) as (x & Hx & _); [apply (ro_inv R)|unfold PAGE_SIZE in *; dlia|].
    exists x. split; [done|]. rewrite (sh_pf _ _ _ S), Hx; [done|unfold PAGE_SIZE in *; dlia|].
    replace (a / PAGE_SIZE * PAGE_SIZE) with a by (unfold PAGE_SIZE; dlia). done.
Qed.

(** A page that the source shows: the record of its frame is updated and both spaces
    map it. *)
Lemma shared_map i m f e x f1 m2 f2 m3 f3 : 0 ≤ i < r_size c / 4096 →
  pte_at off m0 r1 (page_va i) = Some e → shared i m f → frame_pf f0 (frame_of e / PAGE_SIZE) = Some x →
  physmem_inv f1 → physmem_total f1 = physmem_total f → (∀ b, physmem_used f1 b ↔ physmem_used f b) →
  (∀ g, frame_pf f1 g = if g =? frame_of e / PAGE_SIZE then Some (share_pf 1 (share_pf (refs i (frame_of e / PAGE_SIZE)) x)) else frame_pf f g) →
  pt_step off D f1 m f2 m2 r2 → frames_kept f1 f2 →
  (∀ va, D (pml4_index va) → pte_at off m2 r2 va =
     if decide (page_of va = page_of (page_va i)) then Some (leaf_entry (frame_of e) dst_fl) else pte_at off m r2 va) →
  pt_step off D f2 m2 f3 m3 r1 → frames_kept f2 f3 →
  (∀ va, D (pml4_index va) → pte_at off m3 r1 va =
     if decide (page_of va = page_of (page_va i)) then Some (leaf_entry (frame_of e) src_fl) else pte_at off m2 r1 va) →
  shared (i + 1) m3 f3.
Proof.
  intros Hi He [P Hs Hd Ht Hp] Hx I1 T1 U1 F1 S2 K2 V2 S3 K3 V3.
  pose proof (pair_sym _ _ _ _ _ _ (pair_frames _ _ _ _ _ _ f1 P I1 U1)) as P1.
  destruct (pair_step _ _ _ _ _ _ _ _ P1 S2) as [P2 E2]. apply pair_sym in P2.
  destruct (pair_step _ _ _ _ _ _ _ _ P2 S3) as [P3 E3]. split; [done|..].
  - intros va Hva. rewrite V3, (decide_ext _ _ _ _ (in_pages_S i va Hi)) by done.
    case_decide as Epg; [rewrite decide_True by auto; by rewrite (same_pte m0 _ _ r1 Epg), He|].
    rewrite E2, Hs by done. destruct (decide (in_pages i va)); [by rewrite decide_True by auto|]. by rewrite decide_False by tauto.
  - intros va Hva. rewrite E3, V2 by done. case_decide as Epg.
    + rewrite (same_pte m0 _ _ r1 Epg), He, decide_True; [done|]. apply in_pages_S; auto.
    + rewrite Hd by done. destruct (pte_at off m0 r1 va); [|done]. rewrite (decide_ext _ _ _ _ (in_pages_S i va Hi)).
      destruct (decide (in_pages i va)); [by rewrite decide_True by auto|]. by rewrite decide_False by tauto.
  - rewrite (fk_total _ _ K3), (fk_total _ _ K2). congruence.
  - intros g Hg Hug. assert (Hg0 : g * PAGE_SIZE mod 4096 = 0) by (unfold PAGE_SIZE; dlia).
    assert (Hu1 : ∀ b, physmem_used f1 (b * PAGE_SIZE) → physmem_used f2 (b * PAGE_SIZE)).
    { intros b. apply S2. unfold PAGE_SIZE. dlia. }
    rewrite (fk_pf _ _ (frames_kept_trans _ _ _ K2 K3 Hu1)), F1, refs_S, He by (lia || by apply (po_used _ _ _ _ _ _ P1)).
    cbn [fmap option_fmap option_map]. destruct (Z.eqb_spec g (frame_of e / PAGE_SIZE)) as [->|Hne].
    + by rewrite Hx, decide_True, share_pf_S by (done || apply refs_nonneg).
    + rewrite decide_False by congruence. rewrite Z.add_0_r. by apply Hp.
Qed.
End clone.

Section spaces.
Context {H : Type} `{HeapAlloc H} (D : Z → Prop).
Implicit Types (s : mm H).

Lemma pte_lookup_pte s space sp va : mm_spaces s !! space = Some sp →
  pte_lookup s space va = Ret match pte_at (mm_hhdm s) (mm_ram s) (pml4_phys sp) va with Some e => frame_of e | None => 0 end.
Proof.
  intros Hsp. unfold pte_lookup, get_space. rewrite Hsp. cbn [deref]. rewrite bind_Ret, walk_pt_table. unfold pte_at.
  destruct (table_at _ _ _ _) as [t|]; [|done]. cbn [fmap option_fmap option_map mbind option_bind]. by destruct (has _ _).
Qed.

Lemma map_page_in_spec s sp va pa fl m0 f0 r : physmem_inv (mm_frames s) → 0 ≤ mm_hhdm s ∧ mm_hhdm s + 2 ^ 47 ≤ 2 ^ 64 →
  pair_ok D (mm_hhdm s) (pml4_phys sp) r m0 f0 (mm_ram s) (mm_frames s) → D (pml4_index va) →
  0 ≤ fl < 2 ^ 64 → has (leaf_entry pa fl) PTE_PRESENT = true →
  or_panic (mm_map_page_in s (pml4_phys sp) va pa fl) (λ s', ∃ m f, s' = with_mem s m f ∧
    pt_step (mm_hhdm s) D (mm_frames s) (mm_ram s) f m (pml4_phys sp) ∧ frames_kept (mm_frames s) f ∧
    ∀ va', D (pml4_index va') → pte_at (mm_hhdm s) m (pml4_phys sp) va' =
      if decide (page_of va' = page_of va) then Some (leaf_entry pa fl) else pte_at (mm_hhdm s) (mm_ram s) (pml4_phys sp) va').
Proof.
  intros Hi Ho P Hd Hfl Hpr. unfold mm_map_page_in, paging_map_page_in. fold (mm_hhdm s). apply or_panic_bind.
  eapply or_panic_mono.
  { apply or_panic_and; [by apply (map_page_kept (mm_hhdm s))|].
    apply (map_page_spec (mm_hhdm s) Ho D _ (mm_ram s) (mm_frames s) (pml4_phys sp) va pa fl); try done. apply P. }
  intros [m f] [K [S V]]. exists m, f. split_and!; try done. intros va' Hva. rewrite V, Hpr by done. done.
Qed.

(** One page. *)
Lemma clone_page_step s src dst ssp dsp c m0 f0 i : mm_spaces s !! src = Some ssp → mm_spaces s !! dst = Some dsp →
  0 ≤ mm_hhdm s ∧ mm_hhdm s + 2 ^ 47 ≤ 2 ^ 64 →
  region_ok D (mm_hhdm s) (pml4_phys ssp) (pml4_phys dsp) c m0 f0 → 0 ≤ i < r_size c / 4096 →
  shared D (mm_hhdm s) (pml4_phys ssp) (pml4_phys dsp) c m0 f0 i (mm_ram s) (mm_frames s) →
  or_panic (clone_page s src dst (u64 (page_va c i)) (dst_fl c) (r_flags c)) (λ s', ∃ m f, s' = with_mem s m f ∧
    shared D (mm_hhdm s) (pml4_phys ssp) (pml4_phys dsp) c m0 f0 (i + 1) m f).
Proof.
  intros Hsrc Hdst Ho R Hi S. unfold clone_page. rewrite (proj2 (page_va_of _ _ _ _ _ _ _ R i Hi)).
  rewrite (pte_lookup_pte s src ssp) by done. rewrite bind_Ret.
  destruct (pte_at (mm_hhdm s) m0 (pml4_phys ssp) (page_va c i)) as [e|] eqn:He.
  2:{ assert (E : pte_at (mm_hhdm s) (mm_ram s) (pml4_phys ssp) (page_va c i) = None).
      { rewrite (sh_src _ _ _ _ _ _ _ _ _ _ S), He by by apply (ro_slots _ _ _ _ _ _ _ R). by case_decide. }
      rewrite E. cbn [Z.eqb]. exists (mm_ram s), (mm_frames s). split; [by destruct s|]. by apply shared_skip. }
  destruct (shared_frame _ _ _ _ _ _ _ R i _ _ e Hi He S) as (E & (Hfr & Hu & Hlt & Hnt) & x & Hx0 & Hx). rewrite E.
  destruct (Z.eqb_spec (frame_of e) 0) as [E0|_]; [destruct Hfr; lia|].
  destruct (share_frame (mm_frames s) (frame_of e) _ (po_inv _ _ _ _ _ _ _ _ (sh_pair _ _ _ _ _ _ _ _ _ _ S)) ltac:(destruct Hfr; lia)
    ltac:(by rewrite (sh_total _ _ _ _ _ _ _ _ _ _ S)) Hx) as (f1 & Ef & I1 & T1 & U1 & F1).
  apply bind_ret_inv in Ef as (fa & -> & Ef). apply bind_ret_inv in Ef as (fl & Efl & Ef).
  rewrite bind_Ret, Efl, bind_Ret, Ef, bind_Ret. unfold get_space. cbn [with_mem mm_spaces]. rewrite Hdst. cbn [deref]. rewrite bind_Ret.
  pose proof (pair_frames _ _ _ _ _ _ _ _ f1 (sh_pair _ _ _ _ _ _ _ _ _ _ S) I1 U1) as P1.
  pose proof (ro_slots _ _ _ _ _ _ _ R i Hi) as HD.
  destruct (clone_flags c (dst_fl c) ltac:(by right)) as (Hfl2 & _). destruct (clone_flags c (src_fl c) ltac:(by left)) as (Hfl1 & _).
  apply or_panic_bind. eapply or_panic_mono.
  { apply (map_page_in_spec (with_mem s (mm_ram s) f1) dsp _ _ _ m0 f0 (pml4_phys ssp)); try done; [by apply pair_sym|].
    apply (clone_leaf c). by right. }
  intros s2 (m2 & f2 & -> & S2 & K2 & V2). cbn [with_mem mm_spaces]. rewrite Hsrc. cbn [deref]. rewrite bind_Ret.
  destruct (pair_step _ _ Ho _ _ _ _ _ _ _ _ (pair_sym _ _ _ _ _ _ _ _ P1) S2) as [P2 _]. apply pair_sym in P2.
  eapply or_panic_mono.
  { apply (map_page_in_spec (with_mem (with_mem s (mm_ram s) f1) m2 f2) ssp _ _ _ m0 f0 (pml4_phys dsp)); try done; [apply P2|].
    apply (clone_leaf c). by left. }
  intros s3 (m3 & f3 & -> & S3 & K3 & V3). exists m3, f3. split; [done|].
  by apply (shared_map D (mm_hhdm s) Ho _ _ c m0 f0 R i (mm_ram s) (mm_frames s) e x f1 m2 f2 m3 f3).
Qed.

(** A space whose tables are those of neither of the two. *)
Lemma pair_others off r1 r2 r3 m0 f0 m f va : 0 ≤ off ∧ off + 2 ^ 47 ≤ 2 ^ 64 →
  pair_ok D off r1 r2 m0 f0 m f → pt_wf off D (physmem_used f0) m0 r3 →
  pt_disjoint off D m0 r1 r3 → pt_disjoint off D m0 r2 r3 → D (pml4_index va) →
  pte_at off m r3 va = pte_at off m0 r3 va.
Proof.
  intros Ho P W H1 H2. apply agree_pte. intros q t i Hq Ht Hi.
  destruct (wf_frame _ _ _ _ _ W q t Hq Ht) as [Hf Hu]. rewrite table_va by done.
  unfold get_entry, ld64. apply ld_le_ext. intros b Hb. apply (po_bytes _ _ _ _ _ _ _ _ P t); try done; [|lia].
  intros p Hp. split; intros E; [by apply (H1 p q t)|by apply (H2 p q t)].
Qed.

(** C13. Cloning a region shares its pages.  Unless memory for tables runs out (a
    panic), after the page loop of [vmm_clone_space] every page of the region that
    the source showed is shown by both spaces, at the same frame and writable by
    neither; every other page of both, and every page of every other space, keeps its
    entry; no byte of a frame in use changes that is not a table of the two; and the
    record of a frame has one reference more for each page that shows it, and the
    flags of a shared copy-on-write frame if there is one. *)
Theorem clone_pages_share s src dst ssp dsp c :
  let off := mm_hhdm s in let r1 := pml4_phys ssp in let r2 := pml4_phys dsp in let n := r_size c / 4096 in
  mm_spaces s !! src = Some ssp → mm_spaces s !! dst = Some dsp → 0 ≤ off ∧ off + 2 ^ 47 ≤ 2 ^ 64 →
  region_ok D off r1 r2 c (mm_ram s) (mm_frames s) →
  or_panic (clone_pages s src dst c) (λ s', ∃ m f, s' = with_mem s m f ∧
    (∀ va e, D (pml4_index va) → in_pages c n va → pte_at off (mm_ram s) r1 va = Some e →
       ∃ e1 e2, pte_at off m r1 va = Some e1 ∧ pte_at off m r2 va = Some e2 ∧
         frame_of e1 = frame_of e ∧ frame_of e2 = frame_of e ∧
         has e1 PTE_WRITABLE = false ∧ has e2 PTE_WRITABLE = false) ∧
    (∀ va, D (pml4_index va) → ¬ in_pages c n va ∨ pte_at off (mm_ram s) r1 va = None →
       pte_at off m r1 va = pte_at off (mm_ram s) r1 va ∧ pte_at off m r2 va = pte_at off (mm_ram s) r2 va) ∧
    (∀ r3 va, pt_wf off D (physmem_used (mm_frames s)) (mm_ram s) r3 → pt_disjoint off D (mm_ram s) r1 r3 →
       pt_disjoint off D (mm_ram s) r2 r3 → D (pml4_index va) → pte_at off m r3 va = pte_at off (mm_ram s) r3 va) ∧
    (∀ a x, data_frame D off r1 r2 (mm_ram s) (mm_frames s) a → a + off ≤ x < a + off + 4096 → ld8 m x = ld8 (mm_ram s) x) ∧
    ∀ g, 0 ≤ g < physmem_total (mm_frames s) → physmem_used (mm_frames s) (g * PAGE_SIZE) →
      frame_pf f g = share_pf (refs off r1 c (mm_ram s) n g) <$> frame_pf (mm_frames s) g).
Proof.
  intros off r1 r2 n Hsrc Hdst Ho R. unfold clone_pages.
  eapply or_panic_mono.
  { apply (for_range_panic (λ i s', ∃ m f, s' = with_mem s m f ∧ shared D off r1 r2 c (mm_ram s) (mm_frames s) i m f)).
    - destruct (ro_base _ _ _ _ _ _ _ R) as (_ & _ & ? & _). by apply Z.div_pos.
    - exists (mm_ram s), (mm_frames s). split; [by destruct s|]. by apply shared_start.
    - intros i s' Hi (m & f & -> & S). eapply or_panic_mono; [by apply (clone_page_step (with_mem s m f) src dst ssp dsp c (mm_ram s) (mm_frames s) i)|].
      intros s' (m' & f' & -> & S'). by exists m', f'. }
  intros s' (m & f & -> & [P Hs Hd Ht Hp]). exists m, f. split; [done|]. split_and!; [| | | |done].
  - intros va e Hva Hin He. exists (leaf_entry (frame_of e) (src_fl c)), (leaf_entry (frame_of e) (dst_fl c)).
    rewrite Hs, Hd, He, !decide_True by done. split; [done|]. split; [done|].
    assert (E : ∀ fl, fl = src_fl c ∨ fl = dst_fl c → frame_of (leaf_entry (frame_of e) fl) = frame_of e ∧ has (leaf_entry (frame_of e) fl) PTE_WRITABLE = false).
    { intros fl (_ & _ & Hw & Hm)%clone_flags. unfold frame_of. rewrite leaf_entry_addr, <-Z.land_assoc, Z.land_diag by done. split; [done|].
      unfold leaf_entry. rewrite has_lor, Hw, orb_false_r, <-!Z.land_assoc. unfold has.
      rewrite <-!Z.land_assoc. change (Z.land PTE_ADDR_MASK (Z.land PTE_ADDR_MASK PTE_WRITABLE)) with 0. by rewrite Z.land_0_r. }
    destruct (E (src_fl c)), (E (dst_fl c)); auto.
  - intros va Hva [Hout|He]; rewrite Hs, Hd by done.
    + rewrite decide_False by done. split; [done|]. destruct (pte_at off (mm_ram s) r1 va); [by rewrite decide_False|done].
    + rewrite He. split; [by case_decide|done].
  - intros r3 va W H1 H2 Hva. by apply (pair_others off r1 r2 r3 (mm_ram s) (mm_frames s) m f).
  - intros a x (Ha & Hu & _ & Hn) Hx. by apply (po_bytes _ _ _ _ _ _ _ _ P a).
Qed.
End spaces.

(** ** A concrete clone: of two pages of a region the first shows frame 3 *)

Definition clone_mem : ram * physmem :=
  match paging_map_page_in paging0 ∅ pm16 0x1000 0x400000 0x3000 7 with Ret r => r | _ => (∅, pm16) end.
Definition clone_region : vmm_region :=
  Region 0x400000 0x2000 (Z.lor VMM_REGION_USED (Z.lor VMM_REGION_USER VMM_REGION_WRITE)) 0 0.
Definition clone_state : mm kheap :=
  MM clone_mem.1 clone_mem.2 kheap_init {[0x500 := clone_region]}
    {[0x600 := Space 0x1000 0x500 1 0x2000; 0x680 := Space 0x2000 0 0 0]} paging0 0x700 0x600.

Lemma pm16_root r : frame_ok r → frame_bit pm16 (r / PAGE_SIZE) = true → pt_wf Paging.hhdm user_slot (fa_used pm16) ∅ r.
Proof. intros Hr Hb. apply pt_wf_empty; [done|by right]. Qed.

Lemma clone_mem_step : pt_step Paging.hhdm user_slot pm16 ∅ clone_mem.2 clone_mem.1 0x1000 ∧
  ∀ va, user_slot (pml4_index va) → pte_at Paging.hhdm clone_mem.1 0x1000 va =
    if decide (page_of va = page_of 0x400000) then Some 0x3007 else None.
Proof.
  pose proof (map_page_spec Paging.hhdm ltac:(vdone) user_slot _ ∅ pm16 0x1000 0x400000 0x3000 7
    user_flags pm16_inv (pm16_root 0x1000 ltac:(vdone) eq_refl) ltac:(vdone) ltac:(lia)) as Hs.
  assert (Hr : is_ret (paging_map_page_in paging0 ∅ pm16 0x1000 0x400000 0x3000 7) = true) by (vm_compute; reflexivity).
  pose proof (or_panic_returns _ _ Hs Hr) as Hr'. clear Hs Hr.
  destruct (proj1 (returns_iff _ _) Hr') as ([m f] & E & S & V). clear Hr'.
  change (paging_map_page_in paging0 ∅ pm16 0x1000 0x400000 0x3000 7 = Ret (m, f)) in E. assert (Em : clone_mem = (m, f)) by (unfold clone_mem; by rewrite E).
  rewrite Em. split; [exact S|]. intros va Hva. etransitivity; [exact (V va Hva)|]. case_decide; [vm_compute; reflexivity|].
  unfold pte_at. destruct (table_at _ ∅ _ _) as [t|] eqn:Et; [|done]. apply table_at_empty in Et as [Et _]. done.
Qed.

Lemma clone_region_ok m f : pt_step Paging.hhdm user_slot pm16 ∅ f m 0x1000 →
  (∀ va, user_slot (pml4_index va) → pte_at Paging.hhdm m 0x1000 va =
    if decide (page_of va = page_of 0x400000) then Some 0x3007 else None) →
  0x3000 / PAGE_SIZE < physmem_total f →
  region_ok user_slot Paging.hhdm 0x1000 0x2000 clone_region m f.
Proof.
  intros S V Ht.
  assert (Hdj : pt_disjoint Paging.hhdm user_slot ∅ 0x1000 0x2000).
  { intros p q t _ _ [_ ->]%table_at_empty [_ E]%table_at_empty. done. }
  pose proof (pm16_root 0x2000 ltac:(vdone) eq_refl) as W2.
  assert (Hk : ∀ q, path_ok user_slot q → table_at Paging.hhdm m 0x2000 q = table_at Paging.hhdm ∅ 0x2000 q).
  { intros q Hq. apply (kept_tables Paging.hhdm ltac:(vdone) user_slot (fa_used pm16) ∅ _ 0x1000); try done. apply S. }
  split.
  - apply S.
  - apply S.
  - apply (kept_wf Paging.hhdm ltac:(vdone) user_slot (fa_used pm16) _ ∅ _ 0x1000); try done; apply S.
  - apply (step_disjoint Paging.hhdm user_slot pm16 ∅ f m 0x1000 0x2000); [vdone|exact S|exact W2|exact Hdj].
  - vdone.
  - intros j Hj. change (r_size clone_region / 4096) with 2 in Hj.
    assert (j = 0 ∨ j = 1) as [-> | ->] by lia; vdone.
  - intros j e Hj He. change (r_size clone_region / 4096) with 2 in Hj.
    assert (Ej : j = 0 ∨ j = 1) by lia. destruct Ej as [-> | ->]; rewrite V in He by vdone.
    2:{ rewrite decide_False in He by vdone. done. }
    rewrite decide_True in He by vdone. injection He as <-. change (frame_of 0x3007) with 0x3000.
    split; [vdone|]. split; [apply S; [done|by right]|]. split; [exact Ht|].
    intros q Hq. rewrite Hk by done. split; intros Hqt.
    + destruct (ps_new _ _ _ _ _ _ _ S q _ Hq Hqt) as [[_ Hx]%table_at_empty|Hx]; [done|]. apply Hx. by right.
    + by apply table_at_empty in Hqt as [_ Hqt].
Qed.

Lemma clone_state_ok : region_ok user_slot Paging.hhdm 0x1000 0x2000 clone_region clone_mem.1 clone_mem.2.
Proof. apply clone_region_ok; [apply clone_mem_step|apply clone_mem_step|vm_compute; reflexivity]. Qed.

Lemma clone_pages_witness : returns (clone_pages clone_state 0x600 0x680 clone_region) (λ s', ∃ e1 e2,
  pte_at Paging.hhdm (mm_ram s') 0x1000 0x400000 = Some e1 ∧ pte_at Paging.hhdm (mm_ram s') 0x2000 0x400000 = Some e2 ∧
  frame_of e1 = 0x3000 ∧ frame_of e2 = 0x3000 ∧ has e1 PTE_WRITABLE = false ∧ has e2 PTE_WRITABLE = false).
Proof.
  pose proof (clone_pages_share user_slot clone_state 0x600 0x680 _ _ clone_region eq_refl eq_refl ltac:(vdone) clone_state_ok) as Hs.
  eapply returns_mono; [apply (or_panic_returns _ _ Hs); vm_compute; reflexivity|].
  intros s' (m & f & -> & Hp & _). apply (Hp 0x400000 0x3007); [vdone|vdone|].
  etransitivity; [apply clone_mem_step; vdone|vdone].
Defined.
