(* ===== verification/SpaceAlloc.v ===== *)
(** Allocation in an address space: what [vmm_space_alloc] does to the tables, the
    frames and the region list of the space. *)
From Stdlib Require Import Sorted.
From S2P Require Import Prelude Interfaces Ram PhysMem DList Kheap Paging Vmm Space Clone.
Import MemLib.

(** ** The region list *)

(** The order of the regions in the list of a space. *)
Definition by_base (x y : Z * rdata) : Prop := d_base x.2 ≤ d_base y.2.

(** The walk stops behind the regions below [vaddr]. *)
Lemma insert_pos_spec ns vaddr : ∀ rs pr cur fuel, dlist ns pr cur rs → (length rs < fuel)%nat →
  ∃ l r la nx, rs = l ++ r ∧ insert_pos fuel ns vaddr pr cur = Ret (la, nx) ∧
    dseg ns pr cur l la nx ∧ dlist ns la nx r ∧ Forall (λ x, d_base x.2 < vaddr) l ∧
    ∀ x, head r = Some x → vaddr ≤ d_base x.2.
Proof.
  induction rs as [|[a d] rs IH]; intros pr cur [|fuel] Hl Hf; cbn [length] in Hf; try lia.
  - apply dlist_nil in Hl as ->. exists [], [], pr, 0. split_and!; try done. by apply dlist_nil.
  - pose proof Hl as Hl0. apply dlist_cons in Hl as (-> & Ha & n & Hn & <- & Hp & Hs). cbn [insert_pos].
    destruct (Z.eqb_spec a 0); [done|]. unfold node. rewrite Hn. cbn [deref]. rewrite bind_Ret.
    destruct (Z.ltb_spec (r_base n) vaddr) as [Hlt|Hge].
    + destruct (IH a (nd_next n) fuel Hs ltac:(lia)) as (l & r & la & nx & -> & E & Hd & Hr & Hfl & Hh).
      exists ((a, nd_data n) :: l), r, la, nx. split_and!; try done; [|by constructor].
      cbn [dseg]. split_and!; try done. by exists n.
    + exists [], ((a, nd_data n) :: rs), pr, a. split_and!; try done. by intros x [= <-].
Qed.

(** Linking a filled node between two parts of a list. *)
Lemma link_between (ns : nodes) head l r la nx nd x : dseg ns 0 head l la nx → dlist ns la nx r →
  NoDup (l ++ r).*1 → nd ∉ (l ++ r).*1 → nd ≠ 0 → r_prev x = la → r_next x = nx →
  ∃ ns' head', ('(ns, head) ← (if la =? 0 then Ret (<[nd := x]> ns, nd) else
                  p ← node (<[nd := x]> ns) la; Ret (<[la := set_next p nd]> (<[nd := x]> ns), head));
                ns ← relink_prev ns nx nd; Ret (ns, head)) = Ret (ns', head') ∧
    dlist ns' 0 head' (l ++ (nd, nd_data x) :: r) ∧ dom ns' = {[nd]} ∪ dom ns.
Proof.
  intros Hl Hr Hnd Hni H0 Hpx Hnx. rewrite fmap_app in Hni, Hnd. apply not_elem_of_app in Hni as [Hnl Hnr].
  apply NoDup_app in Hnd as (Hndl & Hd & Hndr). pose proof (dlist_head _ _ _ _ Hr) as Hhd.
  destruct l as [|[y d] l _] using rev_ind.
  - destruct Hl as [-> <-]. cbn [Z.eqb]. rewrite bind_Ret.
    destruct (relink_prev_spec (<[nd := x]> ns) 0 nx r nd) as (ns' & -> & Hr' & Hdm & Ho); [|done|].
    { eapply dlist_frame; [|exact Hr]. intros c Hc. apply lookup_insert_ne. congruence. }
    rewrite bind_Ret. exists ns', nd. split_and!; [done| |by rewrite Hdm, dom_insert_L].
    apply dlist_cons. split_and!; try done. exists x. rewrite Ho.
    2:{ intros E. destruct Hhd as [?|?]; [lia|]. by rewrite E in Hnr. }
    rewrite lookup_insert_eq. split_and!; try done. change (nd_next x) with (r_next x). by rewrite Hnx.
  - pose proof (dseg_last _ _ _ _ _ _ _ _ Hl) as ->. pose proof (dseg_nonzero _ _ _ _ _ _ Hl) as Hz.
    rewrite fmap_app in Hz, Hnl, Hd, Hndl. apply not_elem_of_app in Hz as [_ Hz]. apply not_elem_of_app in Hnl as [Hnl Hny].
    apply dseg_app in Hl as (l1 & p1 & Hl & E1). cbn [dseg] in E1.
    destruct E1 as (-> & Hy0 & ny & Hny' & <- & Hpy & _ & Ey).
    assert (Hyr : y ∉ r.*1) by (apply Hd, elem_of_app; right; by left).
    assert (Hyn : y ≠ nd) by (intros ->; apply Hny; by left).
    assert (Hyl : y ∉ l.*1). { apply NoDup_app in Hndl as (_ & Hx & _). intros Hi. apply (Hx y Hi). by left. }
    destruct (Z.eqb_spec y 0); [done|]. unfold node. rewrite lookup_insert_ne, Hny' by done. cbn [deref]. rewrite !bind_Ret.
    set (ns1 := <[y := set_next ny nd]> (<[nd := x]> ns)).
    assert (Hoff : ∀ c, c ≠ y → c ≠ nd → ns1 !! c = ns !! c) by (intros c ? ?; unfold ns1; by rewrite !lookup_insert_ne).
    destruct (relink_prev_spec ns1 y nx r nd) as (ns' & -> & Hr' & Hdm & Ho); [|done|].
    { eapply dlist_frame; [|exact Hr]. intros c Hc. apply Hoff; congruence. }
    assert (Hxn : ∀ c, c ∉ r.*1 → c ≠ 0 → ns' !! c = ns1 !! c).
    { intros c Hc Hc0. apply Ho. intros ->. by destruct Hhd. }
    rewrite bind_Ret. exists ns', head. split_and!; [done| |].
    2:{ rewrite Hdm. unfold ns1. rewrite dom_insert_L, dom_insert_L.
        apply elem_of_dom_2 in Hny'. rewrite subseteq_union_1_L; [done|]. apply singleton_subseteq_l, elem_of_union. by right. }
    rewrite <-app_assoc. cbn [app]. replace (nd_data ny) with (nd_data (set_next ny nd)) by (by destruct ny).
    apply dlist_mid. exists (set_next ny nd). rewrite Hxn by done. split_and!; [done| |done| |].
    + unfold ns1. by rewrite lookup_insert_eq.
    + change (nd_prev (set_next ny nd)) with (nd_prev ny). rewrite Hpy. eapply dseg_frame; [|exact Hl].
      intros c Hc. assert (c ≠ 0) by (intros ->; by apply (dseg_nonzero _ _ _ _ _ _ Hl)).
      rewrite Hxn; [apply Hoff; congruence|apply Hd, elem_of_app; by left|done].
    + change (nd_next (set_next ny nd)) with nd. apply dlist_cons. split_and!; try done. exists x.
      rewrite Hxn by done. unfold ns1. rewrite lookup_insert_ne, lookup_insert_eq by done. split_and!; try done.
      change (nd_next x) with (r_next x). by rewrite Hnx.
Qed.

(** ** The pages *)

Lemma pte_flags_ok flags : 0 ≤ flags_to_pte flags < 2 ^ 64 ∧ has (flags_to_pte flags) PTE_PRESENT = true.
Proof.
  unfold flags_to_pte.
  destruct (has _ VMM_REGION_WRITE), (has _ VMM_REGION_USER), (has _ VMM_REGION_EXEC); vdone.
Qed.

(** The frame at [a] has a record. *)
Definition tracked (p : physmem) (a : Z) : Prop := 0 ≤ a / PAGE_SIZE < physmem_total p.

Lemma aligned_frame a : a mod 4096 = 0 → a / PAGE_SIZE * PAGE_SIZE = a.
Proof. unfold PAGE_SIZE. intros. dlia. Qed.

(** A frame that is handed out has one reference. *)
Lemma alloc_one_pf p : physmem_inv p → returns (physmem_alloc_to p 1) (λ '(a, p'),
  a ≠ 0 → tracked p' a ∧ frame_pf p' (a / PAGE_SIZE) = Some (Pageframe 1 FRAME_USED)).
Proof.
  intros [W _]. eapply returns_mono; [by apply physmem_alloc_to_marks|]. intros [a p'] [(-> & _)|(g & -> & (Hg & Ht & _) & _ & M)]; [done|].
  intros _. unfold tracked. rewrite page_frame, (mk_total _ _ _ _ _ _ M), (mk_pf _ _ _ _ _ _ M). split; [lia|].
  destruct (Z.leb_spec g g), (Z.ltb_spec g (g + 1)); done || lia.
Qed.

Section new_tables.
Context (off : Z) (Hoff : 0 ≤ off ∧ off + 2 ^ 47 ≤ 2 ^ 64) (D : Z → Prop) (r : Z).

(** What is new after mapping: tables on the way to the page, and frames for them. *)
Record grown (p : list Z) (f : physmem) (m : ram) (f' : physmem) (m' : ram) : Prop := {
  gr_paths q u : path_ok D q → table_at off m' r q = Some u → table_at off m r q = Some u ∨ q `prefix_of` p;
  gr_frames b : b mod 4096 = 0 → physmem_used f' b → physmem_used f b ∨
    ∃ q, path_ok D q ∧ table_at off m' r q = Some b;
}.

Lemma get_or_create_grown tf m f p t i : table_flags tf → physmem_inv f → pt_wf off D (physmem_used f) m r →
  path_ok D (p ++ [i]) → table_at off m r p = Some t →
  or_panic (get_or_create off tf m f (u64 (t + off)) i) (λ '(T, m', f'), grown (p ++ [i]) f m f' m').
Proof.
  intros Htf Hf Hwf Hpi Ht. pose proof (path_ok_snoc _ _ _ Hpi) as (Hp & Hi & _).
  destruct (wf_frame _ _ _ _ _ Hwf _ _ Hp Ht) as [Hft Hut]. unfold get_or_create.
  destruct (has _ PTE_PRESENT) eqn:Eh; [by split; auto|].
  apply or_panic_bind, returns_or_panic. eapply returns_mono; [by apply (physmem_alloc_one f)|].
  intros [n f'] [_ [[-> ->]|(Hn1 & Hn2 & Hnu & Hu)]]; [done|]. destruct (Z.eqb_spec n 0) as [|_]; [lia|]. cbn [or_panic].
  assert (Hn : frame_ok n) by done. destruct (entry_flags n tf Hn Htf) as (He & Hpe & Hme).
  set (e := Z.lor _ tf) in *. rewrite (with_table_eq off m t i e n).
  assert (Hnext : next off m t i = None) by (unfold next; by rewrite Eh).
  assert (Hta : ∀ q, path_ok D q → table_at off (with_table off m t i e n) r q =
    if decide (q = p ++ [i]) then Some n else table_at off m r q).
  { intros q Hq. by apply (table_at_create off Hoff D (physmem_used f)). }
  split.
  - intros q u Hq. rewrite Hta by done. case_decide as Eq; [right; by rewrite Eq|by left].
  - intros b Hb Hub. apply Hu in Hub as [?| ->]; [by left| |done]. right. exists (p ++ [i]). split; [done|]. rewrite Hta by done. by rewrite decide_True.
Qed.

Lemma grown_trans p p' f m f1 m1 f2 m2 : p `prefix_of` p' → pt_step off D f1 m1 f2 m2 r →
  grown p f m f1 m1 → grown p' f1 m1 f2 m2 → grown p' f m f2 m2.
Proof.
  intros Hp S [A1 A2] [B1 B2]. split.
  - intros q u Hq Hu. destruct (B1 q u Hq Hu) as [Hu1|?]; [|by right]. destruct (A1 q u Hq Hu1) as [?|?]; [by left|right].
    by transitivity p.
  - intros b Hb Hu. destruct (B2 b Hb Hu) as [Hu1|?]; [|by right]. destruct (A2 b Hb Hu1) as [?|(q & Hq & E)]; [by left|right].
    exists q. split; [done|]. by apply (ps_keep _ _ _ _ _ _ _ S).
Qed.

Lemma map_page_grown tf m f va pa fl : table_flags tf → physmem_inv f → pt_wf off D (physmem_used f) m r → D (pml4_index va) →
  or_panic (map_page off tf m f (u64 (r + off)) va pa fl) (λ '(m', f'), grown (pt_path va) f m f' m').
Proof.
  intros Htf Hf Hwf Hd. unfold map_page. pose proof (pt_path_ok _ _ Hd) as Hp3. pose proof (path_ok_snoc _ [_; _] _ Hp3) as (Hp2 & _).
  pose proof (path_ok_snoc _ [_] _ Hp2) as (Hp1 & _).
  apply or_panic_bind. eapply or_panic_mono.
  { apply or_panic_and; [apply (get_or_create_spec off Hoff D tf m f r [] r)|apply (get_or_create_grown tf m f [] r)]; done. }
  intros [[T1 m1] f1] [(S1 & _ & n1 & -> & E1) G1]. apply or_panic_bind. eapply or_panic_mono.
  { apply or_panic_and; [apply (get_or_create_spec off Hoff D tf m1 f1 r [pml4_index va] n1)|apply (get_or_create_grown tf m1 f1 [pml4_index va] n1)];
      done || apply S1. }
  intros [[T2 m2] f2] [(S2 & _ & n2 & -> & E2) G2]. apply or_panic_bind. eapply or_panic_mono.
  { apply or_panic_and; [apply (get_or_create_spec off Hoff D tf m2 f2 r [pml4_index va; pdp_index va] n2)
      |apply (get_or_create_grown tf m2 f2 [pml4_index va; pdp_index va] n2)]; done || apply S2. }
  intros [[T3 m3] f3] [(S3 & _ & n3 & -> & E3) G3]. cbn [or_panic].
  assert (S4 : pt_step off D f3 m3 f3 (set_entry m3 (u64 (n3 + off)) (pt_index va) (leaf_entry pa fl)) r).
  { apply (set_leaf_step off Hoff D m3 f3 r va n3); try done; apply S3. }
  apply (grown_trans (pt_path va) _ _ _ f3 m3); [done|exact S4| |].
  - eapply (grown_trans [pml4_index va; pdp_index va]); [by eexists [_]|exact S3| |exact G3].
    eapply (grown_trans [pml4_index va]); [by eexists [_]|exact S2|exact G1|exact G2].
  - split; [|by left]. intros q u Hq Hu. destruct (ps_new _ _ _ _ _ _ _ S4 q u Hq Hu) as [?|Hn]; [by left|].
    destruct Hn. by apply (wf_frame _ _ _ _ _ (ps_wf _ _ _ _ _ _ _ S4) q u).
Qed.
End new_tables.

Section pages.
Context (D : Z → Prop) (off : Z) (Hoff : 0 ≤ off ∧ off + 2 ^ 47 ≤ 2 ^ 64).
(** The tables of the space, the first page, the number of pages and the flags. *)
Context (r v n fl : Z) (m0 : ram) (f0 : physmem).

Definition nth_page (j : Z) : Z := v + j * 4096.
(** The addresses of the first [i] pages. *)
Definition in_range (i va : Z) : Prop := page_of v ≤ page_of va < page_of v + i.
#[export] Instance in_range_dec i va : Decision (in_range i va).
Proof. apply _. Defined.

(** The range lies in the described part of the space. *)
Record range_ok : Prop := {
  rg_base : 0 ≤ v ∧ v mod 4096 = 0 ∧ 0 ≤ n ∧ v + n * 4096 ≤ 2 ^ 48;
  rg_slots j : 0 ≤ j < n → D (pml4_index (nth_page j));
}.

(** The frames [ps] are taken for the first pages, and nothing else has changed but
    tables of the space. *)
Record filled (ps : list Z) (m : ram) (f : physmem) : Prop := {
  fi_total : physmem_total f = physmem_total f0;
  fi_step : pt_step off D f0 m0 f m r;
  fi_nodup : NoDup ps;
  fi_frames : Forall (λ p, frame_ok p ∧ ¬ physmem_used f0 p ∧ physmem_used f p ∧
    ∀ q, path_ok D q → table_at off m r q ≠ Some p) ps;
  fi_pte va : D (pml4_index va) → pte_at off m r va =
    if decide (in_range (Z.of_nat (length ps)) va)
    then (λ p, leaf_entry p fl) <$> ps !! Z.to_nat (page_of va - page_of v) else pte_at off m0 r va;
  fi_records : Forall (λ p, tracked f p ∧ frame_pf f (p / PAGE_SIZE) = Some (Pageframe 1 FRAME_USED)) ps;
  fi_paths q u : path_ok D q → table_at off m r q = Some u → table_at off m0 r q = Some u ∨
    ∃ j, 0 ≤ j < Z.of_nat (length ps) ∧ q `prefix_of` pt_path (nth_page j);
  fi_taken b : b mod 4096 = 0 → physmem_used f b → physmem_used f0 b ∨ b ∈ ps ∨
    ∃ q, path_ok D q ∧ table_at off m r q = Some b;
}.

Hypothesis R : range_ok.
Hypothesis Hfl : 0 ≤ fl < 2 ^ 64 ∧ has fl PTE_PRESENT = true.

Lemma nth_page_of j : 0 ≤ j < n → page_of (nth_page j) = page_of v + j ∧ u64 (nth_page j) = nth_page j.
Proof.
  intros Hj. destruct (rg_base R) as (? & ? & ? & ?). unfold page_of, nth_page. split.
  - rewrite !Z.mod_small by dlia. dlia.
  - apply u64_small. dlia.
Qed.

Lemma filled_start : physmem_inv f0 → pt_wf off D (physmem_used f0) m0 r → filled [] m0 f0.
Proof.
  intros Hi W. split; [done|by apply (pt_step_refl (F := physmem))|constructor|constructor| |constructor|auto|auto].
  intros va _. rewrite decide_False; [done|]. unfold in_range. cbn. lia.
Qed.

(** A frame is taken. *)
Lemma take_step m f f' a : physmem_inv f' → pt_wf off D (physmem_used f) m r →
  (∀ b, b mod 4096 = 0 → physmem_used f' b ↔ physmem_used f b ∨ b = a) → pt_step off D f m f' m r.
Proof.
  intros Hi W Hu. split; auto.
  - eapply pt_wf_mono; [exact W|]. intros b Hb ?. apply Hu; auto.
  - intros b Hb ?. apply Hu; auto.
  - by split.
Qed.

(** One more page. *)
Lemma filled_next ps m f a f1 m2 f2 : Z.of_nat (length ps) < n → filled ps m f →
  physmem_inv f1 → frame_ok a → ¬ physmem_used f a →
  (∀ b, b mod 4096 = 0 → physmem_used f1 b ↔ physmem_used f b ∨ b = a) →
  pt_step off D f1 m f2 m2 r →
  (∀ va, D (pml4_index va) → pte_at off m2 r va =
     if decide (page_of va = page_of (nth_page (Z.of_nat (length ps)))) then Some (leaf_entry a fl) else pte_at off m r va) →
  frames_kept f f1 → frames_kept f1 f2 → tracked f1 a ∧ frame_pf f1 (a / PAGE_SIZE) = Some (Pageframe 1 FRAME_USED) →
  grown off D r (pt_path (nth_page (Z.of_nat (length ps)))) f1 m f2 m2 → filled (ps ++ [a]) m2 f2.
Proof.
  intros Hlt [Tt S Hnd Hps V Hrec Hpaths Htk] I1 Ha Hna U1 S2 V2 K1 K2 Hra G. pose proof (ps_wf _ _ _ _ _ _ _ S) as W.
  assert (Hnt : ∀ p, frame_ok p → physmem_used f1 p → (∀ q, path_ok D q → table_at off m r q ≠ Some p) →
     ∀ q, path_ok D q → table_at off m2 r q ≠ Some p).
  { intros p Hp Hu Hn q Hq Ht. destruct (ps_new _ _ _ _ _ _ _ S2 q p Hq Ht) as [Ht'|Hx]; [by apply (Hn q)|by apply Hx]. }
  assert (Ha1 : physmem_used f1 a) by (apply U1; [apply Ha|by right]).
  assert (Hrec2 : ∀ p, frame_ok p → physmem_used f1 p → tracked f1 p ∧ frame_pf f1 (p / PAGE_SIZE) = Some (Pageframe 1 FRAME_USED) →
     tracked f2 p ∧ frame_pf f2 (p / PAGE_SIZE) = Some (Pageframe 1 FRAME_USED)).
  { intros p [_ Hp] Hu [Ht Hpf]. unfold tracked in *. rewrite (fk_total _ _ K2). split; [done|].
    by rewrite (fk_pf _ _ K2) by (done || by rewrite aligned_frame). }
  rewrite Forall_forall in Hps, Hrec. split.
  - by rewrite (fk_total _ _ K2), (fk_total _ _ K1).
  - eapply pt_step_trans; [exact S|]. eapply pt_step_trans; [by apply (take_step m f f1 a)|exact S2].
  - apply NoDup_app. split_and!; [done| |apply NoDup_singleton].
    intros p Hp ->%list_elem_of_singleton. by destruct (Hps a Hp) as (_ & _ & ? & _).
  - apply Forall_app. split; [|apply Forall_singleton].
    + apply Forall_forall. intros p Hp. destruct (Hps p Hp) as (Hf & H0 & Hu & Hn).
      assert (physmem_used f1 p) by (apply U1; [apply Hf|by left]).
      split_and!; [done|done|apply S2; [apply Hf|done]|by apply Hnt].
    + split_and!; [done| |apply S2; [apply Ha|done]|].
      * intros Hu. apply Hna. by apply (ps_used _ _ _ _ _ _ _ S a); [apply Ha|].
      * apply Hnt; try done. intros q Hq Ht. apply Hna. by apply (wf_frame _ _ _ _ _ W q a).
  - intros va Hva. rewrite V2, length_app, Nat2Z.inj_add by done. cbn [length].
    rewrite (proj1 (nth_page_of _ (conj (Nat2Z.is_nonneg _) Hlt))). unfold in_range. case_decide as E.
    + rewrite decide_True by lia. rewrite E, lookup_app_r by lia.
      replace (_ - _)%nat with 0%nat by lia. done.
    + rewrite V by done. unfold in_range. case_decide as E1.
      * rewrite decide_True by lia. rewrite lookup_app_l; [done|]. apply Nat2Z.inj_lt. lia.
      * rewrite decide_False by lia. done.
  - apply Forall_app. split; [|apply Forall_singleton; by apply Hrec2].
    apply Forall_forall. intros p Hp. destruct (Hps p Hp) as ([Hp0 Hpm] & _ & Hu & _). destruct (Hrec p Hp) as [Ht Hpf].
    apply Hrec2; [done|apply U1; auto|]. unfold tracked in *. rewrite (fk_total _ _ K1). split; [done|].
    by rewrite (fk_pf _ _ K1) by (done || by rewrite aligned_frame).
  - intros q u Hq Hu. rewrite length_app. cbn [length]. destruct (gr_paths _ _ _ _ _ _ _ _ G q u Hq Hu) as [Hu1|Hpre].
    + destruct (Hpaths q u Hq Hu1) as [?|(j & Hj & ?)]; [by left|right]. exists j. split; [lia|done].
    + right. exists (Z.of_nat (length ps)). split; [lia|done].
  - intros b Hb Hu. rewrite elem_of_app, list_elem_of_singleton. destruct (gr_frames _ _ _ _ _ _ _ _ G b Hb Hu) as [Hu1|?]; [|auto].
    apply U1 in Hu1 as [Hu1| ->]; [|auto|done]. destruct (Htk b Hb Hu1) as [?|[?|(q & Hq & E)]]; [auto|auto|].
    right. right. exists q. split; [done|]. apply (ps_keep _ _ _ _ _ _ _ S2); done.
Qed.

(** Memory runs out after [k] pages: the first [i] of them are unmapped again. *)
Record unmapped (k i : Z) (m : ram) (f : physmem) : Prop := {
  un_step : pt_step off D f0 m0 f m r;
  un_in va : D (pml4_index va) → in_range i va → pte_at off m r va = None;
  un_out va : D (pml4_index va) → ¬ in_range k va → pte_at off m r va = pte_at off m0 r va;
}.

Lemma unmapped_start ps m f : filled ps m f → unmapped (Z.of_nat (length ps)) 0 m f.
Proof.
  intros F. split; [apply F| |].
  - intros va _ Hr. unfold in_range in Hr. lia.
  - intros va Hd Hr. by rewrite (fi_pte _ _ _ F va Hd), decide_False.
Qed.

Lemma unmapped_next k i m f : physmem_inv f → 0 ≤ i < k → k ≤ n → unmapped k i m f →
  unmapped k (i + 1) (unmap_page off m (u64 (r + off)) (nth_page i)) f.
Proof.
  intros Hi Hk Hn [S Hin Hout]. pose proof (nth_page_of i ltac:(lia)) as [E _].
  edestruct (unmap_page_spec off Hoff D m f r (nth_page i)) as [S1 V1]; [exact Hi|apply S|apply (rg_slots R); lia|].
  split; [by eapply pt_step_trans| |].
  - intros va Hd Hr. rewrite V1 by done. case_decide as Ep; [done|]. apply Hin; [done|]. unfold in_range in *. lia.
  - intros va Hd Hr. rewrite V1 by done. rewrite decide_False; [by apply Hout|]. unfold in_range in *. lia.
Qed.
End pages.

(** ** The allocation *)

Section alloc.
Context {H : Type} `{HeapAlloc H} (D : Z → Prop).
Implicit Types (s : mm H).

Lemma unmap_pages_spec off r v n m0 f0 k : 0 ≤ off ∧ off + 2 ^ 47 ≤ 2 ^ 64 → range_ok D v n → k ≤ n →
  ∀ i s, mm_hhdm s = off → physmem_inv (mm_frames s) → 0 ≤ i → i + Z.of_nat (Z.to_nat (k - i)) = k →
  unmapped D off r v m0 f0 k i (mm_ram s) (mm_frames s) →
  ∃ m, foldl (λ s j, mm_unmap_page_in s r (u64 (v + j * 4096))) s (seqZ i (k - i)) = with_mem s m (mm_frames s) ∧
    unmapped D off r v m0 f0 k k m (mm_frames s).
Proof.
  intros Ho R Hk i s. remember (Z.to_nat (k - i)) as c eqn:Ec. revert i s Ec.
  induction c as [|c IH]; intros i s Ec Ehh Hi Hi0 Hs U.
  { assert (i = k) as -> by lia. rewrite Z.sub_diag. exists (mm_ram s). split; [by destruct s|done]. }
  rewrite seqZ_cons by lia. cbn [foldl].
  pose proof (unmapped_next D off Ho r v n m0 f0 R k i _ _ Hi ltac:(lia) Hk U) as U1.
  fold (nth_page v i). rewrite (proj2 (nth_page_of D v n R i ltac:(lia))).
  set (s1 := mm_unmap_page_in s r (nth_page v i)).
  replace (Z.pred (k - i)) with (k - Z.succ i) by lia. change (Z.succ i) with (i + 1) at 2.
  destruct (IH (i + 1) s1) as (m & E & U'); try done; try lia.
  { subst off. exact U1. }
  exists m. split; [exact E|exact U'].
Qed.

(** What a failed page loop leaves behind: the frames [ps] it had got for the first
    pages are not given back, though those pages are unmapped. *)
Record abandoned s off r v n m0 f0 (ps : list Z) : Prop := {
  ab_few : Z.of_nat (length ps) < n;
  ab_pages : unmapped D off r v m0 f0 (Z.of_nat (length ps)) (Z.of_nat (length ps)) (mm_ram s) (mm_frames s);
  ab_nodup : NoDup ps;
  ab_frames : Forall (λ p, frame_ok p ∧ ¬ physmem_used f0 p ∧ physmem_used (mm_frames s) p) ps;
  ab_none : physmem_alloc_to (mm_frames s) 1 = Ret (0, mm_frames s);
}.

(** The page loop: [n] fresh frames for the pages, or no page at all. *)
Lemma alloc_pages_spec off r v n fl m0 f0 : 0 ≤ off ∧ off + 2 ^ 47 ≤ 2 ^ 64 → range_ok D v n →
  0 ≤ fl < 2 ^ 64 ∧ has fl PTE_PRESENT = true →
  ∀ k ps s, mm_hhdm s = off → Z.of_nat (length ps + k) = n → filled D off r v fl m0 f0 ps (mm_ram s) (mm_frames s) →
  or_panic (alloc_pages k (Z.of_nat (length ps)) s r v fl) (λ '(ok, s'), ∃ m f, s' = with_mem s m f ∧
    if ok : bool then ∃ ps, Z.of_nat (length ps) = n ∧ filled D off r v fl m0 f0 ps m f
    else ∃ ps, abandoned s' off r v n m0 f0 ps).
Proof.
  intros Ho R Hfl. induction k as [|k IH]; intros ps s Ehh En F; cbn [alloc_pages].
  { exists (mm_ram s), (mm_frames s). split; [by destruct s|]. exists ps. split; [lia|done]. }
  pose proof (fi_step _ _ _ _ _ _ _ _ _ _ F) as S. pose proof (ps_inv _ _ _ _ _ _ _ S) as I.
  apply or_panic_bind, returns_or_panic. eapply returns_mono.
  { apply returns_and; [apply returns_and; [by apply alloc_one_kept|by apply alloc_one_pf]|by apply returns_with, physmem_alloc_one]. }
  intros [a f1] [[(_ & K1 & _) Hra] [Hal1 [I1 [[-> ->]|(Ha & Ha' & Hna & U1)]]]].
  { cbn [Z.eqb].
    destruct (unmap_pages_spec off r v n m0 f0 (Z.of_nat (length ps)) Ho R ltac:(lia) 0 (with_mem s (mm_ram s) (mm_frames s)))
      as (m & E & U); try done; try lia.
    { by apply unmapped_start with fl. }
    rewrite Z.sub_0_r in E. rewrite E. exists m, (mm_frames s). split; [done|].
    exists ps. split; [lia|exact U|apply F| |exact Hal1].
    eapply Forall_impl; [apply (fi_frames _ _ _ _ _ _ _ _ _ _ F)|]. intros p (? & ? & ? & _). auto. }
  destruct (Z.eqb_spec a 0); [lia|].
  pose proof (take_step D off r (mm_ram s) (mm_frames s) f1 a I1 (ps_wf _ _ _ _ _ _ _ S) U1) as S1.
  assert (Hj : 0 ≤ Z.of_nat (length ps) < n) by lia.
  fold (nth_page v (Z.of_nat (length ps))). rewrite (proj2 (nth_page_of D v n R _ Hj)).
  unfold mm_map_page_in at 1, paging_map_page_in. fold (mm_hhdm (with_mem s (mm_ram s) f1)).
  change (mm_hhdm (with_mem s (mm_ram s) f1)) with (mm_hhdm s). rewrite Ehh. cbn [with_mem mm_ram mm_frames].
  apply or_panic_bind, or_panic_bind. eapply or_panic_mono.
  { apply or_panic_and; [apply or_panic_and|].
    - apply (map_page_kept off _ (mm_ram s) f1 _ (nth_page v (Z.of_nat (length ps))) a fl I1).
    - apply (map_page_grown off Ho D r _ (mm_ram s) f1 (nth_page v (Z.of_nat (length ps))) a fl user_flags);
        [exact I1|apply S1|by apply (rg_slots _ _ _ R)].
    - apply (map_page_spec off Ho D _ (mm_ram s) f1 r (nth_page v (Z.of_nat (length ps))) a fl user_flags);
        [exact I1|apply S1|by apply (rg_slots _ _ _ R)|apply Hfl]. }
  intros [m2 f2] [[K2 G2] [S2 V2]]. cbn [or_panic].
  replace (Z.of_nat (length ps) + 1) with (Z.of_nat (length (ps ++ [a]))) by (rewrite length_app; cbn; lia).
  eapply or_panic_mono.
  { apply (IH (ps ++ [a]) (with_mem (with_mem s (mm_ram s) f1) m2 f2)); [done|rewrite length_app; cbn; lia|].
    apply (filled_next D off r v n fl m0 f0 R ps (mm_ram s) (mm_frames s) a f1 m2 f2); try done; [lia| |by apply Hra].
    intros va Hva. rewrite V2 by done. unfold leaf_entry at 1. by rewrite has_lor, (proj2 Hfl), orb_true_r. }
  intros [ok s'] (m & f & -> & Hr). by exists m, f.
Qed.

(** *** The region *)

Lemma sorted_insert l r (x : Z * rdata) : StronglySorted by_base (l ++ r) → Forall (λ y, d_base y.2 < d_base x.2) l →
  (∀ y, head r = Some y → d_base x.2 ≤ d_base y.2) → StronglySorted by_base (l ++ x :: r).
Proof.
  intros Hs Hl Hr. induction l as [|y l IH]; cbn [app] in *.
  - constructor; [done|]. destruct r as [|z r]; [done|]. specialize (Hr z eq_refl). constructor; [done|].
    apply StronglySorted_inv in Hs as [_ Hz]. eapply Forall_impl; [exact Hz|]. unfold by_base. intros w ?. lia.
  - apply StronglySorted_inv in Hs as [Hs Hy]. apply Forall_cons in Hl as [Hyx Hl]. constructor; [by apply IH|].
    apply Forall_app in Hy as [? ?]. apply Forall_app. split; [done|]. constructor; [|done]. unfold by_base. lia.
Qed.

Lemma add_region_spec s space sp rs nd v sz fl : mm_spaces s !! space = Some sp →
  dlist (mm_nodes s) 0 (regions sp) rs → NoDup rs.*1 → nd ∉ rs.*1 → nd ≠ 0 →
  ∃ ns hd l r, rs = l ++ r ∧
    add_region s space nd v sz fl = Ret (with_space (with_nodes s ns (mm_heap s)) space
      (Space (pml4_phys sp) hd (u64 (sp_region_count sp + 1)) (u64 (sp_used_virtual sp + sz)))) ∧
    dlist ns 0 hd (l ++ (nd, RD v sz fl) :: r) ∧ dom ns = {[nd]} ∪ dom (mm_nodes s) ∧
    Forall (λ x, d_base x.2 < v) l ∧ ∀ x, head r = Some x → v ≤ d_base x.2.
Proof.
  intros Hsp Hl Hnd Hni Hn0. unfold add_region, get_space. rewrite Hsp. cbn [deref]. rewrite bind_Ret.
  set (ns0 := <[nd := Region v sz fl 0 0]> (mm_nodes s)).
  assert (Hl0 : dlist ns0 0 (regions sp) rs).
  { eapply dlist_frame; [|exact Hl]. intros c Hc. apply lookup_insert_ne. congruence. }
  unfold link_region. replace (node ns0 nd) with (Ret (Region v sz fl 0 0)) by (unfold node, ns0; by rewrite lookup_insert_eq).
  rewrite bind_Ret. cbn [r_base].
  destruct (insert_pos_spec ns0 v rs 0 (regions sp) (S (size ns0)) Hl0) as (l & r & la & nx & -> & E & Hdl & Hdr & Hfl & Hh).
  { pose proof (dlist_length ns0 0 (regions sp) rs Hnd Hl0). lia. }
  rewrite E, bind_Ret. cbn [r_size r_flags].
  destruct (link_between ns0 (regions sp) l r la nx nd (Region v sz fl la nx) Hdl Hdr Hnd Hni Hn0 eq_refl eq_refl)
    as (ns & hd & E2 & Hd2 & Hdm). rewrite E2, bind_Ret.
  exists ns, hd, l, r. split_and!; try done. rewrite Hdm. unfold ns0. rewrite dom_insert_L. apply set_eq. intros c.
  rewrite !elem_of_union. tauto.
Qed.

(** *** The whole call *)

(** A space with the regions [rs]: its list is sorted and its nodes are live blocks of
    the heap, its tables are well-formed on frames in use. *)
Record space_ok s (space : Z) (sp : vmm_space) (rs : list (Z * rdata)) : Prop := {
  so_space : space ≠ 0 ∧ mm_spaces s !! space = Some sp;
  so_list : dlist (mm_nodes s) 0 (regions sp) rs;
  so_nodup : NoDup rs.*1;
  so_sorted : StronglySorted by_base rs;
  so_heap : ka_inv (mm_heap s);
  so_nodes a : a ∈ dom (mm_nodes s) → is_Some (ka_size (mm_heap s) a);
  so_frames : physmem_inv (mm_frames s);
  so_tables : pt_wf (mm_hhdm s) D (physmem_used (mm_frames s)) (mm_ram s) (pml4_phys sp);
}.

(** Nothing of the other spaces has changed, and no byte of a frame in use that is
    not a table of the space [r]. *)
Record elsewhere s s' (space r : Z) : Prop := {
  el_spaces a : a ≠ space → mm_spaces s' !! a = mm_spaces s !! a;
  el_pages r2 va : pt_wf (mm_hhdm s) D (physmem_used (mm_frames s)) (mm_ram s) r2 →
    pt_disjoint (mm_hhdm s) D (mm_ram s) r r2 → D (pml4_index va) →
    pte_at (mm_hhdm s) (mm_ram s') r2 va = pte_at (mm_hhdm s) (mm_ram s) r2 va;
  el_bytes a x : frame_ok a → physmem_used (mm_frames s) a →
    (∀ q, path_ok D q → table_at (mm_hhdm s) (mm_ram s) r q ≠ Some a) →
    a + mm_hhdm s ≤ x < a + mm_hhdm s + 4096 → ld8 (mm_ram s') x = ld8 (mm_ram s) x;
}.

Lemma step_elsewhere s s' space r : 0 ≤ mm_hhdm s ∧ mm_hhdm s + 2 ^ 47 ≤ 2 ^ 64 →
  (∀ a, a ≠ space → mm_spaces s' !! a = mm_spaces s !! a) →
  pt_step (mm_hhdm s) D (mm_frames s) (mm_ram s) (mm_frames s') (mm_ram s') r → elsewhere s s' space r.
Proof.
  intros Ho Hsp S. split; [done| |].
  - intros r2 va W Hdj Hd. apply (kept_pte (mm_hhdm s) Ho D (fa_used (mm_frames s)) (mm_ram s) (mm_ram s') r r2); try done. apply S.
  - apply S.
Qed.

(** The node of the new region. *)
Lemma region_fresh s space sp rs : space_ok s space sp rs → returns (mm_region_alloc s) (λ '(nd, s1),
  nd = 0 ∧ s1 = s ∨
  nd ≠ 0 ∧ mm_nodes s !! nd = None ∧ ka_size (mm_heap s) nd = None ∧ ∃ h,
    s1 = with_nodes s (<[nd := Region 0 0 0 0 0]> (mm_nodes s)) h ∧ ka_inv h ∧ is_Some (ka_size h nd) ∧
    ∀ q, q ≠ nd → ka_size h q = ka_size (mm_heap s) q).
Proof.
  intros [_ _ _ _ Hh Hn _ _]. unfold mm_region_alloc, region_alloc. apply returns_bind, returns_bind.
  eapply returns_mono; [by apply ka_malloc_spec|]. intros [p h] [Hi [[-> ->]|(Hp & Hnone & (m & _ & Hm) & Hq)]].
  - cbn. left. split; [done|by destruct s].
  - destruct (Z.eqb_spec p 0); [done|]. cbn. right. split_and!; try done.
    + apply not_elem_of_dom. intros [m' Hm']%Hn. congruence.
    + exists h. by split_and!; [| |eexists|].
Qed.

(** What the call does to the space after its page loop. *)
Lemma space_ok_failed s space sp rs nd h m f : space_ok s space sp rs →
  nd ≠ 0 → mm_nodes s !! nd = None → ka_size (mm_heap s) nd = None → ka_inv h → is_Some (ka_size h nd) →
  (∀ q, q ≠ nd → ka_size h q = ka_size (mm_heap s) q) →
  pt_step (mm_hhdm s) D (mm_frames s) (mm_ram s) f m (pml4_phys sp) →
  returns (mm_region_free (with_mem (with_nodes s (<[nd := Region 0 0 0 0 0]> (mm_nodes s)) h) m f) nd) (λ s',
    ∃ h', s' = with_heap (with_mem s m f) h' ∧ space_ok s' space sp rs).
Proof.
  intros [Hsp Hl Hnd Hs Hh Hn Hf Hw] Hn0 Hno Hnone Hi [k Hk] Hq S. unfold mm_region_free, region_free.
  destruct (Z.eqb_spec nd 0); [done|]. cbn [with_mem with_nodes mm_nodes mm_heap]. rewrite delete_insert_id by done.
  apply returns_bind, returns_bind. eapply returns_mono; [by apply (ka_free_spec h nd k)|].
  intros h' (Hi' & _ & Hq'). cbn. exists h'. split; [done|]. split; try done; [|apply S|apply S].
  intros a Ha. cbn in *. destruct (Hn a Ha) as [b Hb]. exists b.
  assert (a ≠ nd) by congruence. by rewrite Hq', Hq.
Qed.

Lemma space_ok_added s space sp rs nd h m f v sz fl : space_ok s space sp rs →
  nd ≠ 0 → mm_nodes s !! nd = None → ka_inv h → is_Some (ka_size h nd) →
  (∀ q, q ≠ nd → ka_size h q = ka_size (mm_heap s) q) →
  pt_step (mm_hhdm s) D (mm_frames s) (mm_ram s) f m (pml4_phys sp) →
  ∃ s' hd l r, let sp' := Space (pml4_phys sp) hd (u64 (sp_region_count sp + 1)) (u64 (sp_used_virtual sp + sz)) in
    add_region (with_mem (with_nodes s (<[nd := Region 0 0 0 0 0]> (mm_nodes s)) h) m f) space nd v sz fl = Ret s' ∧
    rs = l ++ r ∧ space_ok s' space sp' (l ++ (nd, RD v sz fl) :: r) ∧ mm_ram s' = m ∧ mm_frames s' = f ∧ mm_hhdm s' = mm_hhdm s ∧
    ∀ a, a ≠ space → mm_spaces s' !! a = mm_spaces s !! a.
Proof.
  intros [[Hsp0 Hsp] Hl Hnd Hs Hh Hn Hf Hw] Hn0 Hno Hi Hk Hq S.
  set (s1 := with_mem _ m f).
  assert (Hni : nd ∉ rs.*1).
  { intros ([a d] & -> & Hin)%list_elem_of_fmap. apply list_elem_of_split in Hin as (l & r & ->).
    apply dlist_mid in Hl as (x & _ & Hx & _). cbn in Hno. congruence. }
  assert (Hl1 : dlist (mm_nodes s1) 0 (regions sp) rs).
  { eapply dlist_frame; [|exact Hl]. intros c Hc. apply lookup_insert_ne. congruence. }
  destruct (add_region_spec s1 space sp rs nd v sz fl Hsp Hl1 Hnd Hni Hn0) as (ns & hd & l & r & -> & E & Hd & Hdm & Hlt & Hge).
  eexists _, hd, l, r. split; [exact E|]. split; [done|]. split; [|split; [done|]; split; [done|]; split; [done|]].
  2:{ intros a Ha. cbn. by apply lookup_insert_ne. }
  split; try done.
  - split; [done|]. cbn. apply lookup_insert_eq.
  - rewrite fmap_app, fmap_cons. rewrite fmap_app in Hnd, Hni. apply not_elem_of_app in Hni as [? ?].
    apply NoDup_app in Hnd as (? & Hx & ?). apply NoDup_app. split_and!; [done| |by apply NoDup_cons].
    intros c Hc [->|?]%elem_of_cons; [done|]. by apply (Hx c).
  - by apply sorted_insert.
  - intros a Ha. cbn in *. rewrite Hdm, dom_insert_L in Ha. destruct (decide (a = nd)) as [->|Hne]; [done|].
    rewrite Hq by done. apply Hn.
    rewrite !elem_of_union, elem_of_singleton in Ha. tauto.
  - apply S.
  - apply S.
Qed.

(** A page that was filled. *)
Lemma filled_nth off r v n fl m0 f0 ps m f j p : range_ok D v n → Z.of_nat (length ps) ≤ n → filled D off r v fl m0 f0 ps m f →
  ps !! j = Some p → pte_at off m r (nth_page v (Z.of_nat j)) = Some (leaf_entry p fl).
Proof.
  intros R Hn F Hj. pose proof (lookup_lt_Some _ _ _ Hj) as Hjl.
  pose proof (nth_page_of D v n R (Z.of_nat j) ltac:(lia)) as [Ep _].
  rewrite (fi_pte _ _ _ _ _ _ _ _ _ _ F) by (apply (rg_slots _ _ _ R); lia).
  rewrite decide_True by (unfold in_range; lia). rewrite Ep. replace (Z.to_nat _) with j by lia. by rewrite Hj.
Qed.

Lemma space_alloc_call s space sp rs vaddr n flags :
  let v := vaddr - vaddr mod 4096 in let off := mm_hhdm s in let r := pml4_phys sp in
  0 ≤ off ∧ off + 2 ^ 47 ≤ 2 ^ 64 → space_ok s space sp rs → 0 ≤ vaddr → 0 < n → range_ok D v n →
  or_panic (vmm_space_alloc s space vaddr n flags) (λ '(ret, s'), elsewhere s s' space r ∧ mm_hhdm s' = off ∧
    (∀ va, D (pml4_index va) → ¬ in_range v n va → pte_at off (mm_ram s') r va = pte_at off (mm_ram s) r va) ∧
    (ret = 0 ∧ space_ok s' space sp rs ∧ (mm_region_alloc s = Ret (0, s) ∧ s' = s ∨ ∃ ps, Z.of_nat (length ps) < n ∧
       (∀ va, D (pml4_index va) → pte_at off (mm_ram s') r va =
          if decide (in_range v (Z.of_nat (length ps)) va) then None else pte_at off (mm_ram s) r va) ∧
       NoDup ps ∧ Forall (λ p, frame_ok p ∧ ¬ physmem_used (mm_frames s) p ∧ physmem_used (mm_frames s') p) ps ∧
       physmem_alloc_to (mm_frames s') 1 = Ret (0, mm_frames s')) ∨
     ret = v ∧ ∃ nd hd l rest ps, rs = l ++ rest ∧
       space_ok s' space (Space r hd (u64 (sp_region_count sp + 1)) (u64 (sp_used_virtual sp + n * 4096)))
         (l ++ (nd, RD v (n * 4096) (Z.lor VMM_REGION_USED flags)) :: rest) ∧
       Z.of_nat (length ps) = n ∧ filled D off r v (flags_to_pte flags) (mm_ram s) (mm_frames s) ps (mm_ram s') (mm_frames s'))).
Proof.
  intros v off r Ho Hok Hva Hn R. destruct (so_space _ _ _ _ Hok) as [Hsp0 Hsp].
  destruct (rg_base _ _ _ R) as (Hv0 & Hvm & _ & Hve).
  unfold vmm_space_alloc. destruct (Z.eqb_spec space 0), (Z.eqb_spec n 0); try lia; try done. cbn [orb].
  unfold PAGE_ALIGN_DOWN. rewrite align_down_spec by (unfold v in *; dlia). fold v. rewrite (u64_small (n * 4096)) by lia.
  apply or_panic_bind, returns_or_panic. eapply returns_mono; [by apply returns_with, (region_fresh s space sp rs)|].
  intros [nd s1] [Hra [[-> ->]|(Hnd & Hno & Hnone & h & -> & Hi & Hk & Hq)]].
  { cbn [Z.eqb]. split; [|split; [done|split; [done|left; auto]]]. apply step_elsewhere; try done.
    apply (pt_step_refl (mm_hhdm s) D (mm_frames s)); [apply Hok|apply Hok]. }
  destruct (Z.eqb_spec nd 0); [done|]. unfold get_space. cbn [with_nodes mm_spaces]. rewrite Hsp. cbn [deref]. rewrite bind_Ret.
  apply or_panic_bind. eapply or_panic_mono.
  { apply (alloc_pages_spec off r v n (flags_to_pte flags) (mm_ram s) (mm_frames s) Ho R (pte_flags_ok flags) (Z.to_nat n) []
      (with_nodes s _ h)); [done|cbn; lia|]. apply filled_start; apply Hok. }
  intros [[] s2] (m & f & -> & Hres); cbn [negb].
  - destruct Hres as (ps & Elen & F). pose proof (fi_step _ _ _ _ _ _ _ _ _ _ F) as S. pose proof (fi_pte _ _ _ _ _ _ _ _ _ _ F) as V.
    destruct (space_ok_added s space sp rs nd h m f v (n * 4096) (Z.lor VMM_REGION_USED flags) Hok Hnd Hno Hi Hk Hq S)
      as (s' & hd & l & rest & E & -> & Hok' & Em & Ef & Hhh & Hsp').
    rewrite E, bind_Ret. subst m f. split; [by apply step_elsewhere|]. split; [done|]. split.
    { intros va Hd Hr. by rewrite V, Elen, decide_False. }
    right. split; [done|]. by exists nd, hd, l, rest, ps.
  - destruct Hres as (ps & [Hfew [S Hun Hout] Hnd' Hps Hnone']).
    apply or_panic_bind, returns_or_panic.
    eapply returns_mono; [by apply (space_ok_failed s space sp rs nd h m f Hok)|].
    intros s' (h' & -> & Hok'). split; [by apply step_elsewhere|].
    split; [done|]. split; [|left; split; [done|]; split; [done|]; right; exists ps; split_and!; try done].
    + intros va Hd Hr. apply Hout; [done|]. unfold in_range in *. lia.
    + intros va Hd. case_decide; [by apply Hun|by apply Hout].
Qed.

(** C9. [vmm_space_alloc] gives a space fresh pages.  Unless memory for tables runs out
    (a panic), it changes no translation outside the range, no other space, and no byte
    of a frame in use but tables of the space.  Either it returns 0 with the region list
    as before: then nothing at all has changed, because the heap had no room for the
    region, or the free frames ran out behind the first pages of the range.  Those pages
    show nothing now, whatever they showed before, every other page what it showed, and
    the frames taken for them, one each, stay in use: nobody gives them back (nor the
    tables made on the way).  Or it returns
    the start of the range, every page of the range shows a frame of its own that was
    free, with the given rights, and the region list has the range at its place. *)
Theorem vmm_space_alloc_spec s space sp rs vaddr n flags :
  let v := vaddr - vaddr mod 4096 in let off := mm_hhdm s in let r := pml4_phys sp in
  0 ≤ off ∧ off + 2 ^ 47 ≤ 2 ^ 64 → space_ok s space sp rs → 0 ≤ vaddr → 0 < n → range_ok D v n →
  or_panic (vmm_space_alloc s space vaddr n flags) (λ '(ret, s'), elsewhere s s' space r ∧
    (∀ va, D (pml4_index va) → ¬ in_range v n va → pte_at off (mm_ram s') r va = pte_at off (mm_ram s) r va) ∧
    (ret = 0 ∧ space_ok s' space sp rs ∧ (mm_region_alloc s = Ret (0, s) ∧ s' = s ∨ ∃ ps, Z.of_nat (length ps) < n ∧
       (∀ va, D (pml4_index va) → pte_at off (mm_ram s') r va =
          if decide (in_range v (Z.of_nat (length ps)) va) then None else pte_at off (mm_ram s) r va) ∧
       NoDup ps ∧ Forall (λ p, frame_ok p ∧ ¬ physmem_used (mm_frames s) p ∧ physmem_used (mm_frames s') p) ps ∧
       physmem_alloc_to (mm_frames s') 1 = Ret (0, mm_frames s')) ∨
     ret = v ∧ ∃ nd hd l rest ps, rs = l ++ rest ∧
       space_ok s' space (Space r hd (u64 (sp_region_count sp + 1)) (u64 (sp_used_virtual sp + n * 4096)))
         (l ++ (nd, RD v (n * 4096) (Z.lor VMM_REGION_USED flags)) :: rest) ∧
       Z.of_nat (length ps) = n ∧ NoDup ps ∧
       Forall (λ p, frame_ok p ∧ ¬ physmem_used (mm_frames s) p ∧ physmem_used (mm_frames s') p) ps ∧
       ∀ j p, ps !! j = Some p →
         pte_at off (mm_ram s') r (v + Z.of_nat j * 4096) = Some (leaf_entry p (flags_to_pte flags)))).
Proof.
  intros v off r Ho Hok Hva Hn R. eapply or_panic_mono; [by apply (space_alloc_call s space sp rs)|].
  intros [ret s'] (He & _ & Hout & [Hz|(-> & nd & hd & l & rest & ps & -> & Hok' & Elen & F)]); (split; [exact He|]; split; [exact Hout|]).
  - by left.
  - right. split; [done|]. exists nd, hd, l, rest, ps. split_and!; try done; [apply F| |].
    + eapply Forall_impl; [apply (fi_frames _ _ _ _ _ _ _ _ _ _ F)|]. intros p (? & ? & ? & _). auto.
    + intros j p Hj. apply (filled_nth off r v n _ (mm_ram s) (mm_frames s) ps _ (mm_frames s') j p R); done || lia.
Qed.
End alloc.

(** ** An empty space gets two pages *)

Definition empty_space : mm kheap :=
  MM ∅ pm16 kheap_init ∅ {[0x600 := Space 0x1000 0 0 0]} paging0 0x700 0x600.

Lemma empty_space_ok : space_ok user_slot empty_space 0x600 (Space 0x1000 0 0 0) [].
Proof.
  split; try done.
  - by exists 0.
  - constructor.
  - constructor.
  - eexists. apply kheap_init_inv.
  - apply pm16_inv.
  - apply pt_wf_empty; [vdone|by right].
Qed.

Lemma vmm_space_alloc_witness :
  returns (vmm_space_alloc empty_space 0x600 0x400123 2 VMM_REGION_WRITE) (λ '(ret, s'),
    ret = 0x400000 ∧ ∃ a b, a ≠ b ∧
      pte_at (mm_hhdm empty_space) (mm_ram s') 0x1000 0x400000 = Some (leaf_entry a (flags_to_pte VMM_REGION_WRITE)) ∧
      pte_at (mm_hhdm empty_space) (mm_ram s') 0x1000 0x401000 = Some (leaf_entry b (flags_to_pte VMM_REGION_WRITE))).
Proof.
  assert (R : range_ok user_slot (0x400123 - 0x400123 mod 4096) 2).
  { split; [vdone|]. intros j Hj. assert (j = 0 ∨ j = 1) as [-> | ->] by lia; vdone. }
  pose proof (vmm_space_alloc_spec user_slot empty_space 0x600 _ [] 0x400123 2 VMM_REGION_WRITE ltac:(vdone)
    empty_space_ok ltac:(lia) ltac:(lia) R) as Hs.
  assert (Hr : match vmm_space_alloc empty_space 0x600 0x400123 2 VMM_REGION_WRITE with Ret (ret, _) => ret =? 0x400000 | _ => false end = true)
    by (vm_compute; reflexivity).
  clear R. revert Hs Hr. change (0x400123 - 0x400123 mod 4096) with 0x400000. cbn [pml4_phys]. generalize empty_space. intros s0 Hs Hr.
  destruct (vmm_space_alloc s0 0x600 0x400123 2 VMM_REGION_WRITE) as [[ret s']| | |]; [|discriminate..].
  apply Z.eqb_eq in Hr. subst ret. cbn [returns or_panic] in *.
  destruct Hs as (_ & _ & [(E & _)|(_ & nd & hd & l & rest & ps & _ & _ & Hl & Hnd & _ & Hps)]); [discriminate E|].
  split; [reflexivity|]. destruct ps as [|a [|b [|? ?]]]; cbn in Hl; try lia. exists a, b. split_and!.
  - intros ->. apply NoDup_cons in Hnd as [Hx _]. apply Hx. by left.
  - exact (Hps 0%nat a eq_refl).
  - exact (Hps 1%nat b eq_refl).
Defined.
