(* ===== verification/SpaceFree.v ===== *)
(** Release in an address space: what [vmm_space_free] gives back, page by page, with the
    tables that become empty, and what it leaves alone. *)
From Stdlib Require Import Sorted.
From S2P Require Import Prelude Interfaces Ram PhysMem DList Kheap Paging Vmm Space Clone SpaceAlloc.
Import MemLib.

(** ** Frames *)

Lemma free_one p a : physmem_inv p → frame_ok a → returns (physmem_free_to p a 1) (λ p',
  physmem_inv p' ∧ physmem_total p' = physmem_total p ∧
  (∀ b, b mod 4096 = 0 → physmem_used p' b ↔ physmem_used p b ∧ ¬ (b = a ∧ tracked p a)) ∧
  ∀ g, g ≠ a / PAGE_SIZE → frame_pf p' g = frame_pf p g).
Proof.
  intros [W H0] [Ha Ha']. unfold physmem_free_to. cbn [Z.eqb]. pose proof (wf_total _ W) as Ht.
  eapply returns_mono; [apply (mark_free_spec p a 1 W); lia|]. intros p' M.
  assert (Hs : 0 < a / PAGE_SIZE) by (unfold PAGE_SIZE; dlia).
  rewrite u64_small in M by (unfold PAGE_SIZE in *; dlia). split; [split; [apply M|]|].
  { rewrite (mk_bit _ _ _ _ _ _ M) by lia. destruct (Z.leb_spec (a / PAGE_SIZE) 0); [lia|done]. }
  split; [apply M|]. split.
  - intros b Hb. unfold physmem_used, tracked. rewrite (mk_total _ _ _ _ _ _ M).
    destruct (decide (0 ≤ b / PAGE_SIZE < physmem_total p)) as [Hin|Hout].
    2:{ split; [|by left]. intros _. split; [by left|]. intros [-> ?]. lia. }
    rewrite (mk_bit _ _ _ _ _ _ M) by lia. assert (a / PAGE_SIZE = b / PAGE_SIZE ↔ b = a) by (unfold PAGE_SIZE; dlia).
    destruct (Z.leb_spec (a / PAGE_SIZE) (b / PAGE_SIZE)), (Z.ltb_spec (b / PAGE_SIZE) (Z.min (a / PAGE_SIZE + 1) (physmem_total p))); cbn;
      intuition (lia || congruence).
  - intros g Hg. rewrite (mk_pf _ _ _ _ _ _ M).
    destruct (Z.leb_spec (a / PAGE_SIZE) g), (Z.ltb_spec g (Z.min (a / PAGE_SIZE + 1) (physmem_total p))); cbn; done || lia.
Qed.

(** What the release of a frame with one reference, or with more, leaves. *)
Definition released (f f' : physmem) (a : Z) : Prop :=
  tracked f a → ∀ x, frame_pf f (a / PAGE_SIZE) = Some x → 0 ≤ rc x →
  if rc x <=? 1 then ¬ physmem_used f' a
  else frame_pf f' (a / PAGE_SIZE) = Some (Pageframe (rc x - 1) (flags x)) ∧ (physmem_used f a → physmem_used f' a).

Lemma rc_dec_spec p a x : physmem_inv p → tracked p a → frame_pf p (a / PAGE_SIZE) = Some x →
  let n := if 0 <? rc x then rc x - 1 else rc x in
  ∃ p', physmem_frame_rc_dec_and_get p a = Ret (n, p') ∧ physmem_inv p' ∧ physmem_total p' = physmem_total p ∧
    (∀ b, physmem_used p' b ↔ physmem_used p b) ∧
    ∀ g, frame_pf p' g = if g =? a / PAGE_SIZE then Some (Pageframe n (flags x)) else frame_pf p g.
Proof.
  intros Hi Hf Hx. unfold physmem_frame_rc_dec_and_get. pose proof Hf as [_ Hlt].
  destruct (Z.leb_spec (physmem_total p) (a / PAGE_SIZE)); [lia|].
  destruct (pageframe_get_spec p _ (proj1 Hi) Hf) as (y & Hy & ->). assert (y = x) as -> by congruence. rewrite bind_Ret.
  destruct (0 <? rc x).
  - destruct Hi as [W H0]. destruct (proj1 (returns_iff _ _) (pageframe_set_spec p _ (Pageframe (rc x - 1) (flags x)) W Hf)) as (p1 & -> & W1 & T1 & B1 & F1).
    assert (Hb : ∀ g, frame_bit p1 g = frame_bit p g) by (intros g; unfold frame_bit; by rewrite B1).
    exists p1. split; [done|]. split; [split; [done|by rewrite Hb]|]. split; [done|]. split; [|done].
    intros b. unfold physmem_used. by rewrite T1, Hb.
  - exists p. split_and!; try done. intros g. zcase; [|done]. subst. rewrite Hx. by destruct x.
Qed.

Lemma flags_set_spec p a fl x : physmem_inv p → tracked p a → frame_pf p (a / PAGE_SIZE) = Some x →
  ∃ p', physmem_frame_flags_set p a fl = Ret p' ∧ physmem_inv p' ∧ physmem_total p' = physmem_total p ∧
    (∀ b, physmem_used p' b ↔ physmem_used p b) ∧ ∀ g, g ≠ a / PAGE_SIZE → frame_pf p' g = frame_pf p g.
Proof.
  intros [W H0] Hf Hx. unfold physmem_frame_flags_set. pose proof Hf as [_ Hlt].
  destruct (Z.leb_spec (physmem_total p) (a / PAGE_SIZE)); [lia|].
  destruct (pageframe_get_spec p _ W Hf) as (y & Hy & ->). rewrite bind_Ret.
  destruct (proj1 (returns_iff _ _) (pageframe_set_spec p _ (Pageframe (rc y) fl) W Hf)) as (p1 & -> & W1 & T1 & B1 & F1).
  assert (Hb : ∀ g, frame_bit p1 g = frame_bit p g) by (intros g; unfold frame_bit; by rewrite B1).
  exists p1. split; [done|]. split; [split; [done|by rewrite Hb]|]. split; [done|]. split.
  - intros b. unfold physmem_used. by rewrite T1, Hb.
  - intros g Hg. rewrite F1. by zcase.
Qed.

Lemma tracked_dec p a : frame_ok a → tracked p a ∨ physmem_total p ≤ a / PAGE_SIZE.
Proof. intros [? _]. unfold tracked, PAGE_SIZE. dlia. Qed.

Lemma release_frame_spec p a : physmem_inv p → frame_ok a → returns (release_frame p a) (λ p',
  physmem_inv p' ∧ physmem_total p' = physmem_total p ∧ released p p' a ∧
  (∀ b, b mod 4096 = 0 → physmem_used p' b → physmem_used p b) ∧
  (∀ b, b mod 4096 = 0 → b ≠ a → physmem_used p b → physmem_used p' b) ∧
  ∀ g, g ≠ a / PAGE_SIZE → frame_pf p' g = frame_pf p g).
Proof.
  intros Hi Ha. unfold release_frame. destruct (tracked_dec p a Ha) as [Ht|Hout].
  2:{ unfold physmem_frame_rc_dec_and_get, physmem_frame_flags_set.
      destruct (Z.leb_spec (physmem_total p) (a / PAGE_SIZE)); [|lia]. rewrite bind_Ret. cbn [Z.eqb].
      destruct (Z.leb_spec (physmem_total p) (a / PAGE_SIZE)); [|lia]. rewrite bind_Ret.
      eapply returns_mono; [by apply free_one|]. intros p' (I & T & U & F). split_and!; try done.
      - intros [_ ?]. lia.
      - intros b Hb Hu. by apply U.
      - intros b Hb Hne Hu. apply U; [done|]. split; [done|]. by intros [? _]. }
  destruct (pageframe_get_spec p _ (proj1 Hi) Ht) as (x & Hx & _).
  destruct (rc_dec_spec p a x Hi Ht Hx) as (p1 & -> & I1 & T1 & U1 & F1). rewrite bind_Ret.
  set (k := if 0 <? rc x then rc x - 1 else rc x) in *.
  assert (Hk : rc x <= 1 ∧ 0 ≤ rc x → k = 0) by (unfold k; zcase; lia).
  assert (Ht1 : tracked p1 a) by (unfold tracked; by rewrite T1).
  destruct (Z.eqb_spec k 0) as [E|E].
  - destruct (flags_set_spec p1 a FRAME_FREE (Pageframe k (flags x)) I1 Ht1) as (p2 & -> & I2 & T2 & U2 & F2).
    { by rewrite F1, Z.eqb_refl. }
    rewrite bind_Ret. eapply returns_mono; [by apply free_one|]. intros p' (I & T & U & F).
    assert (Ht2 : tracked p2 a) by (unfold tracked; by rewrite T2, T1). split_and!; [done|congruence| | | |].
    + intros _ y Hy Hy0. assert (y = x) as -> by congruence. destruct (Z.leb_spec (rc x) 1) as [_|Hgt].
      * intros Hu. apply U in Hu as [_ Hu]; [|apply Ha]. by apply Hu.
      * exfalso. revert E. unfold k. destruct (Z.ltb_spec 0 (rc x)); lia.
    + intros b Hb Hu. apply U1, U2. by apply U.
    + intros b Hb Hne Hu. apply U; [done|]. split; [by apply U2, U1|]. by intros [? _].
    + intros g Hg. rewrite F, F2, F1 by done. by destruct (Z.eqb_spec g (a / PAGE_SIZE)).
  - cbn. split_and!; try done.
    + intros _ y Hy Hy0. assert (y = x) as -> by congruence. destruct (Z.leb_spec (rc x) 1); [by rewrite Hk in E|].
      split; [|by rewrite U1]. rewrite F1, Z.eqb_refl. unfold k. by destruct (Z.ltb_spec 0 (rc x)); [|lia].
    + intros b _. apply U1.
    + intros b _ _. apply U1.
    + intros g Hg. rewrite F1. by destruct (Z.eqb_spec g (a / PAGE_SIZE)).
Qed.

(** ** Tables *)

Section tables.
Context (D : Z → Prop) (off : Z) (Hoff : 0 ≤ off ∧ off + 2 ^ 47 ≤ 2 ^ 64) (r : Z).

(** What a release does: the tables of [r] that are left are as before, a frame that is
    freed is a table that is gone or one of the data frames [X], every table that is
    gone is freed, and no byte changes of a frame that stays in use and was no table. *)
Record free_step (X : Z → Prop) (f : physmem) (m : ram) (f' : physmem) (m' : ram) : Prop := {
  fs_inv : physmem_inv f';
  fs_total : physmem_total f' = physmem_total f;
  fs_wf : pt_wf off D (physmem_used f') m' r;
  fs_tables q t : path_ok D q → table_at off m' r q = Some t → table_at off m r q = Some t;
  fs_used b : b mod 4096 = 0 → physmem_used f' b → physmem_used f b;
  fs_freed b : b mod 4096 = 0 → physmem_used f b → ¬ physmem_used f' b →
    X b ∨ ∃ q, path_ok D q ∧ table_at off m r q = Some b ∧ table_at off m' r q = None;
  fs_gone q t : path_ok D q → table_at off m r q = Some t → table_at off m' r q = None →
    tracked f t → ¬ physmem_used f' t;
  fs_bytes a x : frame_ok a → physmem_used f' a → (∀ q, path_ok D q → table_at off m r q ≠ Some a) →
    a + off ≤ x < a + off + 4096 → ld8 m' x = ld8 m x;
  fs_pf b : b mod 4096 = 0 → (∀ q, path_ok D q → table_at off m r q ≠ Some b) → ¬ X b →
    frame_pf f' (b / PAGE_SIZE) = frame_pf f (b / PAGE_SIZE);
}.

Lemma free_step_refl X f m : physmem_inv f → pt_wf off D (physmem_used f) m r → free_step X f m f m.
Proof. intros I W. split; try done; intros; congruence. Qed.

Lemma used_or_not f b : physmem_used f b ∨ ¬ physmem_used f b.
Proof.
  unfold physmem_used. destruct (decide (0 ≤ b / PAGE_SIZE < physmem_total f)) as [?|?]; [|by left; left].
  destruct (frame_bit f (b / PAGE_SIZE)); [left; by right|right; by intros [?|?]].
Qed.

Lemma free_step_trans X f m f1 m1 f2 m2 : pt_wf off D (physmem_used f) m r →
  free_step X f m f1 m1 → free_step X f1 m1 f2 m2 → free_step X f m f2 m2.
Proof.
  intros W A B. pose proof (fs_tables _ _ _ _ _ A) as HA. pose proof (fs_tables _ _ _ _ _ B) as HB. split.
  - apply B.
  - rewrite (fs_total _ _ _ _ _ B). apply A.
  - apply B.
  - auto.
  - intros b Hb Hu. apply (fs_used _ _ _ _ _ A); [done|]. by apply (fs_used _ _ _ _ _ B).
  - intros b Hb Hu Hn. destruct (used_or_not f1 b) as [H1|H1].
    + destruct (fs_freed _ _ _ _ _ B b Hb H1 Hn) as [?|(q & Hq & E1 & E2)]; [by left|]. right. exists q. auto.
    + destruct (fs_freed _ _ _ _ _ A b Hb Hu H1) as [?|(q & Hq & E1 & E2)]; [by left|]. right. exists q. split_and!; try done.
      destruct (table_at off m2 r q) as [t|] eqn:E; [|done]. apply HB in E; [congruence|done].
  - intros q t Hq Ht Hn Htr. destruct (table_at off m1 r q) as [t'|] eqn:E.
    + assert (t' = t) as -> by (apply HA in E; [congruence|done]).
      apply (fs_gone _ _ _ _ _ B q t Hq E Hn). unfold tracked. by rewrite (fs_total _ _ _ _ _ A).
    + intros Hu. apply (fs_gone _ _ _ _ _ A q t Hq Ht E Htr). apply (fs_used _ _ _ _ _ B); [|done].
      by apply (wf_frame _ _ _ _ _ W q t Hq Ht).
  - intros a x Ha Hu Hn Hx. rewrite (fs_bytes _ _ _ _ _ B a x Ha Hu), (fs_bytes _ _ _ _ _ A a x Ha); try done.
    + apply (fs_used _ _ _ _ _ B); [apply Ha|done].
    + intros q Hq E. apply (Hn q Hq). auto.
  - intros b Hb Hn Hx. rewrite (fs_pf _ _ _ _ _ B b Hb), (fs_pf _ _ _ _ _ A b Hb); try done.
    intros q Hq E. apply (Hn q Hq). auto.
Qed.

(** Clearing the entry of a page. *)
Lemma clear_leaf f m va t : physmem_inv f → pt_wf off D (physmem_used f) m r → D (pml4_index va) →
  table_at off m r (pt_path va) = Some t →
  let m' := set_entry m (u64 (t + off)) (pt_index va) 0 in
  (∀ X, free_step X f m f m') ∧ (∀ q, path_ok D q → table_at off m' r q = table_at off m r q) ∧
  ∀ va', D (pml4_index va') → pte_at off m' r va' = if decide (page_of va' = page_of va) then None else pte_at off m r va'.
Proof.
  intros I W Hd Ht m'. pose proof (pt_path_ok D va Hd) as Hp. destruct (wf_frame _ _ _ _ _ W _ _ Hp Ht) as [Hft _].
  assert (Hta : ∀ q, path_ok D q → table_at off m' r q = table_at off m r q).
  { intros q Hq. apply (table_at_leaf off D (physmem_used f) m m' r (pt_path va) t (pt_index va)); try done.
    apply (set_entry_changes off Hoff D); [done|apply idx_range]. }
  assert (S : pt_step off D f m f m' r) by (apply (set_leaf_step off Hoff D m f r va t 0); done).
  split; [|split; [done|]].
  - intros X. split.
    + done.
    + done.
    + apply S.
    + intros q u Hq. by rewrite Hta.
    + done.
    + done.
    + intros q u Hq Hu Hn. rewrite Hta in Hn by done. congruence.
    + intros a x Ha Hu Hn. by apply (proj1 (ps_kept _ _ _ _ _ _ _ S) a x).
    + done.
  - intros va' Hd'. rewrite (pte_at_set off Hoff D (physmem_used f) m r va t 0) by (done || lia). done.
Qed.

(** A table without present entries. *)
Lemma table_empty_next m t j : table_empty m (u64 (t + off)) = true → 0 ≤ j < 512 → next off m t j = None.
Proof.
  intros He Hj. unfold table_empty in He. rewrite forallb_forall in He. unfold next.
  specialize (He j). rewrite negb_true_iff in He. rewrite He; [done|]. apply list_elem_of_In, elem_of_seqZ. lia.
Qed.

(** Clearing the entry of a table: the paths through it are gone, the others stay. *)
Lemma clear_entry (U : Z → Prop) m p i T : pt_wf off D U m r → path_ok D (p ++ [i]) → table_at off m r p = Some T →
  let m' := set_entry m (u64 (T + off)) i 0 in
  (∀ q, path_ok D q → (p ++ [i]) `prefix_of` q → table_at off m' r q = None) ∧
  ∀ q, path_ok D q → ¬ (p ++ [i]) `prefix_of` q → table_at off m' r q = table_at off m r q.
Proof.
  intros W Hpi HT m'. destruct (path_ok_snoc D p i Hpi) as (Hp & Hi & Hl). destruct (wf_frame _ _ _ _ _ W p T Hp HT) as [HfT _].
  assert (Ho : ∀ q, path_ok D q → ¬ (p ++ [i]) `prefix_of` q → table_at off m' r q = table_at off m r q).
  { intros q Hq Hn. apply (table_at_other off D U m m' r p T i q); try done. by apply (set_entry_changes off Hoff D). }
  split; [|done]. intros q Hq [z ->]. apply table_at_none. rewrite table_at_snoc, Ho, HT; [|done|].
  - cbn [mbind option_bind]. unfold next. subst m'. by rewrite get_set_entry_eq.
  - intros Hx%prefix_length. rewrite length_app in Hx. cbn in Hx. lia.
Qed.

(** What lies below an empty table. *)
Lemma below_empty m p i t q : table_at off m r (p ++ [i]) = Some t → table_empty m (u64 (t + off)) = true →
  path_ok D q → (p ++ [i]) `prefix_of` q → q = p ++ [i] ∨ table_at off m r q = None.
Proof.
  intros Ht He Hq [[|j z] ->]; [left; by rewrite app_nil_r|right].
  assert (E : (p ++ [i]) ++ j :: z = ((p ++ [i]) ++ [j]) ++ z) by (rewrite <-(app_assoc (p ++ [i])); done). rewrite E in *.
  apply table_at_none. rewrite table_at_snoc, Ht. cbn [mbind option_bind]. apply table_empty_next; [done|].
  destruct Hq as (_ & Hq & _). apply Forall_app in Hq as [Hq _]. apply Forall_app in Hq as [_ Hq]. by rewrite Forall_singleton in Hq.
Qed.

(** The tables below the root that have no present entry are among [B]. *)
Definition no_empty (B : Z → Prop) (m : ram) : Prop :=
  ∀ q t, path_ok D q → q ≠ [] → table_at off m r q = Some t → ¬ B t → table_empty m (u64 (t + off)) = false.

Lemma table_empty_same (U : Z → Prop) m m' T i t : changes_only off U m m' T i → frame_ok t → U t → t ≠ T →
  table_empty m' (u64 (t + off)) = table_empty m (u64 (t + off)).
Proof.
  intros Hch Hf Hu Hne. unfold table_empty.
  assert (Hr : Forall (λ j, 0 ≤ j < 512) (seqZ 0 512)) by (apply Forall_forall; intros j Hj%elem_of_seqZ; lia).
  induction Hr as [|j l Hj _ IH]; [done|]. cbn [forallb]. by rewrite IH, (Hch t j) by (done || congruence).
Qed.

(** A table may become empty when one of its entries is cleared. *)
Lemma clear_no_empty (U : Z → Prop) m p i T t : pt_wf off D U m r → path_ok D (p ++ [i]) → table_at off m r p = Some T →
  table_at off m r (p ++ [i]) = Some t → no_empty (λ b, b = t) m → no_empty (λ b, b = T) (set_entry m (u64 (T + off)) i 0).
Proof.
  intros W Hpi HT Ht Hn q u Hq Hq0 Hu HuT. destruct (path_ok_snoc D p i Hpi) as (Hp & Hi & _).
  destruct (clear_entry U m p i T W Hpi HT) as [Hgone Hstay].
  destruct (decide ((p ++ [i]) `prefix_of` q)) as [Hx|Hx]; [rewrite Hgone in Hu; done|]. rewrite Hstay in Hu by done.
  destruct (wf_frame _ _ _ _ _ W q u Hq Hu) as [Hf Huu]. destruct (wf_frame _ _ _ _ _ W p T Hp HT) as [HfT _].
  rewrite (table_empty_same U m _ T i u); try done; [|by apply (set_entry_changes off Hoff D)].
  apply (Hn q u); try done. intros ->. apply Hx. by rewrite (wf_inj _ _ _ _ _ W q (p ++ [i]) t).
Qed.

Lemma leaf_no_empty (U : Z → Prop) m va t : pt_wf off D U m r → D (pml4_index va) → table_at off m r (pt_path va) = Some t →
  no_empty (λ _, False) m → no_empty (λ b, b = t) (set_entry m (u64 (t + off)) (pt_index va) 0).
Proof.
  intros W Hd Ht Hn q u Hq Hq0 Hu Hut. pose proof (pt_path_ok D va Hd) as Hp. destruct (wf_frame _ _ _ _ _ W _ _ Hp Ht) as [Hft _].
  pose proof (set_entry_changes off Hoff D U m t (pt_index va) 0 Hft (idx_range _ _)) as Hch.
  rewrite (table_at_leaf off D U m _ r (pt_path va) t (pt_index va)) in Hu by done.
  destruct (wf_frame _ _ _ _ _ W q u Hq Hu) as [Hf Huu].
  rewrite (table_empty_same U m _ t (pt_index va) u) by done. apply (Hn q u); tauto.
Qed.

Lemma no_empty_all B m : no_empty (λ b, b = B) m → table_empty m (u64 (B + off)) = false → no_empty (λ _, False) m.
Proof. intros Hn He q t Hq Hq0 Ht _. destruct (decide (t = B)) as [->|]; [done|by apply (Hn q)]. Qed.

(** An empty table is taken out and freed. *)
Lemma drop_step X f m p i T t : physmem_inv f → pt_wf off D (physmem_used f) m r → path_ok D (p ++ [i]) →
  table_at off m r p = Some T → table_at off m r (p ++ [i]) = Some t → table_empty m (u64 (t + off)) = true →
  returns (drop_table m f (u64 (T + off)) i) (λ '(m', f'), m' = set_entry m (u64 (T + off)) i 0 ∧ free_step X f m f' m' ∧
    (∀ q, path_ok D q → (length q ≤ length p)%nat → table_at off m' r q = table_at off m r q) ∧
    ∀ va, D (pml4_index va) → pte_at off m' r va = pte_at off m r va).
Proof.
  intros I W Hpi HT Ht He. destruct (path_ok_snoc D p i Hpi) as (Hp & Hi & Hl).
  destruct (wf_frame _ _ _ _ _ W p T Hp HT) as [HfT _]. destruct (wf_frame _ _ _ _ _ W _ t Hpi Ht) as [Hft Hut].
  destruct (clear_entry _ m p i T W Hpi HT) as [Hgone Hstay]. unfold drop_table. set (m' := set_entry m (u64 (T + off)) i 0) in *.
  assert (Et : Z.land (get_entry m (u64 (T + off)) i) PTE_ADDR_MASK = t).
  { rewrite table_at_snoc, HT in Ht. cbn [mbind option_bind] in Ht. unfold next in Ht. destruct (has _ _); congruence. }
  rewrite Et. apply returns_bind. eapply returns_mono; [by apply free_one|]. intros f' (I' & Tt & U & F). cbn [returns].
  assert (Htab : ∀ q u, path_ok D q → table_at off m' r q = Some u → table_at off m r q = Some u ∧ ¬ (p ++ [i]) `prefix_of` q).
  { intros q u Hq Hu. destruct (decide ((p ++ [i]) `prefix_of` q)) as [Hx|Hx]; [rewrite Hgone in Hu; done|].
    rewrite Hstay in Hu by done. done. }
  split; [done|]. split; [split|split].
  - done.
  - done.
  - split.
    + intros q u Hq Hu. destruct (Htab q u Hq Hu) as [Hu' Hx]. destruct (wf_frame _ _ _ _ _ W q u Hq Hu') as [Hfu Huu]. split; [done|].
      apply U; [apply Hfu|]. split; [done|]. intros [-> _]. apply Hx. by rewrite (wf_inj _ _ _ _ _ W q (p ++ [i]) t).
    + intros q1 q2 u Hq1 Hq2 [E1 _]%Htab [E2 _]%Htab; try done. by apply (wf_inj _ _ _ _ _ W q1 q2 u).
  - intros q u Hq Hu. by apply Htab.
  - intros b Hb Hu. by apply U.
  - intros b Hb Hu Hn. right. exists (p ++ [i]). split_and!; [done| |by apply Hgone].
    destruct (decide (b = t)) as [->|Hne]; [done|]. exfalso. apply Hn, U; [done|]. split; [done|]. by intros [? _].
  - intros q u Hq Hu Hn Htr. assert (Hx : (p ++ [i]) `prefix_of` q).
    { destruct (decide ((p ++ [i]) `prefix_of` q)) as [|Hx]; [done|]. rewrite Hstay in Hn by done. congruence. }
    destruct (below_empty m p i t q Ht He Hq Hx) as [-> | ?]; [|congruence]. assert (u = t) as -> by congruence.
    intros Hu'. apply U in Hu' as [_ Hu']; [|apply Hft]. by apply Hu'.
  - intros a x Ha Hu Hn Hx. apply (set_entry_kept off Hoff D (physmem_used f) m r p T i 0 Hp HT HfT Hi) with a; try done.
    apply U in Hu; [|apply Ha]. apply Hu.
  - intros b Hb Hn _. apply F. intros E. apply (Hn _ Hpi). rewrite Ht. f_equal. destruct Hft. unfold PAGE_SIZE in *. dlia.
  - intros q Hq Hlen. apply Hstay; [done|]. intros Hx%prefix_length. rewrite length_app in Hx. cbn in Hx. lia.
  - intros va Hd. pose proof (pt_path_ok D va Hd) as Hva. unfold pte_at.
    destruct (decide ((p ++ [i]) `prefix_of` (pt_path va))) as [Hx|Hx].
    + rewrite Hgone by done. destruct (below_empty m p i t _ Ht He Hva Hx) as [E | ->]; [|done]. rewrite E, Ht.
      cbn [mbind option_bind]. pose proof (table_empty_next m t (pt_index va) He (idx_range _ _)) as Hnx. unfold next in Hnx.
      by destruct (has _ _).
    + rewrite Hstay by done. destruct (table_at off m r (pt_path va)) as [u|] eqn:E; [|done]. cbn [mbind option_bind].
      destruct (wf_frame _ _ _ _ _ W _ u Hva E) as [Hfu Huu].
      pose proof (set_entry_changes off Hoff D (physmem_used f) m T i 0 HfT Hi u (pt_index va) Hfu Huu (idx_range _ _)) as Hch.
      fold m' in Hch. rewrite Hch; [done|].
      intros [= -> _]. assert (Eq : p = pt_path va) by by apply (wf_inj _ _ _ _ _ W p (pt_path va) T).
      rewrite Eq in Hl. cbn in Hl. lia.
Qed.

(** ** One page *)

Definition no_table_of (m : ram) (a : Z) : Prop := ∀ q, path_ok D q → table_at off m r q ≠ Some a.

Lemma free_step_weaken (X Y : Z → Prop) f m f' m' : (∀ b, X b → Y b) → free_step X f m f' m' → free_step Y f m f' m'.
Proof.
  intros HXY []. split; try done.
  - intros b Hb Hu Hn. destruct (fs_freed0 b Hb Hu Hn) as [?|?]; [left; auto|by right].
  - intros b Hb Hn HY. apply fs_pf0; auto.
Qed.

Lemma no_table_step X f m f' m' a : free_step X f m f' m' → no_table_of m a → no_table_of m' a.
Proof. intros S Hn q Hq E. apply (Hn q Hq). by apply (fs_tables _ _ _ _ _ S). Qed.

(** The release of a data frame. *)
Lemma release_step f m a : physmem_inv f → pt_wf off D (physmem_used f) m r → frame_ok a → no_table_of m a →
  returns (release_frame f a) (λ f', free_step (λ b, b = a) f m f' m ∧ released f f' a).
Proof.
  intros I W Ha Hn. eapply returns_mono; [by apply release_frame_spec|].
  intros f' (I' & T & R & U1 & U2 & F). split; [|done].
  assert (Hne : ∀ q t, path_ok D q → table_at off m r q = Some t → t ≠ a) by (intros q t Hq E ->; by apply (Hn q)).
  split; try done.
  - split; [|apply W]. intros q t Hq E. destruct (wf_frame _ _ _ _ _ W q t Hq E) as [Hf Hu]. split; [done|].
    apply U2; [apply Hf| |done]. by apply (Hne q).
  - intros b Hb Hu Hn'. left. destruct (decide (b = a)) as [|Hba]; [done|]. exfalso. apply Hn'. by apply U2.
  - intros q t Hq E E'. congruence.
  - intros b Hb Hnb Hba. apply F. destruct Ha. unfold PAGE_SIZE in *. dlia.
Qed.

(** A later step that does not free the frame keeps the outcome of its release. *)
Lemma released_later X f f1 m1 f2 m2 a : released f f1 a → free_step X f1 m1 f2 m2 → frame_ok a → no_table_of m1 a →
  ¬ X a → released f f2 a.
Proof.
  intros R S Ha Hn HX Ht x Hx H0. specialize (R Ht x Hx H0). destruct (rc x <=? 1).
  - intros Hu. apply R. apply (fs_used _ _ _ _ _ S); [apply Ha|done].
  - destruct R as [Hpf Hu]. split; [rewrite (fs_pf _ _ _ _ _ S a); try done; apply Ha|].
    intros H1. specialize (Hu H1). destruct (used_or_not f2 a) as [|H2]; [done|].
    destruct (fs_freed _ _ _ _ _ S a) as [?|(q & Hq & E & _)]; try done; [apply Ha|]. by destruct (Hn q Hq).
Qed.

(** What one iteration does: the page is gone, every other page is as before. *)
Record page_freed (va : Z) (mmio : bool) (f : physmem) (m : ram) (m' : ram) (f' : physmem) : Prop := {
  pf_step : free_step (λ b, mmio = false ∧ frame_of <$> pte_at off m r va = Some b) f m f' m';
  pf_pte va' : D (pml4_index va') → pte_at off m' r va' = if decide (page_of va' = page_of va) then None else pte_at off m r va';
  pf_data e : mmio = false → pte_at off m r va = Some e → released f f' (frame_of e);
}.

Lemma page_absent va mmio f m : physmem_inv f → pt_wf off D (physmem_used f) m r → pte_at off m r va = None →
  page_freed va mmio f m m f.
Proof.
  intros I W E. split; [by apply free_step_refl| |intros e _ E'; congruence].
  intros va' Hd. case_decide as Ep; [|done]. apply page_of_eq in Ep as [E1 E2]. unfold pte_at in *. by rewrite E1, E2.
Qed.

(** Dropping a table after the page. *)
Lemma drop_freed va (mmio : bool) f m m1 f1 p i T t : pt_wf off D (physmem_used f) m r →
  (∀ e, mmio = false → pte_at off m r va = Some e → frame_ok (frame_of e) ∧ no_table_of m (frame_of e)) →
  page_freed va mmio f m m1 f1 → path_ok D (p ++ [i]) →
  table_at off m1 r p = Some T → table_at off m1 r (p ++ [i]) = Some t → table_empty m1 (u64 (t + off)) = true →
  returns (drop_table m1 f1 (u64 (T + off)) i) (λ '(m', f'), page_freed va mmio f m m' f' ∧ m' = set_entry m1 (u64 (T + off)) i 0 ∧
    ∀ q, path_ok D q → (length q ≤ length p)%nat → table_at off m' r q = table_at off m1 r q).
Proof.
  intros W Hdata [S V Rl] Hpi HT Ht He.
  eapply returns_mono; [apply (drop_step (λ _, False) f1 m1 p i T t); try done; apply S|].
  intros [m' f'] (Em & S' & Hq & V'). split; [|done]. split.
  - eapply free_step_trans; [done|exact S|]. eapply free_step_weaken; [|exact S']. done.
  - intros va' Hd. by rewrite V', V.
  - intros e Hm E. destruct (Hdata e Hm E) as [Hf Hn]. eapply released_later; [by apply Rl|exact S'|done| |tauto].
    by eapply no_table_step.
Qed.

Lemma free_page_spec f m va mmio : physmem_inv f → pt_wf off D (physmem_used f) m r → D (pml4_index va) →
  (∀ e, mmio = false → pte_at off m r va = Some e → frame_ok (frame_of e) ∧ no_table_of m (frame_of e)) →
  returns (free_page off m f r va mmio) (λ '(m', f'), page_freed va mmio f m m' f' ∧
    (no_empty (λ _, False) m → no_empty (λ _, False) m')).
Proof.
  intros I W Hd Hdata. pose proof (pt_path_ok D va Hd) as Hp3.
  pose proof (path_ok_snoc D [_; _] _ Hp3) as (Hp2 & _). pose proof (path_ok_snoc D [_] _ Hp2) as (Hp1 & _).
  unfold free_page. rewrite walk_next.
  destruct (next off m r (pml4_index va)) as [t1|] eqn:E1; cbn [fmap option_fmap option_map].
  2:{ split; [|done]. apply page_absent; try done. unfold pte_at, table_at, pt_path. cbn. by rewrite E1. }
  rewrite walk_next. destruct (next off m t1 (pdp_index va)) as [t2|] eqn:E2; cbn [fmap option_fmap option_map].
  2:{ split; [|done]. apply page_absent; try done. unfold pte_at, table_at, pt_path. cbn. rewrite E1. cbn. by rewrite E2. }
  rewrite walk_next. destruct (next off m t2 (pd_index va)) as [t3|] eqn:E3; cbn [fmap option_fmap option_map].
  2:{ split; [|done]. apply page_absent; try done. unfold pte_at, table_at, pt_path. cbn. rewrite E1. cbn. rewrite E2. cbn. by rewrite E3. }
  assert (T1 : table_at off m r [pml4_index va] = Some t1) by done.
  assert (T2 : table_at off m r [pml4_index va; pdp_index va] = Some t2) by (unfold table_at; cbn; rewrite E1; cbn; done).
  assert (T3 : table_at off m r (pt_path va) = Some t3) by (unfold table_at, pt_path; cbn; rewrite E1; cbn; rewrite E2; done).
  set (e := get_entry m (u64 (t3 + off)) (pt_index va)).
  assert (Ep : pte_at off m r va = if has e PTE_PRESENT then Some e else None) by (unfold pte_at; by rewrite T3).
  destruct (has e PTE_PRESENT); cbn [negb]; [|by split; [apply page_absent|]].
  specialize (Hdata e). rewrite Ep in Hdata. change (Z.land e PTE_ADDR_MASK) with (frame_of e).
  apply returns_bind. eapply (returns_mono _ (λ f1, free_step (λ b, mmio = false ∧ frame_of <$> pte_at off m r va = Some b) f m f1 m ∧
    (mmio = false → released f f1 (frame_of e)))).
  { rewrite Ep. destruct mmio; [by split; [apply free_step_refl|]|]. destruct (Hdata eq_refl eq_refl) as [Ha Hn].
    eapply returns_mono; [by apply release_step|]. intros f1 [S R]. split; [|done].
    eapply free_step_weaken; [|exact S]. intros b ->. done. }
  intros f1 [S0 R0]. destruct (clear_leaf f1 m va t3 (fs_inv _ _ _ _ _ S0) (fs_wf _ _ _ _ _ S0) Hd T3) as (S1 & Q1 & V1).
  set (m1 := set_entry m (u64 (t3 + off)) (pt_index va) 0) in *.
  assert (G1 : page_freed va mmio f m m1 f1).
  { split; [by eapply free_step_trans; [| |apply S1]|done|]. rewrite Ep. intros ? Hm [= <-]. auto. }
  pose proof (leaf_no_empty _ m va t3 W Hd T3) as N1. fold m1 in N1.
  destruct (table_empty m1 (u64 (t3 + off))) eqn:Em1; cbn [negb]; [|split; [exact G1|]; intros Hn; apply (no_empty_all t3); auto].
  assert (Hdata' : ∀ e', mmio = false → pte_at off m r va = Some e' → frame_ok (frame_of e') ∧ no_table_of m (frame_of e')).
  { rewrite Ep. intros ? Hm [= <-]. auto. }
  apply returns_bind. eapply returns_mono.
  { apply (drop_freed va mmio f m m1 f1 [pml4_index va; pdp_index va] (pd_index va) t2 t3); try done; by rewrite Q1. }
  intros [m2 f2] (G2 & E2' & Q2). cbn [length] in Q2.
  assert (N2 : no_empty (λ _, False) m → no_empty (λ b, b = t2) m2).
  { intros Hn. rewrite E2'. apply (clear_no_empty (physmem_used f1) m1 [pml4_index va; pdp_index va] (pd_index va) t2 t3); try done; [apply G1| | |auto]; by rewrite Q1. }
  destruct (table_empty m2 (u64 (t2 + off))) eqn:Em2; cbn [negb]; [|split; [exact G2|]; intros Hn; apply (no_empty_all t2); auto].
  apply returns_bind. eapply returns_mono.
  { apply (drop_freed va mmio f m m2 f2 [pml4_index va] (pdp_index va) t1 t2); try done.
    - rewrite Q2, Q1 by (done || cbn; lia). done.
    - cbn [app]. rewrite Q2, Q1 by (done || cbn; lia). done. }
  intros [m3 f3] (G3 & E3' & Q3). cbn [length] in Q3.
  assert (N3 : no_empty (λ _, False) m → no_empty (λ b, b = t1) m3).
  { intros Hn. rewrite E3'. apply (clear_no_empty (physmem_used f2) m2 [pml4_index va] (pdp_index va) t1 t2); try done; [apply G2| | |auto].
    - rewrite Q2, Q1 by (done || cbn; lia). done.
    - cbn [app]. rewrite Q2, Q1 by (done || cbn; lia). done. }
  destruct (table_empty m3 (u64 (t1 + off))) eqn:Em3; cbn [negb]; [|split; [exact G3|]; intros Hn; apply (no_empty_all t1); auto].
  eapply returns_mono.
  { apply (drop_freed va mmio f m m3 f3 [] (pml4_index va) r t1); try done. cbn [app].
    rewrite Q3, Q2, Q1 by (done || cbn; lia). done. }
  intros [m4 f4] (G4 & E4' & _). split; [exact G4|]. intros Hn q t Hq Hq0 Ht _.
  apply (clear_no_empty (physmem_used f3) m3 [] (pml4_index va) r t1 ltac:(apply G3) Hp1 eq_refl) in N3 as N4; [|cbn [app]|done].
  2:{ rewrite Q3, Q2, Q1 by (done || cbn; lia). done. }
  rewrite <-E4' in N4. apply (N4 q t); try done. intros ->. apply Hq0. symmetry.
  apply (wf_inj _ _ _ _ _ (fs_wf _ _ _ _ _ (pf_step _ _ _ _ _ _ G4)) [] q r); try done. apply path_ok_nil.
Qed.

(** An earlier step that does not touch the frame. *)
Lemma released_earlier X f0 m0 f m f' a : free_step X f0 m0 f m → frame_ok a → no_table_of m0 a → ¬ X a →
  released f f' a → released f0 f' a.
Proof.
  intros S Ha Hn HX R Ht x Hx H0. assert (Ha' : a mod 4096 = 0) by apply Ha.
  assert (Hx' : frame_pf f (a / PAGE_SIZE) = Some x) by by rewrite (fs_pf _ _ _ _ _ S a).
  assert (Ht' : tracked f a) by (unfold tracked; by rewrite (fs_total _ _ _ _ _ S)).
  specialize (R Ht' x Hx' H0). destruct (rc x <=? 1); [done|]. destruct R as [Hpf Hu]. split; [done|]. intros H1. apply Hu.
  destruct (used_or_not f a) as [|H2]; [done|].
  destruct (fs_freed _ _ _ _ _ S a) as [?|(q & Hq & E & _)]; try done. by destruct (Hn q Hq).
Qed.

(** ** The pages of a region *)

Section region.
Context (v n : Z) (mmio : bool) (m0 : ram) (f0 : physmem).

(** Frame [b] is shown by one of the first [i] pages and is not that of a device. *)
Definition shown (i b : Z) : Prop :=
  mmio = false ∧ ∃ j, 0 ≤ j < i ∧ frame_of <$> pte_at off m0 r (nth_page v j) = Some b.

(** The frames of the region are data, each shown by one page. *)
Record data_ok : Prop := {
  do_range : range_ok D v n;
  do_frames j e : 0 ≤ j < n → mmio = false → pte_at off m0 r (nth_page v j) = Some e →
    frame_ok (frame_of e) ∧ no_table_of m0 (frame_of e);
  do_distinct j k e e' : 0 ≤ j < k → k < n → mmio = false → pte_at off m0 r (nth_page v j) = Some e →
    pte_at off m0 r (nth_page v k) = Some e' → frame_of e ≠ frame_of e';
}.

(** After [i] pages: they are unmapped, their frames released, and no table is left
    without entries if there was none. *)
Record pages_freed (i : Z) (m : ram) (f : physmem) : Prop := {
  gf_step : free_step (shown i) f0 m0 f m;
  gf_pte va : D (pml4_index va) → pte_at off m r va = if decide (in_range v i va) then None else pte_at off m0 r va;
  gf_data j e : 0 ≤ j < i → mmio = false → pte_at off m0 r (nth_page v j) = Some e → released f0 f (frame_of e);
  gf_empty : no_empty (λ _, False) m0 → no_empty (λ _, False) m;
}.

Lemma pages_start : physmem_inv f0 → pt_wf off D (physmem_used f0) m0 r → pages_freed 0 m0 f0.
Proof.
  intros I W. split; [by apply free_step_refl| |intros; lia|done].
  intros va _. rewrite decide_False; [done|]. unfold in_range. lia.
Qed.

Lemma shown_here i e : data_ok → 0 ≤ i < n → mmio = false → pte_at off m0 r (nth_page v i) = Some e → ¬ shown i (frame_of e).
Proof.
  intros R Hi Hm E (_ & j & Hj & Ej). destruct (pte_at off m0 r (nth_page v j)) as [e'|] eqn:E'; [|done]. injection Ej as Ej.
  exact (do_distinct R j i e' e Hj ltac:(lia) Hm E' E Ej).
Qed.

Lemma pages_next i m f : pt_wf off D (physmem_used f0) m0 r → data_ok → 0 ≤ i < n → pages_freed i m f →
  returns (free_page off m f r (u64 (nth_page v i)) mmio) (λ '(m', f'), pages_freed (i + 1) m' f').
Proof.
  intros W R Hi [S V Dt Em]. destruct (nth_page_of D v n (do_range R) i Hi) as [Ep ->].
  pose proof (rg_slots _ _ _ (do_range R) i Hi) as Hd.
  assert (Ev : pte_at off m r (nth_page v i) = pte_at off m0 r (nth_page v i)).
  { rewrite V, decide_False; [done| |done]. unfold in_range. lia. }
  assert (Hdata : ∀ e, mmio = false → pte_at off m0 r (nth_page v i) = Some e → frame_ok (frame_of e) ∧ no_table_of m (frame_of e)).
  { intros e Hm E. destruct (do_frames R i e Hi Hm E) as [Hf Hn]. split; [done|]. by eapply no_table_step. }
  eapply returns_mono.
  { apply (free_page_spec f m (nth_page v i) mmio); [apply S|apply S|done|]. by rewrite Ev. }
  intros [m' f'] [[S' V' Dt'] Em']. rewrite Ev in S', Dt'. split; [| | |auto].
  - eapply free_step_trans; [done|eapply free_step_weaken; [|exact S]|eapply free_step_weaken; [|exact S']].
    + intros b (Hm & j & Hj & E). split; [done|]. exists j. split; [lia|done].
    + intros b (Hm & E). split; [done|]. exists i. split; [lia|done].
  - intros va Hv. rewrite V', Ep by done. case_decide as Hc.
    + rewrite decide_True; [done|]. unfold in_range. lia.
    + rewrite V by done. assert (in_range v (i + 1) va ↔ in_range v i va) as Hiff by (unfold in_range; lia).
      by rewrite (decide_ext _ _ _ _ Hiff).
  - intros j e Hj Hm E. destruct (decide (j = i)) as [->|Hne].
    + destruct (do_frames R i e Hi Hm E). apply (released_earlier (shown i) f0 m0 f m f'); try done; [by apply (shown_here i e R)|auto].
    + destruct (do_frames R j e ltac:(lia) Hm E) as [Hf Hn]. eapply released_later; [apply (Dt j e); try done; lia|exact S'|done| |].
      * by eapply no_table_step.
      * intros [_ E']. destruct (pte_at off m0 r (nth_page v i)) as [e'|] eqn:Ei; [|done]. injection E' as E'.
        by apply (do_distinct R j i e e' ltac:(lia) ltac:(lia) Hm E Ei).
Qed.

(** The page loop of [vmm_space_free]. *)
Lemma free_pages_spec : physmem_inv f0 → pt_wf off D (physmem_used f0) m0 r → data_ok →
  returns (for_range 0 n (λ i '(m, f), free_page off m f r (u64 (v + i * 4096)) mmio) (m0, f0))
    (λ '(m, f), pages_freed n m f).
Proof.
  intros I W R. destruct (rg_base _ _ _ (do_range R)) as (_ & _ & Hn & _).
  apply (for_range_inv (λ i '(m, f), pages_freed i m f)); [done| |].
  - by apply pages_start.
  - intros i [m f] Hi P. fold (nth_page v i). exact (pages_next i m f W R Hi P).
Qed.
End region.
End tables.

(** ** The region *)

(** Unlinking a node. *)
Lemma unlink_spec (ns : nodes) hd l cur d rest : dlist ns 0 hd (l ++ (cur, d) :: rest) → NoDup (l ++ (cur, d) :: rest).*1 →
  ∃ ns' hd', unlink_region ns hd cur = Ret (ns', hd') ∧ dlist (delete cur ns') 0 hd' (l ++ rest) ∧ dom ns' = dom ns.
Proof.
  intros Hl Hnd. apply dlist_mid in Hl as (c & Hc0 & Hc & _ & Hs & Hr). apply NoDup_mid in Hnd as (Hcl & Hcr & Hndl & Hndr & Hd).
  pose proof (dlist_head _ _ _ _ Hr) as Hhd. unfold unlink_region, node. rewrite Hc. cbn [deref]. rewrite bind_Ret.
  change (nd_next c) with (r_next c) in *. change (nd_prev c) with (r_prev c) in *.
  destruct l as [|[y dy] l _] using rev_ind.
  - destruct Hs as [E1 E2]. rewrite E1. cbn [Z.eqb]. rewrite bind_Ret.
    destruct (relink_prev_spec ns cur (r_next c) rest 0 Hr Hndr) as (ns' & -> & Hr' & Hdm & _). rewrite bind_Ret.
    exists ns', (r_next c). split_and!; [done| |done]. eapply dlist_frame; [|exact Hr']. intros a Ha. apply lookup_delete_ne. by intros ->.
  - pose proof (dseg_last _ _ _ _ _ _ _ _ Hs) as Ey. pose proof (dseg_nonzero _ _ _ _ _ _ Hs) as Hz. rewrite Ey in *.
    rewrite fmap_app in Hz, Hcl, Hndl. setoid_rewrite fmap_app in Hd. apply not_elem_of_app in Hz as [Hzl Hz]. apply not_elem_of_app in Hcl as [Hcl Hcy].
    apply dseg_app in Hs as (la & nx & Hl & E1). cbn [dseg] in E1. destruct E1 as (-> & Hy0 & ny & Hny & <- & Hpy & _ & Ecur).
    assert (Hyr : y ∉ rest.*1) by (apply Hd, elem_of_app; right; by left).
    assert (Hyc : y ≠ cur) by (intros ->; apply Hcy; by left).
    assert (Hyl : y ∉ l.*1). { apply NoDup_app in Hndl as (_ & Hx & _). intros Hi. apply (Hx y Hi). by left. }
    destruct (Z.eqb_spec y 0); [done|]. rewrite Hny. cbn [deref]. rewrite !bind_Ret.
    set (ns1 := <[y := set_next ny (r_next c)]> ns).
    assert (Hr1 : dlist ns1 cur (r_next c) rest).
    { eapply dlist_frame; [|exact Hr]. intros a Ha. apply lookup_insert_ne. congruence. }
    destruct (relink_prev_spec ns1 cur (r_next c) rest y Hr1 Hndr) as (ns' & -> & Hr' & Hdm & Ho). rewrite bind_Ret.
    assert (Hk : ∀ a, a ≠ cur → a ∉ rest.*1 → a ≠ 0 → delete cur ns' !! a = ns1 !! a).
    { intros a Ha Har Ha0. rewrite lookup_delete_ne by congruence. apply Ho. intros ->. by destruct Hhd. }
    exists ns', hd. split_and!; [done| |].
    2:{ rewrite Hdm. unfold ns1. apply dom_insert_lookup_L. by eexists. }
    rewrite <-app_assoc. cbn [app]. replace (nd_data ny) with (nd_data (set_next ny (r_next c))) by (by destruct ny).
    apply dlist_mid. exists (set_next ny (r_next c)). rewrite Hk by done. split_and!; [done| |done| |].
    + unfold ns1. apply lookup_insert_eq.
    + change (nd_prev (set_next ny (r_next c))) with (nd_prev ny). rewrite Hpy. eapply dseg_frame; [|exact Hl].
      intros a Ha. rewrite Hk; [apply lookup_insert_ne| | |]; try congruence.
      apply Hd, elem_of_app. by left.
    + change (nd_next (set_next ny (r_next c))) with (r_next c). eapply dlist_frame; [|exact Hr'].
      intros a Ha. apply lookup_delete_ne. congruence.
Qed.

Section free.
Context {H : Type} `{HeapAlloc H} (D : Z → Prop).
Implicit Types (s : mm H).

(** A space whose tables are not those of [r] and hold no frame that is freed. *)
Lemma free_elsewhere off (Hoff : 0 ≤ off ∧ off + 2 ^ 47 ≤ 2 ^ 64) r r2 X f m f' m' : free_step D off r X f m f' m' →
  pt_wf off D (physmem_used f) m r2 → pt_disjoint off D m r r2 → (∀ q t, path_ok D q → table_at off m r2 q = Some t → ¬ X t) →
  (pt_wf off D (physmem_used f') m' r2 ∧ ∀ va, D (pml4_index va) → pte_at off m' r2 va = pte_at off m r2 va) ∧
  ∀ q, path_ok D q → table_at off m' r2 q = table_at off m r2 q.
Proof.
  intros S W Hdj HX.
  assert (Hu : ∀ q t, path_ok D q → table_at off m r2 q = Some t → physmem_used f' t).
  { intros q t Hq Ht. destruct (wf_frame _ _ _ _ _ W q t Hq Ht) as [[_ Hf] Hut]. destruct (used_or_not f' t) as [|Hn]; [done|].
    destruct (fs_freed _ _ _ _ _ _ _ _ S t Hf Hut Hn) as [Hx|(p & Hp & E & _)]; [by destruct (HX q t)|by destruct (Hdj p q t)]. }
  assert (A : agree off D m m' r2).
  { intros q t i Hq Ht Hi. destruct (wf_frame _ _ _ _ _ W q t Hq Ht) as [Hf _]. rewrite table_va by done. unfold get_entry, ld64.
    apply ld_le_ext. intros b Hb. apply (fs_bytes _ _ _ _ _ _ _ _ S t); [done|by apply (Hu q)| |lia].
    intros p Hp E. by apply (Hdj p q t). }
  split; [|intros q Hq; by apply (agree_tables off D m m')]. split; [|intros va Hd; by apply (agree_pte off D)].
  pose proof (agree_wf off D _ m m' r2 A W) as W'. split; [|apply W'].
  intros q t Hq Ht. split; [by apply (wf_frame _ _ _ _ _ W' q t)|]. apply (Hu q); [done|].
  by rewrite (agree_tables off D m m') in Ht.
Qed.

Lemma space_free_call s space sp l cur d rest :
  let rs := l ++ (cur, d) :: rest in let v := d_base d in let n := d_size d / 4096 in
  let off := mm_hhdm s in let r := pml4_phys sp in let mmio := has (d_flags d) VMM_REGION_MMIO in
  0 ≤ off ∧ off + 2 ^ 47 ≤ 2 ^ 64 → space_ok D s space sp rs → v ≠ 0 → is_used d = true →
  (∀ x, x ∈ rs → used_at v x → x = (cur, d)) → data_ok D off r v n mmio (mm_ram s) →
  returns (vmm_space_free s space v) (λ s',
    (∃ hd, space_ok D s' space (Space r hd (u64 (sp_region_count sp - 1)) (u64 (sp_used_virtual sp - d_size d))) (l ++ rest)) ∧
    pages_freed D off r v mmio (mm_ram s) (mm_frames s) n (mm_ram s') (mm_frames s') ∧
    (mm_hhdm s' = off ∧ dom (mm_nodes s') ⊆ dom (mm_nodes s) ∧
      ∀ q, q ∉ dom (mm_nodes s) → ka_size (mm_heap s') q = ka_size (mm_heap s) q) ∧
    (∀ a, a ≠ space → mm_spaces s' !! a = mm_spaces s !! a) ∧
    ∀ r2, pt_wf off D (physmem_used (mm_frames s)) (mm_ram s) r2 → pt_disjoint off D (mm_ram s) r r2 →
      (∀ q t, path_ok D q → table_at off (mm_ram s) r2 q = Some t → ¬ shown off r v mmio (mm_ram s) n t) →
      pt_wf off D (physmem_used (mm_frames s')) (mm_ram s') r2 ∧
      ∀ va, D (pml4_index va) → pte_at off (mm_ram s') r2 va = pte_at off (mm_ram s) r2 va).
Proof.
  intros rs v n off r mmio Ho [[Hsp0 Hsp] Hl Hnd Hs Hh Hn Hf Hw] Hv Hu Huniq R.
  unfold vmm_space_free. destruct (Z.eqb_spec space 0), (Z.eqb_spec v 0); try done. cbn [orb].
  unfold get_space. rewrite Hsp. cbn [deref]. rewrite bind_Ret.
  pose proof (vmm_find_used_spec (mm_nodes s) v (S (size (mm_nodes s))) 0 (regions sp) rs Hl) as Hfind.
  specialize (Hfind ltac:(pose proof (dlist_length _ _ _ _ Hnd Hl); lia)).
  apply returns_iff in Hfind as (c & -> & Hc). rewrite bind_Ret.
  assert (c = cur) as ->.
  { destruct Hc as [[_ Hno]|(l' & d' & r' & E & _ & Hat)].
    - exfalso. apply Forall_app in Hno as [_ Hno]. apply Forall_cons in Hno as [Hno _]. by apply Hno.
    - specialize (Huniq (c, d')). assert (Hin : (c, d') ∈ rs) by (rewrite E; apply elem_of_app; right; by left). by injection (Huniq Hin Hat). }
  pose proof Hl as Hl0. apply dlist_mid in Hl0 as (x & Hc0 & Hx & Hd & _). destruct (Z.eqb_spec cur 0); [done|].
  unfold node. rewrite Hx. cbn [deref]. rewrite bind_Ret.
  assert (Ed : r_size x = d_size d ∧ r_flags x = d_flags d) by (by subst d). destruct Ed as [-> ->]. fold n mmio off.
  apply returns_bind. eapply returns_mono; [by apply (free_pages_spec D off Ho r v n mmio (mm_ram s) (mm_frames s))|].
  intros [m f] P. pose proof (gf_step _ _ _ _ _ _ _ _ _ _ P) as S.
  destruct (unlink_spec (mm_nodes s) (regions sp) l cur d rest Hl Hnd) as (ns & hd & E & Hl' & Hdm).
  cbn [with_mem mm_nodes]. rewrite E, bind_Ret. unfold mm_region_free, region_free. cbn [with_space with_nodes with_mem mm_nodes mm_heap].
  destruct (Z.eqb_spec cur 0); [done|].
  destruct (Hn cur) as [k Hk]; [apply elem_of_dom; by eexists|].
  apply returns_bind, returns_bind. eapply returns_mono; [by apply (ka_free_spec (mm_heap s) cur k)|].
  intros h' (Hi' & _ & Hq). cbn. split; [|split; [exact P|split; [split; [done|split]|split]]].
  - exists hd. unfold rs in *. rewrite fmap_app, fmap_cons in Hnd. split; try done.
    + split; [done|]. cbn. apply lookup_insert_eq.
    + rewrite fmap_app. apply NoDup_app in Hnd as (? & Hx' & Hnd). apply NoDup_cons in Hnd as [_ ?].
      apply NoDup_app. split_and!; try done. intros a Ha Hr. apply (Hx' a Ha). by right.
    + clear -Hs. induction l as [|y l IH]; cbn [app] in *; [by apply StronglySorted_inv in Hs as [? _]|].
      apply StronglySorted_inv in Hs as [Hs Hy]. constructor; [by apply IH|]. apply Forall_app in Hy as [? Hy].
      apply Forall_cons in Hy as [_ ?]. by apply Forall_app.
    + intros a Ha. cbn in *. rewrite dom_delete_L, Hdm in Ha. apply elem_of_difference in Ha as [Ha Hne].
      rewrite elem_of_singleton in Hne. rewrite Hq by done. by apply Hn.
    + apply S.
    + apply S.
  - cbn. rewrite dom_delete_L, Hdm. intros a Ha. by apply elem_of_difference in Ha as [? _].
  - cbn. intros q Hnq. apply Hq. intros ->. apply Hnq, elem_of_dom. by eexists.
  - intros a Ha. by apply lookup_insert_ne.
  - intros r2 W2 Hdj HX. by destruct (free_elsewhere off Ho r r2 _ _ _ _ _ S W2 Hdj HX).
Qed.

(** C10. [vmm_space_free] takes back exactly one region.  Where a region in use starts at
    the given address, alone, and its frames are data, each shown by one page of it, the
    call returns; the region is out of the list; its pages, and no other, are unmapped;
    the frame of each page has one reference less, and is free if that was the last
    one, but the frames of a device are left alone; the tables that are left have
    entries, if all had, and the others are freed, and nothing else is; no byte changes
    of a frame that stays in use and was no table; every other space is as it was. *)
Theorem vmm_space_free_spec s space sp l cur d rest :
  let rs := l ++ (cur, d) :: rest in let v := d_base d in let n := d_size d / 4096 in
  let off := mm_hhdm s in let r := pml4_phys sp in let mmio := has (d_flags d) VMM_REGION_MMIO in
  0 ≤ off ∧ off + 2 ^ 47 ≤ 2 ^ 64 → space_ok D s space sp rs → v ≠ 0 → is_used d = true →
  (∀ x, x ∈ rs → used_at v x → x = (cur, d)) → data_ok D off r v n mmio (mm_ram s) →
  returns (vmm_space_free s space v) (λ s',
    (∃ hd, space_ok D s' space (Space r hd (u64 (sp_region_count sp - 1)) (u64 (sp_used_virtual sp - d_size d))) (l ++ rest)) ∧
    pages_freed D off r v mmio (mm_ram s) (mm_frames s) n (mm_ram s') (mm_frames s') ∧
    (∀ a, a ≠ space → mm_spaces s' !! a = mm_spaces s !! a) ∧
    ∀ r2, pt_wf off D (physmem_used (mm_frames s)) (mm_ram s) r2 → pt_disjoint off D (mm_ram s) r r2 →
      (∀ q t, path_ok D q → table_at off (mm_ram s) r2 q = Some t → ¬ shown off r v mmio (mm_ram s) n t) →
      pt_wf off D (physmem_used (mm_frames s')) (mm_ram s') r2 ∧
      ∀ va, D (pml4_index va) → pte_at off (mm_ram s') r2 va = pte_at off (mm_ram s) r2 va).
Proof.
  intros rs v n off r mmio Ho Hok Hv Hu Huniq R. eapply returns_mono; [by apply (space_free_call s space sp l cur d rest)|].
  intros s' (? & ? & _ & ?). auto.
Qed.
End free.

(** ** A region of two pages, of which the first shows frame 3, is freed *)

Definition free_node : Z := HEAP_START + HDR.
Definition free_state : mm kheap :=
  MM clone_mem.1 clone_mem.2 heap1 {[free_node := clone_region]} {[0x600 := Space 0x1000 free_node 1 0x2000]} paging0 0x700 0x600.
Definition free_data : rdata := nd_data clone_region.

Lemma free_state_ok : space_ok user_slot free_state 0x600 (Space 0x1000 free_node 1 0x2000) [(free_node, free_data)].
Proof.
  pose proof clone_state_ok as R. split.
  - split; [discriminate|reflexivity].
  - apply dlist_cons. split_and!; [reflexivity|discriminate|]. exists clone_region. split_and!; [reflexivity..|].
    by apply dlist_nil.
  - apply NoDup_singleton.
  - repeat constructor.
  - eexists. apply heap1_inv.
  - intros a Ha. assert (a = free_node) as ->.
    { apply elem_of_dom in Ha as [x Hx]. cbn [free_state mm_nodes] in Hx. by apply lookup_singleton_Some in Hx as [<- _]. }
    eexists. vm_compute. reflexivity.
  - apply (ro_inv _ _ _ _ _ _ _ R).
  - apply (ro_wf1 _ _ _ _ _ _ _ R).
Qed.

Lemma free_state_data : data_ok user_slot Paging.hhdm 0x1000 0x400000 2 false clone_mem.1.
Proof.
  pose proof clone_state_ok as R. destruct clone_mem_step as [_ V]. split.
  - split; [vdone|]. intros j Hj. assert (j = 0 ∨ j = 1) as [-> | ->] by lia; vdone.
  - intros j e Hj _ He. destruct (ro_data _ _ _ _ _ _ _ R j e Hj He) as (Hf & _ & _ & Hn). split; [exact Hf|].
    intros q Hq. by apply Hn.
  - intros j k e e' Hj Hk _ _ He. assert (k = 1) as -> by lia. rewrite V in He by vdone.
    rewrite decide_False in He by vdone. discriminate He.
Qed.

Lemma vmm_space_free_witness : returns (vmm_space_free free_state 0x600 0x400000) (λ s',
  ¬ physmem_used (mm_frames s') 0x3000 ∧ pte_at Paging.hhdm (mm_ram s') 0x1000 0x400000 = None ∧
  ∃ hd, space_ok user_slot s' 0x600 (Space 0x1000 hd 0 0) []).
Proof.
  pose proof (vmm_space_free_spec user_slot free_state 0x600 _ [] free_node free_data [] ltac:(vdone) free_state_ok
    ltac:(discriminate) eq_refl) as Hs.
  specialize (Hs ltac:(intros x Hx%list_elem_of_singleton _; exact Hx) free_state_data).
  assert (Hpf : frame_pf clone_mem.2 3 = Some (Pageframe 1 1)) by (vm_compute; reflexivity).
  assert (Ht : tracked clone_mem.2 0x3000) by (vm_compute; split; [discriminate|reflexivity]).
  assert (He : pte_at Paging.hhdm clone_mem.1 0x1000 0x400000 = Some 0x3007).
  { etransitivity; [apply clone_mem_step; vdone|vdone]. }
  eapply returns_mono; [exact Hs|]. clear Hs. intros s' (Hok & P & _). split_and!.
  - exact (gf_data _ _ _ _ _ _ _ _ _ _ P 0 0x3007 ltac:(vdone) eq_refl He Ht _ Hpf ltac:(vdone)).
  - etransitivity; [apply (gf_pte _ _ _ _ _ _ _ _ _ _ P); vdone|vdone].
  - exact Hok.
Defined.
