(* ===== verification/SpaceCycle.v ===== *)
(** Allocation and release together: freeing a range that was allocated leaves every
    frame, every translation and the region list as they were. *)
From Stdlib Require Import Sorted.
From S2P Require Import Prelude Interfaces Ram PhysMem DList Kheap Paging Vmm Space Clone SpaceAlloc SpaceFree.
Import MemLib.

(** ** Tables that lead to a page *)

Section populated.
Context (D : Z → Prop) (off : Z) (r : Z).

(** Below every table there is a present page. *)
Definition populated (m : ram) : Prop := ∀ q t, path_ok D q → q ≠ [] → table_at off m r q = Some t →
  ∃ va, D (pml4_index va) ∧ q `prefix_of` pt_path va ∧ pte_at off m r va ≠ None.

Lemma forallb_false {A} (f : A → bool) l : forallb f l = false → ∃ x, x ∈ l ∧ f x = false.
Proof.
  induction l as [|x l IH]; [done|]. cbn. destruct (f x) eqn:E; cbn.
  - intros (y & Hy & ?)%IH. exists y. split; [by right|done].
  - intros _. exists x. split; [by left|done].
Qed.

Lemma entry_present m t : table_empty m (u64 (t + off)) = false →
  ∃ j, 0 ≤ j < 512 ∧ has (get_entry m (u64 (t + off)) j) PTE_PRESENT = true.
Proof. intros (j & Hj%elem_of_seqZ & Hp%negb_false_iff)%forallb_false. exists j. split; [lia|done]. Qed.

Lemma path_ok_extend q j : path_ok D q → q ≠ [] → (length q < 3)%nat → 0 ≤ j < 512 → path_ok D (q ++ [j]).
Proof.
  intros (Hl & Hf & Hd) Hq Hlt Hj. split; [rewrite length_app; cbn; lia|]. split.
  - apply Forall_app. split; [done|]. by apply Forall_singleton.
  - intros i Hi. apply Hd. by destruct q.
Qed.

(** An address from its indices. *)
Lemma path_va a b c j : 0 ≤ a < 512 → 0 ≤ b < 512 → 0 ≤ c < 512 → 0 ≤ j < 512 →
  ∃ va, pt_path va = [a; b; c] ∧ pt_index va = j.
Proof.
  intros Ha Hb Hc Hj. exists ((((a * 512 + b) * 512 + c) * 512 + j) * 4096).
  unfold pt_path, pml4_index, pdp_index, pd_index, pt_index. rewrite !index_div by lia.
  change (2 ^ 39) with (4096 * 512 * 512 * 512). change (2 ^ 30) with (4096 * 512 * 512). change (2 ^ 21) with (4096 * 512).
  change (2 ^ 12) with 4096. split; [f_equal; [|f_equal; [|f_equal]]|]; dlia.
Qed.

Lemma no_empty_populated m : no_empty D off r (λ _, False) m → populated m.
Proof.
  intros Hn q. remember (3 - length q)%nat as k eqn:Ek. revert q Ek.
  induction k as [|k IH]; intros q Ek t Hq Hq0 Ht; destruct (entry_present m t (Hn q t Hq Hq0 Ht ltac:(tauto))) as (j & Hj & Hp).
  - assert (Hl : length q = 3%nat) by (destruct Hq; lia). destruct q as [|a [|b [|c [|? ?]]]]; try done.
    destruct Hq as (_ & Hf & Hd). apply Forall_cons in Hf as [Ha Hf]. apply Forall_cons in Hf as [Hb Hf]. apply Forall_cons in Hf as [Hc _].
    destruct (path_va a b c j Ha Hb Hc Hj) as (va & Ev & Ej). exists va. unfold pte_at. rewrite Ev, Ht, Ej. cbn [mbind option_bind].
    rewrite Hp. split; [|done]. apply Hd. unfold pt_path in Ev. by injection Ev as -> _ _.
  - assert (Hl : (length q < 3)%nat) by (destruct Hq; lia). pose proof (path_ok_extend q j Hq Hq0 Hl Hj) as Hqj.
    destruct (IH (q ++ [j]) ltac:(rewrite length_app; cbn; lia) (Z.land (get_entry m (u64 (t + off)) j) PTE_ADDR_MASK) Hqj) as (va & ? & Hpre & ?).
    + by destruct q.
    + rewrite table_at_snoc, Ht. cbn [mbind option_bind]. unfold next. by rewrite Hp.
    + exists va. split_and!; [done| |done]. by eapply prefix_app_l.
Qed.

Lemma populated_no_empty m : populated m → no_empty D off r (λ _, False) m.
Proof.
  intros Hpop q t Hq Hq0 Ht _. destruct (Hpop q t Hq Hq0 Ht) as (va & Hd & [z E] & Hpte).
  destruct (table_empty m (u64 (t + off))) eqn:He; [|done]. exfalso. apply Hpte. unfold pte_at. rewrite E.
  destruct z as [|j z].
  - rewrite app_nil_r, Ht. cbn [mbind option_bind]. pose proof (table_empty_next off m t (pt_index va) He (idx_range _ _)) as Hnx.
    unfold next in Hnx. by destruct (has _ _).
  - change (j :: z) with ([j] ++ z). rewrite (assoc_L (++)), table_at_none; [done|].
    rewrite table_at_snoc, Ht. cbn [mbind option_bind]. apply table_empty_next; [done|].
    pose proof (pt_path_ok D va Hd) as (_ & Hf & _). rewrite E in Hf. apply Forall_app in Hf as [_ Hf]. by apply Forall_cons in Hf as [? _].
Qed.

(** A table above a present page. *)
Lemma table_above m q va : q `prefix_of` pt_path va → pte_at off m r va ≠ None → is_Some (table_at off m r q).
Proof.
  intros [z E] Hp. destruct (table_at off m r q) as [t|] eqn:Et; [by eexists|]. exfalso. apply Hp. unfold pte_at.
  by rewrite E, table_at_none.
Qed.
End populated.

(** ** The cycle *)

Section cycle.
Context (D : Z → Prop) (off : Z) (Hoff : 0 ≤ off ∧ off + 2 ^ 47 ≤ 2 ^ 64) (r v n fl : Z).
Context (m0 : ram) (f0 : physmem) (ps : list Z) (m1 : ram) (f1 : physmem).
Hypothesis R : range_ok D v n.
Hypothesis Hfl : 0 ≤ fl < 2 ^ 64 ∧ has fl PTE_PRESENT = true ∧ Z.land fl PTE_ADDR_MASK = 0.
Hypothesis Hlen : Z.of_nat (length ps) = n.
Hypothesis F : filled D off r v fl m0 f0 ps m1 f1.
(** Before, no page of the range was mapped and no table was empty. *)
Hypothesis W0 : pt_wf off D (physmem_used f0) m0 r.
Hypothesis Hfree : ∀ va, D (pml4_index va) → in_range v n va → pte_at off m0 r va = None.
Hypothesis Hpop0 : populated D off r m0.

Lemma filled_page j : 0 ≤ j < n → ∃ p, ps !! Z.to_nat j = Some p ∧ pte_at off m1 r (nth_page v j) = Some (leaf_entry p fl).
Proof.
  intros Hj. destruct (lookup_lt_is_Some_2 ps (Z.to_nat j)) as [p Hp]; [lia|]. exists p. split; [done|].
  rewrite <-(filled_nth D off r v n fl m0 f0 ps m1 f1 (Z.to_nat j) p R) by (done || lia). by rewrite Z2Nat.id by lia.
Qed.

Lemma leaf_frame p : frame_ok p → frame_of (leaf_entry p fl) = p.
Proof. intros Hp. unfold frame_of. rewrite leaf_entry_addr by apply Hfl. by apply mask_frame. Qed.

(** The frames are data of the range. *)
Lemma filled_data : data_ok D off r v n false m1.
Proof.
  pose proof (fi_frames _ _ _ _ _ _ _ _ _ _ F) as Hps. rewrite Forall_forall in Hps.
  assert (Hin : ∀ j e, 0 ≤ j < n → pte_at off m1 r (nth_page v j) = Some e → ∃ p, ps !! Z.to_nat j = Some p ∧ frame_of e = p ∧ p ∈ ps).
  { intros j e Hj He. destruct (filled_page j Hj) as (p & Hp & E). assert (e = leaf_entry p fl) as -> by congruence.
    pose proof (list_elem_of_lookup_2 _ _ _ Hp) as Hip. exists p. split_and!; try done. by apply leaf_frame, Hps. }
  split; [done| |].
  - intros j e Hj _ He. destruct (Hin j e Hj He) as (p & _ & -> & Hip). destruct (Hps p Hip) as (? & _ & _ & ?). done.
  - intros j k e e' Hj Hk _ He He'. destruct (Hin j e ltac:(lia) He) as (p & Hp & -> & _). destruct (Hin k e' ltac:(lia) He') as (p' & Hp' & -> & _).
    intros <-. pose proof (NoDup_lookup _ _ _ _ (fi_nodup _ _ _ _ _ _ _ _ _ _ F) Hp Hp'). lia.
Qed.

Lemma filled_populated : populated D off r m1.
Proof.
  intros q t Hq Hq0 Ht. destruct (fi_paths _ _ _ _ _ _ _ _ _ _ F q t Hq Ht) as [Ht0|(j & Hj & Hpre)].
  - destruct (Hpop0 q t Hq Hq0 Ht0) as (va & Hd & Hpre & Hp). exists va. split_and!; try done.
    rewrite (fi_pte _ _ _ _ _ _ _ _ _ _ F) by done. rewrite Hlen. case_decide as Hr; [|done]. by rewrite Hfree in Hp.
  - exists (nth_page v j). split_and!; [apply (rg_slots _ _ _ R); lia|done|]. destruct (filled_page j ltac:(lia)) as (p & _ & ->). done.
Qed.

(** After the release of the range. *)
Context (m2 : ram) (f2 : physmem).
Hypothesis P : pages_freed D off r v false m1 f1 n m2 f2.

Lemma cycle_pte va : D (pml4_index va) → pte_at off m2 r va = pte_at off m0 r va.
Proof.
  intros Hd. rewrite (gf_pte _ _ _ _ _ _ _ _ _ _ P) by done. case_decide as Hr; [by rewrite Hfree|].
  by rewrite (fi_pte _ _ _ _ _ _ _ _ _ _ F), Hlen, decide_False.
Qed.

Lemma cycle_tables q t : path_ok D q → table_at off m2 r q = Some t ↔ table_at off m0 r q = Some t.
Proof.
  intros Hq. destruct (decide (q = [])) as [->|Hq0]; [done|].
  pose proof (gf_step _ _ _ _ _ _ _ _ _ _ P) as S. pose proof (fi_step _ _ _ _ _ _ _ _ _ _ F) as S1.
  assert (Hpop2 : populated D off r m2).
  { apply no_empty_populated, (gf_empty _ _ _ _ _ _ _ _ _ _ P). by apply populated_no_empty, filled_populated. }
  split; intros Ht.
  - destruct (Hpop2 q t Hq Hq0 Ht) as (va & Hd & Hpre & Hp). rewrite cycle_pte in Hp by done.
    destruct (table_above off r m0 q va Hpre Hp) as [t0 Ht0]. apply (fs_tables _ _ _ _ _ _ _ _ S) in Ht; [|done].
    apply (ps_keep _ _ _ _ _ _ _ S1) in Ht0 as Ht1; [|done]. congruence.
  - destruct (Hpop0 q t Hq Hq0 Ht) as (va & Hd & Hpre & Hp). rewrite <-cycle_pte in Hp by done.
    destruct (table_above off r m2 q va Hpre Hp) as [t2 Ht2]. apply (fs_tables _ _ _ _ _ _ _ _ S) in Ht2 as Ht1; [|done].
    apply (ps_keep _ _ _ _ _ _ _ S1) in Ht; [|done]. congruence.
Qed.

Lemma cycle_used b : b mod 4096 = 0 → physmem_used f2 b ↔ physmem_used f0 b.
Proof.
  intros Hb. pose proof (gf_step _ _ _ _ _ _ _ _ _ _ P) as S. pose proof (fi_step _ _ _ _ _ _ _ _ _ _ F) as S1.
  pose proof (fi_frames _ _ _ _ _ _ _ _ _ _ F) as Hps. rewrite Forall_forall in Hps.
  pose proof (fi_records _ _ _ _ _ _ _ _ _ _ F) as Hrec. rewrite Forall_forall in Hrec. split; intros Hu.
  - destruct (fi_taken _ _ _ _ _ _ _ _ _ _ F b Hb (fs_used _ _ _ _ _ _ _ _ S b Hb Hu)) as [?|[Hp|(q & Hq & Ht)]]; [done| |].
    + exfalso. destruct (Hrec b Hp) as [Htr Hpf]. pose proof Hp as [j Hj]%list_elem_of_lookup_1.
      pose proof (lookup_lt_Some _ _ _ Hj). pose proof (filled_nth D off r v n fl m0 f0 ps m1 f1 j b R ltac:(lia) F Hj) as He.
      pose proof (gf_data _ _ _ _ _ _ _ _ _ _ P (Z.of_nat j) _ ltac:(lia) eq_refl He) as Rl.
      rewrite leaf_frame in Rl by by apply Hps. specialize (Rl Htr _ Hpf ltac:(cbn; lia)). by apply Rl.
    + destruct (table_at off m2 r q) as [t|] eqn:Et.
      * apply (fs_tables _ _ _ _ _ _ _ _ S) in Et as Et1; [|done]. assert (t = b) as -> by congruence.
        apply cycle_tables in Et; [|done]. by apply (wf_frame _ _ _ _ _ W0 q b).
      * destruct (decide (tracked f1 b)) as [Htr|Htr]; [by destruct (fs_gone _ _ _ _ _ _ _ _ S q b Hq Ht Et Htr)|].
        left. unfold tracked in Htr. by rewrite (fi_total _ _ _ _ _ _ _ _ _ _ F) in Htr.
  - destruct (used_or_not f2 b) as [|Hn]; [done|]. exfalso. assert (Hu1 : physmem_used f1 b) by by apply (ps_used _ _ _ _ _ _ _ S1).
    destruct (fs_freed _ _ _ _ _ _ _ _ S b Hb Hu1 Hn) as [(_ & j & Hj & Hx)|(q & Hq & Ht & Hgone)].
    + destruct (filled_page j Hj) as (p & Hp & E). rewrite E in Hx. cbn in Hx. pose proof (list_elem_of_lookup_2 _ _ _ Hp) as Hip.
      destruct (Hps p Hip) as (Hf & Hnu & _). rewrite leaf_frame in Hx by done. injection Hx as ->. done.
    + destruct (ps_new _ _ _ _ _ _ _ S1 q b Hq Ht) as [Ht0|]; [|done]. apply cycle_tables in Ht0; [|done]. congruence.
Qed.
End cycle.

Section calls.
Context {H : Type} `{HeapAlloc H} (D : Z → Prop).
Implicit Types (s : mm H).

Lemma pte_flags_addr flags : 0 ≤ flags_to_pte flags < 2 ^ 64 ∧ has (flags_to_pte flags) PTE_PRESENT = true ∧
  Z.land (flags_to_pte flags) PTE_ADDR_MASK = 0.
Proof.
  unfold flags_to_pte.
  destruct (has _ VMM_REGION_WRITE), (has _ VMM_REGION_USER), (has _ VMM_REGION_EXEC); vdone.
Qed.

Lemma u64_back x k : 0 ≤ x < 2 ^ 64 → u64 (u64 (x + k) - k) = x.
Proof. intros Hx. unfold u64. rewrite Zminus_mod_idemp_l, Z.add_simpl_r. by apply Z.mod_small. Qed.

(** Only the new region starts at the address. *)
Lemma new_unique (l rest : list (Z * rdata)) v x y : Forall (λ z, ¬ used_at v z) (l ++ rest) → y ∈ l ++ x :: rest → used_at v y → y = x.
Proof.
  rewrite Forall_forall. intros Hn Hy Hu. apply elem_of_app in Hy as [Hy|[->|Hy]%elem_of_cons]; [|done|];
    destruct (Hn y); try done; apply elem_of_app; auto.
Qed.

(** C12. Allocating a range and freeing it leaves no trace.  In a space without empty
    tables, for a range where nothing is mapped and no region starts: when
    [vmm_space_alloc] succeeds, [vmm_space_free] of its result returns; the regions of
    the space and its counters are as before the allocation, every address shows what
    it showed before, and exactly the frames are in use that were: those of the pages
    and those of new tables alike are free again. *)
Theorem alloc_free_roundtrip s space sp rs vaddr n flags :
  let v := vaddr - vaddr mod 4096 in let off := mm_hhdm s in let r := pml4_phys sp in
  0 ≤ off ∧ off + 2 ^ 47 ≤ 2 ^ 64 → space_ok D s space sp rs → 0 ≤ vaddr → v ≠ 0 → 0 < n → range_ok D v n →
  no_empty D off r (λ _, False) (mm_ram s) →
  (∀ va, D (pml4_index va) → in_range v n va → pte_at off (mm_ram s) r va = None) →
  Forall (λ x, ¬ used_at v x) rs → has flags VMM_REGION_MMIO = false →
  0 ≤ sp_region_count sp < 2 ^ 64 → 0 ≤ sp_used_virtual sp < 2 ^ 64 →
  or_panic (vmm_space_alloc s space vaddr n flags) (λ '(ret, s1), ret ≠ 0 →
    returns (vmm_space_free s1 space ret) (λ s2,
      (∃ hd, space_ok D s2 space (Space r hd (sp_region_count sp) (sp_used_virtual sp)) rs) ∧
      (∀ va, D (pml4_index va) → pte_at off (mm_ram s2) r va = pte_at off (mm_ram s) r va) ∧
      ∀ b, b mod 4096 = 0 → physmem_used (mm_frames s2) b ↔ physmem_used (mm_frames s) b)).
Proof.
  intros v off r Ho Hok Hva Hv0 Hn R Hne Hfree Hnone Hmm Hc Hvirt.
  eapply or_panic_mono; [by apply (space_alloc_call D s space sp rs)|].
  intros [ret s1] (_ & Ehh & _ & [(-> & _)|(-> & nd & hd & l & rest & ps & -> & Hok1 & Elen & F)]); [done|intros _].
  fold v off r in Ehh, Hok1, F.
  pose proof (no_empty_populated D off r _ Hne) as Hpop.
  assert (En : n * 4096 / 4096 = n) by (by apply Z.div_mul).
  assert (Em : has (Z.lor VMM_REGION_USED flags) VMM_REGION_MMIO = false) by (by rewrite has_lor, Hmm).
  pose proof (filled_data D off r v n _ _ _ ps _ _ R (pte_flags_addr flags) Elen F) as Hd.
  pose proof (filled_populated D off r v n _ _ _ ps _ _ R Elen F Hfree Hpop) as Hpop1.
  pose proof (space_free_call D s1 space (Space r hd (u64 (sp_region_count sp + 1)) (u64 (sp_used_virtual sp + n * 4096))) l nd (RD v (n * 4096) (Z.lor VMM_REGION_USED flags)) rest) as Hf.
  cbn [d_base d_size d_flags pml4_phys sp_region_count sp_used_virtual] in Hf. rewrite Ehh, En, Em in Hf.
  eapply returns_mono; [apply (Hf Ho Hok1 Hv0)|].
  - unfold is_used. cbn. by rewrite has_lor.
  - intros x Hx Hu. by apply (new_unique l rest v).
  - exact Hd.
  - intros s2 ((hd2 & Hok2) & P & _). split_and!.
    + exists hd2. by rewrite !u64_back in Hok2.
    + intros va Hda. by apply (cycle_pte D off r v n _ _ _ ps _ _ Elen F Hfree _ _ P).
    + intros b Hb. apply (cycle_used D off r v n _ _ _ ps _ _ R (pte_flags_addr flags) Elen F (so_tables _ _ _ _ _ Hok) Hfree Hpop _ _ P b Hb).
Qed.
End calls.

(** Two pages of the empty space, with the three tables they need, come and go. *)
Lemma alloc_free_witness :
  returns ('(ret, s1) ← vmm_space_alloc empty_space 0x600 0x400123 2 VMM_REGION_WRITE; vmm_space_free s1 0x600 ret) (λ s2,
    (∃ hd, space_ok user_slot s2 0x600 (Space 0x1000 hd 0 0) []) ∧
    ∀ b, b mod 4096 = 0 → physmem_used (mm_frames s2) b ↔ physmem_used (mm_frames empty_space) b).
Proof.
  assert (R : range_ok user_slot (0x400123 - 0x400123 mod 4096) 2).
  { split; [vdone|]. intros j Hj. assert (j = 0 ∨ j = 1) as [-> | ->] by lia; vdone. }
  assert (Hne : no_empty user_slot (mm_hhdm empty_space) 0x1000 (λ _, False) (mm_ram empty_space)).
  { intros q t _ Hq [Hq' _]%table_at_empty. contradiction. }
  pose proof (alloc_free_roundtrip user_slot empty_space 0x600 (Space 0x1000 0 0 0) [] 0x400123 2 VMM_REGION_WRITE ltac:(vdone)
    empty_space_ok ltac:(lia) ltac:(vdone) ltac:(lia) R Hne) as Hs.
  specialize (Hs ltac:(intros va _ _; unfold pte_at; destruct (table_at _ _ _ _) as [t|] eqn:E; [apply table_at_empty in E as [E _]; discriminate E|reflexivity])
    ltac:(constructor) eq_refl ltac:(vdone) ltac:(vdone)).
  assert (Hr : match vmm_space_alloc empty_space 0x600 0x400123 2 VMM_REGION_WRITE with Ret (ret, _) => negb (ret =? 0) | _ => false end = true)
    by (vm_compute; reflexivity).
  clear R Hne. revert Hs Hr. cbn [pml4_phys sp_region_count sp_used_virtual]. generalize empty_space. intros s0 Hs Hr.
  destruct (vmm_space_alloc s0 0x600 0x400123 2 VMM_REGION_WRITE) as [[ret s1]| | |]; [|discriminate..].
  destruct (Z.eqb_spec ret 0) as [|Hret]; [discriminate|]. cbn [or_panic] in Hs. specialize (Hs Hret). rewrite bind_Ret.
  eapply returns_mono; [exact Hs|]. intros s2 (Hok & _ & Hu). split; [exact Hok|exact Hu].
Defined.
