(* ===== verification/SpaceDestroy.v ===== *)
(** Destroying an address space: [vmm_space_destroy] ends and gives back everything. *)
From Stdlib Require Import Sorted.
From S2P Require Import Prelude Interfaces Ram PhysMem DList Kheap Paging Vmm Space Clone SpaceAlloc SpaceFree SpaceCycle.
Import MemLib.

(** ** The regions of a space *)

Section regions.
Context (D : Z → Prop) (off : Z) (Hoff : 0 ≤ off ∧ off + 2 ^ 47 ≤ 2 ^ 64) (r : Z).

Definition pages_of (d : rdata) : Z := d_size d / 4096.
Definition is_mmio (d : rdata) : bool := has (d_flags d) VMM_REGION_MMIO.
Definition in_region (d : rdata) (va : Z) : Prop := in_range (d_base d) (pages_of d) va.

(** Frame [b] is shown by a page of one of the regions, and not that of a device. *)
Definition shown_by (rs : list (Z * rdata)) (m : ram) (b : Z) : Prop :=
  ∃ x, x ∈ rs ∧ shown off r (d_base x.2) (is_mmio x.2) m (pages_of x.2) b.

(** No page belongs to two regions. *)
Definition apart (x y : Z * rdata) : Prop :=
  d_base y.2 ≠ d_base x.2 ∧ ∀ va, in_region x.2 va → ¬ in_region y.2 va.

(** A region in use whose frames are data. *)
Record region_data (m : ram) (d : rdata) : Prop := {
  rd_base : d_base d ≠ 0;
  rd_used : is_used d = true;
  rd_data : data_ok D off r (d_base d) (pages_of d) (is_mmio d) m;
}.

(** The regions [rs] were released, one after the other. *)
Record regions_freed (rs : list (Z * rdata)) (m0 : ram) (f0 : physmem) (m : ram) (f : physmem) : Prop := {
  rf_step : free_step D off r (shown_by rs m0) f0 m0 f m;
  rf_in va x : D (pml4_index va) → x ∈ rs → in_region x.2 va → pte_at off m r va = None;
  rf_out va : D (pml4_index va) → (∀ x, x ∈ rs → ¬ in_region x.2 va) → pte_at off m r va = pte_at off m0 r va;
  rf_empty : no_empty D off r (λ _, False) m0 → no_empty D off r (λ _, False) m;
}.

(** The release of one region does not touch the pages of another. *)
Lemma other_pages x y m f m' f' j : apart x y → region_data m y.2 → 0 ≤ j < pages_of y.2 →
  pages_freed D off r (d_base x.2) (is_mmio x.2) m f (pages_of x.2) m' f' →
  pte_at off m' r (nth_page (d_base y.2) j) = pte_at off m r (nth_page (d_base y.2) j).
Proof.
  intros [_ Ha] [_ _ Hd] Hj P. pose proof (do_range _ _ _ _ _ _ _ Hd) as R.
  rewrite (gf_pte _ _ _ _ _ _ _ _ _ _ P) by by apply (rg_slots _ _ _ R). rewrite decide_False; [done|].
  intros Hx. apply (Ha _ Hx). unfold in_region, in_range. rewrite (proj1 (nth_page_of D _ _ R j Hj)). lia.
Qed.

Lemma region_data_step x y m f m' f' : apart x y → region_data m y.2 →
  pages_freed D off r (d_base x.2) (is_mmio x.2) m f (pages_of x.2) m' f' → region_data m' y.2.
Proof.
  intros Ha Hy P. pose proof (fun j Hj => other_pages x y m f m' f' j Ha Hy Hj P) as E. destruct Hy as [Hb Hu Hd]. split; [done|done|].
  pose proof (gf_step _ _ _ _ _ _ _ _ _ _ P) as S. split; [apply Hd| |].
  - intros j e Hj Hm He. rewrite E in He by done. destruct (do_frames _ _ _ _ _ _ _ Hd j e Hj Hm He) as [? ?]. split; [done|].
    by eapply no_table_step.
  - intros j k e e' Hj Hk Hm He He'. rewrite E in He, He' by lia. by apply (do_distinct _ _ _ _ _ _ _ Hd j k).
Qed.

Lemma regions_nil m f : physmem_inv f → pt_wf off D (physmem_used f) m r → regions_freed [] m f m f.
Proof. intros I W. split; [by apply free_step_refl|intros va x _ []%not_elem_of_nil|done|done]. Qed.

Lemma regions_cons x rs m0 f0 m1 f1 m f : pt_wf off D (physmem_used f0) m0 r → Forall (apart x) rs →
  Forall (λ y, region_data m0 y.2) rs → region_data m0 x.2 →
  pages_freed D off r (d_base x.2) (is_mmio x.2) m0 f0 (pages_of x.2) m1 f1 → regions_freed rs m1 f1 m f →
  regions_freed (x :: rs) m0 f0 m f.
Proof.
  intros W Ha Hrs Hx P [S Hin Hout He]. rewrite Forall_forall in Ha, Hrs. pose proof (gf_pte _ _ _ _ _ _ _ _ _ _ P) as V. split.
  - eapply free_step_trans; [done|eapply free_step_weaken; [|apply P]|eapply free_step_weaken; [|exact S]].
    + intros b Hb. exists x. split; [by left|done].
    + intros b (y & Hy & Hm & j & Hj & E). exists y. split; [by right|]. split; [done|]. exists j. split; [done|].
      by rewrite <-(other_pages x y m0 f0 m1 f1) by auto.
  - intros va y Hd [->|Hy]%elem_of_cons Hva; [|by apply (Hin va y)].
    rewrite Hout; [by rewrite V, decide_True|done|]. intros z Hz. by apply (Ha z).
  - intros va Hd Hn. rewrite Hout; [|done|intros z Hz; apply Hn; by right]. rewrite V, decide_False; [done| |done].
    apply (Hn x). by left.
  - intros Hn. by apply He, (gf_empty _ _ _ _ _ _ _ _ _ _ P).
Qed.
End regions.

(** ** The loop *)

Section destroy.
Context {H : Type} `{HeapAlloc H} (D : Z → Prop).
Implicit Types (s : mm H).

(** What stays outside the region lists. *)
Record rest_kept s s' (space : Z) : Prop := {
  rk_hhdm : mm_hhdm s' = mm_hhdm s;
  rk_nodes : dom (mm_nodes s') ⊆ dom (mm_nodes s);
  rk_heap q : q ∉ dom (mm_nodes s) → ka_size (mm_heap s') q = ka_size (mm_heap s) q;
  rk_spaces a : a ≠ space → mm_spaces s' !! a = mm_spaces s !! a;
}.

Lemma destroy_regions_spec space : ∀ rs s sp fuel, let off := mm_hhdm s in let r := pml4_phys sp in
  0 ≤ off ∧ off + 2 ^ 47 ≤ 2 ^ 64 → space_ok D s space sp rs → StronglySorted apart rs →
  Forall (λ x, region_data D off r (mm_ram s) x.2) rs → (length rs < fuel)%nat →
  returns (destroy_regions fuel s space (regions sp)) (λ s',
    (∃ sp', pml4_phys sp' = r ∧ space_ok D s' space sp' []) ∧ rest_kept s s' space ∧
    regions_freed D off r rs (mm_ram s) (mm_frames s) (mm_ram s') (mm_frames s')).
Proof.
  induction rs as [|[cur d] rs IH]; intros s sp [|fuel] off r Ho Hok Hap Hd Hf; cbn [length] in Hf; try lia; cbn [destroy_regions].
  { pose proof (so_list _ _ _ _ _ Hok) as ->%dlist_nil. cbn [Z.eqb]. split; [by exists sp|]. split; [done|].
    apply regions_nil; apply Hok. }
  pose proof (so_list _ _ _ _ _ Hok) as Hl. apply dlist_cons in Hl as (E & Hc0 & c & Hc & Hcd & _). rewrite E.
  destruct (Z.eqb_spec cur 0); [done|]. unfold node. rewrite Hc. cbn [deref]. rewrite bind_Ret.
  assert (Eb : r_base c = d_base d) by by subst d. rewrite Eb.
  apply StronglySorted_inv in Hap as [Hap Ha]. apply Forall_cons in Hd as [Hx Hd].
  apply returns_bind. eapply returns_mono.
  { apply (space_free_call D s space sp [] cur d rs); [done|done|apply Hx|apply Hx| |apply Hx].
    intros y [->|Hy]%elem_of_cons [Hub _]; [done|]. rewrite Forall_forall in Ha. by destruct (Ha y Hy). }
  intros s1 ((hd & Hok1) & P & (Ehh & Hns & Hh) & Hsp & _). cbn [app] in Hok1. fold (pages_of d) in P. fold (is_mmio d) in P. fold off r in P, Hok1.
  unfold get_space. rewrite (proj2 (so_space _ _ _ _ _ Hok1)). cbn [deref]. rewrite bind_Ret.
  set (sp1 := Space _ _ _ _) in *. change (pml4_phys sp1) with r in *.
  eapply returns_mono.
  { apply (IH s1 sp1 fuel); rewrite ?Ehh; try done; [|lia].
    rewrite Forall_forall in Ha, Hd |- *. intros y Hy. apply (region_data_step D off r (cur, d) y (mm_ram s) (mm_frames s) _ (mm_frames s1)); auto. }
  intros s' ((sp' & Er & Hok') & [K1 K2 K3 K4] & Rf). rewrite Ehh in Rf. split; [by exists sp'|]. split.
  - split; [congruence|by transitivity (dom (mm_nodes s1))| |].
    + intros q Hq. rewrite K3, Hh; [done|done|]. intros Hq1. by apply Hq, Hns.
    + intros a Hne. by rewrite K4, Hsp.
  - apply (regions_cons D off r (cur, d) rs _ _ (mm_ram s1) (mm_frames s1)); try done. apply Hok.
Qed.

(** The pages of a space that it lists nothing for. *)
Definition covered (rs : list (Z * rdata)) off r (m : ram) : Prop :=
  ∀ va, D (pml4_index va) → (∀ x, x ∈ rs → ¬ in_region x.2 va) → pte_at off m r va = None.

(** All pages unmapped, no table is left but the root. *)
Lemma freed_tables off r rs m0 f0 m f q t : regions_freed D off r rs m0 f0 m f → covered rs off r m0 →
  no_empty D off r (λ _, False) m0 → path_ok D q → q ≠ [] → table_at off m r q ≠ Some t.
Proof.
  intros [S Hin Hout He] Hcov Hne Hq Hq0 Ht.
  destruct (no_empty_populated D off r m (He Hne) q t Hq Hq0 Ht) as (va & Hd & _ & Hp). apply Hp.
  destruct (decide (Exists (λ x, in_region x.2 va) rs)) as [Hx|Hx].
  - apply Exists_exists in Hx as (x & Hx & Hva). by apply (Hin va x).
  - assert (Hn : ∀ x, x ∈ rs → ¬ in_region x.2 va) by (intros x Hx' Hva; apply Hx, Exists_exists; eauto).
    rewrite Hout by done. by apply Hcov.
Qed.

(** C11. [vmm_space_destroy] ends and gives everything back.  For a space other than the
    kernel's whose regions lie apart, each at a base that is not 0 and with frames of
    data, and which shows nothing outside them: the call returns, the space is gone and
    the others are as before; every table of the space, the root and those below, is
    freed; nothing is freed but its tables and the frames its regions showed; and every
    address space that shares neither tables nor such frames keeps its translations. *)
Theorem vmm_space_destroy_spec s space sp rs :
  let off := mm_hhdm s in let r := pml4_phys sp in let m := mm_ram s in let f := mm_frames s in
  0 ≤ off ∧ off + 2 ^ 47 ≤ 2 ^ 64 → space_ok D s space sp rs → space ≠ kernel_space s →
  is_Some (ka_size (mm_heap s) space) → space ∉ dom (mm_nodes s) →
  StronglySorted apart rs → Forall (λ x, region_data D off r m x.2) rs → covered rs off r m →
  no_empty D off r (λ _, False) m →
  returns (vmm_space_destroy s space) (λ s',
    mm_spaces s' !! space = None ∧ (∀ a, a ≠ space → mm_spaces s' !! a = mm_spaces s !! a) ∧
    (∀ q t, path_ok D q → table_at off m r q = Some t → tracked f t → ¬ physmem_used (mm_frames s') t) ∧
    (∀ b, b mod 4096 = 0 → physmem_used (mm_frames s') b → physmem_used f b) ∧
    (∀ b, b mod 4096 = 0 → physmem_used f b → ¬ physmem_used (mm_frames s') b →
       shown_by off r rs m b ∨ ∃ q, path_ok D q ∧ table_at off m r q = Some b) ∧
    ∀ r2, pt_wf off D (physmem_used f) m r2 → pt_disjoint off D m r r2 →
      (∀ q t, path_ok D q → table_at off m r2 q = Some t → ¬ shown_by off r rs m t) →
      pt_wf off D (physmem_used (mm_frames s')) (mm_ram s') r2 ∧
      ∀ va, D (pml4_index va) → pte_at off (mm_ram s') r2 va = pte_at off m r2 va).
Proof.
  intros off r m f Ho Hok Hk [hs Hhs] Hnn Hap Hd Hcov Hne. pose proof (so_space _ _ _ _ _ Hok) as [Hsp0 Hsp].
  unfold vmm_space_destroy. destruct (Z.eqb_spec space 0), (Z.eqb_spec space (kernel_space s)); try done.
  assert (Eg : get_space s space = Ret sp) by (unfold get_space; by rewrite Hsp). rewrite Eg, bind_Ret.
  apply returns_bind. eapply returns_mono.
  { apply (destroy_regions_spec space rs s sp); try done.
    pose proof (dlist_length _ _ _ _ (so_nodup _ _ _ _ _ Hok) (so_list _ _ _ _ _ Hok)). lia. }
  intros s1 ((sp1 & Er & Hok1) & K & Rf). fold off r in Rf, Er. change (mm_ram s) with m in Rf. change (mm_frames s) with f in Rf.
  pose proof (rf_step _ _ _ _ _ _ _ _ Rf) as S.
  unfold get_space. rewrite (proj2 (so_space _ _ _ _ _ Hok1)). cbn [deref]. rewrite bind_Ret, Er.
  destruct (wf_frame _ _ _ _ _ (so_tables _ _ _ _ _ Hok) [] r (path_ok_nil D) eq_refl) as [Hr _].
  destruct (Z.eqb_spec r 0) as [E0|_]; [destruct Hr; lia|].
  apply returns_bind, returns_bind. eapply returns_mono; [by apply (free_one (mm_frames s1) r); [apply S|]|].
  intros f' (I' & T & U & _). cbn [returns with_mem mm_heap].
  apply returns_bind. eapply returns_mono.
  { apply (ka_free_spec (mm_heap s1) space hs); [apply Hok1|]. by rewrite (rk_heap _ _ _ K). }
  intros h' _. cbn. split_and!.
  - apply lookup_delete_eq.
  - intros a Ha. rewrite lookup_delete_ne by done. by apply (rk_spaces _ _ _ K).
  - intros q t Hq Ht Htr Hu. destruct (wf_frame _ _ _ _ _ (so_tables _ _ _ _ _ Hok) q t Hq Ht) as [[_ Htm] _].
    apply U in Hu as [Hu Hnr]; [|done]. destruct (decide (q = [])) as [->|Hq0].
    + apply Hnr. unfold tracked in *. rewrite (fs_total _ _ _ _ _ _ _ _ S). cbn in Ht. by injection Ht as <-.
    + apply (fs_gone _ _ _ _ _ _ _ _ S q t Hq Ht); [|done|done].
      destruct (table_at off (mm_ram s1) r q) as [u|] eqn:E; [|done]. by apply (freed_tables off r rs m f _ _ q u Rf) in E.
  - intros b Hb Hu. apply (fs_used _ _ _ _ _ _ _ _ S); [done|]. by apply U.
  - intros b Hb Hu Hn. destruct (decide (b = r)) as [->|Hne']; [right; exists []; split; [apply path_ok_nil|done]|].
    destruct (fs_freed _ _ _ _ _ _ _ _ S b Hb Hu) as [?|(q & Hq & E & _)]; [|by left|right; eauto].
    intros Hu1. apply Hn, U; [done|]. split; [done|]. by intros [? _].
  - intros r2 W2 Hdj HX. destruct (free_elsewhere D off Ho r r2 _ f m _ _ S W2 Hdj HX) as [[W2' V2] Q2]. split; [|done].
    split; [|apply W2']. intros q t Hq Ht. destruct (wf_frame _ _ _ _ _ W2' q t Hq Ht) as [Hft Hut]. split; [done|].
    apply U; [apply Hft|]. split; [done|]. intros [-> _].
    rewrite Q2 in Ht by done. by apply (Hdj [] q r (path_ok_nil D) Hq).
Qed.
End destroy.

(** ** The space of the two-page region is destroyed *)

Definition destroy_heap : kheap := match kmalloc heap1 32 with Ret (_, h) => h | _ => heap1 end.
Definition destroyed_space : Z := match kmalloc heap1 32 with Ret (p, _) => p | _ => 0 end.
Definition destroy_state : mm kheap :=
  MM clone_mem.1 clone_mem.2 destroy_heap {[free_node := clone_region]}
    {[destroyed_space := Space 0x1000 free_node 1 0x2000]} paging0 0x700 destroyed_space.

Lemma heap_after_inv (h : kheap) n : ka_inv h → 0 < n < 2 ^ 63 → ka_inv (match kmalloc h n with Ret (_, h) => h | _ => h end).
Proof.
  intros Hi Hn. pose proof (ka_malloc_spec h n Hi Hn) as Hm. cbn [ka_malloc kheap_heap_alloc] in Hm.
  destruct (kmalloc h n) as [[p h']| | |]; [apply Hm|done..].
Qed.

Lemma destroy_heap_inv : ka_inv destroy_heap.
Proof. apply (heap_after_inv heap1 32); [exact (ex_intro _ _ heap1_inv)|lia]. Qed.

Lemma clone_mem_full : no_empty user_slot Paging.hhdm 0x1000 (λ _, False) clone_mem.1.
Proof.
  apply populated_no_empty. intros q t Hq Hq0 Ht. exists 0x400000. split; [vdone|].
  destruct clone_mem_step as [_ V]. split; [|rewrite V, decide_True by vdone; done].
  pose proof (map_page_grown Paging.hhdm ltac:(vdone) user_slot 0x1000 _ ∅ pm16 0x400000 0x3000 7 user_flags pm16_inv
    (pm16_root 0x1000 ltac:(vdone) eq_refl) ltac:(vdone)) as Hg.
  assert (Hr : is_ret (paging_map_page_in paging0 ∅ pm16 0x1000 0x400000 0x3000 7) = true) by (vm_compute; reflexivity).
  pose proof (or_panic_returns _ _ Hg Hr) as Hr'. clear Hg Hr V.
  destruct (proj1 (returns_iff _ _) Hr') as ([m f] & E & G). clear Hr'.
  change (paging_map_page_in paging0 ∅ pm16 0x1000 0x400000 0x3000 7 = Ret (m, f)) in E.
  assert (Em : clone_mem = (m, f)) by (unfold clone_mem; by rewrite E). rewrite Em in Ht.
  destruct (gr_paths _ _ _ _ _ _ _ _ G q t Hq Ht) as [[Hx _]%table_at_empty|Hx]; [contradiction|exact Hx].
Qed.

Lemma destroy_state_ok : space_ok user_slot destroy_state destroyed_space (Space 0x1000 free_node 1 0x2000) [(free_node, free_data)].
Proof.
  pose proof free_state_ok as [_ Hl Hnd Hs _ _ Hf Hw]. split; [|exact Hl|exact Hnd|exact Hs|exact destroy_heap_inv| |exact Hf|exact Hw].
  - split; [vm_compute; discriminate|apply lookup_singleton_eq].
  - intros a Ha. assert (a = free_node) as ->.
    { apply elem_of_dom in Ha as [x Hx]. cbn [destroy_state mm_nodes] in Hx. by apply lookup_singleton_Some in Hx as [<- _]. }
    eexists. vm_compute. reflexivity.
Qed.

Lemma vmm_space_destroy_witness : returns (vmm_space_destroy destroy_state destroyed_space) (λ s',
  mm_spaces s' !! destroyed_space = None ∧ ¬ physmem_used (mm_frames s') 0x1000).
Proof.
  assert (Hk : destroyed_space ≠ kernel_space destroy_state) by (vm_compute; discriminate).
  assert (Hlive : is_Some (ka_size (mm_heap destroy_state) destroyed_space)) by (eexists; vm_compute; reflexivity).
  assert (Hnode : destroyed_space ∉ dom (mm_nodes destroy_state)).
  { intros [x Hx]%elem_of_dom. cbn [destroy_state mm_nodes] in Hx. apply lookup_singleton_Some in Hx as [Hx _]. revert Hx. vm_compute. discriminate. }
  assert (Hap : StronglySorted apart [(free_node, free_data)]) by repeat constructor.
  assert (Hd : Forall (λ x, region_data user_slot (mm_hhdm destroy_state) 0x1000 (mm_ram destroy_state) x.2) [(free_node, free_data)]).
  { apply Forall_singleton. split; [discriminate|reflexivity|exact free_state_data]. }
  assert (Hcov : covered user_slot [(free_node, free_data)] (mm_hhdm destroy_state) 0x1000 (mm_ram destroy_state)).
  { intros va Hva Hn. etransitivity; [exact (proj2 clone_mem_step va Hva)|]. rewrite decide_False; [reflexivity|].
    intros E. apply (Hn (free_node, free_data)); [by left|]. unfold in_region, in_range. cbn [snd].
    rewrite E. vm_compute. split; [discriminate|reflexivity]. }
  pose proof (vmm_space_destroy_spec user_slot destroy_state destroyed_space _ _ ltac:(vdone) destroy_state_ok Hk Hlive Hnode Hap Hd Hcov
    clone_mem_full) as Hs.
  assert (Ht : tracked (mm_frames destroy_state) 0x1000) by (vm_compute; split; [discriminate|reflexivity]).
  eapply returns_mono; [exact Hs|]. intros s' (Hg & _ & Htab & _). split; [exact Hg|].
  exact (Htab [] 0x1000 (path_ok_nil user_slot) eq_refl Ht).
Defined.
