(* ===== verification/Context.v ===== *)
(** Kernel contexts: [arch/x86_64/context_switch.asm], the initial stack frames
    that [thread.c] and [process.c] build for it, and the registers that
    [fork_child_return] loads. *)
From S2P Require Import Prelude Ram.

(** The registers [context_switch] saves and restores, and the address a flow
    of control resumes at. *)
Record ctx := Ctx {
  c_rip : Z;
  c_rflags : Z;
  c_rbp : Z;
  c_rbx : Z;
  c_r12 : Z;
  c_r13 : Z;
  c_r14 : Z;
  c_r15 : Z;
  c_rsp : Z;
}.
#[export] Instance ctx_eq_dec : EqDecision ctx.
Proof. solve_decision. Defined.

(** [push v]: the stack grows down. *)
Definition push (m : ram) (sp v : Z) : ram * Z := (st64 m (u64 (sp - 8)) v, u64 (sp - 8)).
Definition pushes (m : ram) (sp : Z) (vs : list Z) : ram * Z :=
  foldl (λ '(m, sp) v, push m sp v) (m, sp) vs.
(** [pop]: the word at [sp] and the new [sp]. *)
Definition pop (m : ram) (sp : Z) : Z * Z := (ld64 m sp, u64 (sp + 8)).

(** The words of a saved context, in the order they are pushed: the [call]
    pushes the return address, the code the rest. *)
Definition ctx_words (c : ctx) : list Z :=
  [c_rip c; c_rflags c; c_rbp c; c_rbx c; c_r12 c; c_r13 c; c_r14 c; c_r15 c].

(** The pops of [context_switch] from the stack pointer [sp] on, and its [ret]. *)
Definition ctx_load (m : ram) (sp : Z) : ctx :=
  let '(r15, sp) := pop m sp in
  let '(r14, sp) := pop m sp in
  let '(r13, sp) := pop m sp in
  let '(r12, sp) := pop m sp in
  let '(rbx, sp) := pop m sp in
  let '(rbp, sp) := pop m sp in
  let '(rflags, sp) := pop m sp in
  let '(rip, sp) := pop m sp in
  Ctx rip rflags rbp rbx r12 r13 r14 r15 sp.

(** [context_switch(&old, new_rsp)] called in context [c]: the memory with the
    saved registers, the value stored through the first argument, and the
    context that runs next. *)
Definition context_switch (c : ctx) (m : ram) (new_rsp : Z) : ram * Z * ctx :=
  let '(m, old_rsp) := pushes m (c_rsp c) (ctx_words c) in
  (m, old_rsp, ctx_load m new_rsp).

(** ** Initial frames *)

Definition THREAD_STACK_SIZE : Z := 16384.
Definition INITIAL_RFLAGS : Z := 0x2.

(** What [thread_create] and [thread_create_user] push on a fresh stack:
    the trampoline, the flags, [rbp], [rbx], [r12] = entry, [r13] = argument,
    [r14] = user stack, [r15]. *)
Definition initial_frame (m : ram) (stack trampoline entry arg user_stack : Z) : ram * Z :=
  pushes m (u64 (stack + THREAD_STACK_SIZE))
    [trampoline; INITIAL_RFLAGS; 0; 0; entry; arg; user_stack; 0].

(** What [process_fork] pushes for the child; [r15] is the thread. *)
Definition fork_frame (m : ram) (stack fork_child_return ct : Z) : ram * Z :=
  pushes m (u64 (stack + THREAD_STACK_SIZE)) [fork_child_return; 0x202; 0; 0; 0; 0; 0; ct].

(** The registers of a process at a system call ([cpu_state_t]). *)
Record cpu_state := CpuState {
  s_r15 : Z; s_r14 : Z; s_r13 : Z; s_r12 : Z; s_r11 : Z; s_r10 : Z; s_r9 : Z; s_r8 : Z;
  s_rbp : Z; s_rdi : Z; s_rsi : Z; s_rdx : Z; s_rcx : Z; s_rbx : Z; s_rax : Z;
  s_rip : Z; s_rflags : Z; s_rsp : Z;
}.
#[export] Instance cpu_state_eq_dec : EqDecision cpu_state.
Proof. solve_decision. Defined.
Definition zero_state : cpu_state := CpuState 0 0 0 0 0 0 0 0 0 0 0 0 0 0 0 0 0 0.

(** The [fork_user_*] fields that [process_fork] fills. *)
Definition fork_regs (p : cpu_state) : cpu_state :=
  CpuState (s_r15 p) (s_r14 p) (s_r13 p) (s_r12 p) (s_r11 p) (s_r10 p) (s_r9 p) (s_r8 p)
    (s_rbp p) (s_rdi p) (s_rsi p) (s_rdx p) (s_rcx p) (s_rbx p) 0 (s_rip p) (s_rflags p) (s_rsp p).

(** [fork_child_return]: the registers of user code after its [sysret], which
    takes [rip] from [rcx] and [rflags] from [r11]. *)
Definition fork_child_return (f : cpu_state) : cpu_state :=
  let rcx := s_rip f in
  let r11 := s_rflags f in
  CpuState (s_r15 f) (s_r14 f) (s_r13 f) (s_r12 f) r11 (s_r10 f) (s_r9 f) (s_r8 f)
    (s_rbp f) (s_rdi f) (s_rsi f) (s_rdx f) rcx (s_rbx f) (s_rax f) rcx r11 (s_rsp f).

(** What a system call leaves in the registers of its caller: [syscall_entry]
    saved the state [p] and returns through the same [sysret]. *)
Definition syscall_return (p : cpu_state) (rax : Z) : cpu_state :=
  CpuState (s_r15 p) (s_r14 p) (s_r13 p) (s_r12 p) (s_rflags p) (s_r10 p) (s_r9 p) (s_r8 p)
    (s_rbp p) (s_rdi p) (s_rsi p) (s_rdx p) (s_rip p) (s_rbx p) rax (s_rip p) (s_rflags p) (s_rsp p).

(** ** Laws *)

(** Words pushed below [sp] without wrap-around: each lands in its slot. *)
Lemma pushes_spec vs m sp m' sp' :
  8 * Z.of_nat (length vs) ≤ sp < 2 ^ 64 → Forall (λ v, 0 ≤ v < 2 ^ 64) vs →
  pushes m sp vs = (m', sp') →
  sp' = sp - 8 * Z.of_nat (length vs) ∧
  (∀ k v, vs !! k = Some v → ld64 m' (sp - 8 * (Z.of_nat k + 1)) = v) ∧
  (∀ b, ¬ (sp' ≤ b < sp) → ld8 m' b = ld8 m b).
Proof.
  unfold pushes. revert m sp. induction vs as [|v vs IH]; intros m sp Hsp Hv E; cbn [foldl] in E.
  { injection E as -> ->. cbn. split_and!; [lia|done|done]. }
  cbn [length] in *. inversion_clear Hv as [|?? Hv0 Hvs]. unfold push in E at 2.
  rewrite (u64_small (sp - 8)) in E by lia.
  apply IH in E as (-> & Hk & Ho); [|lia|done].
  split_and!; [lia| |].
  - intros [|k] x Hx; cbn in Hx.
    + injection Hx as <-. rewrite <- (ld64_st64_eq m (sp - 8 * (Z.of_nat 0 + 1)) v) by lia.
      unfold ld64 at 1 2. apply ld_le_ext. intros b Hb. rewrite Ho by lia. done.
    + rewrite <- (Hk k x Hx). f_equal. lia.
  - intros b Hb. rewrite Ho by lia. unfold st64. apply ld8_st_le_out. lia.
Qed.

(** Loading reads back what was pushed. *)
Lemma ctx_load_words m sp c :
  0 ≤ sp → sp + 64 < 2 ^ 64 → c_rsp c = sp + 64 →
  (∀ k v, ctx_words c !! k = Some v → ld64 m (sp + 64 - 8 * (Z.of_nat k + 1)) = v) →
  ctx_load m sp = c.
Proof.
  intros H0 H1 Hsp Hw. unfold ctx_load, pop.
  pose proof (Hw 0%nat _ eq_refl) as W0. pose proof (Hw 1%nat _ eq_refl) as W1.
  pose proof (Hw 2%nat _ eq_refl) as W2. pose proof (Hw 3%nat _ eq_refl) as W3.
  pose proof (Hw 4%nat _ eq_refl) as W4. pose proof (Hw 5%nat _ eq_refl) as W5.
  pose proof (Hw 6%nat _ eq_refl) as W6. pose proof (Hw 7%nat _ eq_refl) as W7.
  usimpl. destruct c as [rip fl bp bx r12 r13 r14 r15 rsp].
  cbn [c_rip c_rflags c_rbp c_rbx c_r12 c_r13 c_r14 c_r15 c_rsp] in *. subst rsp.
  f_equal; first [lia | etransitivity; [|eassumption]; f_equal; lia].
Qed.

Definition ctx_ok (c : ctx) : Prop :=
  64 ≤ c_rsp c < 2 ^ 64 ∧ Forall (λ v, 0 ≤ v < 2 ^ 64) (ctx_words c).

Lemma context_switch_inv c m new m' old next :
  ctx_ok c → context_switch c m new = (m', old, next) →
  old = c_rsp c - 64 ∧ ctx_load m' old = c ∧ next = ctx_load m' new ∧
  (∀ b, ¬ (c_rsp c - 64 ≤ b < c_rsp c) → ld8 m' b = ld8 m b).
Proof.
  intros [Hsp Hw] E. unfold context_switch in E.
  destruct (pushes m (c_rsp c) (ctx_words c)) as [m1 o1] eqn:Ep. injection E as -> -> <-.
  apply pushes_spec in Ep as (-> & Hk & Ho); [|cbn; lia|done].
  change (8 * Z.of_nat (length (ctx_words c))) with 64 in *.
  split_and!; [done| |done|done].
  apply ctx_load_words; [lia|lia|lia|]. intros k v Hv. rewrite <- (Hk k v Hv). f_equal. lia.
Qed.

(** A context depends only on its eight words. *)
Lemma ctx_load_ext m m' sp :
  0 ≤ sp → sp + 64 < 2 ^ 64 → (∀ b, sp ≤ b < sp + 64 → ld8 m' b = ld8 m b) →
  ctx_load m' sp = ctx_load m sp.
Proof.
  intros H0 H1 He. unfold ctx_load, pop. usimpl.
  assert (Hw : ∀ a, sp ≤ a → a + 8 ≤ sp + 64 → ld64 m' a = ld64 m a).
  { intros a Ha1 Ha2. unfold ld64. apply ld_le_ext. intros b Hb. apply He. lia. }
  f_equal; apply Hw; lia.
Qed.

(** The context that a thread with a fresh stack starts in. *)
Lemma frame_ctx m stack ws m' rsp :
  0 ≤ stack → stack + THREAD_STACK_SIZE < 2 ^ 64 → length ws = 8%nat →
  Forall (λ v, 0 ≤ v < 2 ^ 64) ws →
  pushes m (u64 (stack + THREAD_STACK_SIZE)) ws = (m', rsp) →
  rsp = stack + 16320 ∧
  ctx_words (ctx_load m' rsp) = ws ∧ c_rsp (ctx_load m' rsp) = stack + THREAD_STACK_SIZE ∧
  (∀ b, ¬ (stack ≤ b < stack + THREAD_STACK_SIZE) → ld8 m' b = ld8 m b).
Proof.
  unfold THREAD_STACK_SIZE. intros H0 H1 Hl Hw E.
  rewrite u64_small in E by lia.
  apply pushes_spec in E as (-> & Hk & Ho); [|lia|done]. rewrite Hl in *.
  replace (stack + 16384 - 8 * Z.of_nat 8) with (stack + 16320) in * by lia.
  destruct ws as [|w0 [|w1 [|w2 [|w3 [|w4 [|w5 [|w6 [|w7 [|]]]]]]]]]; try done.
  rewrite (ctx_load_words m' (stack + 16320)
    (Ctx w0 w1 w2 w3 w4 w5 w6 w7 (stack + 16384))); [|lia|lia|cbn; lia|].
  - split_and!; [done|done|done|]. intros b Hb. apply Ho. lia.
  - intros k v Hv. rewrite <- (Hk k v Hv). f_equal. lia.
Qed.

(** A kernel context survives a round of the scheduler: when a flow of
    control [c] switches away with [context_switch] and, after any changes of
    memory outside the 64 bytes it pushed, any other context switches to the
    stack pointer that was saved for it, [c] resumes with all the registers the
    ABI requires (return address, flags, [rbp], [rbx], [r12]-[r15], [rsp])
    unchanged. *)
Theorem context_switch_roundtrip c d m m' new n1 old n2 old2 next next2 :
  ctx_ok c → ctx_ok d →
  c_rsp d ≤ c_rsp c - 64 ∨ c_rsp c ≤ c_rsp d - 64 →
  context_switch c m new = (n1, old, next) →
  (∀ b, c_rsp c - 64 ≤ b < c_rsp c → ld8 m' b = ld8 n1 b) →
  context_switch d m' old = (n2, old2, next2) →
  next2 = c.
Proof.
  intros Hc Hd Hs E1 Hm E2.
  apply context_switch_inv in E1 as (-> & El & _ & _); [|done].
  apply context_switch_inv in E2 as (_ & _ & -> & Ho); [|done].
  destruct Hc as [Hc _]. etransitivity; [|exact El].
  apply ctx_load_ext; [lia|lia|]. intros b Hb. rewrite Ho by lia. apply Hm. lia.
Qed.

(** The child of a fork returns from the system call exactly as the parent
    does, except that its result is 0: [fork_child_return] applied to the
    registers that [process_fork] saved gives the state [syscall_entry] gives
    the caller when the call returns 0. *)
Lemma fork_child_like_parent p : fork_child_return (fork_regs p) = syscall_return p 0.
Proof. by destruct p. Qed.

Lemma context_switch_witness :
  let c := Ctx 0x4000 0x202 1 2 3 4 5 6 0x9000 in
  let d := Ctx 0x5000 0x2 7 8 9 10 11 12 0xA000 in
  (context_switch d (context_switch c ∅ 0x100).1.1 (context_switch c ∅ 0x100).1.2).2 = c.
Proof.
  intros c d. destruct (context_switch c ∅ 0x100) as [[n1 old] next] eqn:E1.
  destruct (context_switch d n1 old) as [[n2 old2] next2] eqn:E2.
  unfold fst, snd. rewrite E2.
  apply (context_switch_roundtrip c d ∅ n1 0x100 n1 old n2 old2 next next2).
  - split; [vdone|]. repeat constructor; vdone.
  - split; [vdone|]. repeat constructor; vdone.
  - right. vdone.
  - exact E1.
  - intros b _. reflexivity.
  - exact E2.
Defined.
