(* ===== verification/Proc.v ===== *)
(** Threads, processes and the scheduler: [proc/thread.c], [proc/process.c] and
    [proc/scheduler.c].  Threads and processes are objects of the kernel heap,
    named by their addresses; 0 is [NULL]. *)
From S2P Require Import Prelude Interfaces Ram PhysMem DList Kheap Paging Vmm RunQueue Space Context.

(** ** Data *)

Inductive thread_state := THREAD_READY | THREAD_RUNNING | THREAD_BLOCKED | THREAD_DEAD.
Inductive proc_state := PROC_ALIVE | PROC_ZOMBIE | PROC_DEAD.
#[export] Instance thread_state_eq_dec : EqDecision thread_state.
Proof. solve_decision. Defined.
#[export] Instance proc_state_eq_dec : EqDecision proc_state.
Proof. solve_decision. Defined.

(** [thread_t]; [sizeof] is 256.  Names are kept without their terminator. *)
Record thread := Thread {
  t_tid : Z;
  t_name : list Z;
  t_state : thread_state;
  t_rsp : Z;
  t_stack_base : Z;
  t_stack_size : Z;
  t_is_user : bool;
  t_kstack_top : Z;
  t_fork : cpu_state;
  t_owner : Z;
  t_proc_next : Z;
  t_sched_next : Z;
}.
Definition THREAD_NAME_MAX : nat := 32.

(** [file_descriptor_t] *)
Record file_descriptor := Fd {
  fd_node : Z;
  fd_offset : Z;
  fd_used : bool;
  fd_handle : Z;
}.
Definition FD_MAX : nat := 64.

(** [proc_t]; [sizeof] is 2184. *)
Record proc := Proc {
  p_pid : Z;
  p_name : list Z;
  p_state : proc_state;
  p_exit_code : Z;
  p_uid : Z;
  p_gid : Z;
  p_heap_break : Z;
  p_capabilities : Z;
  p_space : Z;
  p_threads : Z;
  p_thread_count : Z;
  p_alive_count : Z;
  p_fd_table : list file_descriptor;
  p_next : Z;
}.

(** The scheduler's variables; [bootstrap] is the address of the static thread. *)
Record sched := Sched {
  ready_q : rq;
  bootstrap : Z;
  current : Z;
  idle_thread : Z;
  zombies : Z;
  enabled : bool;
  ticks : Z;
  switch_count : Z;
}.

(** The kernel: memory, the thread and process objects, the scheduler, the
    process lists and counters, the context of the running flow of control, and
    the stacks the CPU switches to when it leaves user mode ([tss.rsp0] and
    [syscall_scratch[1]]). *)
Record ks {H : Type} := Ks {
  k_mm : mm H;
  k_threads : gmap Z thread;
  k_procs : gmap Z proc;
  k_sched : sched;
  p_head : Z;
  proc_zombies : Z;
  next_pid : Z;
  next_tid : Z;
  k_ctx : ctx;
  tss_rsp0 : Z;
  syscall_kstack : Z;
}.
Arguments ks : clear implicits.
Arguments Ks {H}.

(** Where the linker put the assembly routines whose addresses the code takes. *)
Class KernelCode := {
  thread_trampoline : Z;
  user_thread_trampoline : Z;
  fork_child_return_addr : Z;
}.

(** ** Updates of single fields *)

Definition set_tstate (t : thread) (x : thread_state) : thread :=
  Thread (t_tid t) (t_name t) x (t_rsp t) (t_stack_base t) (t_stack_size t) (t_is_user t)
    (t_kstack_top t) (t_fork t) (t_owner t) (t_proc_next t) (t_sched_next t).
Definition set_rsp (t : thread) (x : Z) : thread :=
  Thread (t_tid t) (t_name t) (t_state t) x (t_stack_base t) (t_stack_size t) (t_is_user t)
    (t_kstack_top t) (t_fork t) (t_owner t) (t_proc_next t) (t_sched_next t).
Definition set_proc_next (t : thread) (x : Z) : thread :=
  Thread (t_tid t) (t_name t) (t_state t) (t_rsp t) (t_stack_base t) (t_stack_size t) (t_is_user t)
    (t_kstack_top t) (t_fork t) (t_owner t) x (t_sched_next t).
Definition set_sched_next (t : thread) (x : Z) : thread :=
  Thread (t_tid t) (t_name t) (t_state t) (t_rsp t) (t_stack_base t) (t_stack_size t) (t_is_user t)
    (t_kstack_top t) (t_fork t) (t_owner t) (t_proc_next t) x.

Definition set_exit (p : proc) (st : proc_state) (code : Z) : proc :=
  Proc (p_pid p) (p_name p) st code (p_uid p) (p_gid p) (p_heap_break p) (p_capabilities p)
    (p_space p) (p_threads p) (p_thread_count p) (p_alive_count p) (p_fd_table p) (p_next p).
Definition set_pnext (p : proc) (x : Z) : proc :=
  Proc (p_pid p) (p_name p) (p_state p) (p_exit_code p) (p_uid p) (p_gid p) (p_heap_break p)
    (p_capabilities p) (p_space p) (p_threads p) (p_thread_count p) (p_alive_count p)
    (p_fd_table p) x.
Definition set_caps (p : proc) (x : Z) : proc :=
  Proc (p_pid p) (p_name p) (p_state p) (p_exit_code p) (p_uid p) (p_gid p) (p_heap_break p)
    x (p_space p) (p_threads p) (p_thread_count p) (p_alive_count p) (p_fd_table p) (p_next p).
Definition set_pspace (p : proc) (x : Z) : proc :=
  Proc (p_pid p) (p_name p) (p_state p) (p_exit_code p) (p_uid p) (p_gid p) (p_heap_break p)
    (p_capabilities p) x (p_threads p) (p_thread_count p) (p_alive_count p) (p_fd_table p)
    (p_next p).
Definition set_brk (p : proc) (x : Z) : proc :=
  Proc (p_pid p) (p_name p) (p_state p) (p_exit_code p) (p_uid p) (p_gid p) x
    (p_capabilities p) (p_space p) (p_threads p) (p_thread_count p) (p_alive_count p)
    (p_fd_table p) (p_next p).
Definition set_fds (p : proc) (x : list file_descriptor) : proc :=
  Proc (p_pid p) (p_name p) (p_state p) (p_exit_code p) (p_uid p) (p_gid p) (p_heap_break p)
    (p_capabilities p) (p_space p) (p_threads p) (p_thread_count p) (p_alive_count p) x (p_next p).
(** The thread list and its two counters. *)
Definition set_pthreads (p : proc) (ts count alive : Z) : proc :=
  Proc (p_pid p) (p_name p) (p_state p) (p_exit_code p) (p_uid p) (p_gid p) (p_heap_break p)
    (p_capabilities p) (p_space p) ts count alive (p_fd_table p) (p_next p).

Definition set_ready (c : sched) (q : rq) : sched :=
  Sched q (bootstrap c) (current c) (idle_thread c) (zombies c) (enabled c) (ticks c)
    (switch_count c).
Definition set_current (c : sched) (t : Z) : sched :=
  Sched (ready_q c) (bootstrap c) t (idle_thread c) (zombies c) (enabled c) (ticks c)
    (switch_count c).
Definition set_idle (c : sched) (t : Z) : sched :=
  Sched (ready_q c) (bootstrap c) (current c) t (zombies c) (enabled c) (ticks c)
    (switch_count c).
Definition set_zombies (c : sched) (t : Z) : sched :=
  Sched (ready_q c) (bootstrap c) (current c) (idle_thread c) t (enabled c) (ticks c)
    (switch_count c).
Definition set_enabled (c : sched) (b : bool) : sched :=
  Sched (ready_q c) (bootstrap c) (current c) (idle_thread c) (zombies c) b (ticks c)
    (switch_count c).
Definition set_ticks (c : sched) (n : Z) : sched :=
  Sched (ready_q c) (bootstrap c) (current c) (idle_thread c) (zombies c) (enabled c) n
    (switch_count c).
Definition set_switches (c : sched) (n : Z) : sched :=
  Sched (ready_q c) (bootstrap c) (current c) (idle_thread c) (zombies c) (enabled c) (ticks c) n.

(** [while (name[i] && i < n) dst[i] = name[i]] *)
Fixpoint copy_name (n : nat) (name : list Z) : list Z :=
  match n, name with
  | S n, c :: name => if c =? 0 then [] else c :: copy_name n name
  | _, _ => []
  end.

Section proc.
Context {H : Type} `{HeapAlloc H} `{KernelCode}.
Implicit Types (s : ks H).

Definition with_mm s (m : mm H) : ks H :=
  Ks m (k_threads s) (k_procs s) (k_sched s) (p_head s) (proc_zombies s) (next_pid s) (next_tid s)
    (k_ctx s) (tss_rsp0 s) (syscall_kstack s).
Definition with_threads s (ts : gmap Z thread) : ks H :=
  Ks (k_mm s) ts (k_procs s) (k_sched s) (p_head s) (proc_zombies s) (next_pid s) (next_tid s)
    (k_ctx s) (tss_rsp0 s) (syscall_kstack s).
Definition with_procs s (ps : gmap Z proc) : ks H :=
  Ks (k_mm s) (k_threads s) ps (k_sched s) (p_head s) (proc_zombies s) (next_pid s) (next_tid s)
    (k_ctx s) (tss_rsp0 s) (syscall_kstack s).
Definition with_sched s (c : sched) : ks H :=
  Ks (k_mm s) (k_threads s) (k_procs s) c (p_head s) (proc_zombies s) (next_pid s) (next_tid s)
    (k_ctx s) (tss_rsp0 s) (syscall_kstack s).
Definition with_lists s (hd zs : Z) : ks H :=
  Ks (k_mm s) (k_threads s) (k_procs s) (k_sched s) hd zs (next_pid s) (next_tid s)
    (k_ctx s) (tss_rsp0 s) (syscall_kstack s).
Definition with_ids s (pid tid : Z) : ks H :=
  Ks (k_mm s) (k_threads s) (k_procs s) (k_sched s) (p_head s) (proc_zombies s) pid tid
    (k_ctx s) (tss_rsp0 s) (syscall_kstack s).
Definition with_cpu s (c : ctx) (rsp0 kstack : Z) : ks H :=
  Ks (k_mm s) (k_threads s) (k_procs s) (k_sched s) (p_head s) (proc_zombies s) (next_pid s)
    (next_tid s) c rsp0 kstack.

Definition get_thread s (t : Z) : res thread := deref (k_threads s !! t).
Definition get_proc s (p : Z) : res proc := deref (k_procs s !! p).
Definition put_thread s (t : Z) (x : thread) : ks H := with_threads s (<[t := x]> (k_threads s)).
Definition put_proc s (p : Z) (x : proc) : ks H := with_procs s (<[p := x]> (k_procs s)).
Definition k_ram s : ram := mm_ram (k_mm s).
Definition put_ram s (m : ram) : ks H := with_mm s (with_mem (k_mm s) m (mm_frames (k_mm s))).

(** [kmalloc] and [kfree] on the kernel's heap. *)
Definition k_alloc s (n : Z) : res (Z * ks H) :=
  '(p, h) ← ka_malloc (mm_heap (k_mm s)) n; Ret (p, with_mm s (with_heap (k_mm s) h)).
Definition k_free s (p : Z) : res (ks H) :=
  h ← ka_free (mm_heap (k_mm s)) p; Ret (with_mm s (with_heap (k_mm s) h)).
Definition free_thread s (t : Z) : res (ks H) :=
  s ← k_free s t; Ret (with_threads s (delete t (k_threads s))).
Definition free_proc s (p : Z) : res (ks H) :=
  s ← k_free s p; Ret (with_procs s (delete p (k_procs s))).

(** ** The ready queue *)

Definition sched_add s (t : Z) : res (ks H) :=
  if t =? 0 then Ret s else
  x ← get_thread s t;
  let s := put_thread s t (set_tstate x THREAD_READY) in
  q ← q_push (ready_q (k_sched s)) t;
  Ret (with_sched s (set_ready (k_sched s) q)).

Definition sched_remove s (t : Z) : res (ks H) :=
  if t =? 0 then Ret s else
  q ← rq_remove (ready_q (k_sched s)) t;
  Ret (with_sched s (set_ready (k_sched s) q)).

Definition sched_init s : res (ks H) :=
  let c := k_sched s in
  b ← get_thread s (bootstrap c);
  let name := [107; 101; 114; 110; 101; 108; 95; 105; 110; 105; 116] in (* kernel_init *)
  let b := Thread 0 name THREAD_RUNNING (t_rsp b) (t_stack_base b) (t_stack_size b) (t_is_user b)
             (t_kstack_top b) (t_fork b) 0 (t_proc_next b) 0 in
  Ret (with_sched (put_thread s (bootstrap c) b)
         (Sched (q_init (ready_q c)) (bootstrap c) (bootstrap c) 0 0 false 0 (switch_count c))).

Definition sched_enable s : ks H := with_sched s (set_enabled (k_sched s) true).
Definition sched_disable s : ks H := with_sched s (set_enabled (k_sched s) false).
Definition sched_is_enabled s : bool := enabled (k_sched s).
Definition sched_current s : Z := current (k_sched s).
Definition sched_get_ticks s : Z := ticks (k_sched s).
Definition sched_get_switch_count s : Z := switch_count (k_sched s).

Definition sched_set_idle s (idle : Z) : res (ks H) :=
  if idle =? 0 then Ret s else
  s ← sched_remove s idle;
  x ← get_thread s idle;
  let s := put_thread s idle (set_tstate x THREAD_READY) in
  Ret (with_sched s (set_idle (k_sched s) idle)).

(** ** Destroying threads *)

Definition thread_get_current s : Z := sched_current s.

(** The walk over [&t->proc_next]; [prev = 0] stands for [&owner->threads]. *)
Fixpoint unlink_thread (fuel : nat) s (owner t prev cur : Z) : res (ks H) :=
  match fuel with
  | O => NoFuel
  | S fuel =>
      if cur =? 0 then Ret s else
      c ← get_thread s cur;
      if cur =? t then
        s ← (if prev =? 0 then
               o ← get_proc s owner;
               Ret (put_proc s owner
                 (set_pthreads o (t_proc_next c) (p_thread_count o) (p_alive_count o)))
             else
               p ← get_thread s prev; Ret (put_thread s prev (set_proc_next p (t_proc_next c))));
        o ← get_proc s owner;
        Ret (put_proc s owner
          (set_pthreads o (p_threads o) (i32 (p_thread_count o - 1)) (p_alive_count o)))
      else unlink_thread fuel s owner t cur (t_proc_next c)
  end.

Definition thread_destroy s (t : Z) : res (ks H) :=
  if t =? 0 then Ret s else
  s ← sched_remove s t;
  x ← get_thread s t;
  s ← (if t_owner x =? 0 then Ret s else
         o ← get_proc s (t_owner x);
         unlink_thread (S (size (k_threads s))) s (t_owner x) t 0 (p_threads o));
  s ← (if t_stack_base x =? 0 then Ret s else k_free s (t_stack_base x));
  free_thread s t.

(** ** Processes *)

Definition thread_subsystem_init s : ks H := with_ids s (next_pid s) 1.
Definition thread_alloc_tid s : Z * ks H :=
  (next_tid s, with_ids s (next_pid s) (u64 (next_tid s + 1))).

Definition process_init s : ks H := thread_subsystem_init (with_ids (with_lists s 0 0) 1 (next_tid s)).

Definition empty_fd : file_descriptor := Fd 0 0 false 0.
Definition std_fd : file_descriptor := Fd 0 0 true 0.

Definition proc_alloc s (name : list Z) : res (Z * ks H) :=
  '(p, s) ← k_alloc s 2184;
  if p =? 0 then Ret (0, s) else
  let x := Proc (next_pid s) (copy_name 63 name) PROC_ALIVE 0 0 0 0 0 0 0 0 0
             (replicate 3 std_fd ++ replicate 61 empty_fd) (p_head s) in
  let s := with_ids s (u64 (next_pid s + 1)) (next_tid s) in
  Ret (p, with_lists (put_proc s p x) p (proc_zombies s)).

Definition process_create s (name : list Z) : res (Z * ks H) :=
  '(p, s) ← proc_alloc s name;
  if p =? 0 then Ret (0, s) else
  x ← get_proc s p;
  Ret (p, put_proc s p (set_pspace x (vmm_get_kernel_space (k_mm s)))).

Definition process_create_user s (name : list Z) (initial_caps : Z) : res (Z * ks H) :=
  '(p, s) ← proc_alloc s name;
  if p =? 0 then Ret (0, s) else
  x ← get_proc s p;
  '(space, m) ← vmm_space_create (k_mm s);
  let s := put_proc (with_mm s m) p (set_pspace (set_caps x initial_caps) space) in
  if space =? 0 then
    let s := with_lists s (p_next x) (proc_zombies s) in
    s ← free_proc s p; Ret (0, s)
  else Ret (p, s).

(** The walk that takes [p] out of the list at [head]; [None] when it is not
    there.  The new head and the processes are returned. *)
Fixpoint unlink_proc (fuel : nat) (ps : gmap Z proc) (hd p prev cur : Z) :
    res (option (gmap Z proc * Z)) :=
  match fuel with
  | O => NoFuel
  | S fuel =>
      if cur =? 0 then Ret None else
      c ← deref (ps !! cur);
      if cur =? p then
        if prev =? 0 then Ret (Some (ps, p_next c)) else
        x ← deref (ps !! prev); Ret (Some (<[prev := set_pnext x (p_next c)]> ps, hd))
      else unlink_proc fuel ps hd p cur (p_next c)
  end.
Definition unlink_head s (p : Z) : res (option (gmap Z proc * Z)) :=
  unlink_proc (S (size (k_procs s))) (k_procs s) (p_head s) p 0 (p_head s).

Definition process_exit s (p exit_code : Z) : res (ks H) :=
  if p =? 0 then Ret s else
  x ← get_proc s p;
  if negb (bool_decide (p_state x = PROC_ALIVE)) then Ret s else
  let s := put_proc s p (set_exit x PROC_ZOMBIE exit_code) in
  o ← unlink_head s p;
  let s := match o with
           | Some (ps, hd) => with_lists (with_procs s ps) hd (proc_zombies s)
           | None => s
           end in
  x ← get_proc s p;
  Ret (with_lists (put_proc s p (set_pnext x (proc_zombies s))) (p_head s) p).

(** [if (space && space != vmm_get_kernel_space()) vmm_space_destroy(space)] *)
Definition drop_proc_space s (space : Z) : res (ks H) :=
  if (space =? 0) || (space =? vmm_get_kernel_space (k_mm s)) then Ret s else
  m ← vmm_space_destroy (k_mm s) space; Ret (with_mm s m).

(** Takes the zombie [cur] out of its list and frees it. *)
Definition unlink_zombie s (prev next : Z) : res (ks H) :=
  if prev =? 0 then Ret (with_lists s (p_head s) next) else
  x ← get_proc s prev; Ret (put_proc s prev (set_pnext x next)).

Fixpoint reap_procs (fuel : nat) s (prev cur : Z) : res (ks H) :=
  match fuel with
  | O => NoFuel
  | S fuel =>
      if cur =? 0 then Ret s else
      c ← get_proc s cur;
      let next := p_next c in
      if p_thread_count c =? 0 then
        s ← drop_proc_space s (p_space c);
        let s := put_proc s cur (set_exit c PROC_DEAD (p_exit_code c)) in
        s ← unlink_zombie s prev next;
        s ← free_proc s cur;
        reap_procs fuel s prev next
      else reap_procs fuel s cur next
  end.
Definition process_reap_zombies s : res (ks H) :=
  reap_procs (S (size (k_procs s))) s 0 (proc_zombies s).

(** The loop of [process_waitpid]; the first result is the return value, the
    second what it stores through [exit_code_out]. *)
Fixpoint waitpid_loop (fuel : nat) s (target_pid prev cur : Z) : res (Z * option Z * ks H) :=
  match fuel with
  | O => NoFuel
  | S fuel =>
      if cur =? 0 then Ret (-1, None, s) else
      c ← get_proc s cur;
      if (target_pid =? -1) || (u64 target_pid =? p_pid c) then
        s ← unlink_zombie s prev (p_next c);
        s ← drop_proc_space s (p_space c);
        let s := put_proc s cur (set_exit c PROC_DEAD (p_exit_code c)) in
        s ← free_proc s cur;
        Ret (0, Some (p_exit_code c), s)
      else waitpid_loop fuel s target_pid cur (p_next c)
  end.
Definition process_waitpid s (parent target_pid : Z) : res (Z * option Z * ks H) :=
  waitpid_loop (S (size (k_procs s))) s target_pid 0 (proc_zombies s).

Fixpoint destroy_threads (fuel : nat) s (t : Z) : res (ks H) :=
  match fuel with
  | O => NoFuel
  | S fuel =>
      if t =? 0 then Ret s else
      x ← get_thread s t;
      s ← thread_destroy s t;
      destroy_threads fuel s (t_proc_next x)
  end.

Definition process_destroy s (p : Z) : res (ks H) :=
  if p =? 0 then Ret s else
  x ← get_proc s p;
  s ← destroy_threads (S (size (k_threads s))) s (p_threads x);
  x ← get_proc s p;
  s ← drop_proc_space s (p_space x);
  o ← unlink_head s p;
  match o with
  | Some (ps, hd) => free_proc (with_lists (with_procs s ps) hd (proc_zombies s)) p
  | None => Ret s
  end.

Definition process_get_current s : res Z :=
  let t := thread_get_current s in
  if t =? 0 then Ret 0 else x ← get_thread s t; Ret (t_owner x).

Definition process_has_cap s (p cap : Z) : res bool :=
  if p =? 0 then Ret false else
  x ← get_proc s p; Ret (Z.land (p_capabilities x) cap =? cap).
Definition process_grant_cap s (p cap : Z) : res (ks H) :=
  if p =? 0 then Ret s else
  x ← get_proc s p; Ret (put_proc s p (set_caps x (Z.lor (p_capabilities x) cap))).
Definition process_revoke_cap s (p cap : Z) : res (ks H) :=
  if p =? 0 then Ret s else
  x ← get_proc s p; Ret (put_proc s p (set_caps x (Z.land (p_capabilities x) (not64 cap)))).

(** ** Switching *)

Fixpoint reap_loop (fuel : nat) s : res (ks H) :=
  match fuel with
  | O => NoFuel
  | S fuel =>
      let z := zombies (k_sched s) in
      if z =? 0 then Ret s else
      x ← get_thread s z;
      s ← thread_destroy (with_sched s (set_zombies (k_sched s) (t_sched_next x))) z;
      reap_loop fuel s
  end.
Definition reap_zombies s : res (ks H) := reap_loop (S (size (k_threads s))) s.

(** What [sched_yield] does with the running thread; [None] when it goes on
    running. *)
Definition park_current s : res (option (ks H)) :=
  let prev := current (k_sched s) in
  x ← get_thread s prev;
  match t_state x with
  | THREAD_DEAD =>
      let s := put_thread s prev (set_sched_next x (zombies (k_sched s))) in
      Ret (Some (with_sched s (set_zombies (k_sched s) prev)))
  | THREAD_RUNNING =>
      if prev =? idle_thread (k_sched s) then Ret (Some s) else
      if q_empty (ready_q (k_sched s)) then Ret None else
      let s := put_thread s prev (set_tstate x THREAD_READY) in
      q ← q_push (ready_q (k_sched s)) prev;
      Ret (Some (with_sched s (set_ready (k_sched s) q)))
  | _ => Ret (Some s)
  end.

(** The next thread to run: the front of the queue, or the idle thread; 0 when
    the running thread goes on. *)
Definition pick_next s : res (Z * ks H) :=
  '(next, q) ← q_pop (ready_q (k_sched s));
  let s := with_sched s (set_ready (k_sched s) q) in
  if negb (next =? 0) then Ret (next, s) else
  let prev := current (k_sched s) in
  let idle := idle_thread (k_sched s) in
  p ← get_thread s prev;
  if (prev =? idle) && bool_decide (t_state p = THREAD_RUNNING) then Ret (0, s) else
  Ret (idle, s).

(** [if (next->owner && next->owner->space) vmm_space_activate(next->owner->space)] *)
Definition enter_space s (owner : Z) : res (ks H) :=
  if owner =? 0 then Ret s else
  o ← get_proc s owner;
  if p_space o =? 0 then Ret s else
  '(_, m) ← vmm_space_activate (k_mm s) (p_space o); Ret (with_mm s m).

(** From [switch_count++] to the end of [sched_yield]. *)
Definition switch_to s (prev next : Z) : res (ks H) :=
  let s := with_sched s (set_switches (k_sched s) (u64 (switch_count (k_sched s) + 1))) in
  n ← get_thread s next;
  let s := put_thread s next (set_tstate n THREAD_RUNNING) in
  let s := with_sched s (set_current (k_sched s) next) in
  s ← enter_space s (t_owner n);
  let s := if t_is_user n then with_cpu s (k_ctx s) (t_kstack_top n) (t_kstack_top n) else s in
  n ← get_thread s next;
  let '(m, old_rsp, c) := context_switch (k_ctx s) (k_ram s) (t_rsp n) in
  p ← get_thread s prev;
  let s := put_thread (put_ram s m) prev (set_rsp p old_rsp) in
  Ret (with_cpu s c (tss_rsp0 s) (syscall_kstack s)).

(** [sched_yield] after the zombies are gone. *)
Definition sched_switch s : res (ks H) :=
  let prev := current (k_sched s) in
  o ← park_current s;
  match o with
  | None => Ret s
  | Some s =>
      '(next, s) ← pick_next s;
      if next =? 0 then Ret s else
      if next =? prev then
        p ← get_thread s prev; Ret (put_thread s prev (set_tstate p THREAD_RUNNING))
      else switch_to s prev next
  end.

Definition sched_yield s : res (ks H) :=
  if negb (enabled (k_sched s)) then Ret s else
  s ← reap_zombies s;
  s ← process_reap_zombies s;
  sched_switch s.

Definition QUANTUM : Z := 10.

Definition sched_tick s : res (ks H) :=
  if negb (enabled (k_sched s)) then Ret s else
  let s := with_sched s (set_ticks (k_sched s) (u64 (ticks (k_sched s) + 1))) in
  if ticks (k_sched s) mod QUANTUM =? 0 then sched_yield s else Ret s.

Definition sched_start s : res (ks H) :=
  let s := sched_enable s in
  b ← get_thread s (bootstrap (k_sched s));
  sched_yield (put_thread s (bootstrap (k_sched s)) (set_tstate b THREAD_BLOCKED)).

(** ** Creating threads *)

(** Links a filled thread into its process, as the ends of [thread_create],
    [thread_create_user] and [process_fork] do. *)
Definition adopt_thread s (owner t : Z) (x : thread) : res (ks H) :=
  o ← get_proc s owner;
  let s := put_thread s t (set_proc_next x (p_threads o)) in
  Ret (put_proc s owner
    (set_pthreads o t (i32 (p_thread_count o + 1)) (i32 (p_alive_count o + 1)))).

(** The body that [thread_create] and [thread_create_user] share: they differ in
    the trampoline, the user stack and the kernel stack the CPU is told of. *)
Definition new_thread s (owner : Z) (name : list Z) (trampoline entry arg user_stack : Z)
    (user : bool) : res (Z * ks H) :=
  '(t, s) ← k_alloc s 256;
  if t =? 0 then Ret (0, s) else
  '(stack, s) ← k_alloc s THREAD_STACK_SIZE;
  if stack =? 0 then s ← k_free s t; Ret (0, s) else
  let '(tid, s) := thread_alloc_tid s in
  let '(m, sp) := initial_frame (k_ram s) stack trampoline entry arg user_stack in
  let x := Thread tid (copy_name 31 name) THREAD_READY sp stack THREAD_STACK_SIZE user
             (if user then u64 (stack + THREAD_STACK_SIZE) else 0) zero_state owner 0 0 in
  let s := put_ram s m in
  s ← (if owner =? 0 then Ret (put_thread s t x) else adopt_thread s owner t x);
  s ← sched_add s t;
  Ret (t, s).

Definition thread_create s (owner : Z) (name : list Z) (entry arg : Z) : res (Z * ks H) :=
  if entry =? 0 then Ret (0, s) else
  new_thread s owner name thread_trampoline entry arg 0 false.

Definition thread_create_user s (owner : Z) (name : list Z) (entry arg user_stack_top : Z) :
    res (Z * ks H) :=
  if (entry =? 0) || (owner =? 0) then Ret (0, s) else
  new_thread s owner name user_thread_trampoline entry arg user_stack_top true.

(** [thread_exit] up to its final [for (;;) halt()]. *)
Definition thread_exit s : res (ks H) :=
  let self := thread_get_current s in
  x ← get_thread s self;
  let s := put_thread s self (set_tstate x THREAD_DEAD) in
  s ← (if t_owner x =? 0 then Ret s else
         o ← get_proc s (t_owner x);
         let o := set_pthreads o (p_threads o) (p_thread_count o) (i32 (p_alive_count o - 1)) in
         let s := put_proc s (t_owner x) o in
         if (p_alive_count o <=? 0) && bool_decide (p_state o = PROC_ALIVE)
         then process_exit s (t_owner x) 0 else Ret s);
  sched_yield s.

(** ** Fork *)

(** The error paths of [process_fork]: the child leaves the list and is freed. *)
Definition abandon_child s (child : Z) : res (Z * ks H) :=
  o ← unlink_head s child;
  let s := match o with
           | Some (ps, hd) => with_lists (with_procs s ps) hd (proc_zombies s)
           | None => s
           end in
  s ← free_proc s child;
  Ret (0, s).
Definition destroy_child_space s (child : Z) : res (ks H) :=
  x ← get_proc s child;
  m ← vmm_space_destroy (k_mm s) (p_space x); Ret (with_mm s m).

Definition process_fork s (parent_state : cpu_state) : res (Z * ks H) :=
  parent ← process_get_current s;
  let pt := thread_get_current s in
  if (parent =? 0) || (pt =? 0) then Ret (0, s) else
  px ← get_proc s parent;
  '(child, s) ← proc_alloc s (p_name px);
  if child =? 0 then Ret (0, s) else
  px ← get_proc s parent;
  '(space, m) ← vmm_clone_space (k_mm s) (p_space px);
  let s := with_mm s m in
  x ← get_proc s child;
  let s := put_proc s child (set_pspace x space) in
  if space =? 0 then abandon_child s child else
  '(ct, s) ← k_alloc s 256;
  if ct =? 0 then s ← destroy_child_space s child; abandon_child s child else
  '(kstack, s) ← k_alloc s THREAD_STACK_SIZE;
  if kstack =? 0 then
    s ← k_free s ct; s ← destroy_child_space s child; abandon_child s child
  else
  ptx ← get_thread s pt;
  let '(tid, s) := thread_alloc_tid s in
  let '(m, sp) := fork_frame (k_ram s) kstack fork_child_return_addr ct in
  let x := Thread tid (copy_name 31 (t_name ptx)) THREAD_READY sp kstack THREAD_STACK_SIZE true
             (u64 (kstack + THREAD_STACK_SIZE)) (fork_regs parent_state) child 0 0 in
  s ← adopt_thread (put_ram s m) child ct x;
  s ← sched_add s ct;
  Ret (child, s).
End proc.
