(* ===== verification/Sched.v ===== *)
(** The scheduler of [Proc] against an abstract round-robin scheduler. *)
From S2P Require Import Prelude Interfaces Ram PhysMem DList Kheap Paging Vmm RunQueue Space Context.
From S2P Require Import Proc.

(** ** The abstract scheduler *)

(** The ready threads in order, the running thread, the idle thread, the dead
    threads that wait to be freed, and the state of every thread. *)
Record view := View {
  v_ready : list Z;
  v_cur : Z;
  v_idle : Z;
  v_dead : list Z;
  v_state : gmap Z thread_state;
}.

Definition v_run (v : view) (ready : list Z) (dead : list Z) (t : Z)
    (st : gmap Z thread_state) : view :=
  View ready t (v_idle v) dead (<[t := THREAD_RUNNING]> st).

(** The running thread leaves the CPU: a runnable one goes to the back of the
    queue, a dead one to the dead.  Then the front of the queue runs, or the idle
    thread.  Without an idle thread the running thread stays. *)
Definition abs_switch (v : view) : view :=
  let cur := v_cur v in
  let requeue := bool_decide (v_state v !! cur = Some THREAD_RUNNING) && negb (cur =? v_idle v) in
  let dies := bool_decide (v_state v !! cur = Some THREAD_DEAD) in
  let ready := if requeue then v_ready v ++ [cur] else v_ready v in
  let dead := if dies then cur :: v_dead v else v_dead v in
  let st := if requeue then <[cur := THREAD_READY]> (v_state v) else v_state v in
  match ready with
  | t :: ready => v_run v ready dead t st
  | [] => if v_idle v =? 0 then View [] cur (v_idle v) dead st
          else v_run v [] dead (v_idle v) st
  end.

(** Ready threads are in state [READY], the dead are [DEAD], and neither is the
    running thread or the idle thread. *)
Record view_ok (v : view) : Prop := {
  vo_cur : v_cur v ≠ 0 ∧ is_Some (v_state v !! v_cur v) ∧
    v_cur v ∉ v_ready v ∧ v_cur v ∉ v_dead v;
  vo_ready t : t ∈ v_ready v → t ≠ 0 ∧ v_state v !! t = Some THREAD_READY;
  vo_dead t : t ∈ v_dead v → t ≠ 0 ∧ v_state v !! t = Some THREAD_DEAD;
  vo_nodup : NoDup (v_ready v) ∧ NoDup (v_dead v);
  vo_idle : v_idle v ∉ v_ready v ∧ v_idle v ≠ 0 ∧ is_Some (v_state v !! v_idle v) ∧
    v_state v !! v_idle v ≠ Some THREAD_DEAD;
  vo_cur_ready : v_state v !! v_cur v ≠ Some THREAD_READY;
}.

Lemma abs_switch_ok v : view_ok v → view_ok (abs_switch v).
Proof.
  intros [(Hc0 & Hcs & Hcr & Hcd) Hr Hd [Hnr Hnd] (Hir & Hi0 & His & Hid) Hrdy].
  unfold abs_switch.
  set (requeue := _ && _). set (dies := bool_decide _).
  set (ready := if requeue then _ else _). set (dead := if dies then _ else _).
  set (st := if requeue then _ else _).
  assert (Hready : ∀ t, t ∈ ready → t ≠ 0 ∧ st !! t = Some THREAD_READY ∧ t ≠ v_idle v).
  { intros t Ht. unfold ready, st, requeue in *. destruct (_ && _) eqn:E.
    - apply andb_true_iff in E as [_ E]. zbool. apply elem_of_app in Ht as [Ht|Ht].
      + destruct (Hr t Ht) as [? ?]. rewrite lookup_insert_ne by congruence.
        split_and!; [done..|congruence].
      + apply list_elem_of_singleton in Ht as ->. by rewrite lookup_insert_eq.
    - destruct (Hr t Ht). split_and!; [done..|congruence]. }
  assert (Hdead : ∀ t, t ∈ dead → t ≠ 0 ∧ st !! t = Some THREAD_DEAD).
  { intros t Ht. unfold dead, st, requeue, dies in *. case_bool_decide as Ed.
    - rewrite bool_decide_false by congruence. cbn.
      apply elem_of_cons in Ht as [->|Ht]; [done|by apply Hd].
    - destruct (Hd t Ht). case_bool_decide; cbn; [|done]. destruct (negb _); [|done].
      rewrite lookup_insert_ne by congruence. done. }
  assert (Hndd : NoDup dead) by (unfold dead; destruct dies; [by constructor|done]).
  assert (Hndr : NoDup ready).
  { unfold ready. destruct requeue; [|done]. apply NoDup_app. split; [done|].
    split; [|apply NoDup_singleton]. intros x Hx ->%list_elem_of_singleton. done. }
  assert (Hst : ∀ t, is_Some (v_state v !! t) → is_Some (st !! t)).
  { intros t Ht. unfold st. destruct requeue; [|done].
    destruct (decide (t = v_cur v)) as [->|]; [by rewrite lookup_insert_eq|].
    by rewrite lookup_insert_ne by congruence. }
  assert (Hdr : ∀ t, t ∈ ready → t ∉ dead).
  { intros t Ht Ht'. apply Hready in Ht. apply Hdead in Ht'. destruct Ht as (?&?&?), Ht'.
    congruence. }
  assert (Hsti : st !! v_idle v ≠ Some THREAD_DEAD).
  { unfold st, requeue. destruct (_ && _) eqn:E; [|done].
    apply andb_true_iff in E as [_ E]. zbool. by rewrite lookup_insert_ne by done. }
  assert (Hrun : ∀ t l, t ≠ 0 → t ∉ l → (∀ x, x ∈ l → x ∈ ready) → t ∉ dead → NoDup l →
     st !! v_idle v ≠ Some THREAD_DEAD → view_ok (v_run v l dead t st)).
  { intros t l Ht0 Htl Hl Htd Hnl Hidl. split; cbn.
    - rewrite lookup_insert_eq. eauto.
    - intros x Hx. destruct (Hready x (Hl x Hx)) as (? & ? & ?).
      by rewrite lookup_insert_ne by congruence.
    - intros x Hx. destruct (Hdead x Hx). by rewrite lookup_insert_ne by congruence.
    - done.
    - split; [intros ?%Hl%Hready; naive_solver|]. split; [done|].
      destruct (decide (t = v_idle v)) as [<-|]; [by rewrite lookup_insert_eq|].
      rewrite lookup_insert_ne by done. auto.
    - by rewrite lookup_insert_eq. }
  destruct ready as [|t l] eqn:Er.
  - destruct (Z.eqb_spec (v_idle v) 0); [done|]. apply Hrun; [done|set_solver|done| |constructor|done].
    intros Hx. apply Hdead in Hx. naive_solver.
  - apply NoDup_cons in Hndr as [??]. destruct (Hready t ltac:(set_solver)) as (?&?&?).
    apply Hrun; [done..|set_solver|apply Hdr; set_solver|done|done].
Qed.

(** ** Fairness of the abstract scheduler *)

(** The running thread is an ordinary one. *)
Definition busy (v : view) : Prop :=
  v_state v !! v_cur v = Some THREAD_RUNNING ∧ v_cur v ≠ v_idle v.

(** With a busy CPU, the running thread and the ready ones form a ring that each
    step rotates by one. *)
Lemma abs_switch_rotates v t l :
  view_ok v → busy v → v_ready v = t :: l →
  v_ready (abs_switch v) = l ++ [v_cur v] ∧ v_cur (abs_switch v) = t ∧
  v_dead (abs_switch v) = v_dead v ∧ v_idle (abs_switch v) = v_idle v ∧
  v_state (abs_switch v) = <[t := THREAD_RUNNING]> (<[v_cur v := THREAD_READY]> (v_state v)) ∧
  busy (abs_switch v).
Proof.
  intros Hok [Hs Hi] El. unfold abs_switch. rewrite Hs, bool_decide_true by done.
  destruct (Z.eqb_spec (v_cur v) (v_idle v)); [done|]. cbn [andb negb]. rewrite El. cbn.
  rewrite bool_decide_false by done. split_and!; try done.
  split; cbn; [by rewrite lookup_insert_eq|].
  destruct (vo_idle _ Hok) as (Hn & _). rewrite El in Hn. set_solver.
Qed.

Lemma abs_switch_alone v :
  view_ok v → busy v → v_ready v = [] → abs_switch v = v.
Proof.
  intros Hok [Hs Hi] El. unfold abs_switch. rewrite Hs, bool_decide_true by done.
  destruct (Z.eqb_spec (v_cur v) (v_idle v)); [done|]. cbn [andb negb]. rewrite El. cbn.
  rewrite bool_decide_false by done. unfold v_run. destruct v; cbn in *. subst.
  f_equal. rewrite insert_insert_eq. by apply insert_id.
Qed.

Definition abs_steps (n : nat) (v : view) : view := Nat.iter n abs_switch v.

(** The thread at position [k] of the queue runs after [k + 1] steps. *)
Lemma abs_fair k v t :
  view_ok v → busy v → v_ready v !! k = Some t → v_cur (abs_steps (S k) v) = t.
Proof.
  unfold abs_steps. revert v. induction k as [|k IH]; intros v Hok Hb Hk.
  - destruct (v_ready v) as [|x l] eqn:El; [done|]. cbn in Hk. injection Hk as ->.
    by destruct (abs_switch_rotates v t l Hok Hb El) as (_ & ? & _).
  - destruct (v_ready v) as [|x l] eqn:El; [done|]. cbn in Hk.
    destruct (abs_switch_rotates v x l Hok Hb El) as (Er & _ & _ & _ & _ & Hb').
    rewrite Nat.iter_succ_r. apply IH; [by apply abs_switch_ok|done|].
    rewrite Er, lookup_app_l; [done|]. by eapply lookup_lt_Some.
Qed.

(** ** The scheduler refines the abstract one *)

Section refine.
Context {H : Type} `{HeapAlloc H} `{KernelCode}.
Implicit Types (s : ks H).

(** The list of dead threads that hangs on [zombies]. *)
Fixpoint zchain (ts : gmap Z thread) (z : Z) (l : list Z) : Prop :=
  match l with
  | [] => z = 0
  | t :: l => z = t ∧ t ≠ 0 ∧ ∃ x, ts !! t = Some x ∧ zchain ts (t_sched_next x) l
  end.

Definition abs s (dead : list Z) : view :=
  View (contents (ready_q (k_sched s))) (current (k_sched s)) (idle_thread (k_sched s)) dead
    (t_state <$> k_threads s).

Record sched_inv s (dead : list Z) : Prop := {
  si_rq : rq_wf (ready_q (k_sched s));
  si_view : view_ok (abs s dead);
  si_chain : zchain (k_threads s) (zombies (k_sched s)) dead;
  si_owner t x : k_threads s !! t = Some x → t_owner x ≠ 0 →
    ∃ o, k_procs s !! t_owner x = Some o ∧
      (p_space o = 0 ∨ is_Some (mm_spaces (k_mm s) !! p_space o));
}.

(** What the machine looks like after a switch from [s] to another thread: the
    flow of control is the one saved in that thread, its address space and
    kernel stack are installed, and the old flow is saved in the old thread. *)
Record entered s s' : Prop := {
  en_next : ∃ x, k_threads s' !! current (k_sched s') = Some x ∧
    k_ctx s' = ctx_load (k_ram s') (t_rsp x) ∧
    (t_is_user x = true → tss_rsp0 s' = t_kstack_top x ∧ syscall_kstack s' = t_kstack_top x) ∧
    (∀ o sp, t_owner x ≠ 0 → k_procs s' !! t_owner x = Some o → p_space o ≠ 0 →
       mm_spaces (k_mm s') !! p_space o = Some sp → pml4_phys sp ≠ 0 →
       active_space (k_mm s') = p_space o);
  en_prev : ctx_ok (k_ctx s) → ∃ x, k_threads s' !! current (k_sched s) = Some x ∧
    ctx_load (k_ram s') (t_rsp x) = k_ctx s;
}.

Lemma fmap_state_insert (ts : gmap Z thread) t x :
  t_state <$> <[t := x]> ts = <[t := t_state x]> (t_state <$> ts).
Proof. apply fmap_insert. Qed.

(** Overwriting a thread without changing its state or its links. *)
Lemma fmap_state_same (ts : gmap Z thread) t x y :
  ts !! t = Some y → t_state x = t_state y → t_state <$> <[t := x]> ts = t_state <$> ts.
Proof.
  intros Ht E. rewrite fmap_state_insert. apply insert_id. by rewrite lookup_fmap, Ht, E.
Qed.

Lemma zchain_insert ts z l t x :
  zchain ts z l → (∀ y, ts !! t = Some y → t_sched_next x = t_sched_next y) →
  zchain (<[t := x]> ts) z l.
Proof.
  intros Hz Hx. revert z Hz. induction l as [|u l IH]; intros z; cbn; [done|].
  intros (-> & Hu & y & Hy & Hc). split_and!; [done..|].
  destruct (decide (u = t)) as [->|].
  - exists x. rewrite lookup_insert_eq, (Hx y Hy). auto.
  - exists y. rewrite lookup_insert_ne by done. auto.
Qed.

Lemma zchain_notin ts z l t x :
  zchain ts z l → t ∉ l → zchain (<[t := x]> ts) z l.
Proof.
  revert z. induction l as [|u l IH]; intros z; cbn; [done|].
  intros (-> & Hu & y & Hy & Hc) Hn. split_and!; [done..|]. exists y.
  rewrite lookup_insert_ne by set_solver. split; [done|]. apply IH; [done|set_solver].
Qed.

(** Activating a space touches nothing but [active_space]. *)
Lemma activate_spec (m : mm H) a :
  a = 0 ∨ is_Some (mm_spaces m !! a) →
  ∃ o, vmm_space_activate m a =
    Ret (o, with_active m (match mm_spaces m !! a with
                           | Some sp => if (a =? 0) || (pml4_phys sp =? 0) then active_space m else a
                           | None => active_space m
                           end)).
Proof.
  intros Ha. unfold vmm_space_activate, get_space. destruct (Z.eqb_spec a 0) as [->|Ha0]; cbn [orb].
  { exists None. destruct m as [? ? ? ? sps ? ? act]. cbn. by destruct (sps !! 0). }
  destruct Ha as [|[sp Hsp]]; [done|]. rewrite Hsp. cbn [deref]. rewrite bind_Ret.
  destruct (pml4_phys sp =? 0); [exists None; by destruct m|].
  destruct (Z.eqb_spec a (active_space m)) as [E|]; [|by eexists].
  exists None. rewrite E. by destruct m.
Qed.

Lemma enter_space_spec s owner :
  (owner ≠ 0 → ∃ o, k_procs s !! owner = Some o ∧
      (p_space o = 0 ∨ is_Some (mm_spaces (k_mm s) !! p_space o))) →
  ∃ a, enter_space s owner = Ret (with_mm s (with_active (k_mm s) a)) ∧
    ∀ o sp, owner ≠ 0 → k_procs s !! owner = Some o → p_space o ≠ 0 →
      mm_spaces (k_mm s) !! p_space o = Some sp → pml4_phys sp ≠ 0 → a = p_space o.
Proof.
  intros Ho. unfold enter_space, get_proc.
  assert (Hs : with_mm s (with_active (k_mm s) (active_space (k_mm s))) = s) by by destruct s as [[]].
  destruct (Z.eqb_spec owner 0) as [E0|E0].
  { exists (active_space (k_mm s)). rewrite Hs. by split. }
  destruct (Ho E0) as (o & Hpo & Hsp). rewrite Hpo. cbn [deref]. rewrite bind_Ret.
  destruct (Z.eqb_spec (p_space o) 0) as [E1|E1].
  { exists (active_space (k_mm s)). rewrite Hs. split; [done|]. by intros ? ? _ [= <-]. }
  destruct (activate_spec (k_mm s) (p_space o) Hsp) as [x Ex].
  rewrite Ex, !bind_Ret. eexists. split; [done|]. intros ? sp _ [= <-] _ Hs' Hph.
  rewrite Hs'. by destruct (Z.eqb_spec (p_space o) 0), (Z.eqb_spec (pml4_phys sp) 0).
Qed.

Lemma switch_to_spec s prev next p n :
  k_threads s !! prev = Some p → k_threads s !! next = Some n → next ≠ prev →
  prev = current (k_sched s) →
  (t_owner n ≠ 0 → ∃ o, k_procs s !! t_owner n = Some o ∧
      (p_space o = 0 ∨ is_Some (mm_spaces (k_mm s) !! p_space o))) →
  returns (switch_to s prev next) (λ s',
    (∃ rsp, k_threads s' = <[prev := set_rsp p rsp]>
                             (<[next := set_tstate n THREAD_RUNNING]> (k_threads s))) ∧
    k_sched s' = set_current (set_switches (k_sched s) (u64 (switch_count (k_sched s) + 1))) next ∧
    k_procs s' = k_procs s ∧ mm_spaces (k_mm s') = mm_spaces (k_mm s) ∧
    proc_zombies s' = proc_zombies s ∧ entered s s').
Proof.
  intros Hp Hn Hne Hcur Ho. unfold switch_to, get_thread.
  cbn [k_threads with_sched]. rewrite Hn. cbn [deref]. rewrite bind_Ret.
  set (s1 := with_sched (put_thread _ _ _) _).
  destruct (enter_space_spec s1 (t_owner n) Ho) as (a & Ea & Ha). rewrite Ea, bind_Ret.
  set (s3 := if t_is_user n then _ else _).
  assert (Et : k_threads s3 = <[next := set_tstate n THREAD_RUNNING]> (k_threads s))
    by (unfold s3; by destruct (t_is_user n)).
  rewrite Et, lookup_insert_eq. cbn [deref]. rewrite bind_Ret.
  replace (k_ctx s3) with (k_ctx s) by (unfold s3; by destruct (t_is_user n)).
  destruct (context_switch _ _ _) as [[m old] c] eqn:Ec. cbn [deref].
  rewrite lookup_insert_ne, Hp by done. cbn [deref]. rewrite bind_Ret.
  split; [exists old; cbn; by rewrite Et|].
  split; [unfold s3; by destruct (t_is_user n)|].
  split; [unfold s3; by destruct (t_is_user n)|].
  split; [unfold s3; by destruct (t_is_user n)|].
  split; [unfold s3; by destruct (t_is_user n)|]. split.
  - assert (Ecur : current (k_sched s3) = next) by (unfold s3; by destruct (t_is_user n)).
    exists (set_tstate n THREAD_RUNNING). cbn. rewrite Ecur, lookup_insert_ne, Et, lookup_insert_eq by done.
    split; [done|]. split.
    { unfold context_switch in Ec. destruct (pushes _ _ _). injection Ec as <- _ <-. done. }
    split; [unfold s3; cbn; by intros ->|].
    assert (Em : active_space (k_mm s3) = a ∧ k_procs s3 = k_procs s ∧
                 mm_spaces (k_mm s3) = mm_spaces (k_mm s))
      by (unfold s3; by destruct (t_is_user n)).
    destruct Em as (-> & -> & ->). exact Ha.
  - intros Hctx. exists (set_rsp p old). cbn. rewrite <- Hcur, lookup_insert_eq. split; [done|].
    by destruct (context_switch_inv _ _ _ _ _ _ Hctx Ec) as (_ & ? & _).
Qed.

(** What parking the running thread and picking the next one leave alone. *)
Record aside s s' : Prop := {
  as_mm : k_mm s' = k_mm s;
  as_procs : k_procs s' = k_procs s;
  as_ctx : k_ctx s' = k_ctx s;
  as_pz : proc_zombies s' = proc_zombies s;
  as_cur : current (k_sched s') = current (k_sched s);
  as_idle : idle_thread (k_sched s') = idle_thread (k_sched s);
  as_on : enabled (k_sched s') = enabled (k_sched s);
  as_owner t x' : k_threads s' !! t = Some x' →
    ∃ x, k_threads s !! t = Some x ∧ t_owner x' = t_owner x;
}.

(** The queue, the dead and the states after the running thread was parked. *)
Definition parked_ready (v : view) : list Z :=
  if bool_decide (v_state v !! v_cur v = Some THREAD_RUNNING) && negb (v_cur v =? v_idle v)
  then v_ready v ++ [v_cur v] else v_ready v.
Definition parked_dead (v : view) : list Z :=
  if bool_decide (v_state v !! v_cur v = Some THREAD_DEAD) then v_cur v :: v_dead v else v_dead v.
Definition parked_state (v : view) : gmap Z thread_state :=
  if bool_decide (v_state v !! v_cur v = Some THREAD_RUNNING) && negb (v_cur v =? v_idle v)
  then <[v_cur v := THREAD_READY]> (v_state v) else v_state v.

Lemma park_spec s dead :
  sched_inv s dead → (length (contents (ready_q (k_sched s))) < 64)%nat →
  let v := abs s dead in
  returns (park_current s) (λ o,
    match o with
    | None => busy v ∧ v_ready v = []
    | Some s' => aside s s' ∧ rq_wf (ready_q (k_sched s')) ∧
        contents (ready_q (k_sched s')) = parked_ready v ∧
        zchain (k_threads s') (zombies (k_sched s')) (parked_dead v) ∧
        t_state <$> k_threads s' = parked_state v
    end).
Proof.
  intros [Hq Hv Hz Ho] Hl v. destruct (vo_cur _ Hv) as (Hc0 & Hcs & Hcr & Hcd). cbn in Hc0, Hcs, Hcr, Hcd.
  unfold park_current, get_thread.
  destruct (k_threads s !! current (k_sched s)) as [x|] eqn:Ex.
  2:{ rewrite lookup_fmap, Ex in Hcs. by destruct Hcs. }
  cbn [deref]. rewrite bind_Ret.
  assert (Est : v_state v !! v_cur v = Some (t_state x)) by (cbn; by rewrite lookup_fmap, Ex).
  assert (Hsame : aside s s) by (split; try done; eauto).
  unfold parked_ready, parked_dead, parked_state. rewrite Est.
  destruct (t_state x) eqn:Es; cbn [andb];
    rewrite ?(bool_decide_true _ eq_refl), ?bool_decide_false by done; cbn [andb].
  - by split_and!.
  - change (v_cur v =? v_idle v) with (current (k_sched s) =? idle_thread (k_sched s)).
    destruct (Z.eqb_spec (current (k_sched s)) (idle_thread (k_sched s))) as [Ei|Ei]; cbn [negb].
    { by split_and!. }
    destruct (q_empty (ready_q (k_sched s))) eqn:Ee.
    { apply q_empty_spec in Ee; done. }
    destruct (q_push_spec (ready_q (k_sched s)) (current (k_sched s)) Hq) as (q' & Eq & Hq' & Ec).
    cbn. rewrite Eq, bind_Ret. cbn.
    pose proof (length_contents _ Hq). destruct (Z.leb_spec 64 (cnt (ready_q (k_sched s)))); [lia|].
    split_and!; [|done|done| |].
    + split; try done. cbn. intros t x'. destruct (decide (t = current (k_sched s))) as [->|].
      * rewrite lookup_insert_eq. intros [= <-]. exists x. by destruct x.
      * rewrite lookup_insert_ne by done. eauto.
    + by apply zchain_notin.
    + by rewrite fmap_state_insert.
  - by split_and!.
  - split_and!; [|done|done| |].
    + split; try done. cbn. intros t x'. destruct (decide (t = current (k_sched s))) as [->|].
      * rewrite lookup_insert_eq. intros [= <-]. exists x. by destruct x.
      * rewrite lookup_insert_ne by done. eauto.
    + cbn. split_and!; [done..|]. eexists. rewrite lookup_insert_eq. split; [done|]. cbn.
      by apply zchain_notin.
    + cbn. rewrite (fmap_state_same _ _ _ x); [done|done|by destruct x].
Qed.

Lemma aside_trans s1 s2 s3 : aside s1 s2 → aside s2 s3 → aside s1 s3.
Proof.
  intros [] []. split; try congruence. intros t x' Hx.
  destruct (as_owner1 _ _ Hx) as (y & Hy & ?). destruct (as_owner0 _ _ Hy) as (z & Hz & ?).
  exists z. split; [done|congruence].
Qed.

Lemma pick_spec s :
  rq_wf (ready_q (k_sched s)) →
  (∀ t, t ∈ contents (ready_q (k_sched s)) → t ≠ 0) →
  is_Some (k_threads s !! current (k_sched s)) →
  returns (pick_next s) (λ '(t, s'),
    ∃ q, s' = with_sched s (set_ready (k_sched s) q) ∧ rq_wf q ∧
      match contents (ready_q (k_sched s)) with
      | u :: l => t = u ∧ contents q = l
      | [] => contents q = [] ∧
          if (current (k_sched s) =? idle_thread (k_sched s)) &&
             bool_decide ((t_state <$> k_threads s) !! current (k_sched s) = Some THREAD_RUNNING)
          then t = 0 else t = idle_thread (k_sched s)
      end).
Proof.
  intros Hq Hnz [x Hx]. unfold pick_next.
  destruct (q_pop_spec _ Hq) as (t & q & -> & Hq' & Ht). rewrite bind_Ret.
  destruct (contents (ready_q (k_sched s))) as [|u l] eqn:Ec; destruct Ht as [-> Ht].
  - subst q. cbn [negb Z.eqb]. unfold get_thread. cbn. rewrite Hx. cbn [deref]. rewrite bind_Ret.
    rewrite lookup_fmap, Hx. cbn.
    replace (bool_decide (Some (t_state x) = Some THREAD_RUNNING))
      with (bool_decide (t_state x = THREAD_RUNNING)) by (apply bool_decide_ext; split; congruence).
    destruct (_ && _); by eexists.
  - destruct (Z.eqb_spec u 0) as [->|]; [by destruct (Hnz 0 ltac:(set_solver))|]. cbn [negb].
    eexists. split; [done|]. by split_and!.
Qed.

(** The end of [sched_switch], for the next thread [t]. *)
Lemma run_spec s s1 (v : view) l dead1 t :
  aside s s1 → rq_wf (ready_q (k_sched s1)) → contents (ready_q (k_sched s1)) = l →
  zchain (k_threads s1) (zombies (k_sched s1)) dead1 →
  v_cur v = current (k_sched s) → v_idle v = idle_thread (k_sched s) →
  is_Some (k_threads s1 !! t) → is_Some (k_threads s1 !! current (k_sched s)) →
  (∀ t x, k_threads s !! t = Some x → t_owner x ≠ 0 →
    ∃ o, k_procs s !! t_owner x = Some o ∧
      (p_space o = 0 ∨ is_Some (mm_spaces (k_mm s) !! p_space o))) →
  returns (if t =? current (k_sched s) then
             p ← get_thread s1 (current (k_sched s));
             Ret (put_thread s1 (current (k_sched s)) (set_tstate p THREAD_RUNNING))
           else switch_to s1 (current (k_sched s)) t) (λ s',
    abs s' dead1 = v_run v l dead1 t (t_state <$> k_threads s1) ∧
    rq_wf (ready_q (k_sched s')) ∧ zchain (k_threads s') (zombies (k_sched s')) dead1 ∧
    (∀ t x', k_threads s' !! t = Some x' →
       ∃ x, k_threads s !! t = Some x ∧ t_owner x' = t_owner x) ∧
    k_procs s' = k_procs s ∧ mm_spaces (k_mm s') = mm_spaces (k_mm s) ∧
    proc_zombies s' = proc_zombies s ∧ enabled (k_sched s') = enabled (k_sched s) ∧
    (current (k_sched s') = current (k_sched s) → k_ctx s' = k_ctx s) ∧
    (current (k_sched s') ≠ current (k_sched s) → entered s s')).
Proof.
  intros Ha Hq Hl Hz Ec Ei [n Hn] [p Hp] Ho. destruct (Z.eqb_spec t (current (k_sched s))) as [->|Hne].
  - unfold get_thread. rewrite Hp. cbn [deref]. rewrite bind_Ret. cbn.
    split; [|split; [done|split; [|split; [|split; [apply Ha|split; [by rewrite (as_mm _ _ Ha)|
      split; [apply Ha|split; [apply Ha|split; [intros _; apply Ha|by rewrite (as_cur _ _ Ha)]]]]]]]]].
    + unfold abs, v_run. cbn. rewrite fmap_state_insert, (as_cur _ _ Ha), (as_idle _ _ Ha), Hl, Ei. done.
    + apply zchain_insert; [done|]. rewrite Hp. intros y [= <-]. by destruct p.
    + intros u x'. destruct (decide (u = current (k_sched s))) as [->|].
      * rewrite lookup_insert_eq. intros [= <-]. destruct (as_owner _ _ Ha _ _ Hp) as (x & ? & ?).
        exists x. by destruct p.
      * rewrite lookup_insert_ne by done. apply Ha.
  - eapply returns_mono; [apply (switch_to_spec s1 _ t p n); [done..|by rewrite (as_cur _ _ Ha)|]|].
    { intros Hno. destruct (as_owner _ _ Ha _ _ Hn) as (x & Hx & Ex). rewrite Ex in *.
      rewrite (as_procs _ _ Ha), (as_mm _ _ Ha). by apply (Ho t x). }
    intros s' ([rsp Et] & Es & Epr & Esp & Epz & Hen). rewrite Es, Et, Epr, Esp. cbn.
    split; [|split; [done|split; [|split; [|split; [apply Ha|split; [by rewrite (as_mm _ _ Ha)|
      split; [rewrite Epz; apply Ha|split; [apply Ha|split; [done|]]]]]]]]].
    + unfold abs, v_run. rewrite Es, Et. cbn. rewrite !fmap_state_insert, (as_idle _ _ Ha), Hl, Ei.
      f_equal. cbn. rewrite insert_insert_ne by done. f_equal. apply insert_id.
      by rewrite lookup_fmap, Hp.
    + apply zchain_insert; [apply zchain_insert; [done|]|].
      * rewrite Hn. intros y [= <-]. by destruct n.
      * rewrite lookup_insert_ne, Hp by done. intros y [= <-]. by destruct p.
    + intros u x'. destruct (decide (u = current (k_sched s))) as [->|].
      * rewrite lookup_insert_eq. intros [= <-]. destruct (as_owner _ _ Ha _ _ Hp) as (x & ? & ?).
        exists x. by destruct p.
      * rewrite lookup_insert_ne by done. destruct (decide (u = t)) as [->|].
        -- rewrite lookup_insert_eq. intros [= <-]. destruct (as_owner _ _ Ha _ _ Hn) as (x & ? & ?).
           exists x. by destruct n.
        -- rewrite lookup_insert_ne by done. apply Ha.
    + intros _. destruct Hen as [He1 He2]. rewrite (as_cur _ _ Ha), (as_ctx _ _ Ha) in He2. by split.
Qed.

(** One switch of the scheduler is one step of the abstract one. *)
Definition switch_post s dead s' : Prop :=
  ∃ dead', sched_inv s' dead' ∧ abs s' dead' = abs_switch (abs s dead) ∧
    k_procs s' = k_procs s ∧ mm_spaces (k_mm s') = mm_spaces (k_mm s) ∧
    proc_zombies s' = proc_zombies s ∧ enabled (k_sched s') = enabled (k_sched s) ∧
    (current (k_sched s') = current (k_sched s) → k_ctx s' = k_ctx s) ∧
    (current (k_sched s') ≠ current (k_sched s) → entered s s').

Lemma abs_switch_parked v :
  abs_switch v =
    match parked_ready v with
    | t :: l => v_run v l (parked_dead v) t (parked_state v)
    | [] => if v_idle v =? 0 then View [] (v_cur v) (v_idle v) (parked_dead v) (parked_state v)
            else v_run v [] (parked_dead v) (v_idle v) (parked_state v)
    end.
Proof. done. Qed.

Lemma sched_switch_step s dead :
  sched_inv s dead → (length (contents (ready_q (k_sched s))) < 64)%nat →
  returns (sched_switch s) (switch_post s dead).
Proof.
  intros Hi Hl. pose proof (park_spec s dead Hi Hl) as Hp. pose proof Hi as [Hq Hv Hz Ho].
  pose proof (abs_switch_ok _ Hv) as Hv'.
  unfold sched_switch. apply returns_iff in Hp as (o & -> & Hp). rewrite bind_Ret.
  destruct o as [s1|].
  2:{ destruct Hp as [Hb Hr]. exists dead. split; [done|].
      split; [symmetry; by apply abs_switch_alone|]. by split_and!. }
  destruct Hp as (Ha & Hq1 & Hc1 & Hz1 & Hst). set (v := abs s dead) in *.
  assert (Hsome : ∀ t, is_Some (parked_state v !! t) → is_Some (k_threads s1 !! t)).
  { intros t. rewrite <- Hst, lookup_fmap. by destruct (k_threads s1 !! t); [eauto|intros []]. }
  assert (Hst0 : ∀ t, is_Some (v_state v !! t) → is_Some (parked_state v !! t)).
  { intros t Ht. unfold parked_state. destruct (_ && _); [|done].
    destruct (decide (t = v_cur v)) as [->|]; [rewrite lookup_insert_eq; eauto|].
    by rewrite lookup_insert_ne by congruence. }
  destruct (vo_cur _ Hv) as (Hcu0 & Hcs & Hcr & _). destruct (vo_idle _ Hv) as (_ & Hi0 & His & _).
  assert (Hin : ∀ t, t ∈ parked_ready v → t ≠ 0 ∧ is_Some (k_threads s1 !! t)).
  { intros t Ht. assert (t = v_cur v ∨ t ∈ v_ready v) as [->|Hr].
    { unfold parked_ready in Ht. destruct (_ && _); set_solver. }
    - auto.
    - destruct (vo_ready _ Hv t Hr) as [? E]. split; [done|]. apply Hsome, Hst0. by rewrite E. }
  assert (Hp : is_Some (k_threads s1 !! current (k_sched s))) by (apply Hsome, Hst0, Hcs).
  pose proof (pick_spec s1 Hq1) as Hk. rewrite (as_cur _ _ Ha) in Hk.
  specialize (Hk ltac:(rewrite Hc1; naive_solver) Hp). rewrite Hc1 in Hk.
  apply returns_iff in Hk as ([t s2] & -> & q & -> & Hq2 & Hk). rewrite bind_Ret.
  set (s2 := with_sched s1 (set_ready (k_sched s1) q)) in *.
  assert (Ha2 : aside s s2) by (eapply aside_trans; [exact Ha|]; split; eauto).
  assert (Hfin : ∀ l, contents q = l → is_Some (k_threads s1 !! t) →
    abs_switch v = v_run v l (parked_dead v) t (parked_state v) →
    returns (if t =? current (k_sched s) then
             p ← get_thread s2 (current (k_sched s));
             Ret (put_thread s2 (current (k_sched s)) (set_tstate p THREAD_RUNNING))
           else switch_to s2 (current (k_sched s)) t) (switch_post s dead)).
  { intros l Hql Ht Hab. eapply returns_mono;
      [by apply (run_spec s s2 v l (parked_dead v) t)|]. cbn beta.
    intros s' (Hv2 & Hq' & Hz' & Hown & Epr & Esp & Hrest). rewrite <- Hst in Hab.
    change (k_threads s2) with (k_threads s1) in Hv2. rewrite <- Hab in Hv2.
    exists (parked_dead v). split; [|by rewrite Epr, Esp].
    split; [done|by rewrite Hv2|done|].
    intros u x' Hu Hu0. destruct (Hown _ _ Hu) as (x & Hx & E). rewrite E, Epr, Esp in *. eauto. }
  pose proof (abs_switch_parked v) as Hab.
  destruct (parked_ready v) as [|u l] eqn:Er.
  - destruct (Z.eqb_spec (v_idle v) 0); [done|].
    destruct Hk as [Hqe Hk]. rewrite Hst in Hk. rewrite (as_idle _ _ Ha) in Hk.
    change (v_idle v) with (idle_thread (k_sched s)) in *.
    destruct (Z.eqb_spec (current (k_sched s)) (idle_thread (k_sched s))) as [Ei|Ei].
    + case_bool_decide as Erun; cbn [andb] in Hk; subst t.
      * cbn [Z.eqb]. assert (Hab' : abs s2 (parked_dead v) = abs_switch v).
        { rewrite Hab. unfold abs, v_run. cbn. rewrite (as_cur _ _ Ha), (as_idle _ _ Ha), Hqe, Hst.
          rewrite <- Ei in *. f_equal. symmetry. by apply insert_id. }
        exists (parked_dead v). split; [|split; [done|]].
        -- split; [done|by rewrite Hab'|done|]. intros u x' Hu Hu0.
           destruct (as_owner _ _ Ha2 _ _ Hu) as (x & Hx & E). rewrite E in *.
           rewrite (as_procs _ _ Ha2), (as_mm _ _ Ha2). eauto.
        -- destruct Ha2. rewrite as_mm0. by split_and!.
      * rewrite <- Ei in *. destruct (Z.eqb_spec (current (k_sched s)) 0); [done|].
        by apply Hfin with (l := []).
    + cbn [andb] in Hk. subst t. destruct (Z.eqb_spec (idle_thread (k_sched s)) 0); [done|].
      apply Hfin with (l := []); [done|by apply Hsome, Hst0|done].
  - destruct Hk as [-> Hql]. destruct (Hin u ltac:(set_solver)) as [Hu0 Hu].
    destruct (Z.eqb_spec u 0); [done|]. by apply Hfin with (l := l).
Qed.

(** C14. The scheduler implements round robin.  Whatever state the running thread
    is in, [sched_switch] returns, preserves the scheduler's invariant, and
    changes queue, running thread, dead list and thread states exactly as the
    abstract scheduler [abs_switch] does: a running thread goes to the back of the
    queue, a blocked one leaves it, a dead one joins the zombies, the front of the
    queue (or the idle thread) runs.  When another thread runs, the context that
    thread was last switched out with is loaded, its address space and its kernel
    stack are installed, and the old context can be loaded back; processes and
    address spaces are untouched. *)
Theorem sched_switch_refines s dead :
  sched_inv s dead → (length (contents (ready_q (k_sched s))) < 64)%nat →
  returns (sched_switch s) (λ s', ∃ dead',
    sched_inv s' dead' ∧ abs s' dead' = abs_switch (abs s dead) ∧
    k_procs s' = k_procs s ∧ mm_spaces (k_mm s') = mm_spaces (k_mm s) ∧
    (current (k_sched s') = current (k_sched s) → k_ctx s' = k_ctx s) ∧
    (current (k_sched s') ≠ current (k_sched s) → entered s s')).
Proof.
  intros Hi Hl. eapply returns_mono; [by apply sched_switch_step|].
  intros s' (dead' & ? & ? & ? & ? & _ & _ & ? & ?). exists dead'. by split_and!.
Qed.

(** [sched_yield] called [n] times. *)
Fixpoint yields (n : nat) s : res (ks H) :=
  match n with
  | O => Ret s
  | S n => s ← sched_yield s; yields n s
  end.

(** The scheduler is on, no one waits to be buried, and an ordinary thread runs. *)
Record calm s : Prop := {
  ca_inv : sched_inv s [];
  ca_on : enabled (k_sched s) = true;
  ca_pz : proc_zombies s = 0;
  ca_busy : busy (abs s []);
  ca_room : (length (contents (ready_q (k_sched s))) < 64)%nat;
}.

Lemma calm_yield s : calm s → sched_yield s = sched_switch s.
Proof.
  intros [[_ _ Hz _] Hon Hpz _ _]. unfold sched_yield. rewrite Hon. cbn [negb].
  cbn in Hz. unfold reap_zombies. cbn [reap_loop]. rewrite Hz. cbn [Z.eqb]. rewrite bind_Ret.
  unfold process_reap_zombies. rewrite Hpz. cbn. done.
Qed.

Lemma calm_step s t l :
  calm s → contents (ready_q (k_sched s)) = t :: l →
  returns (sched_yield s) (λ s', calm s' ∧
    contents (ready_q (k_sched s')) = l ++ [current (k_sched s)] ∧
    current (k_sched s') = t ∧ entered s s').
Proof.
  intros Hc Hl. rewrite calm_yield by done. destruct Hc as [Hi Hon Hpz Hb Hr].
  eapply returns_mono; [by apply sched_switch_step|].
  intros s' (dead' & Hi' & Hab & _ & _ & Epz & Een & _ & Hen).
  destruct (abs_switch_rotates (abs s []) t l (si_view _ _ Hi) Hb Hl) as (Er & Ec & Ed & Eid & _ & Hb').
  rewrite <- Hab in *. cbn in Er, Ec, Ed. subst dead'. rewrite Hl in Hr. cbn in Hr.
  split; [|split; [done|split; [done|]]].
  - split; [done|congruence|congruence|done|]. rewrite Er, length_app. cbn. lia.
  - apply Hen. rewrite Ec. intros ->. destruct (vo_cur _ (si_view _ _ Hi)) as (_ & _ & Hn & _).
    cbn in Hn. rewrite Hl in Hn. set_solver.
Qed.

(** C15. No ready thread starves: with an ordinary thread on the CPU and nothing
    to bury, the thread at position [k] of the ready queue runs after exactly
    [k + 1] calls of [sched_yield], and it runs from the context it was switched
    out with. *)
Theorem sched_yield_fair s k t :
  calm s → contents (ready_q (k_sched s)) !! k = Some t →
  returns (yields (S k) s) (λ s', current (k_sched s') = t ∧
    ∃ x, k_threads s' !! t = Some x ∧ t_state x = THREAD_RUNNING ∧
      k_ctx s' = ctx_load (k_ram s') (t_rsp x)).
Proof.
  revert s. induction k as [|k IH]; intros s Hc Hk;
    destruct (contents (ready_q (k_sched s))) as [|u l] eqn:El; try done; cbn in Hk;
    cbn [yields]; destruct (proj1 (returns_iff _ _) (calm_step s u l Hc El))
      as (s' & -> & Hc' & El' & Ecur & Hen); rewrite bind_Ret.
  - injection Hk as <-. split; [done|]. destruct (en_next _ _ Hen) as (x & Hx & Ex & _).
    rewrite Ecur in Hx. exists x. split_and!; [done| |done].
    destruct (ca_busy _ Hc') as [Hs _]. cbn in Hs. rewrite Ecur, lookup_fmap, Hx in Hs.
    by injection Hs.
  - apply IH; [done|]. rewrite El', lookup_app_l; [done|]. by eapply lookup_lt_Some.
Qed.
End refine.

(** ** A concrete scheduler: thread 0x100 runs, 0x200 and 0x300 are ready, 0x400
    is the idle thread *)

#[local] Instance demo_code : KernelCode := {|
  thread_trampoline := 0x1000;
  user_thread_trampoline := 0x2000;
  fork_child_return_addr := 0x3000;
|}.
Definition demo_thread (st : thread_state) (rsp : Z) : thread :=
  Thread 1 [] st rsp 0 0 false 0 zero_state 0 0 0.
Definition demo_mm : mm kheap :=
  MM ∅ (PhysMem None 0 [] 0 0) kheap_init ∅ ∅ (Paging 0 0) 0 0.
Definition demo_sched : ks kheap :=
  Ks demo_mm
    {[ 0x100 := demo_thread THREAD_RUNNING 0; 0x200 := demo_thread THREAD_READY 0x6000;
       0x300 := demo_thread THREAD_READY 0x7000; 0x400 := demo_thread THREAD_READY 0x8000 ]}
    ∅ (Sched (Rq ([0x200; 0x300] ++ replicate 62 0) 0 2 2) 0x50 0x100 0x400 0 true 0 0)
    0 0 1 1 (Ctx 0x4000 0x202 1 2 3 4 5 6 0x9000) 0 0.

Lemma demo_inv : sched_inv demo_sched [].
Proof.
  split.
  - split; [reflexivity|vdone|vdone|reflexivity].
  - split.
    + split_and!; [discriminate|by eexists|..]; apply (bool_decide_unpack _); by vm_compute.
    + intros t Ht. change (t ∈ [0x200; 0x300]) in Ht.
      repeat (apply elem_of_cons in Ht as [->|Ht]; [done|]). by apply elem_of_nil in Ht.
    + intros t Ht. by apply elem_of_nil in Ht.
    + split; apply (bool_decide_unpack _); by vm_compute.
    + split_and!; [apply (bool_decide_unpack _); by vm_compute|discriminate|by eexists|by vm_compute].
    + by vm_compute.
  - reflexivity.
  - intros t x Hx. unfold demo_sched in Hx. cbn [k_threads] in Hx.
    repeat (apply lookup_insert_Some in Hx as [[<- <-]|[_ Hx]]; [done|]).
    apply lookup_singleton_Some in Hx as [<- <-]. done.
Qed.

Lemma sched_switch_witness :
  returns (sched_switch demo_sched) (λ s',
    current (k_sched s') = 0x200 ∧ contents (ready_q (k_sched s')) = [0x300; 0x100]).
Proof.
  eapply returns_mono; [apply (sched_switch_refines demo_sched [] demo_inv); vm_compute; lia|].
  intros s' (dead' & _ & E & _). split.
  - exact (f_equal v_cur E).
  - exact (f_equal v_ready E).
Defined.

Lemma sched_yield_witness :
  returns (yields 2 demo_sched) (λ s', current (k_sched s') = 0x300).
Proof.
  assert (Hc : calm demo_sched).
  { split; [exact demo_inv|reflexivity|reflexivity| |vm_compute; lia]. split; [by vm_compute|discriminate]. }
  eapply returns_mono; [exact (sched_yield_fair demo_sched 1 0x300 Hc eq_refl)|].
  intros s' [E _]. exact E.
Defined.
