(* ===== verification/Threads.v ===== *)
(** Theorems on creating threads and on the life of processes. *)
From S2P Require Import Prelude Interfaces Ram PhysMem DList Kheap Paging Vmm RunQueue Space Context.
From S2P Require Import Proc.

Section threads.
Context {H : Type} `{HA : HeapAlloc H} `{KC : KernelCode}.
Implicit Types (s : ks H).

Definition heap_size s (p : Z) : option Z := ka_size (mm_heap (k_mm s)) p.
Definition heap_ok s : Prop := ka_inv (mm_heap (k_mm s)).

(** Every thread but the static one is a live block of the heap, and so is its
    stack. *)
Definition thread_live s (t : Z) (x : thread) : Prop :=
  (t = bootstrap (k_sched s) ∨ is_Some (heap_size s t)) ∧
  (t_stack_base x ≠ 0 → ∃ n, heap_size s (t_stack_base x) = Some n ∧ THREAD_STACK_SIZE ≤ n).

Record store_ok s : Prop := {
  st_heap : heap_ok s;
  st_live t x : k_threads s !! t = Some x → thread_live s t x;
  st_boot : ¬ (ka_lo ≤ bootstrap (k_sched s) ≤ ka_hi);
  st_queue : rq_wf (ready_q (k_sched s));
}.

(** The saved context of thread [x] lies in its own stack. *)
Definition saved_in_stack (x : thread) : Prop :=
  t_stack_base x ≠ 0 ∧ t_stack_base x ≤ t_rsp x ∧ t_rsp x + 64 ≤ t_stack_base x + THREAD_STACK_SIZE.

Lemma k_alloc_spec s n :
  heap_ok s → 0 < n < 2 ^ 63 →
  returns (k_alloc s n) (λ '(p, s'),
    ∃ h, s' = with_mm s (with_heap (k_mm s) h) ∧ ka_inv h ∧
      (p = 0 ∧ s' = s ∨
       p ≠ 0 ∧ heap_size s p = None ∧ (∃ m, n ≤ m ∧ ka_size h p = Some m) ∧
       ∀ q, q ≠ p → ka_size h q = heap_size s q)).
Proof.
  intros Hi Hn. unfold k_alloc. destruct (proj1 (returns_iff _ _) (ka_malloc_spec _ n Hi Hn))
    as ([p h] & -> & Hh & Hp). rewrite bind_Ret. exists h. split; [done|]. split; [done|].
  destruct Hp as [[-> ->]|Hp]; [left|by right]. split; [done|]. by destruct s as [[]].
Qed.

Lemma k_free_spec s p n :
  heap_ok s → heap_size s p = Some n →
  returns (k_free s p) (λ s',
    ∃ h, s' = with_mm s (with_heap (k_mm s) h) ∧ ka_inv h ∧ ka_size h p = None ∧
       ∀ q, q ≠ p → ka_size h q = heap_size s q).
Proof.
  intros Hi Hn. unfold k_free. destruct (proj1 (returns_iff _ _) (ka_free_spec _ p n Hi Hn))
    as (h & -> & Hh & Hp). rewrite bind_Ret. by exists h.
Qed.

(** A thread object at address [t] whose fields are [x], linked into its owner. *)
Definition linked s s' (owner t : Z) (x : thread) : Prop :=
  if owner =? 0 then k_threads s' = <[t := x]> (k_threads s) ∧ k_procs s' = k_procs s
  else ∃ o, k_procs s !! owner = Some o ∧
    k_threads s' = <[t := set_proc_next x (p_threads o)]> (k_threads s) ∧
    k_procs s' = <[owner := set_pthreads o t (i32 (p_thread_count o + 1))
                                             (i32 (p_alive_count o + 1))]> (k_procs s).

(** What a successful creation gives: [words] is the frame the new thread starts
    with. *)
Record created s s' (owner t : Z) (words : list Z) (x : thread) : Prop := {
  cr_fresh : t ≠ 0 ∧ k_threads s !! t = None;
  cr_linked : linked s s' owner t x;
  cr_state : t_state x = THREAD_READY ∧ t_tid x = next_tid s ∧ t_owner x = owner ∧
    next_tid s' = u64 (next_tid s + 1);
  cr_queue : contents (ready_q (k_sched s')) =
    if decide (length (contents (ready_q (k_sched s))) < 64)%nat
    then contents (ready_q (k_sched s)) ++ [t] else contents (ready_q (k_sched s));
  cr_frame : ctx_words (ctx_load (k_ram s') (t_rsp x)) = words ∧
    c_rsp (ctx_load (k_ram s') (t_rsp x)) = t_stack_base x + THREAD_STACK_SIZE ∧
    saved_in_stack x;
  cr_ok : store_ok s';
  cr_others u y : k_threads s !! u = Some y → saved_in_stack y →
    ctx_load (k_ram s') (t_rsp y) = ctx_load (k_ram s) (t_rsp y);
}.

Lemma sched_add_spec s t x :
  t ≠ 0 → k_threads s !! t = Some x → t_state x = THREAD_READY → rq_wf (ready_q (k_sched s)) →
  returns (sched_add s t) (λ s', ∃ q, s' = with_sched s (set_ready (k_sched s) q) ∧ rq_wf q ∧
    contents q = if decide (length (contents (ready_q (k_sched s))) < 64)%nat
                 then contents (ready_q (k_sched s)) ++ [t] else contents (ready_q (k_sched s))).
Proof.
  intros Ht Hx Hst Hq. unfold sched_add, get_thread. destruct (Z.eqb_spec t 0); [done|].
  rewrite Hx. cbn [deref]. rewrite bind_Ret.
  replace (put_thread s t (set_tstate x THREAD_READY)) with s.
  2:{ unfold put_thread. rewrite insert_id; [by destruct s|]. rewrite Hx, <- Hst. by destruct x. }
  destruct (q_push_spec (ready_q (k_sched s)) t Hq) as (q & -> & Hq' & Hc). rewrite bind_Ret.
  exists q. split; [done|]. split; [done|]. rewrite Hc. pose proof (length_contents _ Hq).
  zcase; case_decide; try done; lia.
Qed.

Lemma adopt_spec s owner t x :
  (owner ≠ 0 → is_Some (k_procs s !! owner)) →
  returns (if owner =? 0 then Ret (put_thread s t x) else adopt_thread s owner t x) (λ s',
    linked s s' owner t x ∧ k_sched s' = k_sched s ∧ k_mm s' = k_mm s ∧ next_tid s' = next_tid s).
Proof.
  intros Ho. unfold linked. destruct (Z.eqb_spec owner 0); [done|].
  destruct (Ho n) as [o Eo]. unfold adopt_thread, get_proc. rewrite Eo. cbn [deref].
  rewrite bind_Ret. cbn. split; [|done]. by exists o.
Qed.

(** Threads stay live as long as the blocks of the heap do. *)
Lemma thread_live_mono s s' t x :
  bootstrap (k_sched s') = bootstrap (k_sched s) →
  (∀ p n, heap_size s p = Some n → heap_size s' p = Some n) →
  thread_live s t x → thread_live s' t x.
Proof.
  intros Eb Hm [Ht Hs]. split.
  - rewrite Eb. destruct Ht as [|[n Hn]]; [by left|right]. rewrite (Hm _ _ Hn). eauto.
  - intros H0. destruct (Hs H0) as (n & Hn & ?). exists n. split; [by apply Hm|done].
Qed.

Lemma store_ok_heap s h :
  store_ok s → ka_inv h → (∀ p n, heap_size s p = Some n → ka_size h p = Some n) →
  store_ok (with_mm s (with_heap (k_mm s) h)).
Proof.
  intros [Hh Hl Hb Hq] Hi Hs. split; [done| |done|done].
  intros t x Hx. eapply (thread_live_mono s); [done|exact Hs|]. by apply Hl.
Qed.

Lemma linked_threads s s' owner t x :
  linked s s' owner t x →
  ∃ x', k_threads s' = <[t := x']> (k_threads s) ∧ t_stack_base x' = t_stack_base x ∧
    t_state x' = t_state x.
Proof.
  unfold linked. destruct (owner =? 0).
  - intros [-> _]. eauto.
  - intros (o & _ & -> & _). by exists (set_proc_next x (p_threads o)).
Qed.

(** Contexts saved in other stacks survive the write of a fresh one. *)
Lemma other_context h (m m' : ram) stack n y k :
  ka_inv h → ka_size h stack = Some n → THREAD_STACK_SIZE ≤ n →
  ka_size h (t_stack_base y) = Some k → THREAD_STACK_SIZE ≤ k → t_stack_base y ≠ stack →
  saved_in_stack y →
  (∀ b, ¬ (stack ≤ b < stack + THREAD_STACK_SIZE) → ld8 m' b = ld8 m b) →
  ctx_load m' (t_rsp y) = ctx_load m (t_rsp y).
Proof.
  intros Hi Hn Hn' Hk Hk' Hne (_ & Hr & Hr') Ho.
  destruct (ka_disjoint _ _ _ _ _ Hi Hn Hk); [congruence| |];
    destruct (ka_size_bounds _ _ _ Hi Hk) as (? & ? & ?); pose proof (@ka_range H HA);
    unfold THREAD_STACK_SIZE in *; (apply ctx_load_ext; [lia|lia|]); intros b Hb; apply Ho; lia.
Qed.

(** The end of [new_thread], once both blocks are there. *)
Lemma fill_thread s s2 h owner t stack n x m' words :
  store_ok s → (owner ≠ 0 → is_Some (k_procs s !! owner)) →
  s2 = with_ids (with_mm s (with_mem (with_heap (k_mm s) h) m' (mm_frames (k_mm s))))
         (next_pid s) (u64 (next_tid s + 1)) →
  ka_inv h → (∀ p n, heap_size s p = Some n → ka_size h p = Some n) →
  t ≠ 0 → heap_size s t = None → is_Some (ka_size h t) →
  heap_size s stack = None → ka_size h stack = Some n → THREAD_STACK_SIZE ≤ n →
  t_stack_base x = stack → t_rsp x = stack + 16320 →
  t_state x = THREAD_READY ∧ t_tid x = next_tid s ∧ t_owner x = owner →
  ctx_words (ctx_load m' (t_rsp x)) = words →
  c_rsp (ctx_load m' (t_rsp x)) = stack + THREAD_STACK_SIZE →
  (∀ b, ¬ (stack ≤ b < stack + THREAD_STACK_SIZE) → ld8 m' b = ld8 (k_ram s) b) →
  returns (s ← (if owner =? 0 then Ret (put_thread s2 t x) else adopt_thread s2 owner t x);
           s ← sched_add s t; Ret (t, s))
    (λ '(t', s'), t' = t ∧ created s s' owner t words x).
Proof.
  intros [Hh Hl Hb Hq] Ho -> Hi Hs Ht0 Htn Hts Hkn Hk Hkn' Ex Er (Est & Etid & Eow) Hw Hsp Hout.
  assert (Hfresh : k_threads s !! t = None).
  { destruct (k_threads s !! t) as [y|] eqn:E; [|done]. destruct (Hl _ _ E) as [[->|[? ?]] _]; [|congruence].
    destruct Hts as [k Hts]. destruct (ka_size_bounds _ _ _ Hi Hts) as (? & ? & ?).
    pose proof (@ka_range H HA). exfalso. apply Hb. lia. }
  set (s2 := with_ids _ _ _).
  destruct (proj1 (returns_iff _ _) (adopt_spec s2 owner t x Ho)) as (s3 & -> & Hlk & Esc & Emm & Enx).
  rewrite bind_Ret. destruct (linked_threads _ _ _ _ _ Hlk) as (x' & Eth & Eb & Est').
  destruct (proj1 (returns_iff _ _) (sched_add_spec s3 t x' Ht0 ltac:(by rewrite Eth, lookup_insert_eq)
    ltac:(congruence) ltac:(by rewrite Esc))) as (s4 & -> & q & -> & Hq' & Hc).
  rewrite bind_Ret. split; [done|]. rewrite Esc in *.
  assert (Hram : k_ram (with_sched s3 (set_ready (k_sched s3) q)) = m').
  { unfold k_ram. cbn. by rewrite Emm. }
  split.
  - done.
  - unfold linked in *. destruct (owner =? 0); [done|]. destruct Hlk as (o & ? & ? & ?). by exists o.
  - by rewrite Est.
  - exact Hc.
  - rewrite <- Esc, Hram, Ex. split; [done|]. split; [done|]. unfold saved_in_stack. rewrite Ex, Er.
    destruct (ka_size_bounds _ _ _ Hi Hk) as (? & ? & ?). pose proof (@ka_range H HA).
    unfold THREAD_STACK_SIZE. lia.
  - assert (Hz : heap_size (with_sched s3 (set_ready (k_sched s3) q)) = ka_size h).
    { unfold heap_size. cbn. by rewrite Emm. }
    rewrite <- Esc. split; [unfold heap_ok; cbn; by rewrite Emm| |cbn; by rewrite Esc|done].
    cbn. intros u y Hu. rewrite Eth in Hu. apply lookup_insert_Some in Hu as [[<- <-]|[_ Hu]].
    + split; [right; by rewrite Hz|]. intros _. rewrite Hz, Eb, Ex. eauto.
    + eapply (thread_live_mono s); [cbn; by rewrite Esc|by rewrite Hz|by apply Hl].
  - intros u y Hu Hy. rewrite <- Esc, Hram. destruct (Hl _ _ Hu) as [_ Hsy].
    destruct (Hsy (proj1 Hy)) as (k & Hk1 & Hk2).
    eapply other_context; [exact Hi|exact Hk|done|by apply Hs|done|congruence|done|done].
Qed.

Lemma new_thread_spec s owner name tramp entry arg ustack user :
  store_ok s → (owner ≠ 0 → is_Some (k_procs s !! owner)) →
  let words := [tramp; INITIAL_RFLAGS; 0; 0; entry; arg; ustack; 0] in
  Forall (λ v, 0 ≤ v < 2 ^ 64) words →
  returns (new_thread s owner name tramp entry arg ustack user) (λ '(t, s'),
    if t =? 0 then ∃ h, s' = with_mm s (with_heap (k_mm s) h) ∧ store_ok s'
    else ∃ x, created s s' owner t words x ∧ t_name x = copy_name 31 name ∧
      t_is_user x = user ∧ (user = true → t_kstack_top x = t_stack_base x + THREAD_STACK_SIZE)).
Proof.
  intros Hok Ho words Hw. pose proof (st_heap _ Hok) as Hh. unfold new_thread.
  destruct (proj1 (returns_iff _ _) (k_alloc_spec s 256 Hh ltac:(lia)))
    as ([t s1] & -> & h1 & -> & Hh1 & Ht). rewrite bind_Ret.
  destruct (Z.eqb_spec t 0) as [->|Ht0].
  { exists h1. split; [done|]. destruct Ht as [[_ E]|[? _]]; [by rewrite E|done]. }
  destruct Ht as [[? _]|(_ & Htn & (mt & _ & Hts) & Hto)]; [done|].
  set (s1 := with_mm s (with_heap (k_mm s) h1)).
  destruct (proj1 (returns_iff _ _) (k_alloc_spec s1 THREAD_STACK_SIZE Hh1 ltac:(vdone)))
    as ([stack s2] & -> & h2 & -> & Hh2 & Hst). rewrite bind_Ret.
  destruct (Z.eqb_spec stack 0) as [->|Hs0].
  { destruct Hst as [[_ E]|[? _]]; [|done]. rewrite E.
    destruct (proj1 (returns_iff _ _) (k_free_spec s1 t mt Hh1 Hts)) as (s3 & -> & h3 & -> & Hh3 & _ & Hf).
    rewrite bind_Ret. exists h3. split; [by destruct s as [[]]|].
    apply (store_ok_heap s h3); [done|done|]. intros p n Hp.
    assert (p ≠ t) by congruence. rewrite Hf by done. unfold heap_size, s1. cbn. by rewrite Hto. }
  destruct Hst as [[? _]|(_ & Hkn & (n & Hn & Hk) & Hko)]; [done|].
  change (heap_size s1) with (ka_size h1) in *.
  assert (Hs12 : ∀ p k, ka_size h1 p = Some k → ka_size h2 p = Some k).
  { intros p k Hp. rewrite Hko; [done|congruence]. }
  assert (Hs01 : ∀ p k, heap_size s p = Some k → ka_size h1 p = Some k).
  { intros p k Hp. rewrite Hto; [done|congruence]. }
  assert (Hkn' : heap_size s stack = None).
  { destruct (heap_size s stack) as [k|] eqn:E; [|done]. apply Hs01 in E. congruence. }
  set (s2 := with_mm s1 (with_heap (k_mm s1) h2)). unfold thread_alloc_tid.
  destruct (initial_frame _ _ _ _ _ _) as [m' rsp] eqn:Ef.
  destruct (ka_size_bounds _ _ _ Hh2 Hk) as (Hb1 & Hb2 & Hb3). pose proof (@ka_range H HA) as Hr.
  destruct (frame_ctx (k_ram s) stack words m' rsp) as (-> & Hfw & Hfs & Hfo);
    [lia|unfold THREAD_STACK_SIZE in *; lia|done|done|exact Ef|].
  set (x := Thread _ _ _ _ _ _ _ _ _ _ _ _).
  eapply returns_mono; [apply (fill_thread s _ h2 owner t stack n x m' words Hok Ho)|]; try done.
  - intros p k Hp. by apply Hs12, Hs01.
  - rewrite (Hs12 _ _ Hts). eauto.
  - intros [t' s'] [-> Hc]. destruct (Z.eqb_spec t 0); [done|]. exists x. split; [done|].
    split_and!; [done|done|]. intros ->. cbn. unfold THREAD_STACK_SIZE in *. rewrite u64_small; lia.
Qed.

(** Creating a thread.  When memory runs out both functions return [NULL] and
    leave the kernel as it was, up to the heap.  Otherwise the thread is a fresh
    object, ready, with the next thread id, first in its owner's list, and at the
    back of the ready queue (unless 64 threads wait there).  The first switch to
    it enters the trampoline on the new stack with the entry point in [r12], the
    argument in [r13], the user stack in [r14] and interrupts off; a user thread
    names the top of that stack as its kernel stack.  No context saved in
    another thread's stack changes. *)
Theorem thread_create_spec s owner name entry arg top :
  store_ok s → (owner ≠ 0 → is_Some (k_procs s !! owner)) → entry ≠ 0 →
  Forall (λ v, 0 ≤ v < 2 ^ 64) [thread_trampoline; user_thread_trampoline; entry; arg; top] →
  let frame tramp top := [tramp; INITIAL_RFLAGS; 0; 0; entry; arg; top; 0] in
  returns (thread_create s owner name entry arg) (λ '(t, s'),
    if t =? 0 then ∃ h, s' = with_mm s (with_heap (k_mm s) h) ∧ store_ok s'
    else ∃ x, created s s' owner t (frame thread_trampoline 0) x ∧ t_is_user x = false) ∧
  (owner ≠ 0 → returns (thread_create_user s owner name entry arg top) (λ '(t, s'),
    if t =? 0 then ∃ h, s' = with_mm s (with_heap (k_mm s) h) ∧ store_ok s'
    else ∃ x, created s s' owner t (frame user_thread_trampoline top) x ∧ t_is_user x = true ∧
      t_kstack_top x = t_stack_base x + THREAD_STACK_SIZE)).
Proof.
  intros Hok Ho He Hw frame. rewrite !Forall_cons in Hw. destruct Hw as (H1 & H2 & H3 & H4 & H5 & _).
  assert (Hf : ∀ tr u, 0 ≤ tr < 2 ^ 64 → 0 ≤ u < 2 ^ 64 → Forall (λ v, 0 ≤ v < 2 ^ 64) (frame tr u)).
  { intros. unfold frame, INITIAL_RFLAGS. rewrite !Forall_cons. split_and!; try lia. done. }
  unfold thread_create, thread_create_user. destruct (Z.eqb_spec entry 0); [done|]. split.
  - eapply returns_mono; [apply new_thread_spec; [done|done|apply Hf; [done|lia]]|].
    intros [t s']. destruct (t =? 0); [done|]. intros (x & ? & _ & ? & _). eauto.
  - intros Ho0. destruct (Z.eqb_spec owner 0); [done|].
    eapply returns_mono; [apply new_thread_spec; [done|done|by apply Hf]|].
    intros [t s']. destruct (t =? 0); [done|]. intros (x & ? & _ & ? & ?). eauto 6.
Qed.
End threads.
