(* ===== verification/Process.v ===== *)
(** Theorems on the life of a process: the two process lists, exit, wait and
    capabilities. *)
From S2P Require Import Prelude Interfaces Ram PhysMem DList Kheap Paging Vmm RunQueue Space Context.
From S2P Require Import Proc Threads.

Section process.
Context {H : Type} `{HA : HeapAlloc H}.
Implicit Types (s : ks H) (ps : gmap Z proc).

(** The processes linked through [next] from [p] on. *)
Fixpoint pchain ps (p : Z) (l : list Z) : Prop :=
  match l with
  | [] => p = 0
  | q :: l => p = q ∧ q ≠ 0 ∧ ∃ x, ps !! q = Some x ∧ pchain ps (p_next x) l
  end.

(** The list at [head] and the list at [proc_zombies]. *)
Record plists s (alive zs : list Z) : Prop := {
  pl_alive : pchain (k_procs s) (p_head s) alive;
  pl_zombies : pchain (k_procs s) (proc_zombies s) zs;
  pl_nodup : NoDup (alive ++ zs);
}.

Lemma pchain_notin ps p l q x : pchain ps p l → q ∉ l → pchain (<[q := x]> ps) p l.
Proof.
  revert p. induction l as [|u l IH]; intros p; cbn; [done|].
  intros (-> & Hu & y & Hy & Hc) Hn. split_and!; [done..|]. exists y.
  rewrite lookup_insert_ne by set_solver. split; [done|]. apply IH; [done|set_solver].
Qed.

Lemma pchain_same ps p l q x :
  pchain ps p l → (∀ y, ps !! q = Some y → p_next x = p_next y) → pchain (<[q := x]> ps) p l.
Proof.
  intros Hc Hx. revert p Hc. induction l as [|u l IH]; intros p; cbn; [done|].
  intros (-> & Hu & y & Hy & Hc). split_and!; [done..|]. destruct (decide (u = q)) as [->|].
  - exists x. rewrite lookup_insert_eq, (Hx y Hy). auto.
  - exists y. rewrite lookup_insert_ne by done. auto.
Qed.

Lemma pchain_delete ps p l q : pchain ps p l → q ∉ l → pchain (delete q ps) p l.
Proof.
  revert p. induction l as [|u l IH]; intros p; cbn; [done|].
  intros (-> & Hu & y & Hy & Hc) Hn. split_and!; [done..|]. exists y.
  rewrite lookup_delete_ne by set_solver. split; [done|]. apply IH; [done|set_solver].
Qed.

Lemma pchain_app ps p l q r :
  pchain ps p (l ++ q :: r) →
  q ≠ 0 ∧ ∃ x, ps !! q = Some x ∧ pchain ps (p_next x) r.
Proof.
  revert p. induction l as [|u l IH]; intros p; cbn.
  - intros (-> & ? & x & ? & ?). eauto.
  - intros (_ & _ & x & _ & Hc). by eapply IH.
Qed.

(** Redirecting the last element of a prefix. *)
Lemma pchain_cut ps p l u q r x :
  pchain ps p (l ++ u :: q :: r) → NoDup (l ++ u :: q :: r) → ps !! u = Some x →
  ∀ n, pchain ps n r → pchain (<[u := set_pnext x n]> ps) p (l ++ u :: r).
Proof.
  revert p. induction l as [|v l IH]; intros p; cbn.
  - intros (-> & Hu & y & Hy & Hc) Hnd Hx n Hn. split_and!; [done..|].
    eexists. rewrite lookup_insert_eq. split; [done|]. cbn. apply pchain_notin; [done|].
    apply NoDup_cons in Hnd as [Hnd _]. set_solver.
  - intros (-> & Hv & y & Hy & Hc) Hnd Hx n Hn. apply NoDup_cons in Hnd as [Hvn Hnd].
    split_and!; [done..|]. exists y. rewrite lookup_insert_ne by set_solver.
    split; [done|]. by apply IH.
Qed.

Lemma pchain_length ps p l : pchain ps p l → NoDup l → (length l ≤ size ps)%nat.
Proof.
  intros Hc Hnd. replace (size ps) with (size (dom ps)) by apply size_dom.
  rewrite <- (size_list_to_set (C := gset Z) l Hnd). apply subseteq_size.
  intros q Hq. apply elem_of_list_to_set in Hq. apply list_elem_of_split in Hq as (l1 & l2 & ->).
  apply pchain_app in Hc as (_ & x & Hx & _). apply elem_of_dom. eauto.
Qed.

(** What unlinking [q] from [l ++ q :: r] does to the processes: nothing, or the
    [next] field of [q]'s predecessor changes. *)
Definition unlinked ps ps' (l r : list Z) (hd hd' : Z) : Prop :=
  pchain ps' hd' (l ++ r) ∧
  ∀ u, ps' !! u = ps !! u ∨ u ∈ l ∧ ∃ x n, ps !! u = Some x ∧ ps' !! u = Some (set_pnext x n).

Lemma unlink_proc_spec fuel ps hd done_ q r l prev cur :
  pchain ps hd (done_ ++ l ++ q :: r) → NoDup (done_ ++ l ++ q :: r) →
  pchain ps cur (l ++ q :: r) → prev = default 0 (last done_) →
  (length l < fuel)%nat →
  returns (unlink_proc fuel ps hd q prev cur) (λ o,
    ∃ ps' hd', o = Some (ps', hd') ∧ unlinked ps ps' (done_ ++ l) r hd hd').
Proof.
  revert done_ prev cur fuel. induction l as [|u l IH]; intros dn prev cur fuel Hc Hnd Hcur Hprev Hf.
  - destruct fuel as [|fuel]; [cbn in Hf; lia|]. cbn [app] in *.
    destruct (pchain_app _ _ _ _ _ Hc) as (Hq0 & x & Hx & Hr). cbn [unlink_proc].
    destruct Hcur as (-> & _). destruct (Z.eqb_spec q 0); [done|].
    rewrite Hx. cbn [deref]. rewrite bind_Ret, Z.eqb_refl. rewrite app_nil_r.
    destruct dn as [|v dn _] using rev_ind.
    + subst prev. cbn. eexists _, _. split; [done|]. split; [done|]. by left.
    + rewrite last_snoc in Hprev. cbn in Hprev. subst prev.
      rewrite <- app_assoc in Hc. rewrite <- app_assoc in Hnd. cbn in Hc, Hnd.
      destruct (pchain_app _ _ _ _ _ Hc) as (Hv0 & y & Hy & _).
      destruct (Z.eqb_spec v 0); [done|]. rewrite Hy. cbn [deref]. rewrite bind_Ret.
      eexists _, _. split; [done|]. split.
      * rewrite <- app_assoc. by eapply pchain_cut.
      * intros w. destruct (decide (w = v)) as [->|].
        -- right. split; [set_solver|]. rewrite lookup_insert_eq. eauto.
        -- left. by rewrite lookup_insert_ne.
  - destruct fuel as [|fuel]; [cbn in Hf; lia|]. cbn [app unlink_proc] in *.
    destruct Hcur as (-> & Hu0 & x & Hx & Hcur). destruct (Z.eqb_spec u 0); [done|].
    rewrite Hx. cbn [deref]. rewrite bind_Ret.
    destruct (Z.eqb_spec u q) as [->|].
    { exfalso. apply NoDup_app in Hnd as (_ & _ & Hnd). apply NoDup_cons in Hnd as [Hnd _]. set_solver. }
    eapply returns_mono; [apply (IH (dn ++ [u]))|].
    + by rewrite <- app_assoc.
    + by rewrite <- app_assoc.
    + done.
    + by rewrite last_snoc.
    + cbn in Hf. lia.
    + intros o Ho. by rewrite <- app_assoc in Ho.
Qed.

Lemma unlink_head_spec s l q r :
  pchain (k_procs s) (p_head s) (l ++ q :: r) → NoDup (l ++ q :: r) →
  returns (unlink_head s q) (λ o,
    ∃ ps' hd', o = Some (ps', hd') ∧ unlinked (k_procs s) ps' l r (p_head s) hd').
Proof.
  intros Hc Hnd. apply (unlink_proc_spec _ _ _ []); try done.
  pose proof (pchain_length _ _ _ Hc Hnd) as Hl. rewrite length_app in Hl. cbn in Hl. lia.
Qed.

(** Everything of a process but its place in a list. *)
Definition same_proc (x y : proc) : Prop := set_pnext x 0 = set_pnext y 0.
Definition same_procs (P : Z → Prop) ps ps' : Prop :=
  ∀ u, P u → match ps !! u, ps' !! u with
             | Some x, Some y => same_proc x y
             | None, None => True
             | _, _ => False
             end.

Lemma same_proc_refl x : same_proc x x.
Proof. done. Qed.

Lemma unlinked_same ps ps' l r hd hd' : unlinked ps ps' l r hd hd' → same_procs (λ _, True) ps ps'.
Proof.
  intros [_ Hu] u _. destruct (Hu u) as [->|(_ & x & n & -> & ->)]; [by destruct (ps !! u)|].
  by destruct x.
Qed.

Lemma pchain_ext ps ps' p l :
  pchain ps p l → (∀ u, u ∈ l → ps' !! u = ps !! u) → pchain ps' p l.
Proof.
  revert p. induction l as [|u l IH]; intros p; cbn; [done|].
  intros (-> & Hu & y & Hy & Hc) He. split_and!; [done..|]. exists y.
  rewrite He by set_solver. split; [done|]. apply IH; [done|set_solver].
Qed.

Lemma process_exit_step s l p r zs x code :
  plists s (l ++ p :: r) zs → k_procs s !! p = Some x → p_state x = PROC_ALIVE →
  returns (process_exit s p code) (λ s',
    plists s' (l ++ r) (p :: zs) ∧
    k_procs s' !! p = Some (set_pnext (set_exit x PROC_ZOMBIE code) (proc_zombies s)) ∧
    same_procs (λ u, u ≠ p) (k_procs s) (k_procs s') ∧
    k_mm s' = k_mm s ∧ k_threads s' = k_threads s ∧ k_sched s' = k_sched s).
Proof.
  intros [Ha Hz Hnd] Hx Hal. unfold process_exit, get_proc.
  destruct (pchain_app _ _ _ _ _ Ha) as (Hp0 & _). destruct (Z.eqb_spec p 0); [done|].
  rewrite Hx. cbn [deref]. rewrite bind_Ret, bool_decide_true by done. cbn [negb].
  set (y := set_exit x PROC_ZOMBIE code). set (s1 := put_proc s p y).
  assert (Hsame : ∀ z, k_procs s !! p = Some z → p_next y = p_next z)
    by (rewrite Hx; intros z [= <-]; by destruct x).
  assert (Hnd1 : NoDup (l ++ p :: r)) by (by apply NoDup_app in Hnd as (? & _)).
  assert (Ha1 : pchain (k_procs s1) (p_head s1) (l ++ p :: r)) by (by apply pchain_same).
  assert (Hz1 : pchain (k_procs s1) (proc_zombies s) zs) by (by apply pchain_same).
  destruct (proj1 (returns_iff _ _) (unlink_head_spec s1 l p r Ha1 Hnd1))
    as (o & -> & ps' & hd' & -> & Hul). rewrite bind_Ret.
  pose proof (unlinked_same _ _ _ _ _ _ Hul) as Hus. destruct Hul as [Hul Hu].
  assert (Hpn : p ∉ l ++ r ∧ p ∉ zs).
  { rewrite <- app_assoc in Hnd. apply NoDup_app in Hnd as (_ & Hn1 & Hn2).
    cbn in Hn2. apply NoDup_cons in Hn2 as [Hn2 _]. set_solver. }
  assert (Hpy : ps' !! p = Some y).
  { destruct (Hu p) as [->|[? _]]; [apply lookup_insert_eq|set_solver]. }
  cbn. rewrite Hpy. cbn [deref]. rewrite bind_Ret. cbn.
  split; [|split; [by rewrite lookup_insert_eq|split; [|done]]].
  - split; cbn.
    + apply pchain_notin; [done|apply Hpn].
    + split_and!; [done..|]. eexists. rewrite lookup_insert_eq. split; [done|]. cbn.
      apply pchain_notin; [|apply Hpn]. eapply pchain_ext; [exact Hz1|].
      intros u Hu'. destruct (Hu u) as [?|[Hul' _]]; [done|]. exfalso.
      apply NoDup_app in Hnd as (_ & Hn & _). apply (Hn u); set_solver.
    + assert (Hp : (l ++ r) ++ p :: zs ≡ₚ (l ++ p :: r) ++ zs) by solve_Permutation.
      by rewrite Hp.
  - intros u Hu'. cbn. rewrite lookup_insert_ne by done. pose proof (Hus u I) as Hq.
    unfold s1 in Hq. cbn in Hq. by rewrite lookup_insert_ne in Hq by done.
Qed.

(** C17. Exiting.  [process_exit] moves a living process from the process list to
    the front of the zombie list, whatever its position, records the exit code,
    and leaves every other process, all threads and all memory as they are; on
    [NULL], or on a process that is not alive, it does nothing. *)
Theorem process_exit_spec s l p r zs x code :
  plists s (l ++ p :: r) zs → k_procs s !! p = Some x →
  returns (process_exit s p code) (λ s',
    if decide (p_state x = PROC_ALIVE) then
      plists s' (l ++ r) (p :: zs) ∧
      k_procs s' !! p = Some (set_pnext (set_exit x PROC_ZOMBIE code) (proc_zombies s)) ∧
      same_procs (λ u, u ≠ p) (k_procs s) (k_procs s') ∧
      k_mm s' = k_mm s ∧ k_threads s' = k_threads s ∧ k_sched s' = k_sched s
    else s' = s).
Proof.
  intros Hl Hx. case_decide as Hs; [by apply process_exit_step|].
  unfold process_exit, get_proc. destruct (p =? 0); [done|]. rewrite Hx. cbn [deref].
  by rewrite bind_Ret, bool_decide_false.
Qed.

(** ** Waiting *)

(** The test of [process_waitpid]. *)
Definition pid_match (target : Z) (c : proc) : bool :=
  (target =? -1) || (u64 target =? p_pid c).

(** The memory state after the space of a process was given back. *)
Definition space_dropped (m m' : mm H) (sp : Z) : Prop :=
  if (sp =? 0) || (sp =? vmm_get_kernel_space m) then m' = m else vmm_space_destroy m sp = Ret m'.

Lemma drop_proc_space_spec s sp m :
  space_dropped (k_mm s) m sp → drop_proc_space s sp = Ret (with_mm s m).
Proof.
  unfold space_dropped, drop_proc_space. destruct (_ || _).
  - intros ->. by destruct s.
  - intros ->. done.
Qed.

Lemma last_cons_app {A} (l : list A) x d : default d (last (l ++ [x])) = x.
Proof. by rewrite last_snoc. Qed.

(** Taking zombie [z] out of the list and freeing it. *)
Lemma bury_spec s l z r alive c m n :
  plists s alive (l ++ z :: r) → k_procs s !! z = Some c →
  space_dropped (k_mm s) m (p_space c) → ka_inv (mm_heap m) → ka_size (mm_heap m) z = Some n →
  returns (s ← unlink_zombie s (default 0 (last l)) (p_next c);
           s ← drop_proc_space s (p_space c);
           free_proc (put_proc s z (set_exit c PROC_DEAD (p_exit_code c))) z) (λ s',
    plists s' alive (l ++ r) ∧ k_procs s' !! z = None ∧
    same_procs (λ u, u ≠ z) (k_procs s) (k_procs s') ∧
    k_threads s' = k_threads s ∧ k_sched s' = k_sched s ∧
    ka_size (mm_heap (k_mm s')) z = None ∧
    ∀ q, q ≠ z → ka_size (mm_heap (k_mm s')) q = ka_size (mm_heap m) q).
Proof.
  intros [Ha Hz Hnd] Hc Hd Hi Hn.
  assert (Hn1 : NoDup (l ++ z :: r) ∧ (∀ u, u ∈ alive → u ∉ l ++ z :: r)).
  { apply NoDup_app in Hnd as (_ & ? & ?). done. }
  destruct Hn1 as [Hn1 Hn2].
  assert (Hzn : z ∉ l ++ r).
  { apply NoDup_app in Hn1 as (_ & ? & Hx). apply NoDup_cons in Hx as [? _]. set_solver. }
  destruct (pchain_app _ _ _ _ _ Hz) as (Hz0 & x & Hx & Hr). assert (x = c) as -> by congruence.
  assert (Hun : ∃ s1, unlink_zombie s (default 0 (last l)) (p_next c) = Ret s1 ∧
    pchain (k_procs s1) (proc_zombies s1) (l ++ r) ∧ p_head s1 = p_head s ∧
    k_mm s1 = k_mm s ∧ k_threads s1 = k_threads s ∧ k_sched s1 = k_sched s ∧
    same_procs (λ _, True) (k_procs s) (k_procs s1) ∧
    ∀ u, u ∉ l → k_procs s1 !! u = k_procs s !! u).
  { destruct l as [|v l _] using rev_ind.
    - cbn. eexists. split; [done|]. split_and!; try done. intros u _. cbn. by destruct (k_procs s !! u).
    - rewrite last_cons_app. rewrite <- app_assoc in Hz. rewrite <- app_assoc in Hn1. cbn in Hz, Hn1.
      destruct (pchain_app _ _ _ _ _ Hz) as (Hv0 & y & Hy & _). unfold unlink_zombie, get_proc.
      destruct (Z.eqb_spec v 0); [done|]. rewrite Hy. cbn [deref]. rewrite bind_Ret.
      eexists. split; [done|]. split_and!; try done.
      + rewrite <- app_assoc. by eapply pchain_cut.
      + intros u _. cbn. destruct (decide (u = v)) as [->|].
        * rewrite lookup_insert_eq, Hy. by destruct y.
        * rewrite lookup_insert_ne by done. by destruct (k_procs s !! u).
      + intros u Hu. cbn. rewrite lookup_insert_ne; [done|]. set_solver. }
  destruct Hun as (s1 & -> & Hz1 & Eh & Em & Et & Es & Hsm & Hout). rewrite bind_Ret.
  rewrite (drop_proc_space_spec s1 (p_space c) m) by by rewrite Em. rewrite bind_Ret.
  unfold free_proc. set (s2 := put_proc _ _ _).
  destruct (proj1 (returns_iff _ _) (k_free_spec s2 z n Hi Hn)) as (s3 & -> & h & -> & Hh & Hf & Hq).
  rewrite bind_Ret. cbn. rewrite delete_insert_eq.
  split; [|split; [apply lookup_delete_eq|split; [|done]]].
  - split; cbn.
    + rewrite Eh. apply pchain_delete; [|intros Hx'; apply (Hn2 z); [done|set_solver]].
      eapply pchain_ext; [exact Ha|]. intros u Hu. apply Hout. specialize (Hn2 u Hu). set_solver.
    + by apply pchain_delete.
    + apply NoDup_app. apply NoDup_app in Hnd as (? & _ & _). split; [done|].
      split; [intros u Hu; specialize (Hn2 u Hu); set_solver|].
      apply NoDup_app in Hn1 as (H1 & H2 & H3). apply NoDup_cons in H3 as [_ H3].
      apply NoDup_app. split; [done|]. split; [intros u Hu; specialize (H2 u Hu); set_solver|done].
  - intros u Hu. rewrite lookup_delete_ne by done. by apply Hsm.
Qed.

Lemma waitpid_loop_spec fuel s target alive l z r c m n dn cur :
  plists s alive ((dn ++ l) ++ z :: r) → pchain (k_procs s) cur (l ++ z :: r) →
  Forall (λ u, ∀ y, k_procs s !! u = Some y → pid_match target y = false) l →
  k_procs s !! z = Some c → pid_match target c = true →
  space_dropped (k_mm s) m (p_space c) → ka_inv (mm_heap m) → ka_size (mm_heap m) z = Some n →
  (length l < fuel)%nat →
  returns (waitpid_loop fuel s target (default 0 (last dn)) cur) (λ '(rv, out, s'),
    rv = 0 ∧ out = Some (p_exit_code c) ∧
    plists s' alive ((dn ++ l) ++ r) ∧ k_procs s' !! z = None ∧
    same_procs (λ u, u ≠ z) (k_procs s) (k_procs s') ∧
    k_threads s' = k_threads s ∧ k_sched s' = k_sched s ∧
    ka_size (mm_heap (k_mm s')) z = None ∧
    ∀ q, q ≠ z → ka_size (mm_heap (k_mm s')) q = ka_size (mm_heap m) q).
Proof.
  revert dn cur fuel. induction l as [|u l IH]; intros dn cur fuel Hl Hcur Hno Hc Hm Hd Hi Hn Hf;
    (destruct fuel as [|fuel]; [cbn in Hf; lia|]); cbn [app waitpid_loop] in *.
  - destruct Hcur as (-> & Hz0 & _). destruct (Z.eqb_spec z 0); [done|].
    unfold get_proc at 1. rewrite Hc. cbn [deref]. rewrite bind_Ret.
    unfold pid_match in Hm. rewrite Hm. rewrite app_nil_r in *.
    pose proof (bury_spec s dn z r alive c m n Hl Hc Hd Hi Hn) as Hb.
    destruct (unlink_zombie _ _ _) as [s1| | |]; [|by destruct Hb..].
    rewrite bind_Ret. rewrite bind_Ret in Hb.
    destruct (drop_proc_space _ _) as [s2| | |]; [|by destruct Hb..].
    rewrite bind_Ret. rewrite bind_Ret in Hb.
    destruct (free_proc _ _) as [s3| | |]; [done|by destruct Hb..].
  - destruct Hcur as (-> & Hu0 & y & Hy & Hcur). apply Forall_cons in Hno as [Hnu Hno].
    destruct (Z.eqb_spec u 0); [done|]. unfold get_proc at 1. rewrite Hy. cbn [deref]. rewrite bind_Ret.
    specialize (Hnu y Hy). unfold pid_match in Hnu. rewrite Hnu.
    cbn in Hf. assert (E : dn ++ u :: l = (dn ++ [u]) ++ l) by by rewrite <- app_assoc. rewrite E in Hl |- *.
    pose proof (IH (dn ++ [u]) (p_next y) fuel Hl Hcur Hno Hc Hm Hd Hi Hn ltac:(lia)) as IH'.
    by rewrite last_cons_app in IH'.
Qed.

Lemma waitpid_none fuel s target l p :
  pchain (k_procs s) p l →
  Forall (λ u, ∀ y, k_procs s !! u = Some y → pid_match target y = false) l →
  (length l < fuel)%nat → ∀ prev, waitpid_loop fuel s target prev p = Ret (-1, None, s).
Proof.
  revert p fuel. induction l as [|u l IH]; intros p fuel Hc Hno Hf prev;
    (destruct fuel as [|fuel]; [cbn in Hf; lia|]); cbn [waitpid_loop].
  - cbn in Hc. by subst p.
  - destruct Hc as (-> & Hu0 & y & Hy & Hc). apply Forall_cons in Hno as [Hnu Hno].
    destruct (Z.eqb_spec u 0); [done|]. unfold get_proc at 1. rewrite Hy. cbn [deref].
    rewrite bind_Ret. specialize (Hnu y Hy). unfold pid_match in Hnu. rewrite Hnu.
    apply IH; [done|done|]. cbn in Hf. lia.
Qed.

Lemma zombies_fuel s alive zs : plists s alive zs → (length zs < S (size (k_procs s)))%nat.
Proof.
  intros [_ Hz Hnd]. apply NoDup_app in Hnd as (_ & _ & Hnd).
  pose proof (pchain_length _ _ _ Hz Hnd). lia.
Qed.

(** Waiting.  [process_waitpid] finds the first zombie the target matches
    ([-1] matches every zombie): it returns 0 and the zombie's exit code, takes
    the zombie out of its list, gives its address space back and frees its
    object; the other processes keep everything but their links.  When no zombie
    matches it returns -1 and changes nothing.  Its first argument, the parent,
    has no influence. *)
Theorem process_waitpid_spec s parent target alive zs :
  plists s alive zs →
  (∀ l z r c m n, zs = l ++ z :: r →
    Forall (λ u, ∀ y, k_procs s !! u = Some y → pid_match target y = false) l →
    k_procs s !! z = Some c → pid_match target c = true →
    space_dropped (k_mm s) m (p_space c) → ka_inv (mm_heap m) → ka_size (mm_heap m) z = Some n →
    returns (process_waitpid s parent target) (λ '(rv, out, s'),
      rv = 0 ∧ out = Some (p_exit_code c) ∧
      plists s' alive (l ++ r) ∧ k_procs s' !! z = None ∧
      same_procs (λ u, u ≠ z) (k_procs s) (k_procs s') ∧
      k_threads s' = k_threads s ∧ k_sched s' = k_sched s ∧
      ka_size (mm_heap (k_mm s')) z = None ∧
      ∀ q, q ≠ z → ka_size (mm_heap (k_mm s')) q = ka_size (mm_heap m) q)) ∧
  (Forall (λ u, ∀ y, k_procs s !! u = Some y → pid_match target y = false) zs →
    process_waitpid s parent target = Ret (-1, None, s)).
Proof.
  intros Hl. pose proof (zombies_fuel _ _ _ Hl) as Hf. split.
  - intros l z r c m n -> Hno Hc Hm Hd Hi Hn. rewrite length_app in Hf. cbn in Hf.
    apply (waitpid_loop_spec _ s target alive l z r c m n []); try done; [apply Hl|lia].
  - intros Hno. apply (waitpid_none _ s target zs); [apply Hl|done|done].
Qed.

(** ** Capabilities *)

Lemma land_lor_absorb a b : Z.land (Z.lor a b) b = b.
Proof. apply Z.bits_inj'. intros n _. rewrite Z.land_spec, Z.lor_spec. by destruct (Z.testbit a n), (Z.testbit b n). Qed.

(** Capabilities are sets of bits: a granted capability is held, a revoked
    one is not (unless it is empty), granting and revoking one set leaves every
    disjoint capability as it was, and no other process is affected. *)
Theorem process_cap_spec s p x cap other :
  p ≠ 0 → k_procs s !! p = Some x → 0 ≤ cap < 2 ^ 64 →
  0 ≤ other < 2 ^ 64 → Z.land cap other = 0 →
  let check b s' := process_has_cap s' p cap = Ret b ∧
    process_has_cap s' p other = process_has_cap s p other ∧
    ∀ q, q ≠ p → k_procs s' !! q = k_procs s !! q in
  returns (process_grant_cap s p cap) (check true) ∧
  returns (process_revoke_cap s p cap) (check (cap =? 0)).
Proof.
  intros Hp Hx Hcap Hot Hd check. unfold check, process_grant_cap, process_revoke_cap,
    process_has_cap, get_proc. destruct (Z.eqb_spec p 0); [done|].
  rewrite Hx. cbn [deref]. rewrite !bind_Ret. cbn. rewrite !lookup_insert_eq. cbn [deref].
  rewrite !bind_Ret. cbn.
  split; split_and!.
  - by rewrite land_lor_absorb, Z.eqb_refl.
  - by rewrite Z.land_lor_distr_l, Hd, Z.lor_0_r.
  - intros q Hq. by rewrite lookup_insert_ne.
  - by rewrite <- Z.land_assoc, land_not64_self, Z.land_0_r, Z.eqb_sym.
  - by rewrite <- Z.land_assoc, land_not64_disjoint.
  - intros q Hq. by rewrite lookup_insert_ne.
Qed.
End process.

(** ** A kernel with two processes, one of them a zombie with a thread left *)

#[local] Instance demo_kernel_code : KernelCode := {|
  thread_trampoline := 0x1000;
  user_thread_trampoline := 0x2000;
  fork_child_return_addr := 0x3000;
|}.
Definition kernel0 : ks kheap :=
  Ks (MM ∅ (PhysMem None 0 [] 0 0) kheap_init ∅ {[0x700 := Space 0 0 0 0]} (Paging 0 0) 0x700 0)
    {[0x50 := Thread 0 [] THREAD_RUNNING 0 0 0 false 0 zero_state 0 0 0]} ∅
    (Sched (q_init (Rq (replicate 64 0) 0 0 0)) 0x50 0x50 0 0 true 0 0)
    0 0 1 1 (Ctx 0x4000 0x202 1 2 3 4 5 6 0x9000) 0 0.

(** Two processes, the second with one thread, which exits; nobody has buried the
    thread yet. *)
Definition parent_child : res (Z * Z * ks kheap) :=
  '(p, s) ← process_create kernel0 [112];
  '(c, s) ← process_create s [99];
  '(t, s) ← thread_create s c [116] 0x8000 0;
  s ← sched_yield s;
  s ← thread_exit s;
  Ret (p, c, s).

Lemma kernel0_ok : store_ok kernel0.
Proof.
  split.
  - eexists. apply kheap_init_inv.
  - intros t x Hx. unfold kernel0 in Hx. cbn [k_threads] in Hx.
    apply lookup_singleton_Some in Hx as [<- <-]. split; [by left|done].
  - intros [Hb _]. vm_compute in Hb. by destruct Hb.
  - split; [reflexivity|vdone|vdone|reflexivity].
Qed.

Lemma thread_create_witness :
  returns (thread_create kernel0 0 [116] 0x8000 7) (λ '(t, s'), t ≠ 0 →
    ∃ x, k_threads s' !! t = Some x ∧ c_r12 (ctx_load (k_ram s') (t_rsp x)) = 0x8000).
Proof.
  destruct (thread_create_spec kernel0 0 [116] 0x8000 7 0 kernel0_ok ltac:(done) ltac:(done)) as [H _].
  { repeat constructor; vdone. }
  eapply returns_mono; [exact H|]. intros [t s'] Hs Ht. cbv beta iota in Hs.
  destruct (Z.eqb_spec t 0); [contradiction|]. destruct Hs as (x & [] & _). exists x.
  destruct cr_linked as [-> _]. split; [apply lookup_insert_eq|].
  destruct cr_frame as [Hf _]. injection Hf. intros. assumption.
Defined.

(** Reaping a zombie that still has a thread leaves that thread with a dangling
    owner: burying the thread then reads the freed process.  Without the wait the
    scheduler buries both in the right order. *)
Example waitpid_use_after_free :
  is_ret ('(p, c, s) ← parent_child; sched_yield s) = true ∧
  ('(p, c, s) ← parent_child; '(rv, _, s) ← process_waitpid s p (-1); sched_yield s) = Undef.
Proof. split; vm_compute; reflexivity. Qed.

Definition family : ks kheap := match parent_child with Ret (_, _, s) => s | _ => kernel0 end.
Definition family_proc (p : Z) : proc :=
  default (Proc 0 [] PROC_DEAD 0 0 0 0 0 0 0 0 0 [] 0) (k_procs family !! p).
Definition parent_addr : Z := p_head family.
Definition child_addr : Z := proc_zombies family.

Lemma family_lists : plists family [parent_addr] [child_addr].
Proof.
  split.
  - cbn. split; [done|]. split; [by vm_compute|]. exists (family_proc parent_addr).
    split; vm_compute; reflexivity.
  - cbn. split; [done|]. split; [by vm_compute|]. exists (family_proc child_addr).
    split; vm_compute; reflexivity.
  - apply (bool_decide_unpack _). vm_compute. done.
Qed.

(** The heap after an allocation. *)
Definition after_malloc (h : kheap) (n : Z) : kheap :=
  match kmalloc h n with Ret (_, h') => h' | _ => h end.

Lemma after_malloc_inv h n : ka_inv h → 0 < n < 2 ^ 63 → ka_inv (after_malloc h n).
Proof.
  intros Hi Hn. unfold after_malloc.
  destruct (proj1 (returns_iff _ _) (ka_malloc_spec h n Hi Hn)) as ([p h'] & E & Hh & _).
  change (kmalloc h n = Ret (p, h')) in E. by rewrite E.
Qed.

Lemma family_heap : ka_inv (mm_heap (k_mm family)).
Proof.
  assert (E : mm_heap (k_mm family) =
    after_malloc (after_malloc (after_malloc (after_malloc kheap_init 2184) 2184) 256) 16384)
    by (vm_compute; reflexivity).
  rewrite E. do 4 (apply after_malloc_inv; [|lia]). eexists. apply kheap_init_inv.
Qed.

Lemma process_waitpid_witness :
  returns (process_waitpid family parent_addr (-1)) (λ '(rv, out, s'), rv = 0 ∧ out = Some 0).
Proof.
  destruct (process_waitpid_spec family parent_addr (-1) _ _ family_lists) as [H _].
  eapply returns_mono; [apply (H [] child_addr [] (family_proc child_addr) (k_mm family) 2184)|].
  - reflexivity.
  - constructor.
  - vm_compute. reflexivity.
  - reflexivity.
  - unfold space_dropped. vm_compute. reflexivity.
  - exact family_heap.
  - vm_compute. reflexivity.
  - intros [[rv out] s'] (E1 & E2 & _). split; [exact E1|]. rewrite E2. vm_compute. reflexivity.
Defined.

Lemma process_exit_witness :
  returns (process_exit family parent_addr 7) (λ s', plists s' [] [parent_addr; child_addr]).
Proof.
  pose proof (process_exit_spec family [] parent_addr [] [child_addr] (family_proc parent_addr) 7
    family_lists ltac:(vm_compute; reflexivity)) as H.
  eapply returns_mono; [exact H|]. intros s' Hs.
  destruct (decide _) as [_|n]; [exact (proj1 Hs)|]. destruct n. vm_compute. reflexivity.
Defined.

Lemma process_cap_witness :
  returns (process_grant_cap family parent_addr 2) (λ s', process_has_cap s' parent_addr 2 = Ret true).
Proof.
  destruct (process_cap_spec family parent_addr (family_proc parent_addr) 2 1) as [H _];
    [vdone|vm_compute; reflexivity|vdone|vdone|reflexivity|].
  eapply returns_mono; [exact H|]. intros s' Hs. exact (proj1 Hs).
Defined.
