(* ===== verification/Vfs.v ===== *)
(** The virtual file system, [fs/vfs/vfs.c]: a tree of nodes in the kernel heap.
    Nodes are named by their addresses (0 is [NULL]); strings are lists of
    characters without the terminating 0. *)
From S2P Require Import Prelude Interfaces Ram.
Import MemLib.

Definition VFS_NAME_MAX : nat := 64.
Definition VFS_MAX_CHILDREN : nat := 64.
Definition VFS_MAX_FILE_SIZE : Z := 64 * 1024 * 1024.
Definition VFS_MAX_PATH : nat := 256.

Inductive vfs_type := VFS_FILE | VFS_DIRECTORY | VFS_DEVICE.
#[export] Instance vfs_type_eq_dec : EqDecision vfs_type.
Proof. solve_decision. Defined.

(** [vfs_node_t]; [sizeof] is 640.  [v_children] holds the first [child_count]
    entries of the array, the only ones that are read. *)
Record vnode := Vnode {
  v_name : list Z;
  v_type : vfs_type;
  v_data : Z;
  v_size : Z;
  v_capacity : Z;
  v_borrowed : bool;
  v_device : Z;
  v_parent : Z;
  v_children : list Z;
}.
Definition child_count (x : vnode) : nat := length (v_children x).

Definition set_children (x : vnode) (cs : list Z) : vnode :=
  Vnode (v_name x) (v_type x) (v_data x) (v_size x) (v_capacity x) (v_borrowed x) (v_device x)
    (v_parent x) cs.
Definition set_data (x : vnode) (data size capacity : Z) (borrowed : bool) : vnode :=
  Vnode (v_name x) (v_type x) data size capacity borrowed (v_device x) (v_parent x) (v_children x).
Definition set_device (x : vnode) (dev : Z) : vnode :=
  Vnode (v_name x) (v_type x) (v_data x) (v_size x) (v_capacity x) (v_borrowed x) dev
    (v_parent x) (v_children x).

(** [vfs_root], the nodes, and the heap and memory they live in. *)
Record vfs {H : Type} := Vfs {
  vfs_root : Z;
  vnodes : gmap Z vnode;
  vfs_heap : H;
  vfs_ram : ram;
}.
Arguments vfs : clear implicits.
Arguments Vfs {H}.

(** ** Paths *)

Definition SLASH : Z := 47.
Definition ROOT : list Z := [SLASH].

(** The loop that skips slashes. *)
Fixpoint skip_slashes (p : list Z) : list Z :=
  match p with
  | c :: q => if c =? SLASH then skip_slashes q else p
  | [] => []
  end.

(** The loop that copies one component into [token]: the token and the rest. *)
Fixpoint read_token (n : nat) (p : list Z) : list Z * list Z :=
  match n, p with
  | S n, c :: q => if c =? SLASH then ([], p) else
                   let '(t, r) := read_token n q in (c :: t, r)
  | _, _ => ([], p)
  end.

(** The position of the last slash. *)
Fixpoint last_slash (p : list Z) : option nat :=
  match p with
  | [] => None
  | c :: q => match last_slash q with
              | Some i => Some (S i)
              | None => if c =? SLASH then Some O else None
              end
  end.

(** [str_copy] into an array of [n] bytes: undefined when the string does not fit. *)
Definition str_copy_to (n : nat) (s : list Z) : res (list Z) :=
  if decide (length s < n)%nat then Ret s else Undef.

(** [vfs_split_path]: directory and file name. *)
Definition vfs_split_path (path : list Z) : res (list Z * list Z) :=
  match last_slash path with
  | None => f ← str_copy_to VFS_NAME_MAX path; Ret (ROOT, f)
  | Some O => f ← str_copy_to VFS_NAME_MAX (drop 1 path); Ret (ROOT, f)
  | Some i => f ← str_copy_to VFS_NAME_MAX (drop (S i) path);
              Ret (take (i `min` (VFS_MAX_PATH - 1)) path, f)
  end.

Section vfs.
Context {H : Type} `{HeapAlloc H}.
Implicit Types (s : vfs H).

Definition put_nodes s (ns : gmap Z vnode) : vfs H := Vfs (vfs_root s) ns (vfs_heap s) (vfs_ram s).
Definition put_vnode s (n : Z) (x : vnode) : vfs H := put_nodes s (<[n := x]> (vnodes s)).
Definition put_vheap s (h : H) : vfs H := Vfs (vfs_root s) (vnodes s) h (vfs_ram s).
Definition put_vram s (m : ram) : vfs H := Vfs (vfs_root s) (vnodes s) (vfs_heap s) m.
Definition get_vnode s (n : Z) : res vnode := deref (vnodes s !! n).

Definition v_malloc s (n : Z) : res (Z * vfs H) :=
  '(p, h) ← ka_malloc (vfs_heap s) n; Ret (p, put_vheap s h).
Definition v_free s (p : Z) : res (vfs H) :=
  h ← ka_free (vfs_heap s) p; Ret (put_vheap s h).

Definition node_alloc s : res (Z * vfs H) :=
  '(n, s) ← v_malloc s 640;
  if n =? 0 then Ret (0, s) else
  Ret (n, put_vnode s n (Vnode [] VFS_FILE 0 0 0 false 0 0 [])).

Definition vfs_init s : res (vfs H) :=
  '(n, s) ← node_alloc s;
  let s := Vfs n (vnodes s) (vfs_heap s) (vfs_ram s) in
  if n =? 0 then Ret s else
  Ret (put_vnode s n (Vnode ROOT VFS_DIRECTORY 0 0 0 false 0 0 [])).

Definition vfs_get_root s : Z := vfs_root s.

(** ** Looking names up *)

Fixpoint find_child s (name : list Z) (cs : list Z) : res Z :=
  match cs with
  | [] => Ret 0
  | c :: cs =>
      x ← get_vnode s c;
      if bool_decide (v_name x = name) then Ret c else find_child s name cs
  end.
Definition vfs_find_child s (dir : Z) (name : list Z) : res Z :=
  if dir =? 0 then Ret 0 else
  d ← get_vnode s dir; find_child s name (v_children d).

(** The loop of [vfs_find]; one unit of fuel per character is enough. *)
Fixpoint find_loop (fuel : nat) s (cur : Z) (p : list Z) : res Z :=
  match fuel with
  | O => NoFuel
  | S fuel =>
      match p with
      | [] => Ret cur
      | _ =>
          let '(token, p) := read_token (VFS_NAME_MAX - 1) p in
          if bool_decide (token = []) then Ret cur else
          next ← vfs_find_child s cur token;
          if next =? 0 then Ret 0 else find_loop fuel s next (skip_slashes p)
      end
  end.
Definition vfs_find s (path : list Z) : res Z :=
  if vfs_root s =? 0 then Ret 0 else
  if bool_decide (path = []) || bool_decide (path = ROOT) then Ret (vfs_root s) else
  find_loop (S (length path)) s (vfs_root s) (skip_slashes path).

(** ** Creating nodes *)

(** [vfs_create_node]: the node is allocated before the arguments are checked. *)
Definition vfs_create_node s (parent : Z) (name : list Z) (type : vfs_type) : res (Z * vfs H) :=
  existing ← vfs_find_child s parent name;
  '(n, s) ← node_alloc s;
  if (parent =? 0) || bool_decide (name = []) then Ret (0, s) else
  d ← get_vnode s parent;
  if negb (bool_decide (v_type d = VFS_DIRECTORY)) then Ret (0, s) else
  if negb (existing =? 0) then Ret (existing, s) else
  if bool_decide (VFS_MAX_CHILDREN ≤ child_count d)%nat then Ret (0, s) else
  if n =? 0 then Ret (0, s) else
  name ← str_copy_to VFS_NAME_MAX name;
  let s := put_vnode s n (Vnode name type 0 0 0 false 0 parent []) in
  Ret (n, put_vnode s parent (set_children d (v_children d ++ [n]))).

Fixpoint mkdir_loop (fuel : nat) s (cur : Z) (p : list Z) : res (Z * vfs H) :=
  match fuel with
  | O => NoFuel
  | S fuel =>
      match p with
      | [] => Ret (cur, s)
      | _ =>
          let '(token, p) := read_token (VFS_NAME_MAX - 1) p in
          if bool_decide (token = []) then Ret (cur, s) else
          next ← vfs_find_child s cur token;
          if next =? 0 then
            '(next, s) ← vfs_create_node s cur token VFS_DIRECTORY;
            if next =? 0 then Ret (0, s) else mkdir_loop fuel s next (skip_slashes p)
          else
            x ← get_vnode s next;
            if negb (bool_decide (v_type x = VFS_DIRECTORY)) then Ret (0, s)
            else mkdir_loop fuel s next (skip_slashes p)
      end
  end.
Definition vfs_mkdir s (path : list Z) : res (Z * vfs H) :=
  if vfs_root s =? 0 then Ret (0, s) else
  if bool_decide (path = []) || bool_decide (path = ROOT) then Ret (vfs_root s, s) else
  mkdir_loop (S (length path)) s (vfs_root s) (skip_slashes path).

(** [vfs_find], then [vfs_mkdir] when there is no such directory. *)
Definition find_or_mkdir s (dirpath : list Z) : res (Z * vfs H) :=
  dir ← vfs_find s dirpath;
  if dir =? 0 then vfs_mkdir s dirpath else Ret (dir, s).

Definition vfs_create_file s (path : list Z) : res (Z * vfs H) :=
  if vfs_root s =? 0 then Ret (0, s) else
  '(dirpath, fname) ← vfs_split_path path;
  if bool_decide (fname = []) then Ret (0, s) else
  '(dir, s) ← find_or_mkdir s dirpath;
  if dir =? 0 then Ret (0, s) else
  vfs_create_node s dir fname VFS_FILE.

Definition vfs_create_device s (path : list Z) (device : Z) : res (Z * vfs H) :=
  if (vfs_root s =? 0) || (device =? 0) then Ret (0, s) else
  '(dirpath, fname) ← vfs_split_path path;
  if bool_decide (fname = []) then Ret (0, s) else
  '(dir, s) ← find_or_mkdir s dirpath;
  if dir =? 0 then Ret (0, s) else
  '(n, s) ← vfs_create_node s dir fname VFS_DEVICE;
  if n =? 0 then Ret (0, s) else
  x ← get_vnode s n;
  Ret (n, put_vnode s n (set_device x device)).

(** ** Removing nodes *)

Fixpoint index_of (n : Z) (cs : list Z) : option nat :=
  match cs with
  | [] => None
  | c :: cs => if c =? n then Some O else S <$> index_of n cs
  end.

Definition vfs_remove s (path : list Z) : res (Z * vfs H) :=
  node ← vfs_find s path;
  if (node =? 0) || (node =? vfs_root s) then Ret (-1, s) else
  x ← get_vnode s node;
  let parent := v_parent x in
  if parent =? 0 then Ret (-1, s) else
  if bool_decide (v_type x = VFS_DIRECTORY) && bool_decide (0 < child_count x)%nat
  then Ret (-1, s) else
  d ← get_vnode s parent;
  match index_of node (v_children d) with
  | None => Ret (-1, s)
  | Some idx =>
      let s := put_vnode s parent (set_children d (delete idx (v_children d))) in
      s ← (if negb (v_data x =? 0) && negb (v_borrowed x) then v_free s (v_data x) else Ret s);
      s ← v_free s node;
      Ret (0, put_nodes s (delete node (vnodes s)))
  end.

(** ** Contents *)

(** The memory of the model is total, so what a file's data pointer may be used
    for is said here: [n] bytes at [a] are there when [a] is not null and they lie
    outside the heap, in memory that somebody else keeps, or in the live block of
    the heap at [a].  Copying through any other pointer is undefined. *)
Definition data_valid (h : H) (a n : Z) : bool :=
  (n <=? 0) || (0 <? a) && (a + n <=? 2 ^ 64) &&
    ((a + n <=? ka_lo) || (ka_hi <=? a) || match ka_size h a with Some k => n <=? k | None => false end).
Definition through {A} (h : H) (a n : Z) (access : res A) : res A :=
  if data_valid h a n then access else Undef.

(** [vfs_write] from the buffer at [buf]; [copy] is what the [memcpy] into the
    node's buffer does, which depends on whose memory [buf] points to. *)
Definition vfs_write_from (copy : ram → Z → res ram) s (node buf size : Z) : res (Z * vfs H) :=
  if node =? 0 then Ret (-1, s) else
  x ← get_vnode s node;
  if negb (bool_decide (v_type x = VFS_FILE)) || (buf =? 0) then Ret (-1, s) else
  if VFS_MAX_FILE_SIZE <? size then Ret (-1, s) else
  let x := if v_borrowed x then set_data x 0 (v_size x) 0 false else x in
  let s := put_vnode s node x in
  let finish s x :=
    m ← through (vfs_heap s) (v_data x) size (copy (vfs_ram s) (v_data x));
    let s := put_vram s m in
    Ret (i32 size, put_vnode s node (set_data x (v_data x) size (v_capacity x) (v_borrowed x))) in
  if (v_data x =? 0) || (v_capacity x <? size) then
    '(newbuf, s) ← v_malloc s size;
    if newbuf =? 0 then Ret (-1, s) else
    s ← (if v_data x =? 0 then Ret s else v_free s (v_data x));
    finish s (set_data x newbuf (v_size x) size (v_borrowed x))
  else finish s x.
Definition vfs_write s (node buf size : Z) : res (Z * vfs H) :=
  vfs_write_from (λ m dst, Ret (memcpy m dst buf size)) s node buf size.

Definition vfs_set_data s (node ptr size : Z) : res (vfs H) :=
  if node =? 0 then Ret s else
  x ← get_vnode s node;
  if negb (bool_decide (v_type x = VFS_FILE)) then Ret s else
  s ← (if negb (v_data x =? 0) && negb (v_borrowed x) then v_free s (v_data x) else Ret s);
  Ret (put_vnode s node (set_data x ptr size size true)).

Definition vfs_read s (node buf size : Z) : res (Z * vfs H) :=
  if node =? 0 then Ret (-1, s) else
  x ← get_vnode s node;
  if negb (bool_decide (v_type x = VFS_FILE)) || (buf =? 0) then Ret (-1, s) else
  let to_copy := if size <? v_size x then size else v_size x in
  m ← (if 0 <? to_copy
       then through (vfs_heap s) (v_data x) to_copy (Ret (memcpy (vfs_ram s) buf (v_data x) to_copy))
       else Ret (vfs_ram s));
  Ret (i32 to_copy, put_vram s m).

(** ** Listing *)

Inductive color := WHITE | CYAN | YELLOW.

(** What [vfs_list] prints, as coloured strings. *)
Definition list_entry (x : vnode) : list (list Z * color) :=
  match v_type x with
  | VFS_DIRECTORY => [(v_name x, CYAN); ([SLASH; 10], CYAN)]
  | VFS_DEVICE => [(v_name x, YELLOW); ([10], YELLOW)]
  | VFS_FILE => [(v_name x, WHITE); ([10], WHITE)]
  end.
Fixpoint list_entries s (cs : list Z) : res (list (list Z * color)) :=
  match cs with
  | [] => Ret []
  | c :: cs => x ← get_vnode s c; l ← list_entries s cs; Ret (list_entry x ++ l)
  end.
Definition vfs_list s (dir : Z) : res (list (list Z * color)) :=
  if dir =? 0 then Ret [] else
  d ← get_vnode s dir;
  if negb (bool_decide (v_type d = VFS_DIRECTORY)) then Ret [(v_name d, WHITE); ([10], WHITE)]
  else list_entries s (v_children d).

Lemma through_valid {A} (h : H) a n (access : res A) : data_valid h a n = true → through h a n access = access.
Proof. unfold through. by intros ->. Qed.

Lemma data_valid_mono (h : H) a n m : data_valid h a n = true → m ≤ n → data_valid h a m = true.
Proof.
  unfold data_valid. destruct (ka_size h a); intros Hv Hm; revert Hv; repeat zcase; cbn; try done; lia.
Qed.
End vfs.
