(* ===== verification/VfsTree.v ===== *)
(** The tree of the virtual file system: its invariant and the theorems on paths. *)
From S2P Require Import Prelude Interfaces Ram Vfs.
Import MemLib.

(** ** Paths as lists of names *)

(** The pieces of a path between its slashes. *)
Fixpoint split_slash (p : list Z) : list (list Z) :=
  match p with
  | [] => [[]]
  | c :: q => if c =? SLASH then [] :: split_slash q
              else match split_slash q with
                   | t :: ts => (c :: t) :: ts
                   | [] => [[c]]
                   end
  end.
Definition nonempty (t : list Z) : bool := match t with [] => false | _ => true end.
(** The names a path is made of: empty pieces do not count. *)
Definition components (p : list Z) : list (list Z) := List.filter nonempty (split_slash p).

Definition good_name (t : list Z) : Prop :=
  t ≠ [] ∧ (length t < VFS_NAME_MAX)%nat ∧ SLASH ∉ t.
Definition good_path (p : list Z) : Prop := Forall good_name (components p).

Lemma split_slash_cons c q : c ≠ SLASH →
  ∃ t ts, split_slash q = t :: ts ∧ split_slash (c :: q) = (c :: t) :: ts.
Proof.
  intros Hc. cbn. destruct (Z.eqb_spec c SLASH); [done|].
  destruct (split_slash q) as [|t ts] eqn:E; [|eauto].
  exfalso. destruct q as [|d q]; cbn in E; [done|].
  destruct (d =? SLASH); [done|]. by destruct (split_slash q).
Qed.

Lemma components_slash q : components (SLASH :: q) = components q.
Proof. done. Qed.

Lemma components_skip p : components (skip_slashes p) = components p.
Proof.
  induction p as [|c p IH]; [done|]. cbn [skip_slashes].
  destruct (Z.eqb_spec c SLASH) as [->|]; [by rewrite IH|done].
Qed.

Lemma skip_head p : match skip_slashes p with [] => True | c :: _ => c ≠ SLASH end.
Proof.
  induction p as [|c p IH]; [done|]. cbn [skip_slashes].
  destruct (Z.eqb_spec c SLASH); done.
Qed.

Lemma skip_length p : (length (skip_slashes p) ≤ length p)%nat.
Proof. induction p as [|c p IH]; [done|]. cbn. destruct (c =? SLASH); cbn; lia. Qed.

(** Names contain no slash. *)
Lemma split_slash_noslash p t : t ∈ split_slash p → SLASH ∉ t.
Proof.
  revert t. induction p as [|c p IH]; intros t; cbn.
  { intros ->%list_elem_of_singleton. apply not_elem_of_nil. }
  destruct (Z.eqb_spec c SLASH) as [->|Hc].
  { intros [->|Ht]%elem_of_cons; [apply not_elem_of_nil|by apply IH]. }
  destruct (split_slash p) as [|u us] eqn:E.
  { intros ->%list_elem_of_singleton. set_solver. }
  intros [->|Ht]%elem_of_cons; [|apply IH; set_solver].
  assert (SLASH ∉ u) by (apply IH; set_solver). set_solver.
Qed.

Lemma components_noslash p t : t ∈ components p → t ≠ [] ∧ SLASH ∉ t.
Proof.
  unfold components. rewrite list_elem_of_In, List.filter_In. intros [Ht Hn].
  split; [by destruct t|]. apply (split_slash_noslash p). by apply list_elem_of_In.
Qed.

(** A token read with room for it is the first piece of the path. *)
Lemma read_token_split n p t ts :
  split_slash p = t :: ts → (length t ≤ n)%nat →
  ∃ r, read_token n p = (t, r) ∧ (length r + length t = length p)%nat ∧
    components r = List.filter nonempty ts.
Proof.
  revert n t ts. induction p as [|c p IH]; intros n t ts Hs Hn.
  { cbn in Hs. injection Hs as <- <-. exists []. destruct n; done. }
  destruct (Z.eqb_spec c SLASH) as [->|Hc].
  { cbn in Hs. injection Hs as <- <-. exists (SLASH :: p). by destruct n. }
  destruct (split_slash_cons c p Hc) as (u & us & Hu & Hcu). rewrite Hcu in Hs.
  injection Hs as <- <-. cbn in Hn. destruct n as [|n]; [lia|]. cbn [read_token].
  destruct (Z.eqb_spec c SLASH); [done|].
  destruct (IH n u us Hu ltac:(lia)) as (r & -> & Hl & Hr).
  exists r. split; [done|]. cbn. split; [lia|done].
Qed.

Definition starts_name (p : list Z) : Prop :=
  match p with [] => True | c :: _ => c ≠ SLASH end.

(** One step of the path loops: a path that starts with a name is that name and
    the rest. *)
Lemma token_step p : p ≠ [] → starts_name p → good_path p →
  ∃ t r ts, read_token (VFS_NAME_MAX - 1) p = (t, r) ∧ components p = t :: ts ∧
    components (skip_slashes r) = ts ∧ good_name t ∧ good_path (skip_slashes r) ∧
    starts_name (skip_slashes r) ∧ (length (skip_slashes r) < length p)%nat.
Proof.
  intros Hp Hs Hg. destruct p as [|c p]; [done|].
  destruct (split_slash_cons c p Hs) as (u & us & Hu & Hcu).
  assert (Ec : components (c :: p) = (c :: u) :: List.filter nonempty us)
    by (unfold components; by rewrite Hcu).
  unfold good_path in Hg. rewrite Ec in Hg. apply Forall_cons in Hg as [Ht Hts].
  destruct (read_token_split (VFS_NAME_MAX - 1) _ _ _ Hcu) as (r & Hr & Hl & Hcr).
  { destruct Ht as (_ & Hlt & _). unfold VFS_NAME_MAX in *. lia. }
  exists (c :: u), r, (List.filter nonempty us). rewrite components_skip.
  split; [done|]. split; [done|]. split; [done|]. split; [done|].
  split; [unfold good_path; by rewrite components_skip, Hcr|].
  split; [apply skip_head|]. pose proof (skip_length r). cbn in *. lia.
Qed.

Lemma components_nil p : starts_name p → components p = [] → p = [].
Proof.
  destruct p as [|c p]; [done|]. intros Hs. destruct (split_slash_cons c p Hs) as (u & us & _ & E).
  unfold components. by rewrite E.
Qed.

(** Splitting at a slash. *)
Lemma split_slash_app a b : ∃ ts t, split_slash a = ts ++ [t] ∧
  split_slash (a ++ SLASH :: b) = ts ++ [t] ++ split_slash b.
Proof.
  induction a as [|c a (ts & t & E & E')]; [by exists [], []|].
  cbn [app split_slash]. rewrite E, E'. destruct (Z.eqb_spec c SLASH) as [->|].
  - by exists ([] :: ts), t.
  - destruct ts as [|u ts]; cbn; [by exists [], (c :: t)|by exists ((c :: u) :: ts), t].
Qed.

Lemma components_app a b : components (a ++ SLASH :: b) = components a ++ components b.
Proof.
  unfold components. destruct (split_slash_app a b) as (ts & t & -> & ->).
  by rewrite app_assoc, List.filter_app.
Qed.

Lemma components_name t : SLASH ∉ t → components t = match t with [] => [] | _ => [t] end.
Proof.
  intros Hn. assert (E : split_slash t = [t]).
  { induction t as [|c t IH]; [done|]. cbn [split_slash]. destruct (Z.eqb_spec c SLASH) as [->|].
    - set_solver.
    - rewrite IH by set_solver. done. }
  unfold components. rewrite E. by destruct t.
Qed.

Lemma last_slash_spec p :
  match last_slash p with
  | None => SLASH ∉ p
  | Some i => p = take i p ++ SLASH :: drop (S i) p ∧ SLASH ∉ drop (S i) p
  end.
Proof.
  induction p as [|c p IH]; [apply not_elem_of_nil|]. cbn [last_slash].
  destruct (last_slash p) as [i|].
  - destruct IH as [E ?]. cbn. split; [by rewrite <- E|done].
  - destruct (Z.eqb_spec c SLASH) as [->|]; [done|set_solver].
Qed.

(** [vfs_split_path] cuts a path into a directory and its last name. *)
Lemma split_path_spec path :
  good_path path → (length path < VFS_MAX_PATH)%nat →
  ∃ dir f, vfs_split_path path = Ret (dir, f) ∧ good_path dir ∧ (f ≠ [] → good_name f) ∧
    components path = components dir ++ match f with [] => [] | _ => [f] end.
Proof.
  unfold good_path. intros Hg Hl. unfold vfs_split_path, VFS_MAX_PATH in *. pose proof (last_slash_spec path) as Hs.
  assert (Hf : ∀ dir f, SLASH ∉ f → components path = components dir ++ components f →
    (good_path dir ∧ (f ≠ [] → good_name f) ∧
     components path = components dir ++ match f with [] => [] | _ => [f] end) ∧
    str_copy_to VFS_NAME_MAX f = Ret f).
  { intros dir f Hf E. rewrite (components_name f Hf) in E. rewrite E in Hg.
    apply Forall_app in Hg as [Hd Hgf].
    assert (f ≠ [] → good_name f) by (intros ?; destruct f; [done|by apply Forall_cons in Hgf as [? _]]).
    split; [done|]. unfold str_copy_to. rewrite decide_True; [done|].
    destruct f; [unfold VFS_NAME_MAX; cbn; lia|by apply H]. }
  destruct (last_slash path) as [i|].
  - destruct Hs as [E Hn]. pose proof (f_equal length E) as El.
    rewrite length_app, length_take, length_cons, length_drop in El.
    assert (Ec : components path = components (take i path) ++ components (drop (S i) path))
      by (rewrite <- components_app; by rewrite <- E).
    destruct i as [|i].
    + destruct (Hf ROOT (drop 1 path) Hn) as [Hr ->]; [by rewrite Ec|].
      rewrite bind_Ret. eexists _, _. split; [done|exact Hr].
    + destruct (Hf (take (S i) path) (drop (S (S i)) path) Hn Ec) as [Hr ->].
      rewrite bind_Ret, Nat.min_l by lia. eexists _, _. split; [done|exact Hr].
  - destruct (Hf ROOT path Hs) as [Hr ->]; [done|].
    rewrite bind_Ret. eexists _, _. split; [done|exact Hr].
Qed.

(** ** Trees *)

(** The child of node [d] that is called [name]. *)
Definition named (ns : gmap Z vnode) (name : list Z) (c : Z) : bool :=
  match ns !! c with Some x => bool_decide (v_name x = name) | None => false end.
Definition child (ns : gmap Z vnode) (d : Z) (name : list Z) : option Z :=
  x ← ns !! d; List.find (named ns name) (v_children x).

(** The node that a list of names leads to from [d]. *)
Fixpoint resolve (ns : gmap Z vnode) (d : Z) (cs : list (list Z)) : option Z :=
  match cs with
  | [] => Some d
  | c :: cs => n ← child ns d c; resolve ns n cs
  end.

Lemma resolve_app (ns : gmap Z vnode) d cs ds :
  resolve ns d (cs ++ ds) = n ← resolve ns d cs; resolve ns n ds.
Proof.
  revert d. induction cs as [|c cs IH]; intros d; cbn; [done|].
  destruct (child ns d c); cbn; [apply IH|done].
Qed.

Definition node_name (ns : gmap Z vnode) (c : Z) : option (list Z) := v_name <$> ns !! c.

Section tree.
Context {H : Type} `{HA : HeapAlloc H}.
Implicit Types (s : vfs H) (ns : gmap Z vnode).

(** A tree: children exist, point back to their directory and have distinct
    good names; only directories have children, at most 64. *)
Record tree_inv (root : Z) ns : Prop := {
  ti_null : ns !! 0 = None;
  ti_root : ∃ r, ns !! root = Some r ∧ v_type r = VFS_DIRECTORY ∧ v_parent r = 0;
  ti_child d x c : ns !! d = Some x → c ∈ v_children x →
    ∃ y, ns !! c = Some y ∧ v_parent y = d ∧ good_name (v_name y);
  ti_names d x : ns !! d = Some x → NoDup (node_name ns <$> v_children x);
  ti_dirs d x : ns !! d = Some x → (length (v_children x) ≤ VFS_MAX_CHILDREN)%nat ∧
    (v_children x ≠ [] → v_type x = VFS_DIRECTORY);
}.

(** The nodes are live blocks of the heap, and so are the buffers they own; no
    two of these blocks are the same. *)
Record store_inv s : Prop := {
  vi_heap : ka_inv (vfs_heap s);
  vi_live n x : vnodes s !! n = Some x → ∃ k, ka_size (vfs_heap s) n = Some k ∧ 640 ≤ k;
  vi_data n x : vnodes s !! n = Some x → v_data x ≠ 0 → v_borrowed x = false →
    vnodes s !! v_data x = None ∧ v_size x ≤ v_capacity x ∧
    ∃ k, ka_size (vfs_heap s) (v_data x) = Some k ∧ v_capacity x ≤ k;
  vi_sep n x m y : vnodes s !! n = Some x → vnodes s !! m = Some y → n ≠ m →
    v_data x ≠ 0 → v_borrowed x = false → v_borrowed y = false → v_data x ≠ v_data y;
}.

Definition fs_inv s : Prop := tree_inv (vfs_root s) (vnodes s) ∧ store_inv s.

Lemma find_child_spec s name cs :
  (∀ c, c ∈ cs → c ≠ 0 ∧ is_Some (vnodes s !! c)) →
  find_child s name cs = Ret (default 0 (List.find (named (vnodes s) name) cs)).
Proof.
  induction cs as [|c cs IH]; intros Hc; [done|]. cbn [find_child].
  destruct (Hc c ltac:(set_solver)) as [_ [x Hx]]. unfold get_vnode. rewrite Hx. cbn [deref].
  rewrite bind_Ret. cbn. unfold named at 1. rewrite Hx.
  case_bool_decide; [done|]. apply IH. set_solver.
Qed.

Lemma child_some ns d name c : child ns d name = Some c →
  ∃ x y, ns !! d = Some x ∧ c ∈ v_children x ∧ ns !! c = Some y ∧ v_name y = name.
Proof.
  unfold child. destruct (ns !! d) as [x|] eqn:Ed; [|done]. cbn. intros Hf.
  apply List.find_some in Hf as [Hin Hn]. apply list_elem_of_In in Hin. unfold named in Hn.
  destruct (ns !! c) as [y|] eqn:Ec; [|done]. apply bool_decide_eq_true in Hn. eauto 6.
Qed.

Lemma child_none ns d x name c y : child ns d name = None → ns !! d = Some x →
  c ∈ v_children x → ns !! c = Some y → v_name y ≠ name.
Proof.
  unfold child. intros Hf Hd Hin Hc. rewrite Hd in Hf. cbn in Hf. pose proof (List.find_none _ _ Hf c) as Hn.
  rewrite <- list_elem_of_In in Hn. specialize (Hn Hin). unfold named in Hn. rewrite Hc in Hn.
  by apply bool_decide_eq_false in Hn.
Qed.

(** A child with the right name is the one that is found: names are distinct. *)
Lemma child_unique root ns d x c y :
  tree_inv root ns → ns !! d = Some x → c ∈ v_children x → ns !! c = Some y →
  child ns d (v_name y) = Some c.
Proof.
  intros T Hd Hc Hy. destruct (child ns d (v_name y)) as [c'|] eqn:E.
  - destruct (child_some _ _ _ _ E) as (x' & y' & Hx' & Hc' & Hy' & En).
    rewrite Hd in Hx'. injection Hx' as <-. f_equal.
    apply list_elem_of_lookup in Hc as [i Hi], Hc' as [j Hj].
    pose proof (ti_names _ _ T d x Hd) as Hn.
    assert (i = j) as ->; [|congruence].
    eapply (NoDup_lookup _ _ _ _ Hn); rewrite list_lookup_fmap; [by rewrite Hi|].
    rewrite Hj. cbn. f_equal. unfold node_name. rewrite Hy', Hy. cbn. by rewrite En.
  - by destruct (child_none _ _ _ _ _ _ E Hd Hc Hy).
Qed.

Lemma vfs_find_child_spec s d name : tree_inv (vfs_root s) (vnodes s) →
  is_Some (vnodes s !! d) →
  vfs_find_child s d name = Ret (default 0 (child (vnodes s) d name)).
Proof.
  intros T [x Hx]. unfold vfs_find_child, get_vnode, child.
  destruct (Z.eqb_spec d 0) as [->|]; [by rewrite (ti_null _ _ T) in Hx|].
  rewrite Hx. cbn [deref]. rewrite bind_Ret. cbn. apply find_child_spec.
  intros c Hc. destruct (ti_child _ _ T _ _ _ Hx Hc) as (y & Hy & _). split; [|eauto].
  intros ->. by rewrite (ti_null _ _ T) in Hy.
Qed.

Lemma child_live root ns d name c : tree_inv root ns → child ns d name = Some c →
  c ≠ 0 ∧ is_Some (ns !! c).
Proof.
  intros T Hc. destruct (child_some _ _ _ _ Hc) as (x & y & _ & _ & Hy & _). split; [|eauto].
  intros ->. by rewrite (ti_null _ _ T) in Hy.
Qed.

Lemma find_loop_spec fuel s cur p :
  tree_inv (vfs_root s) (vnodes s) → is_Some (vnodes s !! cur) → starts_name p → good_path p →
  (length p < fuel)%nat →
  find_loop fuel s cur p = Ret (default 0 (resolve (vnodes s) cur (components p))).
Proof.
  intros T. revert cur p. induction fuel as [|fuel IH]; intros cur p Hcur Hs Hg Hf; [lia|].
  cbn [find_loop]. destruct p as [|c p]; [done|].
  destruct (token_step (c :: p) ltac:(done) Hs Hg) as (t & r & ts & -> & Ec & Er & Ht & Hg' & Hs' & Hl).
  rewrite bool_decide_false by apply Ht. rewrite vfs_find_child_spec by done. rewrite bind_Ret, Ec.
  cbn [resolve]. destruct (child (vnodes s) cur t) as [n|] eqn:En; cbn; [|done].
  destruct (child_live _ _ _ _ _ T En) as [Hn0 Hn]. destruct (Z.eqb_spec n 0); [done|].
  rewrite IH by (done || lia). by rewrite Er.
Qed.

Lemma root_live s : tree_inv (vfs_root s) (vnodes s) → vfs_root s ≠ 0 ∧ is_Some (vnodes s !! vfs_root s).
Proof.
  intros T. destruct (ti_root _ _ T) as (r & Hr & _). split; [|eauto].
  intros E. by rewrite E, (ti_null _ _ T) in Hr.
Qed.

Lemma resolve_live s cs n :
  tree_inv (vfs_root s) (vnodes s) → resolve (vnodes s) (vfs_root s) cs = Some n →
  n ≠ 0 ∧ is_Some (vnodes s !! n).
Proof.
  intros T. destruct cs as [|c cs _] using rev_ind; [intros [= <-]; by apply root_live|].
  rewrite resolve_app. destruct (resolve _ _ cs) as [d|]; [|done]. cbn.
  destruct (child _ d c) eqn:Ec; [|done]. intros [= ->]. by eapply child_live.
Qed.

Lemma find_resolves s path :
  tree_inv (vfs_root s) (vnodes s) → good_path path →
  vfs_find s path = Ret (default 0 (resolve (vnodes s) (vfs_root s) (components path))).
Proof.
  intros T Hg. destruct (root_live s T) as [Hr0 Hr]. unfold vfs_find.
  destruct (Z.eqb_spec (vfs_root s) 0); [done|].
  destruct (bool_decide (path = []) || bool_decide (path = ROOT)) eqn:E.
  { apply orb_true_iff in E as [E|E]; apply bool_decide_eq_true in E; subst path; done. }
  rewrite find_loop_spec; [by rewrite components_skip|done|done|apply skip_head| |].
  - unfold good_path. by rewrite components_skip.
  - pose proof (skip_length path). lia.
Qed.

(** ** Growing the tree *)

(** The second tree has all nodes of the first, with the same fields; directories
    may have got more children. *)
Definition extends ns ns' : Prop :=
  ∀ n x, ns !! n = Some x → ∃ cs, ns' !! n = Some (set_children x (v_children x ++ cs)).

Lemma set_children_id x : set_children x (v_children x) = x.
Proof. by destruct x. Qed.

Lemma extends_refl ns : extends ns ns.
Proof. intros n x Hx. exists []. by rewrite app_nil_r, set_children_id. Qed.

Lemma extends_trans ns1 ns2 ns3 : extends ns1 ns2 → extends ns2 ns3 → extends ns1 ns3.
Proof.
  intros H1 H2 n x Hx. destruct (H1 n x Hx) as [cs E]. destruct (H2 _ _ E) as [ds E'].
  exists (cs ++ ds). rewrite E'. destruct x. unfold set_children. cbn. by rewrite app_assoc.
Qed.

Lemma extends_fresh ns n x : ns !! n = None → extends ns (<[n := x]> ns).
Proof.
  intros Hn m y Hy. exists []. rewrite app_nil_r, set_children_id.
  rewrite lookup_insert_ne by congruence. done.
Qed.

Lemma extends_child root ns ns' d name c :
  extends ns ns' → tree_inv root ns' → child ns d name = Some c → child ns' d name = Some c.
Proof.
  intros He T Hc. destruct (child_some _ _ _ _ Hc) as (x & y & Hx & Hin & Hy & <-).
  destruct (He _ _ Hx) as [cs Hx']. destruct (He _ _ Hy) as [ds Hy'].
  rewrite <- (eq_refl : v_name (set_children y (v_children y ++ ds)) = v_name y).
  eapply child_unique; [done|exact Hx'| |done]. cbn. set_solver.
Qed.

Lemma extends_resolve root ns ns' d cs n :
  extends ns ns' → tree_inv root ns' → resolve ns d cs = Some n → resolve ns' d cs = Some n.
Proof.
  intros He T. revert d. induction cs as [|c cs IH]; intros d; cbn; [done|].
  destruct (child ns d c) as [m|] eqn:Ec; [|done]. cbn. intros Hr.
  rewrite (extends_child _ _ _ _ _ _ He T Ec). by apply IH.
Qed.

(** No node of the second tree stores anything that the same node of the first
    does not. *)
Definition no_new_data ns ns' : Prop :=
  ∀ n y, ns' !! n = Some y → v_size y = 0 ∨
    ∃ x, ns !! n = Some x ∧ v_data y = v_data x ∧ v_size y = v_size x ∧ v_borrowed y = v_borrowed x.

Lemma no_new_data_refl ns : no_new_data ns ns.
Proof. intros n y Hy. right. by exists y. Qed.

Lemma no_new_data_trans ns1 ns2 ns3 : no_new_data ns1 ns2 → no_new_data ns2 ns3 → no_new_data ns1 ns3.
Proof.
  intros H1 H2 n z Hz. destruct (H2 n z Hz) as [|(y & Hy & Ed & Es & Eb)]; [by left|].
  destruct (H1 n y Hy) as [|(x & Hx & ? & ? & ?)]; [left; congruence|right; exists x; split_and!; congruence].
Qed.

(** Changing a node, but not what it stores. *)
Lemma no_new_data_insert ns n y :
  (v_size y = 0 ∨ ∃ x, ns !! n = Some x ∧ v_data y = v_data x ∧ v_size y = v_size x ∧ v_borrowed y = v_borrowed x) →
  no_new_data ns (<[n := y]> ns).
Proof. intros Hy m z Hz. apply lookup_insert_Some in Hz as [[<- <-]|[_ Hz]]; [done|right; by exists z]. Qed.

Definition zero_node : vnode := Vnode [] VFS_FILE 0 0 0 false 0 0 [].

(** Adding a fresh, empty node. *)
Lemma tree_inv_fresh root ns n x :
  tree_inv root ns → n ≠ 0 → ns !! n = None → v_children x = [] → tree_inv root (<[n := x]> ns).
Proof.
  intros T Hn0 Hn Hx. split.
  - rewrite lookup_insert_ne by done. apply T.
  - destruct (ti_root _ _ T) as (r & Hr & ?). exists r. rewrite lookup_insert_ne by congruence. done.
  - intros d y c Hy Hc. apply lookup_insert_Some in Hy as [[<- <-]|[_ Hy]].
    { rewrite Hx in Hc. by apply elem_of_nil in Hc. }
    destruct (ti_child _ _ T _ _ _ Hy Hc) as (z & Hz & ?). exists z.
    rewrite lookup_insert_ne by congruence. done.
  - intros d y Hy. apply lookup_insert_Some in Hy as [[<- <-]|[_ Hy]].
    { rewrite Hx. constructor. }
    erewrite list_fmap_ext; [by apply (ti_names _ _ T d y Hy)|].
    intros i c Hc. unfold node_name. f_equal. apply lookup_insert_ne. intros <-.
    apply list_elem_of_lookup_2 in Hc. destruct (ti_child _ _ T _ _ _ Hy Hc) as (z & Hz & _). congruence.
  - intros d y Hy. apply lookup_insert_Some in Hy as [[<- <-]|[_ Hy]]; [|by eapply (ti_dirs _ _ T)].
    rewrite Hx. unfold VFS_MAX_CHILDREN. cbn. split; [lia|done].
Qed.

(** Hanging the fresh node [n] into directory [d]. *)
Lemma tree_inv_link root ns d n x y :
  tree_inv root ns → ns !! d = Some x → ns !! n = Some y → n ≠ d → n ≠ root →
  v_type x = VFS_DIRECTORY → (child_count x < VFS_MAX_CHILDREN)%nat →
  (∀ e z, ns !! e = Some z → n ∉ v_children z) → v_children y = [] →
  v_parent y = d → good_name (v_name y) → child ns d (v_name y) = None →
  tree_inv root (<[d := set_children x (v_children x ++ [n])]> ns).
Proof.
  intros T Hx Hy Hnd Hnr Hdir Hlt Hno Hyc Hp Hg Hc.
  assert (Hnn' : ∀ c, node_name (<[d := set_children x (v_children x ++ [n])]> ns) c = node_name ns c).
  { intros c. unfold node_name. destruct (decide (c = d)) as [->|].
    - by rewrite lookup_insert_eq, Hx.
    - by rewrite lookup_insert_ne. }
  split.
  - rewrite lookup_insert_ne; [apply T|]. intros ->. by rewrite (ti_null _ _ T) in Hx.
  - destruct (ti_root _ _ T) as (r & Hr & Hrt & Hrp). destruct (decide (root = d)) as [->|].
    + rewrite lookup_insert_eq. eexists. split; [done|]. cbn. assert (x = r) as -> by congruence. done.
    + rewrite lookup_insert_ne by congruence. eauto.
  - intros e z c Hz Hcz.
    assert (Hold : ∀ c', (∃ z', ns !! e = Some z' ∧ c' ∈ v_children z') →
      ∃ y', <[d := set_children x (v_children x ++ [n])]> ns !! c' = Some y' ∧ v_parent y' = e ∧
        good_name (v_name y')).
    { intros c' (z' & Hz' & Hc'). destruct (ti_child _ _ T _ _ _ Hz' Hc') as (w & Hw & Hwp & Hwg).
      destruct (decide (c' = d)) as [->|].
      - rewrite lookup_insert_eq. eexists. split; [done|]. cbn. assert (x = w) as -> by congruence. done.
      - rewrite lookup_insert_ne by congruence. eauto. }
    apply lookup_insert_Some in Hz as [[<- <-]|[_ Hz]]; [|apply Hold; eauto].
    cbn in Hcz. apply elem_of_app in Hcz as [Hcz|Hcz%list_elem_of_singleton]; [apply Hold; eauto|].
    subst c. rewrite lookup_insert_ne by congruence. eauto.
  - intros e z Hz. erewrite list_fmap_ext by (intros; apply Hnn').
    apply lookup_insert_Some in Hz as [[<- <-]|[_ Hz]]; [|by eapply (ti_names _ _ T e)].
    cbn. rewrite fmap_app. apply NoDup_app. split; [by eapply (ti_names _ _ T d)|].
    split; [|apply NoDup_singleton]. intros o Ho ->%list_elem_of_singleton.
    apply list_elem_of_fmap in Ho as (c & Eo & Hcx). unfold node_name in Eo. rewrite Hy in Eo.
    destruct (ti_child _ _ T _ _ _ Hx Hcx) as (w & Hw & _). rewrite Hw in Eo. injection Eo as Eo.
    by apply (child_none _ _ _ _ _ _ Hc Hx Hcx Hw).
  - intros e z Hz. apply lookup_insert_Some in Hz as [[<- <-]|[_ Hz]]; [|by eapply (ti_dirs _ _ T e)].
    cbn. rewrite length_app. unfold child_count in Hlt. cbn. split; [lia|done].
Qed.

(** ** Creating nodes *)

(** The steps of the file system that only add nodes: what they keep. *)
Record grows s s' : Prop := {
  gr_inv : fs_inv s';
  gr_root : vfs_root s' = vfs_root s;
  gr_ram : vfs_ram s' = vfs_ram s;
  gr_ext : extends (vnodes s) (vnodes s');
  gr_data : no_new_data (vnodes s) (vnodes s');
}.

Lemma grows_refl s : fs_inv s → grows s s.
Proof. split; try done; [apply extends_refl|apply no_new_data_refl]. Qed.

Lemma grows_trans s1 s2 s3 : grows s1 s2 → grows s2 s3 → grows s1 s3.
Proof. intros [] []. split; try congruence; [by eapply extends_trans|by eapply no_new_data_trans]. Qed.

Lemma grows_resolve s s' d cs n :
  grows s s' → resolve (vnodes s) d cs = Some n → resolve (vnodes s') d cs = Some n.
Proof. intros [[T _] _ _ He _]. by eapply extends_resolve. Qed.

(** Nodes that differ in what they store only. *)
Definition same_links (x y : vnode) : Prop :=
  v_name y = v_name x ∧ v_type y = v_type x ∧ v_parent y = v_parent x ∧ v_children y = v_children x.

(** Changing what a node stores leaves the tree and all names alone. *)
Lemma tree_inv_links root ns n x y :
  tree_inv root ns → ns !! n = Some x → same_links x y → tree_inv root (<[n := y]> ns).
Proof.
  intros T Hx (En & Et & Ep & Ec).
  assert (Hl : ∀ m w, <[n := y]> ns !! m = Some w → ∃ z, ns !! m = Some z ∧ same_links z w).
  { intros m w Hw. apply lookup_insert_Some in Hw as [[<- <-]|[_ Hw]]; [by exists x|by exists w]. }
  assert (Hr : ∀ m z, ns !! m = Some z → ∃ w, <[n := y]> ns !! m = Some w ∧ same_links z w).
  { intros m z Hz. destruct (decide (m = n)) as [->|].
    - rewrite lookup_insert_eq. assert (x = z) as -> by congruence. by exists y.
    - rewrite lookup_insert_ne by done. by exists z. }
  clear En Et Ep Ec. split.
  - rewrite lookup_insert_ne; [apply T|]. intros ->. by rewrite (ti_null _ _ T) in Hx.
  - destruct (ti_root _ _ T) as (r & Hroot & ? & ?). destruct (Hr _ _ Hroot) as (w & Hw & _ & Et & Ep & _).
    exists w. split; [done|]. by rewrite Et, Ep.
  - intros m v c Hv0 Hc. destruct (Hl _ _ Hv0) as (z & Hz & _ & _ & _ & Ec). rewrite Ec in Hc.
    destruct (ti_child _ _ T _ _ _ Hz Hc) as (w & Hw & ? & ?). destruct (Hr _ _ Hw) as (u & Hu & En & _ & Ep & _).
    exists u. rewrite En, Ep. done.
  - intros m w Hw. destruct (Hl _ _ Hw) as (z & Hz & _ & _ & _ & Ec). rewrite Ec.
    erewrite list_fmap_ext; [by apply (ti_names _ _ T m z)|]. intros i c _. unfold node_name.
    destruct (ns !! c) as [u|] eqn:Eu.
    + destruct (Hr _ _ Eu) as (v & -> & Ev & _). cbn. by rewrite Ev.
    + destruct (<[n := y]> ns !! c) as [v|] eqn:Ev; [|done]. destruct (Hl _ _ Ev) as (u & Hu & _). congruence.
  - intros m w Hw. destruct (Hl _ _ Hw) as (z & Hz & _ & Et & _ & Ec). rewrite Et, Ec.
    by apply (ti_dirs _ _ T m).
Qed.

Lemma resolve_links ns n x y d cs : ns !! n = Some x → same_links x y →
  resolve (<[n := y]> ns) d cs = resolve ns d cs.
Proof.
  intros Hx (En & _ & _ & Ec).
  assert (Hc : ∀ d c, child (<[n := y]> ns) d c = child ns d c).
  { intros e c. unfold child. assert (Hn : ∀ b, named (<[n := y]> ns) c b = named ns c b).
    { intros b. unfold named. destruct (decide (b = n)) as [->|].
      - by rewrite lookup_insert_eq, Hx, En.
      - by rewrite lookup_insert_ne. }
    assert (Hf : ∀ l, List.find (named (<[n := y]> ns) c) l = List.find (named ns c) l).
    { induction l as [|b l IH]; [done|]. cbn. by rewrite Hn, IH. }
    destruct (decide (e = n)) as [->|].
    - rewrite lookup_insert_eq, Hx. cbn. by rewrite Ec.
    - rewrite lookup_insert_ne by done. destruct (ns !! e); cbn; [apply Hf|done]. }
  revert d. induction cs as [|c cs IH]; intros d; cbn; [done|]. rewrite Hc.
  destruct (child ns d c); cbn; [apply IH|done].
Qed.

Lemma store_inv_heap s h :
  store_inv s → ka_inv h → (∀ p k, ka_size (vfs_heap s) p = Some k → ka_size h p = Some k) →
  store_inv (put_vheap s h).
Proof.
  intros [Hh Hl Hd Hs] Hi Hk. split; cbn; [done| |  |exact Hs].
  - intros n x Hx. destruct (Hl n x Hx) as (k & ? & ?). eauto.
  - intros n x Hx H0 Hb. destruct (Hd n x Hx H0 Hb) as (? & ? & k & ? & ?). eauto 6.
Qed.

(** Changing a node without touching its buffer. *)
Lemma store_inv_node s n x y :
  store_inv s → vnodes s !! n = Some x →
  v_data y = v_data x → v_size y = v_size x → v_capacity y = v_capacity x →
  v_borrowed y = v_borrowed x → store_inv (put_vnode s n y).
Proof.
  intros [Hh Hl Hd Hs] Hx Ed Es Ec Eb. split; cbn; [done|..].
  - intros m z Hz. apply lookup_insert_Some in Hz as [[<- <-]|[_ Hz]]; eauto.
  - intros m z Hz H0 Hb.
    assert (Hnone : ∀ a, vnodes s !! a = None → <[n := y]> (vnodes s) !! a = None).
    { intros a Ha. rewrite lookup_insert_ne; congruence. }
    apply lookup_insert_Some in Hz as [[<- <-]|[_ Hz]].
    + rewrite Ed, Es, Ec, Eb in *. destruct (Hd n x Hx H0 Hb) as (? & ? & ?). auto.
    + destruct (Hd m z Hz H0 Hb) as (? & ? & ?). auto.
  - intros m z m' z' Hz Hz' Hne H0 Hb Hb'.
    apply lookup_insert_Some in Hz as [[<- <-]|[_ Hz]];
      apply lookup_insert_Some in Hz' as [[<- <-]|[_ Hz']]; try done;
      rewrite ?Ed, ?Eb in *; eauto.
Qed.

(** A fresh node that owns no buffer. *)
Lemma store_inv_fresh s n x k :
  store_inv s → vnodes s !! n = None → ka_size (vfs_heap s) n = Some k → 640 ≤ k →
  (∀ m y, vnodes s !! m = Some y → v_data y ≠ 0 → v_borrowed y = false → v_data y ≠ n) →
  v_data x = 0 → store_inv (put_vnode s n x).
Proof.
  intros [Hh Hl Hd Hs] Hn Hk Hk' Hno Hx. split; cbn; [done|..].
  - intros m z Hz. apply lookup_insert_Some in Hz as [[<- <-]|[_ Hz]]; eauto.
  - intros m z Hz H0 Hb. apply lookup_insert_Some in Hz as [[<- <-]|[_ Hz]]; [done|].
    destruct (Hd m z Hz H0 Hb) as (? & ? & ?). specialize (Hno m z Hz H0 Hb).
    rewrite lookup_insert_ne by done. done.
  - intros m z m' z' Hz Hz' Hne H0 Hb Hb'.
    apply lookup_insert_Some in Hz as [[<- <-]|[_ Hz]]; [done|].
    apply lookup_insert_Some in Hz' as [[<- <-]|[_ Hz']]; [congruence|]. eauto.
Qed.

Lemma v_malloc_spec s n :
  store_inv s → 0 < n < 2 ^ 63 →
  returns (v_malloc s n) (λ '(p, s'), ∃ h, s' = put_vheap s h ∧ store_inv s' ∧
    (p = 0 ∧ s' = s ∧ ka_malloc (vfs_heap s) n = Ret (0, vfs_heap s) ∨
     p ≠ 0 ∧ ka_size (vfs_heap s) p = None ∧ (∃ k, n ≤ k ∧ ka_size h p = Some k) ∧
     ∀ q, q ≠ p → ka_size h q = ka_size (vfs_heap s) q)).
Proof.
  intros Hi Hn. unfold v_malloc. pose proof (ka_malloc_spec _ n (vi_heap _ Hi) Hn) as Hm.
  destruct (proj1 (returns_iff _ _) Hm) as ([p h] & E & Hh & Hp). rewrite E, bind_Ret.
  exists h. split; [done|]. split.
  - apply store_inv_heap; [done|done|]. intros q k Hk.
    destruct Hp as [[_ ->]|(_ & Hnone & _ & Hq)]; [done|]. rewrite Hq; congruence.
  - destruct Hp as [[-> ->]|(? & ? & ? & ?)]; [left|by right]. by destruct s.
Qed.

(** The heap has no room for another node. *)
Definition no_memory s : Prop := ka_malloc (vfs_heap s) 640 = Ret (0, vfs_heap s).

Lemma node_alloc_spec s :
  fs_inv s →
  returns (node_alloc s) (λ '(n, s'), grows s s' ∧
    (n = 0 ∧ s' = s ∧ no_memory s ∨
     n ≠ 0 ∧ vnodes s !! n = None ∧ vnodes s' = <[n := zero_node]> (vnodes s))).
Proof.
  intros [T Hs]. unfold node_alloc.
  destruct (proj1 (returns_iff _ _) (v_malloc_spec s 640 Hs ltac:(lia)))
    as ([n s1] & -> & h & -> & Hs1 & Hn). rewrite bind_Ret.
  destruct Hn as [(-> & E & Hm)|(Hn0 & Hnone & (k & Hk & Hkn) & Hq)].
  { rewrite E. cbn. split; [by apply grows_refl|by left]. }
  destruct (Z.eqb_spec n 0); [done|].
  assert (Hfresh : vnodes s !! n = None).
  { destruct (vnodes s !! n) as [x|] eqn:Ex; [|done]. destruct (vi_live _ Hs n x Ex) as (? & ? & _). congruence. }
  split; [|by right]. split; [|done|done|by apply extends_fresh|apply no_new_data_insert; by left]. split.
  - by apply tree_inv_fresh.
  - eapply (store_inv_fresh (put_vheap s h)); [done|done|exact Hkn|done| |done].
    intros m y Hy H0 Hb E. destruct (vi_data _ Hs m y Hy H0 Hb) as (_ & _ & ? & ? & _). congruence.
Qed.

Lemma create_node_spec s parent d name ty :
  fs_inv s → vnodes s !! parent = Some d → v_type d = VFS_DIRECTORY → good_name name →
  returns (vfs_create_node s parent name ty) (λ '(n, s'), grows s s' ∧
    match child (vnodes s) parent name with
    | Some c => n = c
    | None =>
        n = 0 ∧ (no_memory s ∨ (VFS_MAX_CHILDREN ≤ child_count d)%nat) ∨
        n ≠ 0 ∧ vnodes s !! n = None ∧ child (vnodes s') parent name = Some n ∧
        vnodes s' !! n = Some (Vnode name ty 0 0 0 false 0 parent [])
    end).
Proof.
  intros Hi Hd Hty Hg. pose proof Hi as [T Hs]. unfold vfs_create_node.
  rewrite vfs_find_child_spec by (done || by eexists). rewrite bind_Ret.
  destruct (proj1 (returns_iff _ _) (node_alloc_spec s Hi)) as ([n s1] & -> & G & Hn). rewrite bind_Ret.
  assert (Hp0 : parent ≠ 0) by (intros ->; by rewrite (ti_null _ _ T) in Hd).
  destruct (Z.eqb_spec parent 0); [done|]. rewrite bool_decide_false by apply Hg. cbn [orb].
  assert (Hd1 : vnodes s1 !! parent = Some d).
  { destruct Hn as [(_ & -> & _)|(_ & Hf & ->)]; [done|]. rewrite lookup_insert_ne; [done|congruence]. }
  unfold get_vnode. rewrite Hd1. cbn [deref]. rewrite bind_Ret, bool_decide_true by done. cbn [negb].
  destruct (child (vnodes s) parent name) as [c|] eqn:Ec; cbn [from_option id].
  { destruct (child_live _ _ _ _ _ T Ec) as [Hc0 _]. by destruct (Z.eqb_spec c 0); cbn. }
  cbn [Z.eqb negb]. case_bool_decide as Hcc; [split; [done|left; auto]|].
  destruct Hn as [(-> & -> & Hm)|(Hn0 & Hf & Evn)]; [cbn; split; [done|left; auto]|].
  destruct (Z.eqb_spec n 0); [done|]. unfold str_copy_to. rewrite decide_True by apply Hg.
  rewrite bind_Ret. set (y := Vnode name ty 0 0 0 false 0 parent []).
  destruct (gr_inv _ _ G) as [T1 Hs1].
  assert (Hnp : n ≠ parent) by congruence.
  assert (Hns : put_vnode s1 n y = Vfs (vfs_root s) (<[n := y]> (vnodes s)) (vfs_heap s1) (vfs_ram s)).
  { unfold put_vnode, put_nodes. rewrite Evn, insert_insert_eq, (gr_root _ _ G), (gr_ram _ _ G). done. }
  assert (Ty : tree_inv (vfs_root s) (<[n := y]> (vnodes s))) by by apply tree_inv_fresh.
  assert (Hy : <[n := y]> (vnodes s) !! n = Some y) by apply lookup_insert_eq.
  assert (Hdy : <[n := y]> (vnodes s) !! parent = Some d) by by rewrite lookup_insert_ne.
  assert (Hno : ∀ e z, <[n := y]> (vnodes s) !! e = Some z → n ∉ v_children z).
  { intros e z Hz Hin. apply lookup_insert_Some in Hz as [[<- <-]|[_ Hz]]; [by apply elem_of_nil in Hin|].
    destruct (ti_child _ _ T _ _ _ Hz Hin) as (? & ? & _). congruence. }
  assert (Hcy : child (<[n := y]> (vnodes s)) parent name = None).
  { destruct (child (<[n := y]> (vnodes s)) parent name) as [c|] eqn:E; [exfalso|reflexivity].
    destruct (child_some _ _ _ _ E) as (x & z & Hx & Hin & Hz & En).
    rewrite Hdy in Hx. injection Hx as <-. destruct (decide (c = n)) as [->|Hne].
    { by destruct (Hno _ _ Hdy). }
    rewrite lookup_insert_ne in Hz by done. by destruct (child_none _ _ _ _ _ _ Ec Hd Hin Hz). }
  assert (Hnr : n ≠ vfs_root s) by (intros ->; destruct (root_live s T) as [_ [? ?]]; congruence).
  assert (T2 : tree_inv (vfs_root s)
    (<[parent := set_children d (v_children d ++ [n])]> (<[n := y]> (vnodes s)))).
  { eapply (tree_inv_link _ _ _ _ d y); try done. lia. }
  rewrite Hns. split; [|right].
  - split; [|done|done| |].
    + split; [exact T2|]. eapply (store_inv_node _ parent d); try done.
      rewrite <- Hns. eapply (store_inv_node s1 n zero_node); try done. rewrite Evn. apply lookup_insert_eq.
    + intros m z Hz. cbn. destruct (decide (m = parent)) as [->|].
      * rewrite lookup_insert_eq. exists [n]. congruence.
      * exists []. rewrite app_nil_r, set_children_id, !lookup_insert_ne; congruence.
    + cbn. eapply no_new_data_trans; [apply (no_new_data_insert _ n y); by left|].
      apply no_new_data_insert. right. by exists d.
  - split; [done|]. split; [done|]. cbn. rewrite lookup_insert_ne, lookup_insert_eq by done.
    split; [|done]. apply (child_unique (vfs_root s) _ parent (set_children d (v_children d ++ [n])) n y);
      [done|apply lookup_insert_eq|cbn; set_solver|by rewrite lookup_insert_ne].
Qed.

(** ** Paths *)

(** Why a path cannot be made below [d]: a name on the way is taken by something
    that is not a directory, or by a full directory, or memory ran out. *)
Definition no_way s s' (d : Z) (cs : list (list Z)) : Prop :=
  (∃ pre rest m x, cs = pre ++ rest ∧ resolve (vnodes s') d pre = Some m ∧ vnodes s' !! m = Some x ∧
     (v_type x ≠ VFS_DIRECTORY ∨ (VFS_MAX_CHILDREN ≤ child_count x)%nat)) ∨
  (∃ s1, grows s s1 ∧ grows s1 s' ∧ no_memory s1).

(** [cs] leads from [d] to the directory [n]. *)
Definition leads_to_dir s (d : Z) (cs : list (list Z)) (n : Z) : Prop :=
  resolve (vnodes s) d cs = Some n ∧ ∃ x, vnodes s !! n = Some x ∧ v_type x = VFS_DIRECTORY.

(** The directory [n] was there already and nothing changed, or it is empty. *)
Definition found_or_new s s' (d : Z) (cs : list (list Z)) (n : Z) : Prop :=
  (s' = s ∧ resolve (vnodes s) d cs = Some n) ∨ ∃ x, vnodes s' !! n = Some x ∧ v_children x = [].

Lemma no_way_cons s s1 s2 d n c cs :
  grows s s1 → grows s1 s2 → child (vnodes s2) d c = Some n → no_way s1 s2 n cs →
  no_way s s2 d (c :: cs).
Proof.
  intros G1 G2 Hc [(pre & rest & m & x & -> & Hm & Hx & Hb)|(s3 & ? & ? & ?)].
  - left. exists (c :: pre), rest, m, x. split; [done|]. cbn. by rewrite Hc.
  - right. exists s3. split; [by eapply grows_trans|done].
Qed.

Lemma mkdir_loop_spec fuel s cur p :
  fs_inv s → (∃ x, vnodes s !! cur = Some x ∧ v_type x = VFS_DIRECTORY) →
  starts_name p → good_path p → (length p < fuel)%nat →
  returns (mkdir_loop fuel s cur p) (λ '(n, s'), grows s s' ∧
    if n =? 0 then no_way s s' cur (components p)
    else leads_to_dir s' cur (components p) n ∧ found_or_new s s' cur (components p) n).
Proof.
  revert s cur p. induction fuel as [|fuel IH]; intros s cur p Hi (d & Hd & Hty) Hs Hg Hf; [lia|].
  pose proof (proj1 Hi) as T.
  assert (Hc0 : cur ≠ 0) by (intros ->; by rewrite (ti_null _ _ T) in Hd).
  cbn [mkdir_loop]. destruct p as [|c p].
  { split; [by apply grows_refl|]. destruct (Z.eqb_spec cur 0); [done|].
    split; [split; [done|eauto]|by left]. }
  destruct (token_step (c :: p) ltac:(done) Hs Hg) as (t & r & ts & -> & Ec & Er & Ht & Hg' & Hs' & Hl).
  rewrite bool_decide_false by apply Ht. rewrite vfs_find_child_spec by (done || by eexists).
  rewrite bind_Ret, Ec.
  assert (Hstep : ∀ s1 n, grows s s1 → child (vnodes s1) cur t = Some n →
    (∃ x, vnodes s1 !! n = Some x ∧ v_type x = VFS_DIRECTORY ∧ (s1 = s ∨ v_children x = [])) →
    returns (mkdir_loop fuel s1 n (skip_slashes r)) (λ '(n, s'), grows s s' ∧
      if n =? 0 then no_way s s' cur (t :: ts)
      else leads_to_dir s' cur (t :: ts) n ∧ found_or_new s s' cur (t :: ts) n)).
  { intros s1 n G Hn (x & Hx & Hxt & Hxc). eapply returns_mono;
      [apply (IH s1 n); [apply G|eauto|done|done|cbn in *; lia]|]. cbn beta.
    intros [n' s'] [G' Hn']. rewrite Er in Hn'. split; [by eapply grows_trans|].
    pose proof (extends_child _ _ _ _ _ _ (gr_ext _ _ G') (proj1 (gr_inv _ _ G')) Hn) as Hn2.
    destruct (n' =? 0); [by eapply no_way_cons|]. destruct Hn' as [[Hr ?] Hnew].
    split; [split; [cbn; by rewrite Hn2|done]|].
    destruct Hnew as [[-> Hr1]|]; [|by right]. destruct Hxc as [->|Hxc].
    - left. split; [done|]. cbn. by rewrite Hn.
    - right. destruct ts as [|t' ts]; [cbn in Hr1; injection Hr1 as <-; eauto|].
      exfalso. cbn in Hr1. unfold child in Hr1. rewrite Hx in Hr1. cbn in Hr1. by rewrite Hxc in Hr1. }
  destruct (child (vnodes s) cur t) as [n|] eqn:En; cbn [from_option id].
  - destruct (child_live _ _ _ _ _ T En) as [Hn0 [x Hx]]. destruct (Z.eqb_spec n 0); [done|].
    unfold get_vnode. rewrite Hx. cbn [deref]. rewrite bind_Ret. case_bool_decide as Ex; cbn [negb].
    + apply Hstep; [by apply grows_refl|done|eauto 6].
    + split; [by apply grows_refl|]. left. exists [t], ts, n, x. split; [done|].
      cbn. rewrite En. auto.
  - cbn [Z.eqb]. destruct (proj1 (returns_iff _ _) (create_node_spec s cur d t VFS_DIRECTORY Hi Hd Hty Ht))
      as ([n s1] & -> & G & Hn). rewrite bind_Ret. rewrite En in Hn.
    destruct Hn as [[-> Hn]|(Hn0 & _ & Hch & Hnew)].
    + split; [done|]. cbn [Z.eqb]. destruct Hn as [Hm|Hfull].
      * right. exists s. split; [by apply grows_refl|done].
      * left. exists [], (t :: ts), cur. destruct (gr_ext _ _ G _ _ Hd) as [cs Hd1].
        eexists. split; [done|]. split; [done|]. split; [exact Hd1|]. right.
        unfold child_count in *. cbn. rewrite length_app. lia.
    + destruct (Z.eqb_spec n 0); [done|]. apply Hstep; [done|done|eauto 6].
Qed.

Lemma mkdir_spec s path :
  fs_inv s → good_path path →
  returns (vfs_mkdir s path) (λ '(n, s'), grows s s' ∧
    if n =? 0 then no_way s s' (vfs_root s) (components path)
    else leads_to_dir s' (vfs_root s) (components path) n ∧
         found_or_new s s' (vfs_root s) (components path) n).
Proof.
  intros Hi Hg. pose proof (proj1 Hi) as T. destruct (root_live s T) as [Hr0 _].
  destruct (ti_root _ _ T) as (r & Hr & Hrt & _). unfold vfs_mkdir.
  destruct (Z.eqb_spec (vfs_root s) 0); [done|].
  destruct (bool_decide (path = []) || bool_decide (path = ROOT)) eqn:E.
  { split; [by apply grows_refl|]. destruct (Z.eqb_spec (vfs_root s) 0); [done|].
    apply orb_true_iff in E as [E|E]; apply bool_decide_eq_true in E; subst path;
      (split; [split; [done|eauto]|by left]). }
  eapply returns_mono; [apply mkdir_loop_spec; [done|eauto|apply skip_head| |]|].
  - unfold good_path. by rewrite components_skip.
  - pose proof (skip_length path). lia.
  - intros [n' s']. by rewrite components_skip.
Qed.

(** C19. [vfs_find] implements path lookup: in a well-formed tree, a path whose
    names are shorter than 64 characters leads to the node that is reached from
    the root by following its names one after the other, and [NULL] is returned
    exactly when one of them is missing.  Repeated, leading and trailing slashes
    do not matter. *)
Theorem vfs_find_spec s path :
  fs_inv s → good_path path →
  vfs_find s path = Ret (default 0 (resolve (vnodes s) (vfs_root s) (components path))).
Proof. intros [T _] Hg. by apply find_resolves. Qed.

(** C20. [vfs_mkdir] is [mkdir -p]: it returns the directory at the path, making
    the missing ones, keeps the tree well-formed, and every path that led to a node
    still leads to it, the nodes keeping all their fields but new children.  It
    returns [NULL] only when a name on the way belongs to a file, a directory on
    the way holds 64 entries, or memory runs out. *)
Theorem vfs_mkdir_spec s path :
  fs_inv s → good_path path →
  returns (vfs_mkdir s path) (λ '(n, s'),
    fs_inv s' ∧ extends (vnodes s) (vnodes s') ∧
    (∀ d cs m, resolve (vnodes s) d cs = Some m → resolve (vnodes s') d cs = Some m) ∧
    if n =? 0 then no_way s s' (vfs_root s) (components path)
    else vfs_find s' path = Ret n ∧ leads_to_dir s' (vfs_root s) (components path) n).
Proof.
  intros Hi Hg. eapply returns_mono; [by apply mkdir_spec|]. intros [n s'] [G Hn].
  split; [apply G|]. split; [apply G|]. split; [intros; by eapply grows_resolve|].
  destruct (n =? 0); [done|]. destruct Hn as [Hn _]. split; [|done].
  rewrite find_resolves by (done || apply G). destruct Hn as [Hn _]. by rewrite (gr_root _ _ G), Hn.
Qed.

Lemma find_or_mkdir_spec s path :
  fs_inv s → good_path path →
  returns (find_or_mkdir s path) (λ '(n, s'), grows s s' ∧
    if n =? 0 then no_way s s' (vfs_root s) (components path)
    else resolve (vnodes s') (vfs_root s) (components path) = Some n ∧
         found_or_new s s' (vfs_root s) (components path) n).
Proof.
  intros Hi Hg. unfold find_or_mkdir. rewrite find_resolves by (done || apply Hi). rewrite bind_Ret.
  destruct (resolve _ _ _) as [n|] eqn:E; cbn [from_option id].
  - destruct (resolve_live s _ n (proj1 Hi) E) as [Hn _].
    destruct (Z.eqb_spec n 0); [done|]. split; [by apply grows_refl|].
    destruct (Z.eqb_spec n 0); [done|]. split; [done|by left].
  - cbn [Z.eqb]. eapply returns_mono; [by apply mkdir_spec|]. intros [n s'] [G Hn].
    split; [done|]. destruct (n =? 0); [done|]. split; apply Hn.
Qed.

Lemma create_node_not_dir s parent d name ty :
  fs_inv s → vnodes s !! parent = Some d → v_type d ≠ VFS_DIRECTORY → good_name name →
  returns (vfs_create_node s parent name ty) (λ '(n, s'), n = 0 ∧ grows s s').
Proof.
  intros Hi Hd Hty Hg. pose proof (proj1 Hi) as T. unfold vfs_create_node.
  rewrite vfs_find_child_spec by (done || by eexists). rewrite bind_Ret.
  destruct (proj1 (returns_iff _ _) (node_alloc_spec s Hi)) as ([n s1] & -> & G & _). rewrite bind_Ret.
  destruct (Z.eqb_spec parent 0); [done|]. rewrite bool_decide_false by apply Hg. cbn [orb].
  destruct (gr_ext _ _ G _ _ Hd) as [cs Hd1]. unfold get_vnode. rewrite Hd1. cbn [deref].
  rewrite bind_Ret, bool_decide_false by done. done.
Qed.

Lemma no_way_app s s' d cs ds : no_way s s' d cs → no_way s s' d (cs ++ ds).
Proof.
  intros [(pre & rest & m & x & -> & ?)|?]; [left|by right].
  exists pre, (rest ++ ds), m, x. by rewrite app_assoc.
Qed.

Lemma no_way_grows s s1 s2 d cs : grows s s1 → grows s1 s2 → no_way s s1 d cs → no_way s s2 d cs.
Proof.
  intros G G2 [(pre & rest & m & x & -> & Hm & Hx & Hb)|(s3 & ? & ? & ?)].
  - left. destruct (gr_ext _ _ G2 _ _ Hx) as [ds Hx']. exists pre, rest, m, (set_children x (v_children x ++ ds)).
    split; [done|]. split; [by eapply grows_resolve|]. split; [done|]. cbn.
    destruct Hb; [by left|right]. unfold child_count in *. cbn. rewrite length_app. lia.
  - right. exists s3. split; [done|]. split; [by eapply grows_trans|done].
Qed.

(** What [vfs_create_file] and [vfs_create_device] do once the path is cut. *)
Lemma create_at_spec s dirpath fname ty :
  fs_inv s → good_path dirpath → good_name fname →
  returns ('(dir, s) ← find_or_mkdir s dirpath;
           if dir =? 0 then Ret (0, s) else vfs_create_node s dir fname ty) (λ '(n, s'), grows s s' ∧
    let cs := components dirpath ++ [fname] in
    if n =? 0 then no_way s s' (vfs_root s) cs
    else resolve (vnodes s') (vfs_root s) cs = Some n ∧
         (resolve (vnodes s) (vfs_root s) cs = Some n ∨ vnodes s !! n = None ∧
          ∃ parent, vnodes s' !! n = Some (Vnode fname ty 0 0 0 false 0 parent []))).
Proof.
  intros Hi Hg Hf.
  destruct (proj1 (returns_iff _ _) (find_or_mkdir_spec s dirpath Hi Hg)) as ([dir s1] & -> & G & Hdir).
  pose proof (gr_inv _ _ G) as Hi1. pose proof (proj1 Hi1) as T1. rewrite bind_Ret.
  destruct (Z.eqb_spec dir 0) as [->|Hd0].
  { split; [done|]. cbn [Z.eqb]. by apply no_way_app. }
  destruct Hdir as [Hdir Hfn].
  assert (Hlive : is_Some (vnodes s1 !! dir)).
  { rewrite <- (gr_root _ _ G) in Hdir. by apply (resolve_live s1 _ dir T1 Hdir). }
  destruct Hlive as [d Hd]. destruct (decide (v_type d = VFS_DIRECTORY)) as [Hty|Hty].
  - eapply returns_mono; [by apply (create_node_spec s1 dir d fname ty)|]. cbn beta.
    intros [n s'] [G' Hn]. split; [by eapply grows_trans|]. cbn zeta.
    pose proof (grows_resolve _ _ _ _ _ G' Hdir) as Hdir'.
    destruct (child (vnodes s1) dir fname) as [c|] eqn:Ec.
    + subst c. destruct (child_live _ _ _ _ _ T1 Ec) as [Hn0 _]. destruct (Z.eqb_spec n 0); [done|].
      assert (Hr1 : resolve (vnodes s1) (vfs_root s) (components dirpath ++ [fname]) = Some n).
      { rewrite resolve_app, Hdir. cbn. by rewrite Ec. }
      split; [by eapply grows_resolve|]. left.
      destruct Hfn as [[-> _]|(x & Hx & Hxc)]; [done|]. exfalso.
      unfold child in Ec. rewrite Hx in Ec. cbn in Ec. by rewrite Hxc in Ec.
    + destruct Hn as [[-> Hn]|(Hn0 & Hnone & Hch & Hnew)].
      * cbn [Z.eqb]. destruct Hn as [Hm|Hfull].
        -- right. exists s1. split; [done|]. done.
        -- left. destruct (gr_ext _ _ G' _ _ Hd) as [cs Hd'].
           eexists (components dirpath), [fname], dir, _. split; [done|]. split; [done|]. split; [exact Hd'|].
           right. unfold child_count in *. cbn. rewrite length_app. lia.
      * destruct (Z.eqb_spec n 0); [done|]. split; [rewrite resolve_app, Hdir'; cbn; by rewrite Hch|].
        right. split; [|eauto]. destruct (vnodes s !! n) as [x|] eqn:Ex; [|done].
        destruct (gr_ext _ _ G _ _ Ex) as [cs ?]. congruence.
  - eapply returns_mono; [by apply (create_node_not_dir s1 dir d fname ty)|]. cbn beta.
    intros [n s'] [-> G']. split; [by eapply grows_trans|]. cbn [Z.eqb]. left.
    destruct (gr_ext _ _ G' _ _ Hd) as [cs Hd'].
    eexists (components dirpath), [fname], dir, _. split; [done|].
    split; [by eapply grows_resolve|]. split; [exact Hd'|]. by left.
Qed.

Lemma create_file_step s path :
  fs_inv s → good_path path → (length path < VFS_MAX_PATH)%nat →
  (∀ dir, vfs_split_path path ≠ Ret (dir, [])) →
  returns (vfs_create_file s path) (λ '(n, s'), grows s s' ∧
    if n =? 0 then no_way s s' (vfs_root s) (components path)
    else vfs_find s' path = Ret n ∧
      (vfs_find s path = Ret n ∨ vnodes s !! n = None ∧
         ∃ name parent, vnodes s' !! n = Some (Vnode name VFS_FILE 0 0 0 false 0 parent []))).
Proof.
  intros Hi Hg Hl Hne. destruct (split_path_spec path Hg Hl) as (dir & f & Es & Hgd & Hgf & Ec).
  unfold vfs_create_file. destruct (root_live s (proj1 Hi)) as [Hr0 _].
  destruct (Z.eqb_spec (vfs_root s) 0); [done|]. rewrite Es, bind_Ret.
  destruct f as [|c f]; [by destruct (Hne dir)|]. specialize (Hgf ltac:(done)).
  rewrite bool_decide_false by done.
  eapply returns_mono; [by apply create_at_spec|]. intros [nd s'] [G Hn]. cbn zeta in Hn.
  rewrite <- Ec in Hn. split; [done|].
  destruct (nd =? 0); [done|]. destruct Hn as [Hr Hn].
  rewrite !find_resolves by (done || apply G || apply Hi). rewrite (gr_root _ _ G), Hr.
  split; [done|]. destruct Hn as [->|(? & parent & ?)]; [by left|right; eauto].
Qed.

(** [vfs_create_file] on a path below 256 characters that does not end in a
    slash.  The tree stays well-formed and grows, and every path keeps its
    meaning.  The result is the node [vfs_find] finds at the path afterwards:
    either the one that was there, unchanged, or a new empty file.  [NULL] is
    returned only when the directory cannot be made, is a file or is full, or
    memory runs out. *)
Theorem vfs_create_file_spec s path :
  fs_inv s → good_path path → (length path < VFS_MAX_PATH)%nat →
  (∀ dir, vfs_split_path path ≠ Ret (dir, [])) →
  returns (vfs_create_file s path) (λ '(n, s'),
    fs_inv s' ∧ extends (vnodes s) (vnodes s') ∧
    (∀ d cs m, resolve (vnodes s) d cs = Some m → resolve (vnodes s') d cs = Some m) ∧
    if n =? 0 then no_way s s' (vfs_root s) (components path)
    else vfs_find s' path = Ret n ∧
      (vfs_find s path = Ret n ∨ vnodes s !! n = None ∧
         ∃ name parent, vnodes s' !! n = Some (Vnode name VFS_FILE 0 0 0 false 0 parent []))).
Proof.
  intros Hi Hg Hl Hne. eapply returns_mono; [by apply create_file_step|]. intros [n s'] [G Hn].
  split; [apply G|]. split; [apply G|]. split; [intros; by eapply grows_resolve|done].
Qed.

(** [vfs_create_device]: the node at the path, new or not, gets the device. *)
Lemma create_device_spec s path device :
  fs_inv s → good_path path → (length path < VFS_MAX_PATH)%nat →
  (∀ dir, vfs_split_path path ≠ Ret (dir, [])) → device ≠ 0 →
  returns (vfs_create_device s path device) (λ '(n, s'),
    fs_inv s' ∧ vfs_root s' = vfs_root s ∧ vfs_ram s' = vfs_ram s ∧ no_new_data (vnodes s) (vnodes s') ∧
    (∀ d cs m, resolve (vnodes s) d cs = Some m → resolve (vnodes s') d cs = Some m) ∧
    if n =? 0 then no_way s s' (vfs_root s) (components path)
    else vfs_find s' path = Ret n ∧ v_device <$> vnodes s' !! n = Some device ∧
      (vfs_find s path = Ret n ∨ vnodes s !! n = None ∧ v_type <$> vnodes s' !! n = Some VFS_DEVICE)).
Proof.
  intros Hi Hg Hl Hne Hdev. destruct (split_path_spec path Hg Hl) as (dir & f & Es & Hgd & Hgf & Ec).
  unfold vfs_create_device. destruct (root_live s (proj1 Hi)) as [Hr0 _].
  destruct (Z.eqb_spec (vfs_root s) 0); [done|]. destruct (Z.eqb_spec device 0); [done|]. cbn [orb].
  rewrite Es, bind_Ret. destruct f as [|c f]; [by destruct (Hne dir)|]. specialize (Hgf ltac:(done)).
  rewrite bool_decide_false by done.
  pose proof (create_at_spec s dir (c :: f) VFS_DEVICE Hi Hgd Hgf) as Hat.
  destruct (find_or_mkdir s dir) as [[d0 s0]| | |]; cbn [mbind res_bind] in Hat |- *; try done.
  destruct (d0 =? 0) eqn:E0.
  { destruct Hat as [G Hn]. cbn [Z.eqb] in Hn |- *. rewrite <- Ec in Hn. split; [apply G|]. split; [apply G|].
    split; [apply G|]. split; [apply G|]. split; [intros; by eapply grows_resolve|done]. }
  destruct (proj1 (returns_iff _ _) Hat) as ([nd s1] & -> & G & Hn). cbn [mbind res_bind].
  cbn zeta in Hn. rewrite <- Ec in Hn. destruct (Z.eqb_spec nd 0) as [->|Hnd].
  { do 4 (split; [apply G|]). split; [intros; by eapply grows_resolve|done]. }
  destruct Hn as [Hr Hn]. pose proof (gr_inv _ _ G) as Hi1. rewrite <- (gr_root _ _ G) in Hr.
  destruct (resolve_live s1 _ nd (proj1 Hi1) Hr) as [_ [x Hx]]. unfold get_vnode. rewrite Hx. cbn [deref mbind res_bind].
  assert (Hsame : same_links x (set_device x device)) by done.
  assert (Hinv : fs_inv (put_vnode s1 nd (set_device x device))).
  { split; [by apply (tree_inv_links _ _ _ x); [apply Hi1|..]|by apply (store_inv_node s1 nd x); [apply Hi1|..]]. }
  cbn [returns]. split; [exact Hinv|]. split; [apply G|]. split; [apply G|]. split.
  { eapply no_new_data_trans; [apply G|]. apply no_new_data_insert. right. by exists x. }
  split.
  { intros d cs m Hm. cbn. rewrite (resolve_links _ _ x) by done. by eapply grows_resolve. }
  rewrite (proj2 (Z.eqb_neq _ _) Hnd), !find_resolves by (done || apply Hi || apply Hinv).
  cbn [vfs_root vnodes put_vnode put_nodes]. rewrite (resolve_links _ _ x), Hr, lookup_insert_eq by done. cbn.
  split; [done|]. split; [done|]. destruct Hn as [->|(? & parent & Hy)]; [by left|right]. split; [done|].
  rewrite Hx in Hy. by injection Hy as ->.
Qed.

(** ** Removing nodes *)

(** [ns'] is [ns] without the leaf [n]. *)
Definition pruned (n : Z) ns ns' : Prop :=
  ∀ e, ns' !! e = if decide (e = n) then None
                  else (λ x, set_children x (filter (.≠ n) (v_children x))) <$> ns !! e.

Lemma pruned_data n ns ns' : pruned n ns ns' → no_new_data ns ns'.
Proof.
  intros P m y Hy. rewrite P in Hy. case_decide; [done|]. destruct (ns !! m) as [x|]; [|done].
  injection Hy as <-. right. by exists x.
Qed.

Lemma filter_notin (n : Z) (l : list Z) : n ∉ l → filter (.≠ n) l = l.
Proof.
  induction l as [|c l IH]; [done|]. intros Hn. rewrite filter_cons_True by set_solver.
  by rewrite IH by set_solver.
Qed.

Lemma index_of_spec (n : Z) (l : list Z) : n ∈ l → NoDup l →
  ∃ i, index_of n l = Some i ∧ delete i l = filter (.≠ n) l.
Proof.
  induction l as [|c l IH]; [by intros ?%elem_of_nil|]. intros Hn [Hc Hl]%NoDup_cons. cbn [index_of].
  destruct (Z.eqb_spec c n) as [->|Hne].
  - exists O. split; [done|]. rewrite filter_cons_False by naive_solver. cbn.
    by rewrite filter_notin.
  - destruct IH as (i & -> & E); [set_solver|done|]. exists (S i). split; [done|].
    rewrite filter_cons_True by done. change (delete (S i) (c :: l)) with (c :: delete i l). by rewrite E.
Qed.

Lemma tree_inv_prune root ns ns' n x :
  tree_inv root ns → pruned n ns ns' → n ≠ root → ns !! n = Some x → v_children x = [] →
  tree_inv root ns'.
Proof.
  intros T P Hnr Hx Hc. split.
  - rewrite P. case_decide; [done|]. by rewrite (ti_null _ _ T).
  - destruct (ti_root _ _ T) as (r & Hr & Ht & Hp). rewrite P, decide_False, Hr by done. cbn. eauto.
  - intros d y c Hy Hcy. rewrite P in Hy. case_decide; [done|].
    destruct (ns !! d) as [z|] eqn:Ez; [|done]. cbn in Hy. injection Hy as <-.
    cbn in Hcy. apply list_elem_of_filter in Hcy as [Hne Hcy].
    destruct (ti_child _ _ T _ _ _ Ez Hcy) as (w & Hw & ? & ?). rewrite P, decide_False, Hw by done.
    cbn. eauto.
  - intros d y Hy. rewrite P in Hy. case_decide; [done|].
    destruct (ns !! d) as [z|] eqn:Ez; [|done]. cbn in Hy. injection Hy as <-. cbn.
    pose proof (ti_names _ _ T d z Ez) as Hn. clear -P Hn.
    induction (v_children z) as [|c l IH]; [constructor|]. cbn in Hn. apply NoDup_cons in Hn as [Hc Hl].
    rewrite filter_cons. case_decide as Hcn; [|by apply IH].
    cbn. apply NoDup_cons. split; [|by apply IH]. intros Hin. apply Hc.
    apply list_elem_of_fmap in Hin as (e & E & He). apply list_elem_of_filter in He as [Hne He].
    apply list_elem_of_fmap. exists e. split; [|done]. unfold node_name in *. rewrite !P in E.
    rewrite !decide_False in E by done. by destruct (ns !! c), (ns !! e).
  - intros d y Hy. rewrite P in Hy. case_decide; [done|].
    destruct (ns !! d) as [z|] eqn:Ez; [|done]. cbn in Hy. injection Hy as <-. cbn.
    destruct (ti_dirs _ _ T d z Ez) as [Hl Hd]. split.
    + pose proof (length_filter (.≠ n) (v_children z)). lia.
    + intros Hne. apply Hd. intros E. by rewrite E in Hne.
Qed.

Lemma prune_child root ns ns' n d c m :
  tree_inv root ns → tree_inv root ns' → pruned n ns ns' → d ≠ n →
  child ns' d c = Some m ↔ child ns d c = Some m ∧ m ≠ n.
Proof.
  intros T T' P Hd. split.
  - intros Hc. destruct (child_some _ _ _ _ Hc) as (x & y & Hx & Hin & Hy & <-).
    rewrite P, decide_False in Hx by done. destruct (ns !! d) as [z|] eqn:Ez; [|done].
    cbn in Hx. injection Hx as <-. cbn in Hin. apply list_elem_of_filter in Hin as [Hne Hin].
    rewrite P, decide_False in Hy by done. destruct (ns !! m) as [w|] eqn:Ew; [|done].
    cbn in Hy. injection Hy as <-. split; [|done]. by eapply (child_unique root ns d z m w).
  - intros [Hc Hne]. destruct (child_some _ _ _ _ Hc) as (x & y & Hx & Hin & Hy & <-).
    assert (Hx' : ns' !! d = Some (set_children x (filter (.≠ n) (v_children x))))
      by by rewrite P, decide_False, Hx.
    assert (Hy' : ns' !! m = Some (set_children y (filter (.≠ n) (v_children y))))
      by by rewrite P, decide_False, Hy.
    change (v_name y) with (v_name (set_children y (filter (.≠ n) (v_children y)))).
    eapply child_unique; [done|exact Hx'| |exact Hy']. cbn. by apply list_elem_of_filter.
Qed.

Lemma prune_resolve root ns ns' n x d cs m :
  tree_inv root ns → tree_inv root ns' → pruned n ns ns' → ns !! n = Some x → v_children x = [] →
  d ≠ n → resolve ns' d cs = Some m ↔ resolve ns d cs = Some m ∧ m ≠ n.
Proof.
  intros T T' P Hx Hc. revert d. induction cs as [|c cs IH]; intros d Hd; cbn.
  { split; [by intros [= <-]|by intros [[= <-] _]]. }
  destruct (child ns' d c) as [e|] eqn:E; cbn.
  - apply (prune_child root ns ns' n) in E as [E Hne]; [|done..]. rewrite E. cbn. by apply IH.
  - split; [done|]. intros [Hr Hm]. destruct (child ns d c) as [e|] eqn:Ed; [|done]. cbn in Hr.
    destruct (decide (e = n)) as [->|Hne].
    + destruct cs as [|c' cs]; cbn in Hr; [congruence|]. unfold child in Hr. rewrite Hx in Hr.
      cbn in Hr. by rewrite Hc in Hr.
    + assert (child ns' d c = Some e) by (apply (prune_child root ns ns' n); done). congruence.
Qed.

Lemma v_free_spec s p k :
  ka_inv (vfs_heap s) → ka_size (vfs_heap s) p = Some k →
  returns (v_free s p) (λ s', ∃ h, s' = put_vheap s h ∧ ka_inv h ∧ ka_size h p = None ∧
    ∀ q, q ≠ p → ka_size h q = ka_size (vfs_heap s) q).
Proof.
  intros Hi Hk. unfold v_free.
  destruct (proj1 (returns_iff _ _) (ka_free_spec _ p k Hi Hk)) as (h & -> & ? & ? & ?).
  rewrite bind_Ret. by exists h.
Qed.

(** A node that owns a buffer. *)
Definition owns (x : vnode) : bool := negb (v_data x =? 0) && negb (v_borrowed x).

Lemma owns_true x : owns x = true ↔ v_data x ≠ 0 ∧ v_borrowed x = false.
Proof. unfold owns. rewrite andb_true_iff, !negb_true_iff, Z.eqb_neq. done. Qed.

(** The blocks that go with node [n]: itself and its buffer. *)
Definition block_of (n : Z) (x : vnode) (q : Z) : Prop := q = n ∨ owns x = true ∧ q = v_data x.

Lemma free_blocks s n x :
  store_inv s → vnodes s !! n = Some x →
  returns (s ← (if owns x then v_free s (v_data x) else Ret s); v_free s n) (λ s', ∃ h,
    s' = put_vheap s h ∧ ka_inv h ∧ ∀ q,
      (block_of n x q → ka_size h q = None) ∧
      (¬ block_of n x q → ka_size h q = ka_size (vfs_heap s) q)).
Proof.
  intros Hs Hx. destruct (vi_live _ Hs n x Hx) as (kn & Hkn & _).
  destruct (owns x) eqn:Eo; [pose proof Eo as Ho; apply owns_true in Ho as [H0 Hb]|].
  - destruct (vi_data _ Hs n x Hx H0 Hb) as (Hnone & _ & k & Hk & _).
    assert (Hne : n ≠ v_data x) by (intros E; congruence).
    destruct (proj1 (returns_iff _ _) (v_free_spec s (v_data x) k (vi_heap _ Hs) Hk))
      as (s1 & -> & h1 & -> & Hh1 & Hd1 & Hq1). rewrite bind_Ret.
    destruct (proj1 (returns_iff _ _) (v_free_spec (put_vheap s h1) n kn Hh1 ltac:(cbn; by rewrite Hq1)))
      as (s2 & -> & h2 & -> & Hh2 & Hd2 & Hq2). exists h2. split; [done|]. split; [done|].
    intros q. cbn in Hq2. unfold block_of. rewrite Eo. split.
    + intros [->|[_ ->]]; [done|]. rewrite Hq2 by congruence. done.
    + intros Hnb. rewrite Hq2 by naive_solver. apply Hq1. naive_solver.
  - rewrite bind_Ret.
    destruct (proj1 (returns_iff _ _) (v_free_spec s n kn (vi_heap _ Hs) Hkn))
      as (s2 & -> & h2 & -> & Hh2 & Hd2 & Hq2). exists h2. split; [done|]. split; [done|].
    intros q. unfold block_of. rewrite Eo. split.
    + intros [->|[? _]]; done.
    + intros Hnb. apply Hq2. naive_solver.
Qed.

Lemma store_inv_prune s n x ns' h :
  store_inv s → vnodes s !! n = Some x → pruned n (vnodes s) ns' → ka_inv h →
  (∀ q, ¬ block_of n x q → ka_size h q = ka_size (vfs_heap s) q) →
  store_inv (Vfs (vfs_root s) ns' h (vfs_ram s)).
Proof.
  intros [Hh Hl Hd Hsep] Hx P Hi Hq.
  assert (Hinv : ∀ m y, ns' !! m = Some y → m ≠ n ∧ ∃ z, vnodes s !! m = Some z ∧
    v_data y = v_data z ∧ v_size y = v_size z ∧ v_capacity y = v_capacity z ∧
    v_borrowed y = v_borrowed z).
  { intros m y Hy. rewrite P in Hy. case_decide; [done|]. split; [done|].
    destruct (vnodes s !! m) as [z|]; [|done]. cbn in Hy. injection Hy as <-. by exists z. }
  assert (Hnode : ∀ m y, vnodes s !! m = Some y → m ≠ n → ¬ block_of n x m).
  { intros m y Hy Hne [->|[Ho ->]]; [done|]. apply owns_true in Ho as [H0 Hb].
    destruct (Hd n x Hx H0 Hb) as (? & _). congruence. }
  split; cbn; [done|..].
  - intros m y Hy. destruct (Hinv m y Hy) as (Hne & z & Hz & _).
    rewrite Hq by (by eapply Hnode). eauto.
  - intros m y Hy H0 Hb. destruct (Hinv m y Hy) as (Hne & z & Hz & Ed & Es & Ec & Eb).
    rewrite Ed, Es, Ec, Eb in *. destruct (Hd m z Hz H0 Hb) as (Hnone & ? & Hk).
    split; [|split; [done|]].
    + rewrite P. case_decide; [done|]. by rewrite Hnone.
    + rewrite Hq; [done|]. intros [E|[Ho E]]; [congruence|]. apply owns_true in Ho as [Hx0 Hxb].
      by eapply (Hsep m z n x).
  - intros m y m' y' Hy Hy' Hne H0 Hb Hb'. destruct (Hinv m y Hy) as (_ & z & Hz & Ed & _ & _ & Eb).
    destruct (Hinv m' y' Hy') as (_ & z' & Hz' & Ed' & _ & _ & Eb'). rewrite Ed, Ed' in *.
    rewrite Eb, Eb' in *. eauto.
Qed.

(** Where a node that is not the root hangs. *)
Lemma resolve_parent s cs n x :
  tree_inv (vfs_root s) (vnodes s) → resolve (vnodes s) (vfs_root s) cs = Some n → n ≠ vfs_root s →
  vnodes s !! n = Some x →
  v_parent x ≠ 0 ∧ ∃ d, vnodes s !! v_parent x = Some d ∧ n ∈ v_children d.
Proof.
  intros T Hr Hn Hx. destruct cs as [|c cs _] using rev_ind; [by injection Hr|].
  rewrite resolve_app in Hr. destruct (resolve _ _ cs) as [p|] eqn:Ep; [|done]. cbn in Hr.
  destruct (child _ p c) as [m|] eqn:Ec; [|done]. cbn in Hr. injection Hr as ->.
  destruct (child_some _ _ _ _ Ec) as (d & y & Hd & Hin & Hy & _).
  destruct (ti_child _ _ T _ _ _ Hd Hin) as (z & Hz & Hp & _). assert (z = x) as -> by congruence.
  rewrite Hp. destruct (resolve_live _ _ _ T Ep). eauto.
Qed.

(** Only the parent lists a node. *)
Lemma pruned_intro root ns p d n x :
  tree_inv root ns → ns !! n = Some x → v_parent x = p → ns !! p = Some d → n ≠ p →
  pruned n ns (delete n (<[p := set_children d (filter (.≠ n) (v_children d))]> ns)).
Proof.
  intros T Hx Hp Hd Hne e. case_decide as He; [subst; apply lookup_delete_eq|].
  rewrite lookup_delete_ne by done. destruct (decide (e = p)) as [->|].
  - by rewrite lookup_insert_eq, Hd.
  - rewrite lookup_insert_ne by done. destruct (ns !! e) as [z|] eqn:Ez; [|done]. cbn. f_equal.
    rewrite filter_notin; [by rewrite set_children_id|]. intros Hin.
    destruct (ti_child _ _ T _ _ _ Ez Hin) as (w & Hw & Hwp & _). congruence.
Qed.

Lemma remove_leaf s path n x :
  fs_inv s → good_path path → vfs_find s path = Ret n → n ≠ 0 → n ≠ vfs_root s →
  vnodes s !! n = Some x → v_children x = [] →
  returns (vfs_remove s path) (λ '(rv, s'), rv = 0 ∧
    vfs_root s' = vfs_root s ∧ vfs_ram s' = vfs_ram s ∧ fs_inv s' ∧
    pruned n (vnodes s) (vnodes s') ∧ ∀ q,
      (block_of n x q → ka_size (vfs_heap s') q = None) ∧
      (¬ block_of n x q → ka_size (vfs_heap s') q = ka_size (vfs_heap s) q)).
Proof.
  intros [T Hs] Hg Hf Hn0 Hnr Hx Hc. unfold vfs_remove. rewrite Hf, bind_Ret.
  destruct (Z.eqb_spec n 0), (Z.eqb_spec n (vfs_root s)); try done. cbn [orb].
  rewrite (find_resolves s path T Hg) in Hf. injection Hf as Hf.
  destruct (resolve (vnodes s) (vfs_root s) (components path)) as [n'|] eqn:Er; [|done].
  cbn in Hf. subst n'. destruct (resolve_parent _ _ _ _ T Er Hnr Hx) as (Hp0 & d & Hd & Hin).
  unfold get_vnode. rewrite Hx. cbn [deref]. rewrite bind_Ret.
  destruct (Z.eqb_spec (v_parent x) 0); [done|].
  rewrite (bool_decide_false (0 < child_count x)%nat), andb_false_r by (unfold child_count; rewrite Hc; cbn; lia).
  rewrite Hd. cbn [deref]. rewrite bind_Ret.
  assert (Hnd : NoDup (v_children d)) by (eapply NoDup_fmap_1, (ti_names _ _ T _ _ Hd)).
  destruct (index_of_spec n _ Hin Hnd) as (i & -> & ->).
  set (d' := set_children d _). set (s1 := put_vnode s (v_parent x) d').
  assert (Hne : n ≠ v_parent x).
  { intros E. rewrite <- E, Hx in Hd. injection Hd as <-. rewrite Hc in Hin. by apply elem_of_nil in Hin. }
  assert (Hs1 : store_inv s1) by by eapply store_inv_node.
  assert (Hx1 : vnodes s1 !! n = Some x) by (cbn; by rewrite lookup_insert_ne).
  pose proof (free_blocks s1 n x Hs1 Hx1) as Hfree. unfold owns in Hfree.
  destruct (if negb (v_data x =? 0) && negb (v_borrowed x) then v_free s1 (v_data x) else Ret s1) as [s2| | |]; [|by destruct Hfree..].
  rewrite bind_Ret. rewrite bind_Ret in Hfree.
  destruct (proj1 (returns_iff _ _) Hfree) as (s3 & -> & h & -> & Hi & Hq). rewrite bind_Ret.
  pose proof (pruned_intro _ _ _ _ _ _ T Hx eq_refl Hd Hne) as P.
  split; [done|]. split; [done|]. split; [done|]. split; [|split; [exact P|exact Hq]]. split.
  - by eapply tree_inv_prune.
  - apply (store_inv_prune s n x _ h Hs Hx P Hi). intros q Hb. by apply Hq.
Qed.

(** Every case of [vfs_remove]. *)
Lemma remove_step s path :
  fs_inv s → good_path path →
  match resolve (vnodes s) (vfs_root s) (components path) with
  | None => vfs_remove s path = Ret (-1, s)
  | Some n => ∀ x, vnodes s !! n = Some x →
      if decide (n = vfs_root s ∨ v_children x ≠ []) then vfs_remove s path = Ret (-1, s)
      else returns (vfs_remove s path) (λ '(rv, s'), rv = 0 ∧ fs_inv s' ∧ no_new_data (vnodes s) (vnodes s') ∧
             (∀ cs m, resolve (vnodes s') (vfs_root s') cs = Some m ↔
                      resolve (vnodes s) (vfs_root s) cs = Some m ∧ m ≠ n) ∧
             ∀ q, (block_of n x q → ka_size (vfs_heap s') q = None) ∧
                  (¬ block_of n x q → ka_size (vfs_heap s') q = ka_size (vfs_heap s) q))
  end.
Proof.
  intros Hi Hg. pose proof (proj1 Hi) as T. pose proof (find_resolves s path T Hg) as Hf.
  destruct (resolve (vnodes s) (vfs_root s) (components path)) as [n|] eqn:Er; cbn [from_option id] in Hf.
  2:{ unfold vfs_remove. by rewrite Hf, bind_Ret. }
  intros x Hx. destruct (resolve_live _ _ _ T Er) as [Hn0 _]. case_decide as Hd.
  - unfold vfs_remove. rewrite Hf, bind_Ret. destruct (Z.eqb_spec n 0); [done|]. cbn [orb].
    destruct (Z.eqb_spec n (vfs_root s)) as [|Hnr]; [done|]. destruct Hd as [|Hc]; [done|].
    destruct (resolve_parent _ _ _ _ T Er Hnr Hx) as (Hp0 & _).
    unfold get_vnode. rewrite Hx. cbn [deref]. rewrite bind_Ret.
    destruct (Z.eqb_spec (v_parent x) 0); [done|].
    rewrite (bool_decide_true (v_type x = _)) by by apply (ti_dirs _ _ T n x Hx).
    rewrite bool_decide_true; [done|]. unfold child_count. destruct (v_children x); [done|cbn; lia].
  - assert (Hnr : n ≠ vfs_root s) by tauto.
    assert (Hc : v_children x = []) by (destruct (v_children x); [done|]; exfalso; apply Hd; by right).
    eapply returns_mono; [by eapply remove_leaf|]. intros [rv s'] (-> & Er' & _ & Hi' & P & Hq).
    split; [done|]. split; [done|]. split; [by eapply pruned_data|]. split; [|done]. intros cs m. rewrite Er'.
    destruct Hi' as [T' _]. rewrite Er' in T'. by eapply (prune_resolve (vfs_root s)).
Qed.

(** C21. [vfs_remove].  On a path to a file, a device or an empty directory other
    than the root it returns 0; the tree stays well-formed, exactly that node is
    gone (every other path keeps its meaning, and no path leads to the node any
    more), and exactly its node and the buffer it owns are freed.  A missing path,
    the root and a directory that is not empty give -1 and change nothing. *)
Theorem vfs_remove_spec s path :
  fs_inv s → good_path path →
  match resolve (vnodes s) (vfs_root s) (components path) with
  | None => vfs_remove s path = Ret (-1, s)
  | Some n => ∀ x, vnodes s !! n = Some x →
      if decide (n = vfs_root s ∨ v_children x ≠ []) then vfs_remove s path = Ret (-1, s)
      else returns (vfs_remove s path) (λ '(rv, s'), rv = 0 ∧ fs_inv s' ∧
             (∀ cs m, resolve (vnodes s') (vfs_root s') cs = Some m ↔
                      resolve (vnodes s) (vfs_root s) cs = Some m ∧ m ≠ n) ∧
             ∀ q, (block_of n x q → ka_size (vfs_heap s') q = None) ∧
                  (¬ block_of n x q → ka_size (vfs_heap s') q = ka_size (vfs_heap s) q))
  end.
Proof.
  intros Hi Hg. pose proof (remove_step s path Hi Hg) as Hr.
  destruct (resolve _ _ _) as [n|]; [|done]. intros x Hx. specialize (Hr x Hx). case_decide; [done|].
  eapply returns_mono; [exact Hr|]. by intros [rv s'] (? & ? & _ & ?).
Qed.
End tree.
