(* ===== verification/VfsData.v ===== *)
(** File contents: [vfs_write], [vfs_read] and [vfs_set_data]. *)
From S2P Require Import Prelude Interfaces Ram Kheap Vfs VfsTree.
Import MemLib.

Section data.
Context {H : Type} `{HA : HeapAlloc H}.
Implicit Types (s : vfs H).

Lemma block_valid (h : H) a n k : ka_inv h → ka_size h a = Some k → n ≤ k → data_valid h a n = true.
Proof.
  intros Hi Hk Hn. destruct (ka_size_bounds _ _ _ Hi Hk) as (? & ? & ?). pose proof (@ka_range H HA) as Hr.
  unfold data_valid. rewrite Hk. repeat zcase; cbn; try done; lia.
Qed.

Lemma outside_valid (h : H) a n : 0 < a → a + n ≤ 2 ^ 64 → a + n ≤ ka_lo ∨ ka_hi ≤ a → data_valid h a n = true.
Proof. intros. unfold data_valid. repeat zcase; cbn; try done; lia. Qed.

(** A range of memory that is not part of block [p] of the heap nor of a block
    yet to be allocated: it lies outside the heap or in another live block. *)
Definition apart s (p a n : Z) : Prop :=
  0 < a ∧ 0 ≤ n ∧ a + n ≤ 2 ^ 64 ∧
  (a + n ≤ ka_lo ∨ ka_hi ≤ a ∨
   ∃ b k, ka_size (vfs_heap s) b = Some k ∧ b ≠ p ∧ b ≤ a ∧ a + n ≤ b + k).

Lemma apart_block s h p a n q k :
  apart s p a n → ka_inv h → ka_size h q = Some k →
  (q = p ∨ ka_size (vfs_heap s) q = None) →
  (∀ b k, ka_size (vfs_heap s) b = Some k → b ≠ p → ka_size h b = Some k) →
  q + k ≤ a ∨ a + n ≤ q.
Proof.
  intros (_ & _ & _ & Ha) Hi Hq Hne Hb. destruct (ka_size_bounds _ _ _ Hi Hq) as (? & ? & ?).
  destruct Ha as [|[|(b & kb & Hkb & Hbp & ? & ?)]]; [lia..|].
  pose proof (Hb _ _ Hkb Hbp) as Hkb'. assert (q ≠ b) by (intros ->; destruct Hne; congruence).
  destruct (ka_disjoint _ _ _ _ _ Hi Hq Hkb' ltac:(done)); lia.
Qed.

(** What a successful write of [size] bytes from [buf] gives. *)
Record written s s' (n : Z) (x x' : vnode) (buf size : Z) : Prop := {
  wr_nodes : vnodes s' = <[n := x']> (vnodes s) ∧ vfs_root s' = vfs_root s;
  wr_node : x' = set_data x (v_data x') size (v_capacity x') false ∧ v_data x' ≠ 0;
  wr_inv : store_inv s';
  wr_bytes i : 0 ≤ i < size → ld8 (vfs_ram s') (v_data x' + i) = ld8 (vfs_ram s) (buf + i);
  wr_out b : ¬ (v_data x' ≤ b < v_data x' + size) → ld8 (vfs_ram s') b = ld8 (vfs_ram s) b;
  wr_block : ∃ k, ka_size (vfs_heap s') (v_data x') = Some k ∧ size ≤ k;
  wr_blocks q k : ka_size (vfs_heap s) q = Some k → (owns x = true → q ≠ v_data x) →
    q ≠ v_data x' ∧ ka_size (vfs_heap s') q = Some k;
}.

(** Replacing the buffer of a node by one that is nobody else's. *)
Lemma store_inv_buffer s n x y h m :
  store_inv s → vnodes s !! n = Some x → ka_inv h → v_borrowed y = false →
  (∀ q k, ka_size (vfs_heap s) q = Some k → (owns x = true → q ≠ v_data x) → ka_size h q = Some k) →
  (v_data y ≠ 0 → v_size y ≤ v_capacity y ∧
     (∃ k, ka_size h (v_data y) = Some k ∧ v_capacity y ≤ k) ∧
     (v_data y = v_data x ∧ owns x = true ∨ ka_size (vfs_heap s) (v_data y) = None)) →
  store_inv (Vfs (vfs_root s) (<[n := y]> (vnodes s)) h m).
Proof.
  intros [Hh Hl Hd Hsep] Hx Hi Hby Hq Hy.
  assert (Hnot : ∀ e z, vnodes s !! e = Some z → owns x = true → e ≠ v_data x).
  { intros e z He Ho ->. apply owns_true in Ho as [H0 Hb]. destruct (Hd n x Hx H0 Hb). congruence. }
  assert (Hfresh : v_data y ≠ 0 → vnodes s !! v_data y = None).
  { intros H0. destruct (Hy H0) as (_ & _ & [[-> Ho]|Hnone]).
    - apply owns_true in Ho as [Hx0 Hb]. by destruct (Hd n x Hx Hx0 Hb).
    - destruct (vnodes s !! v_data y) as [z|] eqn:E; [|done]. destruct (Hl _ _ E) as (? & ? & _). congruence. }
  assert (Hother : ∀ e z, vnodes s !! e = Some z → e ≠ n → v_data z ≠ 0 → v_borrowed z = false →
    owns x = true → v_data z ≠ v_data x).
  { intros e z He Hne H0 Hb Ho. apply owns_true in Ho as [Hx0 Hxb]. by eapply (Hsep e z n x). }
  assert (Hdata : ∀ e z, vnodes s !! e = Some z → e ≠ n → v_data z ≠ 0 → v_borrowed z = false →
    v_data y ≠ 0 → v_data z ≠ v_data y).
  { intros e z He Hne H0 Hb Hy0 E. destruct (Hy Hy0) as (_ & _ & [[E2 Ho]|Hnone]).
    - rewrite E2 in E. by eapply Hother.
    - destruct (Hd e z He H0 Hb) as (_ & _ & k & Hk & _). congruence. }
  split; cbn; [done|..].
  - intros e z He. apply lookup_insert_Some in He as [[<- <-]|[Hne He]].
    + destruct (Hl n x Hx) as (k & ? & ?). exists k. split; [|done]. apply Hq; [done|]. by eapply Hnot.
    + destruct (Hl e z He) as (k & ? & ?). exists k. split; [|done]. apply Hq; [done|]. by eapply Hnot.
  - intros e z He H0 Hb. apply lookup_insert_Some in He as [[<- <-]|[Hne He]].
    + destruct (Hy H0) as (? & Hk & _). split; [|done].
      rewrite lookup_insert_ne; [by apply Hfresh|]. intros E. pose proof (Hfresh H0). congruence.
    + destruct (Hd e z He H0 Hb) as (Hnone & ? & k & Hk & ?).
      split; [rewrite lookup_insert_ne; congruence|]. split; [done|]. exists k. split; [|done].
      apply Hq; [done|]. intros Ho. by eapply (Hother e z).
  - intros e z e' z' He He' Hne H0 Hb Hb'.
    apply lookup_insert_Some in He as [[<- <-]|[Hn He]];
      apply lookup_insert_Some in He' as [[<- <-]|[Hn' He']]; try done.
    + intros E. destruct (decide (v_data z' = 0)) as [E0|H0']; [congruence|].
      by apply (Hdata e' z' He' ltac:(done) H0' Hb' H0).
    + destruct (decide (v_data y = 0)) as [->|H0']; [done|]. by eapply (Hdata e z).
    + by eapply (Hsep e z e' z').
Qed.

(** The end of [vfs_write], for the buffer it settled on. *)
Lemma write_finish s h n x data cap buf size :
  store_inv s → vnodes s !! n = Some x → 0 < size ≤ VFS_MAX_FILE_SIZE →
  apart s (v_data x) buf size → ka_inv h → data ≠ 0 → size ≤ cap →
  (∃ k, ka_size h data = Some k ∧ cap ≤ k) →
  (data = v_data x ∧ owns x = true ∨ ka_size (vfs_heap s) data = None) →
  (∀ q k, ka_size (vfs_heap s) q = Some k → (owns x = true → q ≠ v_data x) → ka_size h q = Some k) →
  (∃ h1, ka_inv h1 ∧ ka_size h1 data = ka_size h data ∧
     ∀ q k, ka_size (vfs_heap s) q = Some k → q ≠ v_data x → ka_size h1 q = Some k) →
  let x' := set_data x data size cap false in
  written s (Vfs (vfs_root s) (<[n := x']> (vnodes s)) h (memcpy (vfs_ram s) data buf size))
    n x x' buf size.
Proof.
  intros Hs Hx Hsz Ha Hi H0 Hcap (k & Hk & Hck) Hown Hq (h1 & Hi1 & Hk1 & Hq1) x'.
  rewrite Hk in Hk1. destruct (ka_size_bounds _ _ _ Hi Hk) as (? & ? & ?).
  pose proof (@ka_range H HA) as Hr. pose proof Ha as (Ha0 & _ & Ha1 & _).
  assert (Hdis : data + size ≤ buf ∨ buf + size ≤ data).
  { destruct (apart_block s h1 (v_data x) buf size data k Ha Hi1 Hk1); [naive_solver|done|lia|lia]. }
  assert (Hb : ∀ b, ld8 (memcpy (vfs_ram s) data buf size) b =
    if (data <=? b) && (b <? data + size) then ld8 (vfs_ram s) (buf + (b - data)) else ld8 (vfs_ram s) b).
  { intros b. apply ld8_memcpy; lia. }
  split; cbn.
  - done.
  - done.
  - eapply store_inv_buffer; try done. intros _. cbn. eauto 6.
  - intros i Hii. rewrite Hb. repeat zcase; try lia. cbn. f_equal. lia.
  - intros b Hbo. rewrite Hb. repeat zcase; try done. lia.
  - exists k. split; [done|lia].
  - intros q kq Hkq Hne. split; [|by apply Hq]. intros ->. destruct Hown as [[-> Ho]|]; [by apply Hne|congruence].
Qed.

(** The node after [vfs_write] has dropped a borrowed buffer. *)
Definition unborrowed (x : vnode) : vnode :=
  if v_borrowed x then set_data x 0 (v_size x) 0 false else x.

Lemma unborrowed_data x : v_data (unborrowed x) = if owns x then v_data x else 0.
Proof.
  unfold unborrowed, owns. destruct (v_borrowed x); cbn; [by rewrite andb_false_r|].
  by destruct (Z.eqb_spec (v_data x) 0).
Qed.

(** The state at the end of [vfs_write], in one piece. *)
Lemma write_state s s1 n x data size cap h buf :
  s1 = Vfs (vfs_root s) (<[n := unborrowed x]> (vnodes s)) h (vfs_ram s) →
  let y := set_data (unborrowed x) data (v_size (unborrowed x)) cap (v_borrowed (unborrowed x)) in
  put_vnode (put_vram s1 (memcpy (vfs_ram s1) (v_data y) buf size)) n
    (set_data y (v_data y) size (v_capacity y) (v_borrowed y)) =
  Vfs (vfs_root s) (<[n := set_data x data size cap false]> (vnodes s)) h
    (memcpy (vfs_ram s) data buf size).
Proof.
  intros -> y. unfold put_vnode, put_nodes, put_vram. cbn [vfs_root vnodes vfs_heap vfs_ram].
  rewrite insert_insert_eq. f_equal. f_equal. unfold y, unborrowed.
  destruct (v_borrowed x) eqn:E; destruct x; cbn in *; by subst.
Qed.

Lemma write_step s n x buf size :
  store_inv s → vnodes s !! n = Some x → n ≠ 0 → v_type x = VFS_FILE →
  0 < size ≤ VFS_MAX_FILE_SIZE → apart s (v_data x) buf size →
  returns (vfs_write s n buf size) (λ '(rv, s'),
    (rv = -1 ∧ ka_malloc (vfs_heap s) size = Ret (0, vfs_heap s) ∧
       s' = put_vnode s n (unborrowed x)) ∨
    rv = size ∧ ∃ x', written s s' n x x' buf size).
Proof.
  intros Hs Hx Hn0 Hty Hsz Ha. pose proof Ha as (Hbuf & _). unfold vfs_write, vfs_write_from.
  destruct (Z.eqb_spec n 0); [done|]. unfold get_vnode. rewrite Hx. cbn [deref]. rewrite bind_Ret.
  rewrite bool_decide_true by done. destruct (Z.eqb_spec buf 0); [lia|]. cbn [negb orb].
  destruct (Z.ltb_spec VFS_MAX_FILE_SIZE size); [lia|].
  change (if v_borrowed x then set_data x 0 (v_size x) 0 false else x) with (unborrowed x).
  set (x1 := unborrowed x). pose proof (unborrowed_data x) as Ed. fold x1 in Ed.
  rewrite (i32_small size) by (unfold VFS_MAX_FILE_SIZE in *; lia).
  destruct ((v_data x1 =? 0) || (v_capacity x1 <? size)) eqn:Enew.
  - (* a new buffer *)
    unfold v_malloc. cbn [vfs_heap put_vnode put_nodes].
    pose proof (ka_malloc_spec _ size (vi_heap _ Hs) ltac:(unfold VFS_MAX_FILE_SIZE in *; lia)) as Hm.
    destruct (proj1 (returns_iff _ _) Hm) as ([p h1] & E & Hh1 & Hp). rewrite E, !bind_Ret.
    destruct Hp as [[-> ->]|(Hp0 & Hnone & (k & Hk & Hkp) & Hq)].
    { cbn [Z.eqb]. left. split; [done|]. split; [done|]. by destruct s. }
    destruct (Z.eqb_spec p 0); [done|].
    assert (Hq1 : ∀ q kq, ka_size (vfs_heap s) q = Some kq → ka_size h1 q = Some kq)
      by (intros q kq Hkq; rewrite Hq; congruence).
    destruct (owns x) eqn:Eo.
    + pose proof Eo as Eo'. apply owns_true in Eo' as [Hd0 Hb]. rewrite Ed.
      destruct (Z.eqb_spec (v_data x) 0); [done|].
      destruct (vi_data _ Hs n x Hx Hd0 Hb) as (_ & _ & kd & Hkd & _).
      destruct (proj1 (returns_iff _ _) (v_free_spec (put_vheap (put_vnode s n x1) h1) (v_data x) kd Hh1
        (Hq1 _ _ Hkd))) as (s2 & -> & h2 & -> & Hh2 & _ & Hq2). rewrite bind_Ret.
      cbn in Hq2. rewrite through_valid, bind_Ret by (apply (block_valid h2 p _ k); [done|by rewrite Hq2 by congruence|done]).
      right. split; [done|]. exists (set_data x p size size false).
      rewrite (write_state s _ n x p size size h2) by done.
      apply write_finish; try done.
      * exists k. rewrite Hq2; [done|congruence].
      * by right.
      * intros q kq Hkq Hne. rewrite Hq2 by (by apply Hne). by apply Hq1.
      * exists h1. split; [done|]. split; [rewrite Hq2; congruence|]. intros q kq Hkq _. by apply Hq1.
    + rewrite Ed. cbn [Z.eqb]. rewrite bind_Ret, through_valid, bind_Ret by by apply (block_valid h1 p _ k).
      right. split; [done|].
      exists (set_data x p size size false).
      rewrite (write_state s _ n x p size size h1) by done.
      apply write_finish; try done.
      * by exists k.
      * by right.
      * intros q kq Hkq _. by apply Hq1.
      * exists h1. split; [done|]. split; [done|]. intros q kq Hkq _. by apply Hq1.
  - (* the old buffer *)
    zbool. assert (Eo : owns x = true) by (rewrite Ed in *; by destruct (owns x)).
    pose proof Eo as Eo'. apply owns_true in Eo' as [Hd0 Hb].
    destruct (vi_data _ Hs n x Hx Hd0 Hb) as (_ & _ & kd & Hkd & Hcd).
    assert (Ex : x1 = x) by (unfold x1, unborrowed; by rewrite Hb). rewrite Ex in *.
    rewrite through_valid, bind_Ret by (apply (block_valid (vfs_heap s) _ _ kd); [apply Hs|done|lia]).
    right. split; [done|]. exists (set_data x (v_data x) size (v_capacity x) false).
    unfold put_vram, put_vheap, put_vnode, put_nodes. cbn -[set_data]. rewrite insert_insert_eq, Hb.
    apply write_finish; try done.
    + apply Hs.
    + by exists kd.
    + by left.
    + exists (vfs_heap s). split; [by apply Hs|done].
Qed.

(** Changing what a node stores leaves the tree alone. *)
Lemma tree_inv_data root ns n x d sz cap b :
  tree_inv root ns → ns !! n = Some x → tree_inv root (<[n := set_data x d sz cap b]> ns).
Proof. intros T Hx. by apply (tree_inv_links root ns n x). Qed.

Lemma read_spec s n x out len :
  vnodes s !! n = Some x → n ≠ 0 → v_type x = VFS_FILE → 0 ≤ v_size x < 2 ^ 31 → 0 ≤ len →
  0 < out → out + len `min` v_size x ≤ 2 ^ 64 → 0 ≤ v_data x → v_data x + v_size x ≤ 2 ^ 64 →
  out + len `min` v_size x ≤ v_data x ∨ v_data x + v_size x ≤ out →
  data_valid (vfs_heap s) (v_data x) (v_size x) = true →
  returns (vfs_read s n out len) (λ '(rd, s2), rd = len `min` v_size x ∧
    vnodes s2 = vnodes s ∧ vfs_heap s2 = vfs_heap s ∧
    ∀ b, ld8 (vfs_ram s2) b =
      if (out <=? b) && (b <? out + len `min` v_size x) then ld8 (vfs_ram s) (v_data x + (b - out))
      else ld8 (vfs_ram s) b).
Proof.
  intros Hx Hn0 Hty Hsz Hlen Hout Hob Hd Hdb Hdis Hv. unfold vfs_read.
  destruct (Z.eqb_spec n 0); [done|]. unfold get_vnode. rewrite Hx. cbn [deref]. rewrite bind_Ret.
  rewrite bool_decide_true by done. destruct (Z.eqb_spec out 0); [lia|]. cbn [negb orb].
  replace (if len <? v_size x then len else v_size x) with (len `min` v_size x) by (zcase; lia).
  set (k := len `min` v_size x) in *. rewrite through_valid by (eapply data_valid_mono; [done|lia]).
  set (m := if 0 <? k then memcpy (vfs_ram s) out (v_data x) k else vfs_ram s).
  replace (if 0 <? k then Ret _ else Ret _) with (Ret m) by (unfold m; by destruct (0 <? k)). rewrite bind_Ret. unfold m.
  split; [rewrite i32_small; lia|]. split; [done|]. split; [done|]. intros b. cbn.
  destruct (Z.ltb_spec 0 k).
  - apply ld8_memcpy; lia.
  - repeat zcase; cbn; try done; lia.
Qed.

(** C22. Files store what is written.  Writing 1 byte to 64 MiB from a buffer
    outside the file's own block to a file node either fails with -1, and then only
    because the heap has no block of that size, or returns the size.  In that case
    the tree is well-formed, every other node, every block but the file's and every
    byte outside the new contents is as before, and a later [vfs_read] of any
    length into a buffer outside the file's block copies back the bytes that were
    written, up to the size of the file, and touches no other byte. *)
Theorem vfs_write_read_roundtrip s n x buf size out len :
  fs_inv s → vnodes s !! n = Some x → v_type x = VFS_FILE →
  0 < size ≤ VFS_MAX_FILE_SIZE → 0 ≤ len < 2 ^ 64 →
  apart s (v_data x) buf size →
  returns (vfs_write s n buf size) (λ '(rv, s1),
    if rv =? -1 then ka_malloc (vfs_heap s) size = Ret (0, vfs_heap s)
    else rv = size ∧ fs_inv s1 ∧
      (∀ m, m ≠ n → vnodes s1 !! m = vnodes s !! m) ∧
      (∀ q k, ka_size (vfs_heap s) q = Some k → (owns x = true → q ≠ v_data x) →
        ka_size (vfs_heap s1) q = Some k) ∧
      ∃ x1, vnodes s1 !! n = Some x1 ∧
        (∀ b, ¬ (v_data x1 ≤ b < v_data x1 + size) → ld8 (vfs_ram s1) b = ld8 (vfs_ram s) b) ∧
        (apart s1 (v_data x1) out (len `min` size) →
         returns (vfs_read s1 n out len) (λ '(rd, s2), rd = len `min` size ∧
           (∀ i, 0 ≤ i < len `min` size → ld8 (vfs_ram s2) (out + i) = ld8 (vfs_ram s) (buf + i)) ∧
           ∀ b, ¬ (out ≤ b < out + len `min` size) → ld8 (vfs_ram s2) b = ld8 (vfs_ram s1) b))).
Proof.
  intros [T Hs] Hx Hty Hsz Hlen Ha.
  assert (Hn0 : n ≠ 0) by (intros ->; by rewrite (ti_null _ _ T) in Hx).
  eapply returns_mono; [by apply (write_step s n x)|]. intros [rv s1] [(-> & Hm & _)|(-> & x1 & W)]; [done|].
  destruct (Z.eqb_spec size (-1)); [lia|].
  destruct (wr_nodes _ _ _ _ _ _ _ W) as [En Er]. destruct (wr_node _ _ _ _ _ _ _ W) as [Ex Hd0].
  split; [done|]. split; [split; [rewrite Er, En|by apply W]|].
  { rewrite Ex. by apply tree_inv_data. }
  split; [intros m Hm; rewrite En; by apply lookup_insert_ne|].
  split; [intros q k Hk Hq; by apply W|].
  exists x1. split; [rewrite En; apply lookup_insert_eq|]. split; [apply W|].
  intros Hout. destruct (wr_block _ _ _ _ _ _ _ W) as (k & Hk & Hsk).
  destruct (ka_size_bounds _ _ _ (vi_heap _ (wr_inv _ _ _ _ _ _ _ W)) Hk) as (? & ? & ?).
  pose proof (@ka_range H HA) as Hr.
  assert (Es : v_size x1 = size) by (by rewrite Ex).
  destruct (apart_block s1 _ _ _ _ _ k Hout (vi_heap _ (wr_inv _ _ _ _ _ _ _ W)) Hk ltac:(by left)
    ltac:(done)) as [Hdis|Hdis]; destruct Hout as (Ho0 & _ & Ho1 & _);
    (eapply returns_mono; [apply (read_spec s1 n x1 out len); rewrite ?Es;
      [rewrite En; apply lookup_insert_eq|done|by rewrite Ex|unfold VFS_MAX_FILE_SIZE in *; lia|lia..|by eapply block_valid; [apply (wr_inv _ _ _ _ _ _ _ W)|..]]|]);
    rewrite Es; intros [rd s2] (-> & _ & _ & Hb); (split; [done|split]).
  1,3: intros i Hii; rewrite Hb; repeat zcase; try lia; cbn;
    rewrite <- (wr_bytes _ _ _ _ _ _ _ W i) by lia; f_equal; lia.
  all: intros b Hbo; rewrite Hb; repeat zcase; try done; lia.
Qed.

(** [vfs_init] on an empty store makes a tree that is just the root. *)
Lemma vfs_init_spec s :
  ka_inv (vfs_heap s) → vnodes s = ∅ →
  returns (vfs_init s) (λ s', if vfs_root s' =? 0 then no_memory s
    else fs_inv s' ∧ ∀ cs n, resolve (vnodes s') (vfs_root s') cs = Some n → cs = []).
Proof.
  intros Hi Hn. assert (Hs : store_inv s).
  { split; [done|..]; intros ? ?; rewrite Hn; by rewrite lookup_empty. }
  unfold vfs_init, node_alloc.
  destruct (proj1 (returns_iff _ _) (v_malloc_spec s 640 Hs ltac:(lia)))
    as ([n s1] & -> & h & -> & Hs1 & Hp). rewrite bind_Ret.
  destruct Hp as [(-> & _ & Hm)|(Hn0 & Hnone & (k & Hk & Hkn) & Hq)]; [done|].
  destruct (Z.eqb_spec n 0); [done|]. rewrite bind_Ret.
  destruct (Z.eqb_spec n 0); [done|]. set (r := Vnode ROOT VFS_DIRECTORY 0 0 0 false 0 0 []).
  set (s' := put_vnode _ n r).
  assert (Es : s' = Vfs n (<[n := r]> ∅) h (vfs_ram s)).
  { unfold s', put_vnode, put_nodes, put_vheap. cbn [vfs_root vnodes vfs_heap vfs_ram].
    by rewrite Hn, insert_insert_eq. }
  rewrite Es. clear Es s'. cbn. destruct (Z.eqb_spec n 0); [done|].
  assert (Hr : ∀ m x, <[n := r]> (∅ : gmap Z vnode) !! m = Some x → m = n ∧ x = r).
  { intros m x Hx. apply lookup_insert_Some in Hx as [[<- <-]|[_ Hx]]; [done|by rewrite lookup_empty in Hx]. }
  split; [split|].
  - split; cbn.
    + by rewrite lookup_insert_ne.
    + exists r. by rewrite lookup_insert_eq.
    + intros d x c Hx Hc. apply Hr in Hx as [-> ->]. by apply elem_of_nil in Hc.
    + intros d x Hx. apply Hr in Hx as [-> ->]. constructor.
    + intros d x Hx. apply Hr in Hx as [-> ->]. cbn. unfold VFS_MAX_CHILDREN. split; [lia|done].
  - split; cbn.
    + apply Hs1.
    + intros m x Hx. apply Hr in Hx as [-> ->]. eauto.
    + intros m x Hx. apply Hr in Hx as [-> ->]. done.
    + intros m x m' x' Hx Hx' Hne. apply Hr in Hx as [-> _], Hx' as [-> _]. done.
  - intros [|c cs] m; [done|]. cbn. unfold child. by rewrite lookup_insert_eq.
Qed.
End data.

(** ** A concrete file system: [/dev], and the file [/dev/a] *)

Definition fs0 : vfs kheap :=
  match vfs_init (Vfs 0 ∅ kheap_init ∅) with Ret s => s | _ => Vfs 0 ∅ kheap_init ∅ end.
Definition dev_path : list Z := [47; 100; 101; 118].
Definition file_path : list Z := dev_path ++ [47; 97].
Definition fs1 : vfs kheap := match vfs_mkdir fs0 dev_path with Ret (_, s) => s | _ => fs0 end.
Definition fs2 : Z * vfs kheap := match vfs_create_file fs1 file_path with Ret r => r | _ => (0, fs1) end.

Definition fs2_node : vnode :=
  match vnodes fs2.2 !! fs2.1 with Some x => x | None => zero_node end.

Lemma good_path_check p :
  forallb (λ t, bool_decide (t ≠ []) && (Nat.ltb (length t) 64) && bool_decide (SLASH ∉ t)) (components p) = true →
  good_path p.
Proof.
  intros Hp. unfold good_path. apply Forall_forall. intros t Ht.
  rewrite forallb_forall in Hp. specialize (Hp t (proj1 (list_elem_of_In _ _) Ht)).
  rewrite !andb_true_iff in Hp. destruct Hp as [[H1 H2] H3].
  apply bool_decide_eq_true in H1, H3. apply Nat.ltb_lt in H2. done.
Qed.

Lemma fs0_inv : fs_inv fs0.
Proof.
  pose proof (vfs_init_spec (Vfs 0 ∅ kheap_init ∅) (ex_intro _ _ kheap_init_inv) eq_refl) as Hs.
  destruct (proj1 (returns_iff _ _) Hs) as (s & E & Hs').
  assert (Ef : fs0 = s) by (unfold fs0; rewrite E; reflexivity). clear Hs. rename Hs' into Hs. rewrite <- Ef in Hs. clear E Ef.
  destruct (Z.eqb_spec (vfs_root fs0) 0) as [Er|_]; [vm_compute in Er; discriminate|apply Hs].
Qed.

Lemma fs1_inv : fs_inv fs1.
Proof.
  pose proof (mkdir_spec fs0 dev_path fs0_inv (good_path_check dev_path ltac:(vm_compute; reflexivity))) as Hs.
  destruct (proj1 (returns_iff _ _) Hs) as ([n s] & E & G & _). clear Hs.
  assert (Ef : fs1 = s) by (unfold fs1; rewrite E; reflexivity). rewrite Ef. apply G.
Qed.

Lemma vfs_find_witness : vfs_find fs1 (SLASH :: dev_path) = Ret (default 0 (resolve (vnodes fs1) (vfs_root fs1) [[100; 101; 118]])).
Proof.
  apply (vfs_find_spec fs1 (SLASH :: dev_path) fs1_inv).
  apply good_path_check. vm_compute. reflexivity.
Defined.

Lemma vfs_mkdir_witness :
  returns (vfs_mkdir fs0 dev_path) (λ '(n, s'), n ≠ 0 → vfs_find s' dev_path = Ret n).
Proof.
  eapply returns_mono; [apply (vfs_mkdir_spec fs0 dev_path fs0_inv);
    apply good_path_check; vm_compute; reflexivity|].
  intros [n s'] (_ & _ & _ & Hn) Hn0. cbv beta iota in Hn.
  destruct (Z.eqb_spec n 0); [contradiction|]. exact (proj1 Hn).
Defined.

Lemma vfs_create_file_witness :
  returns (vfs_create_file fs1 file_path) (λ '(n, s'), n ≠ 0 → vfs_find s' file_path = Ret n).
Proof.
  eapply returns_mono; [apply (vfs_create_file_spec fs1 file_path fs1_inv)|].
  - apply good_path_check. vm_compute. reflexivity.
  - vm_compute. lia.
  - intros dir E. vm_compute in E. discriminate.
  - intros [n s'] (_ & _ & _ & Hn) Hn0. cbv beta iota in Hn.
    destruct (Z.eqb_spec n 0); [contradiction|]. exact (proj1 Hn).
Defined.

Lemma fs2_inv : fs_inv fs2.2.
Proof.
  pose proof (create_file_step fs1 file_path fs1_inv
    (good_path_check file_path ltac:(vm_compute; reflexivity)) ltac:(vm_compute; lia)
    ltac:(intros dir E; vm_compute in E; discriminate)) as Hs.
  destruct (proj1 (returns_iff _ _) Hs) as ([n s] & E & G & _). clear Hs.
  assert (Ef : fs2 = (n, s)) by (unfold fs2; rewrite E; reflexivity). rewrite Ef. apply G.
Qed.

Lemma vfs_remove_witness :
  returns (vfs_remove fs2.2 file_path) (λ '(rv, s'), rv = 0).
Proof.
  pose proof (vfs_remove_spec fs2.2 file_path fs2_inv
    (good_path_check file_path ltac:(vm_compute; reflexivity))) as Hs.
  assert (E : resolve (vnodes fs2.2) (vfs_root fs2.2) (components file_path) = Some fs2.1)
    by (vm_compute; reflexivity).
  rewrite E in Hs. specialize (Hs fs2_node ltac:(vm_compute; reflexivity)).
  rewrite decide_False in Hs by (vm_compute; intros [E'|E']; [discriminate E'|by apply E']).
  eapply returns_mono; [exact Hs|]. intros [rv s'] [Hrv _]. exact Hrv.
Defined.

Lemma vfs_write_witness :
  returns (vfs_write fs2.2 fs2.1 0x1000 5) (λ '(rv, s1), rv ≠ -1 → rv = 5).
Proof.
  eapply returns_mono; [apply (vfs_write_read_roundtrip fs2.2 fs2.1
    fs2_node 0x1000 5 0x2000 3 fs2_inv)|].
  - vm_compute. reflexivity.
  - vm_compute. reflexivity.
  - unfold VFS_MAX_FILE_SIZE. lia.
  - lia.
  - split; [lia|]. split; [lia|]. split; [lia|]. left. vm_compute. discriminate.
  - intros [rv s1] Hs Hrv. cbv beta iota in Hs. destruct (Z.eqb_spec rv (-1)); [contradiction|exact (proj1 Hs)].
Defined.
