(* ===== verification/VfsCalls.v ===== *)
(** Sequences of calls of the file system: its invariant is a type that every
    operation keeps, so that no sequence of calls runs into an undefined access; but
    for one way to lose the contents of a file, which is stated and shown to happen. *)
From S2P Require Import Prelude Interfaces Ram Kheap Vfs VfsTree VfsData.
Import MemLib.

(** ** Calls *)

(** A call of [vfs.c] with its arguments; the operations on a node take the path
    that finds it. *)
Inductive fs_call :=
| Mkdir (path : list Z)
| CreateFile (path : list Z)
| CreateDevice (path : list Z) (device : Z)
| Remove (path : list Z)
| Write (path : list Z) (buf size : Z)
| Read (path : list Z) (buf size : Z)
| SetData (path : list Z) (ptr size : Z).

Section calls.
Context {H : Type} `{HA : HeapAlloc H}.
Implicit Types (s : vfs H).

Definition fs_exec s (call : fs_call) : res (Z * vfs H) :=
  match call with
  | Mkdir path => vfs_mkdir s path
  | CreateFile path => vfs_create_file s path
  | CreateDevice path device => vfs_create_device s path device
  | Remove path => vfs_remove s path
  | Write path buf size => n ← vfs_find s path; vfs_write s n buf size
  | Read path buf size => n ← vfs_find s path; vfs_read s n buf size
  | SetData path ptr size => n ← vfs_find s path; s ← vfs_set_data s n ptr size; Ret (0, s)
  end.
Fixpoint fs_run s (calls : list fs_call) : res (vfs H) :=
  match calls with [] => Ret s | c :: cs => '(_, s) ← fs_exec s c; fs_run s cs end.

(** Memory of the caller: not null and outside the heap. *)
Definition outside (a n : Z) : Prop := 0 < a ∧ a + n ≤ 2 ^ 64 ∧ (a + n ≤ ka_lo ∨ ka_hi ≤ a).

(** The arguments the callers of the kernel pass: paths that fit their buffers, and
    bytes to write, to read into or to lend that lie outside the heap. *)
Definition call_ok (call : fs_call) : Prop :=
  match call with
  | Mkdir path | Remove path => good_path path
  | SetData path ptr size => good_path path ∧ (0 < size → outside ptr size)
  | CreateFile path | CreateDevice path _ => good_path path ∧ (length path < VFS_MAX_PATH)%nat
  | Read path buf size | Write path buf size => good_path path ∧ 0 < size ∧ outside buf size
  end.

(** What a node stores can be read: a file that is not empty has a buffer, and one
    that it borrows is the lender's memory. *)
Definition contents_inv s : Prop :=
  ∀ n x, vnodes s !! n = Some x → 0 < v_size x →
    v_data x ≠ 0 ∧ (v_borrowed x = true → outside (v_data x) (v_size x)).

(** The one call that breaks it: a write to a file with lent contents, when the heap
    has no block for the new ones. *)
Definition loses s (call : fs_call) : bool :=
  match call with
  | Write path _ size =>
      match vfs_find s path with
      | Ret n => match vnodes s !! n with
                 | Some x => v_borrowed x && (0 <? v_size x) &&
                     match ka_malloc (vfs_heap s) size with Ret (p, _) => p =? 0 | _ => false end
                 | None => false
                 end
      | _ => false
      end
  | _ => false
  end.

Lemma contents_valid s n x : fs_inv s → contents_inv s → vnodes s !! n = Some x →
  data_valid (vfs_heap s) (v_data x) (v_size x) = true.
Proof.
  intros [_ Hs] Hc Hx. destruct (Z.leb_spec (v_size x) 0) as [Hz|Hz].
  { unfold data_valid. by rewrite (proj2 (Z.leb_le _ _) Hz). }
  destruct (Hc n x Hx Hz) as [H0 Hb]. destruct (v_borrowed x) eqn:Eb.
  - destruct (Hb eq_refl) as (? & ? & ?). by apply outside_valid.
  - destruct (vi_data _ Hs n x Hx H0 Eb) as (_ & ? & k & Hk & ?). apply (block_valid _ _ _ k); [apply Hs|done|lia].
Qed.

Lemma contents_kept s s' : contents_inv s → no_new_data (vnodes s) (vnodes s') → contents_inv s'.
Proof.
  intros Hc Hn n y Hy Hz. destruct (Hn n y Hy) as [|(x & Hx & -> & Es & ->)]; [lia|]. rewrite Es in *. by apply (Hc n).
Qed.

Lemma contents_insert s s' n y : contents_inv s → vnodes s' = <[n := y]> (vnodes s) →
  (0 < v_size y → v_data y ≠ 0 ∧ (v_borrowed y = true → outside (v_data y) (v_size y))) → contents_inv s'.
Proof. intros Hc E Hy m z. rewrite E. intros [[<- <-]|[_ Hz]]%lookup_insert_Some; [done|by apply (Hc m)]. Qed.


(** [vfs_set_data] frees the buffer the node owns and borrows the new one. *)
Lemma set_data_step s n ptr size : fs_inv s → (n ≠ 0 → is_Some (vnodes s !! n)) →
  contents_inv s → (0 < size → outside ptr size) →
  returns (vfs_set_data s n ptr size) (λ s', fs_inv s' ∧ contents_inv s').
Proof.
  intros [T Hs] Hn Hc Hptr. unfold vfs_set_data. destruct (Z.eqb_spec n 0) as [|Hn0]; [done|].
  destruct (Hn Hn0) as [x Hx]. unfold get_vnode. rewrite Hx. cbn [deref]. rewrite bind_Ret.
  destruct (negb _); [done|]. fold (owns x).
  assert (E : returns (if owns x then v_free s (v_data x) else Ret s) (λ s', ∃ h, s' = put_vheap s h ∧ ka_inv h ∧
    ∀ q, (owns x = true → q ≠ v_data x) → ka_size h q = ka_size (vfs_heap s) q)).
  { destruct (owns x) eqn:Eo; [|exists (vfs_heap s); split; [by destruct s|split; [apply Hs|done]]].
    pose proof Eo as Ho. apply owns_true in Ho as [H0 Hb]. destruct (vi_data _ Hs n x Hx H0 Hb) as (_ & _ & k & Hk & _).
    eapply returns_mono; [by apply (v_free_spec s (v_data x) k (vi_heap _ Hs))|].
    intros s' (h & -> & Hh & _ & Hq). exists h. split_and!; [done..|]. intros q Hne. apply Hq. by apply Hne. }
  apply returns_bind. eapply returns_mono; [exact E|]. intros s' (h & -> & Hh & Hq). cbn [returns].
  split; [split; [by apply (tree_inv_data _ _ n x)|]|].
  2:{ eapply contents_insert; [exact Hc|done|]. intros Hz. destruct (Hptr Hz) as (? & ?). split; [cbn; lia|by intros _; apply Hptr]. }
  assert (Hkeep : ∀ m y, vnodes s !! m = Some y → ka_size h m = ka_size (vfs_heap s) m).
  { intros m y Hy. apply Hq. intros Ho ->. apply owns_true in Ho as [H0 Hb]. destruct (vi_data _ Hs n x Hx H0 Hb). congruence. }
  assert (Hbuf : ∀ m y, vnodes s !! m = Some y → m ≠ n → v_data y ≠ 0 → v_borrowed y = false →
    ka_size h (v_data y) = ka_size (vfs_heap s) (v_data y)).
  { intros m y Hy Hne H0 Hb. apply Hq. intros Ho. apply owns_true in Ho as [Hx0 Hxb]. by eapply (vi_sep _ Hs m y n x). }
  split; cbn; [done|..].
  - intros m y Hy. apply lookup_insert_Some in Hy as [[<- <-]|[Hne Hy]]; [rewrite (Hkeep n x Hx)|rewrite (Hkeep m y Hy)]; by eapply (vi_live _ Hs).
  - intros m y Hy H0 Hb. apply lookup_insert_Some in Hy as [[<- <-]|[Hne Hy]]; [done|].
    destruct (vi_data _ Hs m y Hy H0 Hb) as (Hnone & ? & k & Hk & ?).
    split; [rewrite lookup_insert_ne; congruence|]. split; [done|]. exists k. by rewrite (Hbuf m y).
  - intros m y m' y' Hy Hy' Hne H0 Hb Hb'.
    apply lookup_insert_Some in Hy as [[<- <-]|[_ Hy]]; [done|].
    apply lookup_insert_Some in Hy' as [[<- <-]|[_ Hy']]; [done|]. by eapply (vi_sep _ Hs).
Qed.

Lemma find_live s path : fs_inv s → good_path path →
  ∃ n, vfs_find s path = Ret n ∧ (n ≠ 0 → is_Some (vnodes s !! n)).
Proof.
  intros Hi Hg. rewrite find_resolves by (done || apply Hi).
  destruct (resolve (vnodes s) (vfs_root s) (components path)) as [n|] eqn:E; cbn; eexists; (split; [done|]); [|done].
  intros _. by eapply resolve_live, E; apply Hi.
Qed.

Lemma write_any s n buf size : fs_inv s → (n ≠ 0 → is_Some (vnodes s !! n)) → 0 < size → 0 < buf →
  buf + size ≤ 2 ^ 64 → buf + size ≤ ka_lo ∨ ka_hi ≤ buf → contents_inv s →
  returns (vfs_write s n buf size) (λ '(rv, s'), fs_inv s' ∧ (contents_inv s' ∨ rv = -1 ∧
    ∃ x, vnodes s !! n = Some x ∧ v_borrowed x = true ∧ 0 < v_size x ∧ ka_malloc (vfs_heap s) size = Ret (0, vfs_heap s))).
Proof.
  intros [T Hs] Hn Hsz Hb Hend Hout Hc. destruct (decide (n = 0)) as [->|Hn0]; [by (split; [split|left])|]. destruct (Hn Hn0) as [x Hx].
  destruct (decide (v_type x = VFS_FILE)) as [Hty|Hty].
  2:{ unfold vfs_write, vfs_write_from, get_vnode. destruct (Z.eqb_spec n 0); [done|]. rewrite Hx. cbn [deref].
      rewrite bind_Ret, bool_decide_false by done. by (split; [split|left]). }
  destruct (decide (size ≤ VFS_MAX_FILE_SIZE)) as [Hmax|Hmax].
  - assert (Ha : apart s (v_data x) buf size) by (split_and!; [lia..|destruct Hout; auto]).
    eapply returns_mono; [by apply (write_step s n x buf size); try lia|].
    intros [rv s'] [(-> & Hm & ->)|(_ & x' & W)]; (split; [split|]).
    + cbn. unfold unborrowed. destruct (v_borrowed x); [by apply tree_inv_data|]. by rewrite insert_id.
    + apply (store_inv_buffer s n x (unborrowed x) (vfs_heap s) (vfs_ram s)); try done; [apply Hs|..].
      * unfold unborrowed. by destruct (v_borrowed x) eqn:E.
      * rewrite unborrowed_data. destruct (owns x) eqn:Eo; [|done]. intros _. pose proof Eo as Ho.
        apply owns_true in Ho as [H0 Hbb]. destruct (vi_data _ Hs n x Hx H0 Hbb) as (_ & ? & ?).
        unfold unborrowed. rewrite Hbb. auto.
    + destruct (v_borrowed x) eqn:Eb; [destruct (Z.ltb_spec 0 (v_size x)) as [Hz|Hz]|].
      * right. eauto 6.
      * left. eapply contents_insert; [exact Hc|done|]. unfold unborrowed. rewrite Eb. cbn. lia.
      * left. eapply contents_insert; [exact Hc|done|]. unfold unborrowed. rewrite Eb. by apply (Hc n).
    + destruct (wr_nodes _ _ _ _ _ _ _ W) as [-> ->]. destruct (wr_node _ _ _ _ _ _ _ W) as [-> _]. by apply tree_inv_data.
    + apply W.
    + left. destruct (wr_nodes _ _ _ _ _ _ _ W) as [E _]. destruct (wr_node _ _ _ _ _ _ _ W) as [Ex Hd].
      eapply contents_insert; [exact Hc|exact E|]. intros _. split; [done|]. by rewrite Ex.
  - unfold vfs_write, vfs_write_from, get_vnode. destruct (Z.eqb_spec n 0); [done|]. rewrite Hx. cbn [deref].
    rewrite bind_Ret. destruct (_ || _); [by (split; [split|left])|].
    destruct (Z.ltb_spec VFS_MAX_FILE_SIZE size); [by (split; [split|left])|lia].
Qed.

Lemma read_any s n buf size : fs_inv s → (n ≠ 0 → is_Some (vnodes s !! n)) → contents_inv s →
  returns (vfs_read s n buf size) (λ '(_, s'), fs_inv s' ∧ contents_inv s').
Proof.
  intros Hi Hn Hc. pose proof Hi as [T Hs]. unfold vfs_read. destruct (Z.eqb_spec n 0) as [|Hn0]; [done|]. destruct (Hn Hn0) as [x Hx].
  unfold get_vnode. rewrite Hx. cbn [deref]. rewrite bind_Ret. destruct (_ || _); [done|].
  set (k := if size <? v_size x then size else v_size x).
  rewrite through_valid by (eapply data_valid_mono; [by eapply contents_valid|unfold k; zcase; lia]).
  destruct Hs as [? ? ? ?]. by destruct (0 <? k).
Qed.

(** An empty last component is refused before anything is looked up. *)
Lemma split_empty path : (∃ dir, vfs_split_path path = Ret (dir, [])) ∨ ∀ dir, vfs_split_path path ≠ Ret (dir, []).
Proof. destruct (vfs_split_path path) as [[dir [|c f]]| | |]; [left; by eexists|right; by intros..]. Qed.

Lemma exec_step s call : fs_inv s → contents_inv s → call_ok call →
  returns (fs_exec s call) (λ '(rv, s'), fs_inv s' ∧ (contents_inv s' ∨ rv = -1 ∧ loses s call = true)).
Proof.
  intros Hi Hc Hok. destruct call as [path|path|path device|path|path buf size|path buf size|path ptr size]; cbn [fs_exec call_ok] in *.
  - eapply returns_mono; [by apply mkdir_spec|]. intros [n s'] [G _]. split; [|left; eapply contents_kept; [done|]]; apply G.
  - destruct Hok as [Hg Hl]. destruct (split_empty path) as [[dir E]|E].
    + unfold vfs_create_file. destruct (vfs_root s =? 0); [by split; [|left]|]. rewrite E, bind_Ret. by split; [|left].
    + eapply returns_mono; [by apply create_file_step|]. intros [n s'] [G _]. split; [|left; eapply contents_kept; [done|]]; apply G.
  - destruct Hok as [Hg Hl]. destruct (decide (device = 0)) as [->|Hd].
    { unfold vfs_create_device. rewrite orb_true_r. by split; [|left]. }
    destruct (split_empty path) as [[dir E]|E].
    + unfold vfs_create_device. destruct (_ || _); [by split; [|left]|]. rewrite E, bind_Ret. by split; [|left].
    + eapply returns_mono; [by apply create_device_spec|]. intros [n s'] (? & _ & _ & Hn & _).
      split; [done|]. left. by eapply contents_kept.
  - pose proof (remove_step s path Hi Hok) as Hr. destruct (resolve _ _ _) as [n|] eqn:E; [|rewrite Hr; by split; [|left]].
    destruct (resolve_live s _ n (proj1 Hi) E) as [_ [x Hx]]. specialize (Hr x Hx). case_decide; [rewrite Hr; by split; [|left]|].
    eapply returns_mono; [exact Hr|]. intros [rv s'] (_ & ? & Hn & _). split; [done|]. left. by eapply contents_kept.
  - destruct Hok as (Hg & ? & ? & ? & ?). destruct (find_live s path Hi Hg) as (n & E & Hn). rewrite E, bind_Ret.
    eapply returns_mono; [by apply write_any|]. intros [rv s'] [Hi' [Hc'|(-> & x & Hx & Hb & Hz & Hm)]]; (split; [done|]); [by left|right].
    split; [done|]. cbn [loses]. rewrite E, Hx, Hb, (proj2 (Z.ltb_lt _ _) Hz), Hm. done.
  - destruct Hok as (Hg & _). destruct (find_live s path Hi Hg) as (n & -> & Hn). rewrite bind_Ret.
    eapply returns_mono; [by apply read_any|]. intros [rv s'] [? ?]. auto.
  - destruct Hok as [Hg Hptr]. destruct (find_live s path Hi Hg) as (n & -> & Hn). cbn. apply returns_bind.
    eapply returns_mono; [by apply set_data_step|]. intros s' [? ?]. cbn. auto.
Qed.

(** C18. The invariant of the file system is a type of its states.  Take a
    well-formed tree of live nodes with buffers of their own in which every file
    that is not empty has contents that can be read, and any sequence of calls with
    arguments that fit the buffers of the code (buffers of the caller are not null
    and not in the heap).  Either the whole sequence returns, whichever calls
    succeed or fail, and leaves such a state, so that no call panics, runs for ever,
    or follows a pointer to a node or buffer that is null or gone; or there is a
    first write to a file with lent contents for which the heap has no block.  All
    calls before it are safe, and so is that write, which fails with -1, but it has
    already forgotten the lent contents of the file and left its size. *)
Theorem fs_calls_safe s calls : fs_inv s → contents_inv s → Forall call_ok calls →
  returns (fs_run s calls) (λ s', fs_inv s' ∧ contents_inv s') ∨
  ∃ pre call post s1, calls = pre ++ call :: post ∧ fs_run s pre = Ret s1 ∧ fs_inv s1 ∧ contents_inv s1 ∧
    loses s1 call = true ∧ returns (fs_exec s1 call) (λ '(rv, s2), rv = -1 ∧ fs_inv s2).
Proof.
  intros Hi Hc Hok. revert s Hi Hc. induction Hok as [|c cs Hok _ IH]; intros s Hi Hc; [by left|].
  destruct (proj1 (returns_iff _ _) (exec_step s c Hi Hc Hok)) as ([rv s'] & E & Hi' & [Hc'|[-> Hl]]).
  - cbn [fs_run]. rewrite E, bind_Ret. destruct (IH s' Hi' Hc') as [|(pre & d & post & s1 & -> & Hr & ?)]; [by left|right].
    exists (c :: pre), d, post, s1. cbn [fs_run]. rewrite E, bind_Ret. done.
  - right. exists [], c, cs, s. rewrite E. done.
Qed.

(** No call of a sequence loses contents. *)
Fixpoint keeps_contents s (calls : list fs_call) : bool :=
  match calls with
  | [] => true
  | c :: cs => negb (loses s c) && match fs_exec s c with Ret (_, s) => keeps_contents s cs | _ => true end
  end.
Lemma keeps_contents_split s pre call post s1 :
  fs_run s pre = Ret s1 → loses s1 call = true → keeps_contents s (pre ++ call :: post) = false.
Proof.
  revert s. induction pre as [|c pre IH]; intros s Hr Hl; cbn in *; [injection Hr as ->; by rewrite Hl|].
  destruct (fs_exec s c) as [[rv s']| | |]; try done. cbn in Hr. by rewrite IH, andb_false_r.
Qed.
End calls.

Definition demo_calls : list fs_call :=
  [Mkdir dev_path; CreateFile file_path; Write file_path 0x100 64; CreateDevice file_path 7;
   SetData file_path 0x200 16; Write file_path 0x100 8; Remove dev_path; Remove file_path; Remove dev_path; Read file_path 0x300 4].
Lemma demo_calls_ok : Forall call_ok demo_calls.
Proof.
  assert (Hd : good_path dev_path) by (apply good_path_check; reflexivity).
  assert (Hf : good_path file_path) by (apply good_path_check; reflexivity).
  unfold demo_calls. rewrite !Forall_cons. unfold call_ok, outside.
  split_and?; first [done|apply Nat.ltb_lt; reflexivity|left; vdone|intros _; split_and!; first [done|left; vdone]].
Qed.
Lemma fs0_contents : contents_inv fs0.
Proof.
  intros n x Hx. assert (E : map_to_list (vnodes fs0) = [(vfs_root fs0, Vnode ROOT VFS_DIRECTORY 0 0 0 false 0 0 [])])
    by (vm_compute; reflexivity).
  apply elem_of_map_to_list in Hx. rewrite E in Hx. apply list_elem_of_singleton in Hx as [= _ ->]. done.
Qed.
Lemma fs_calls_witness : returns (fs_run fs0 demo_calls) (λ s, fs_inv s ∧ contents_inv s).
Proof.
  destruct (fs_calls_safe fs0 demo_calls fs0_inv fs0_contents demo_calls_ok) as [Hr|(pre & c & post & s1 & E & Hr & _ & _ & Hl & _)];
    [exact Hr|exfalso].
  pose proof (keeps_contents_split fs0 pre c post s1 Hr Hl) as Hk. rewrite <- E in Hk. vm_compute in Hk. discriminate.
Defined.

(** The other case happens: a write of 33 MiB does not fit the heap, and after it
    the file has a size but no contents, so that reading it copies from [NULL]. *)
Definition losing_calls : list fs_call :=
  [Mkdir dev_path; CreateFile file_path; SetData file_path 0x200 16; Write file_path 0x100 (33 * 1024 * 1024)].
Lemma write_loses_contents :
  Forall call_ok (losing_calls ++ [Read file_path 0x300 4]) ∧
  returns (fs_run fs0 losing_calls) (λ _, True) ∧ fs_run fs0 (losing_calls ++ [Read file_path 0x300 4]) = Undef.
Proof.
  assert (Hd : good_path dev_path) by (apply good_path_check; reflexivity).
  assert (Hf : good_path file_path) by (apply good_path_check; reflexivity).
  split_and!; [|vm_compute; exact I|vm_compute; reflexivity].
  cbn [losing_calls app]. rewrite !Forall_cons. unfold call_ok, outside.
  split_and?; first [done|apply Nat.ltb_lt; reflexivity|left; vdone|intros _; split_and!; first [done|left; vdone]].
Qed.
