(* ===== verification/Cpio.v ===== *)
(** The initial ram disk: [packages/cpio/cpio.c], the reader of "newc" cpio
    archives, and the part of [fs/vfs/rootfs.c] that calls it. *)
From S2P Require Import Prelude Interfaces Ram Kheap Vfs VfsTree VfsData.

(** The C string at [a]; every character but the last is some byte of [m] that
    was written, so [S (size m)] steps are enough. *)
Fixpoint cstr_loop (fuel : nat) (m : ram) (a : Z) : res (list Z) :=
  match fuel with
  | O => NoFuel
  | S fuel =>
      let c := ld8 m (u64 a) in
      if c =? 0 then Ret [] else s ← cstr_loop fuel m (a + 1); Ret (c :: s)
  end.
Definition cstr (m : ram) (a : Z) : res (list Z) := cstr_loop (S (size m)) m a.

(** The header: the offsets of the fields that are used, and its size. *)
Definition HDR_MODE : Z := 14.
Definition HDR_FILESIZE : Z := 54.
Definition HDR_NAMESIZE : Z := 94.
Definition HDR_SIZE : Z := 110.
Definition CPIO_TRAILER : list Z := [84; 82; 65; 73; 76; 69; 82; 33; 33; 33].
Definition CPIO_TYPE_MASK : Z := 0xF000.
Definition CPIO_TYPE_DIR : Z := 0x4000.
Definition CPIO_TYPE_REG : Z := 0x8000.

(** The value of one digit; other characters count as nothing. *)
Definition hex_digit (c : Z) : Z :=
  if (48 <=? c) && (c <=? 57) then c - 48
  else if (97 <=? c) && (c <=? 102) then c - 97 + 10
  else if (65 <=? c) && (c <=? 70) then c - 65 + 10
  else 0.
Fixpoint hex_loop (n : nat) (m : ram) (a val : Z) : Z :=
  match n with
  | O => val
  | S n => hex_loop n m (u64 (a + 1)) (Z.lor (u32 (Z.shiftl val 4)) (hex_digit (ld8 m a)))
  end.
Definition hex_val (m : ram) (a : Z) (len : nat) : Z := hex_loop len m a 0.

Definition magic_ok (m : ram) (a : Z) : bool :=
  let b i := ld8 m (u64 (a + i)) in
  (b 0 =? 48) && (b 1 =? 55) && (b 2 =? 48) && (b 3 =? 55) && (b 4 =? 48) &&
  ((b 5 =? 49) || (b 5 =? 50)).

Definition align4 (x : Z) : Z := Z.land (u64 (x + 3)) (not64 3).

(** "./" at the front of a name is dropped. *)
Definition strip_dot (name : list Z) : list Z :=
  match name with
  | c :: d :: r => if (c =? 46) && (d =? SLASH) then r else name
  | _ => name
  end.

Section cpio.
Context {H : Type} `{HeapAlloc H}.
Implicit Types (s : vfs H).

(** What happens to one entry; its data are at [data]. *)
Definition install s (name : list Z) (mode data filesize : Z) : res (vfs H) :=
  let name := strip_dot name in
  if bool_decide (name = []) || bool_decide (name = [46]) then Ret s else
  let type := Z.land mode CPIO_TYPE_MASK in
  if type =? CPIO_TYPE_DIR then
    '(_, s) ← vfs_mkdir s name; Ret s
  else if type =? CPIO_TYPE_REG then
    '(f, s) ← vfs_create_file s name;
    if negb (f =? 0) && (0 <? filesize) then vfs_set_data s f data filesize else Ret s
  else Ret s.

(** The loop of [cpio_extract]. *)
Fixpoint extract_loop (fuel : nat) s (base size off : Z) : res (vfs H) :=
  match fuel with
  | O => NoFuel
  | S fuel =>
      if size <? u64 (off + HDR_SIZE) then Ret s else
      let hdr := u64 (base + off) in
      let m := vfs_ram s in
      if negb (magic_ok m hdr) then Ret s else
      let namesize := hex_val m (u64 (hdr + HDR_NAMESIZE)) 8 in
      let filesize := hex_val m (u64 (hdr + HDR_FILESIZE)) 8 in
      let mode := hex_val m (u64 (hdr + HDR_MODE)) 8 in
      name ← cstr m (u64 (hdr + HDR_SIZE));
      let data_off := align4 (u64 (off + HDR_SIZE + namesize)) in
      let next_off := align4 (u64 (data_off + filesize)) in
      if bool_decide (name = CPIO_TRAILER) then Ret s else
      if size <? next_off then Ret s else
      s ← install s name mode (u64 (base + data_off)) filesize;
      extract_loop fuel s base size next_off
  end.

(** Each entry is longer than its header. *)
Definition extract_fuel (size : Z) : nat := S (Z.to_nat (size / HDR_SIZE)).

Definition cpio_extract s (archive size : Z) : res (vfs H) :=
  if (archive =? 0) || (size <? HDR_SIZE) then Ret s
  else extract_loop (extract_fuel size) s archive size 0.

(** A boot module: its path, address and size. *)
Record boot_module := BootModule { mod_path : list Z; mod_address : Z; mod_size : Z }.

(** [str_contains] of the kernel's string library. *)
Fixpoint starts_with (p s : list Z) : bool :=
  match p, s with
  | [], _ => true
  | x :: p, y :: s => (x =? y) && starts_with p s
  | _, [] => false
  end.
Fixpoint str_contains (s p : list Z) : bool :=
  starts_with p s || match s with [] => false | _ :: s => str_contains s p end.

Definition ROOTFS : list Z := [105; 110; 105; 116; 114; 100; 46; 99; 112; 105; 111].
Definition DEV_DIR : list Z := [47; 100; 101; 118].
Definition TMP_DIR : list Z := [47; 116; 109; 112].

Fixpoint find_rootfs s (mods : list (option boot_module)) : res (vfs H) :=
  match mods with
  | [] => Ret s
  | Some b :: mods =>
      if str_contains (mod_path b) ROOTFS then cpio_extract s (mod_address b) (mod_size b)
      else find_rootfs s mods
  | None :: mods => find_rootfs s mods
  end.

(** [rootfs_init], for the modules the boot loader passed; a module without a
    path is [None]. *)
Definition rootfs_init s (mods : list (option boot_module)) : res (vfs H) :=
  '(_, s) ← vfs_mkdir s DEV_DIR;
  '(_, s) ← vfs_mkdir s TMP_DIR;
  find_rootfs s mods.
End cpio.

(** ** Archives *)

(** The bytes of [xs] are in memory from [a] on. *)
Definition holds (m : ram) (a : Z) (xs : list Z) : Prop :=
  ∀ i x, xs !! i = Some x → ld8 m (a + Z.of_nat i) = x.

Lemma holds_app m a xs ys :
  holds m a (xs ++ ys) ↔ holds m a xs ∧ holds m (a + Z.of_nat (length xs)) ys.
Proof.
  split.
  - intros Hh. split.
    + intros i x Hx. apply Hh. by apply lookup_app_l_Some.
    + intros i x Hx. rewrite <- Z.add_assoc, <- Nat2Z.inj_add. apply Hh.
      rewrite lookup_app_r by lia. by replace (length xs + i - length xs)%nat with i by lia.
  - intros [H1 H2] i x [Hx|[Hl Hx]]%lookup_app_Some; [by apply H1|].
    rewrite <- (H2 _ _ Hx). f_equal. lia.
Qed.

Lemma holds_cons m a x xs : holds m a (x :: xs) ↔ ld8 m a = x ∧ holds m (a + 1) xs.
Proof.
  change (x :: xs) with ([x] ++ xs). rewrite holds_app. cbn. split.
  - intros [Hx ?]. split; [|done]. rewrite <- (Hx 0%nat x eq_refl). f_equal. lia.
  - intros [Hx ?]. split; [|done]. intros [|i] y; [|done]. intros [= <-]. rewrite <- Hx. f_equal. lia.
Qed.

Lemma cstr_loop_spec fuel m a s r :
  holds m a (s ++ 0 :: r) → Forall (λ c, c ≠ 0) s → 0 ≤ a → a + Z.of_nat (length s) < 2 ^ 64 →
  (length s < fuel)%nat → cstr_loop fuel m a = Ret s.
Proof.
  revert fuel a. induction s as [|c s IH]; intros fuel a Hh Hnz Ha Hb Hf;
    (destruct fuel as [|fuel]; [cbn in Hf; lia|]); cbn [app] in Hh; apply holds_cons in Hh as [Hc Hh];
    cbn [cstr_loop]; rewrite u64_small by (cbn in *; lia); rewrite Hc.
  - done.
  - apply Forall_cons in Hnz as [Hc0 Hnz]. destruct (Z.eqb_spec c 0); [done|].
    rewrite (IH fuel (a + 1)); [done|done|done|lia|cbn in *; lia|cbn in *; lia].
Qed.

(** Written bytes are in the domain of the memory. *)
Lemma holds_size m a s :
  holds m a s → Forall (λ c, c ≠ 0) s → (length s ≤ size m)%nat.
Proof.
  intros Hh Hnz. rewrite <- size_dom.
  set (as_ := (λ i, a + Z.of_nat i) <$> seq 0 (length s)).
  replace (length s) with (size (list_to_set as_ : gset Z)).
  - apply subseteq_size. intros b Hb. apply elem_of_list_to_set in Hb.
    apply list_elem_of_fmap in Hb as (i & -> & Hi). apply elem_of_seq in Hi.
    destruct (lookup_lt_is_Some_2 s i) as [x Hx]; [lia|]. pose proof (Hh i x Hx) as Hl.
    apply elem_of_dom. unfold ld8 in Hl. destruct (m !! _) eqn:E; [eauto|].
    cbn in Hl. subst x. by apply (Forall_lookup_1 _ _ _ _ Hnz) in Hx.
  - rewrite size_list_to_set; [unfold as_; by rewrite length_fmap, length_seq|].
    unfold as_. apply NoDup_fmap_2; [intros ? ?; lia|apply NoDup_seq].
Qed.

Lemma cstr_spec m a s r :
  holds m a (s ++ 0 :: r) → Forall (λ c, c ≠ 0) s → 0 ≤ a → a + Z.of_nat (length s) < 2 ^ 64 →
  cstr m a = Ret s.
Proof.
  intros Hh Hnz Ha Hb. eapply cstr_loop_spec; [done|done|done|done|].
  apply holds_app in Hh as [Hh _]. pose proof (holds_size m a s Hh Hnz). lia.
Qed.

(** *** Numbers *)

Definition to_digit (d : Z) : Z := if d <? 10 then d + 48 else d - 10 + 97.
Fixpoint to_hex (n : nat) (v : Z) : list Z :=
  match n with
  | O => []
  | S n => to_digit (v / 16 ^ Z.of_nat n) :: to_hex n (v mod 16 ^ Z.of_nat n)
  end.

Lemma length_to_hex n v : length (to_hex n v) = n.
Proof. revert v. induction n; intros; cbn; auto. Qed.

Lemma hex_digit_to d : 0 ≤ d < 16 → hex_digit (to_digit d) = d.
Proof.
  intros Hd. unfold to_digit, hex_digit. destruct (Z.ltb_spec d 10); repeat (zcase; cbn; try lia).
Qed.

Lemma hex_loop_spec n m a v w r :
  holds m a (to_hex n v ++ r) → 0 ≤ a → a + Z.of_nat n < 2 ^ 64 →
  0 ≤ v < 16 ^ Z.of_nat n → 0 ≤ w → w * 16 ^ Z.of_nat n + v < 2 ^ 32 →
  hex_loop n m a w = w * 16 ^ Z.of_nat n + v.
Proof.
  revert a v w. induction n as [|n IH]; intros a v w Hh Ha Hb Hv Hw Hlt.
  { cbn in *. lia. }
  cbn [to_hex app] in Hh. apply holds_cons in Hh as [Hd Hh]. cbn [hex_loop]. rewrite Hd.
  rewrite Nat2Z.inj_succ, Z.pow_succ_r in * by lia. set (p := 16 ^ Z.of_nat n) in *.
  assert (0 < p) by (unfold p; lia).
  assert (Hq : 0 ≤ v / p < 16) by (split; [apply Z.div_pos; lia|apply Z.div_lt_upper_bound; lia]).
  pose proof (Z.div_mod v p ltac:(lia)) as Hdm. pose proof (Z.mod_pos_bound v p ltac:(lia)).
  rewrite hex_digit_to by done.
  assert (Hw16 : w * 16 < 2 ^ 32) by nia.
  rewrite Z.shiftl_mul_pow2, u32_small by lia. change (2 ^ 4) with 16.
  rewrite (lor_low 4) by (change (2 ^ 4) with 16; first [lia | apply Z.mod_mul; lia]).
  rewrite u64_small by lia. rewrite (IH (a + 1) (v mod p) _); [nia|done|lia|lia|lia|nia|nia].
Qed.

Lemma hex_val_spec m a v r :
  holds m a (to_hex 8 v ++ r) → 0 ≤ a → a + 8 < 2 ^ 64 → 0 ≤ v < 2 ^ 32 → hex_val m a 8 = v.
Proof.
  intros Hh Ha Hb Hv. unfold hex_val. rewrite (hex_loop_spec 8 m a v 0 r); try done; lia.
Qed.

(** *** Entries *)

Record entry := Entry { e_name : list Z; e_mode : Z; e_data : list Z }.

Definition zeros (n : nat) : list Z := replicate n 0.
Definition pad (n : Z) : list Z := zeros (Z.to_nat ((- n) mod 4)).
Definition lenZ (xs : list Z) : Z := Z.of_nat (length xs).

Definition header (e : entry) : list Z :=
  [48; 55; 48; 55; 48; 49] ++ replicate 8 48 ++ to_hex 8 (e_mode e) ++ replicate 32 48 ++
  to_hex 8 (lenZ (e_data e)) ++ replicate 32 48 ++ to_hex 8 (lenZ (e_name e) + 1) ++ replicate 8 48.

(** Header and name, padded; and the whole entry. *)
Definition name_end (e : entry) : Z := HDR_SIZE + lenZ (e_name e) + 1.
Definition front (e : entry) : list Z := header e ++ e_name e ++ [0] ++ pad (name_end e).
Definition encode (e : entry) : list Z := front e ++ e_data e ++ pad (lenZ (e_data e)).

Definition trailer : entry := Entry CPIO_TRAILER 0 [].
Definition archive (es : list entry) : list Z := concat (encode <$> es) ++ encode trailer.

Definition entry_ok (e : entry) : Prop :=
  Forall (λ c, c ≠ 0) (e_name e) ∧ 0 ≤ e_mode e < 2 ^ 32 ∧
  lenZ (e_name e) + 1 < 2 ^ 32 ∧ lenZ (e_data e) < 2 ^ 32.

Lemma length_header e : lenZ (header e) = HDR_SIZE.
Proof. unfold lenZ, header. rewrite !length_app, !length_to_hex, !length_replicate. done. Qed.

Lemma lenZ_app xs ys : lenZ (xs ++ ys) = lenZ xs + lenZ ys.
Proof. unfold lenZ. rewrite length_app. lia. Qed.

Lemma lenZ_pad n : lenZ (pad n) = (- n) mod 4.
Proof. unfold lenZ, pad, zeros. rewrite length_replicate. dlia. Qed.

Lemma length_front e : lenZ (front e) = name_end e + (- name_end e) mod 4.
Proof.
  unfold front. rewrite !lenZ_app, length_header, lenZ_pad. unfold name_end. change (lenZ [0]) with 1. lia.
Qed.

Lemma length_encode e :
  lenZ (encode e) = lenZ (front e) + (lenZ (e_data e) + (- lenZ (e_data e)) mod 4).
Proof. unfold encode. rewrite !lenZ_app, lenZ_pad. lia. Qed.

Lemma align4_up x : 0 ≤ x → x + 3 < 2 ^ 64 → align4 x = x + (- x) mod 4.
Proof.
  intros H0 H1. unfold align4. rewrite u64_small, align4_spec by lia. dlia.
Qed.

Lemma front_aligned e : lenZ (front e) mod 4 = 0.
Proof. rewrite length_front. dlia. Qed.
Lemma encode_aligned e : lenZ (encode e) mod 4 = 0.
Proof. rewrite length_encode. pose proof (front_aligned e). dlia. Qed.
Lemma lenZ_nonneg xs : 0 ≤ lenZ xs.
Proof. unfold lenZ. lia. Qed.

(** The header fields read back. *)
Lemma header_fields m a e r :
  holds m a (header e ++ r) → entry_ok e → 0 < a → a + HDR_SIZE < 2 ^ 64 →
  magic_ok m a = true ∧ hex_val m (u64 (a + HDR_NAMESIZE)) 8 = lenZ (e_name e) + 1 ∧
  hex_val m (u64 (a + HDR_FILESIZE)) 8 = lenZ (e_data e) ∧
  hex_val m (u64 (a + HDR_MODE)) 8 = e_mode e.
Proof.
  unfold header, HDR_SIZE, HDR_NAMESIZE, HDR_FILESIZE, HDR_MODE. rewrite <- !app_assoc.
  intros Hh (_ & Hm & Hn & Hd) Ha Hb. pose proof (lenZ_nonneg (e_name e)). pose proof (lenZ_nonneg (e_data e)).
  apply holds_app in Hh as [Hmagic Hh]. apply holds_app in Hh as [_ Hh].
  assert (Hhm := Hh). apply holds_app in Hh as [_ Hh]. apply holds_app in Hh as [_ Hh].
  assert (Hhd := Hh). apply holds_app in Hh as [_ Hh]. apply holds_app in Hh as [_ Hhn].
  rewrite ?length_to_hex, ?length_replicate in Hhm, Hhd, Hhn. cbn [length] in Hhm, Hhd, Hhn.
  split; [|split; [|split]].
  - unfold magic_ok. rewrite !u64_small by lia.
    assert (Hb0 : ∀ i x, [48; 55; 48; 55; 48; 49] !! i = Some x → ld8 m (a + Z.of_nat i) = x) by exact Hmagic.
    by rewrite (Hb0 0%nat _ eq_refl : ld8 m (a + 0) = 48), (Hb0 1%nat _ eq_refl : ld8 m (a + 1) = 55),
      (Hb0 2%nat _ eq_refl : ld8 m (a + 2) = 48), (Hb0 3%nat _ eq_refl : ld8 m (a + 3) = 55),
      (Hb0 4%nat _ eq_refl : ld8 m (a + 4) = 48), (Hb0 5%nat _ eq_refl : ld8 m (a + 5) = 49).
  - rewrite u64_small by lia. eapply hex_val_spec; [|lia|lia|lia].
    replace (a + 94) with (a + Z.of_nat 6 + Z.of_nat 8 + Z.of_nat 8 + Z.of_nat 32 + Z.of_nat 8 + Z.of_nat 32) by lia.
    exact Hhn.
  - rewrite u64_small by lia. eapply hex_val_spec; [|lia|lia|lia].
    replace (a + 54) with (a + Z.of_nat 6 + Z.of_nat 8 + Z.of_nat 8 + Z.of_nat 32) by lia. exact Hhd.
  - rewrite u64_small by lia. eapply hex_val_spec; [|lia|lia|lia].
    replace (a + 14) with (a + Z.of_nat 6 + Z.of_nat 8) by lia. exact Hhm.
Qed.

(** ** Making nodes does not touch the archive *)

Section ram_kept.
Context {H : Type} `{HA : HeapAlloc H}.
Implicit Types (s : vfs H).

(** If the call returns, the memory is still [m]. *)
Definition ram_is {A} (m : ram) (r : res (A * vfs H)) : Prop :=
  match r with Ret (_, s) => vfs_ram s = m | _ => True end.

Lemma ram_bind {A B} m (r : res (A * vfs H)) (k : A * vfs H → res (B * vfs H)) :
  ram_is m r → (∀ a s, vfs_ram s = m → ram_is m (k (a, s))) → ram_is m (r ≫= k).
Proof. destruct r as [[a s]| | |]; cbn; auto. Qed.
Lemma ram_res {A B} m (r : res A) (k : A → res (B * vfs H)) :
  (∀ a, ram_is m (k a)) → ram_is m (r ≫= k).
Proof. destruct r; cbn; auto. Qed.

Lemma node_alloc_ram s : ram_is (vfs_ram s) (node_alloc s).
Proof.
  unfold node_alloc, v_malloc. destruct (ka_malloc (vfs_heap s) 640) as [[n h]| | |]; try done.
  cbn. by destruct (n =? 0).
Qed.

Lemma create_node_ram s p name ty : ram_is (vfs_ram s) (vfs_create_node s p name ty).
Proof.
  unfold vfs_create_node. apply ram_res. intros existing.
  apply ram_bind; [apply node_alloc_ram|]. intros n s1 E.
  destruct (_ || _); [done|]. apply ram_res. intros d. repeat (case_match; [done|]).
  apply ram_res. intros nm. done.
Qed.

Lemma mkdir_loop_ram fuel s cur p : ram_is (vfs_ram s) (mkdir_loop fuel s cur p).
Proof.
  revert s cur p. induction fuel as [|fuel IH]; intros s cur p; [done|]. cbn [mkdir_loop].
  destruct p as [|c p]; [done|]. destruct (read_token _ _) as [t r]. case_bool_decide; [done|].
  apply ram_res. intros next. destruct (next =? 0).
  - apply ram_bind; [apply create_node_ram|]. intros n s1 <-. destruct (n =? 0); [done|apply IH].
  - apply ram_res. intros x. destruct (negb _); [done|apply IH].
Qed.

Lemma mkdir_ram s p : ram_is (vfs_ram s) (vfs_mkdir s p).
Proof.
  unfold vfs_mkdir. destruct (_ =? 0); [done|]. destruct (_ || _); [done|]. apply mkdir_loop_ram.
Qed.

Lemma create_file_ram s p : ram_is (vfs_ram s) (vfs_create_file s p).
Proof.
  unfold vfs_create_file. destruct (_ =? 0); [done|]. apply ram_res. intros [dir f].
  case_bool_decide; [done|]. apply ram_bind.
  - unfold find_or_mkdir. apply ram_res. intros d. destruct (d =? 0); [apply mkdir_ram|done].
  - intros d s1 <-. destruct (d =? 0); [done|apply create_node_ram].
Qed.

Lemma set_data_ram s n ptr sz s' : vfs_set_data s n ptr sz = Ret s' → vfs_ram s' = vfs_ram s.
Proof.
  unfold vfs_set_data, v_free. destruct (n =? 0); [by intros [= <-]|].
  destruct (get_vnode s n) as [x| | |]; try done. rewrite bind_Ret.
  destruct (negb _); [by intros [= <-]|].
  destruct (_ && _); [|rewrite bind_Ret; by intros [= <-]].
  destruct (ka_free _ _); try done. cbn. by intros [= <-].
Qed.

Lemma install_ram s name mode data fsz s' :
  install s name mode data fsz = Ret s' → vfs_ram s' = vfs_ram s.
Proof.
  unfold install. destruct (_ || _); [by intros [= <-]|]. destruct (_ =? _).
  - pose proof (mkdir_ram s (strip_dot name)) as Hm. destruct (vfs_mkdir _ _) as [[n s1]| | |]; try done.
    cbn in *. by intros [= <-].
  - destruct (_ =? _); [|by intros [= <-]]. pose proof (create_file_ram s (strip_dot name)) as Hm.
    destruct (vfs_create_file _ _) as [[n s1]| | |]; try done. cbn in *.
    destruct (_ && _); [|by intros [= <-]]. intros E. by rewrite (set_data_ram _ _ _ _ _ E).
Qed.

(** ** Extraction *)

(** The entries, one after the other; the first one starts at offset [off]. *)
Fixpoint install_all s (base off : Z) (es : list entry) : res (vfs H) :=
  match es with
  | [] => Ret s
  | e :: es =>
      s ← install s (e_name e) (e_mode e) (base + off + lenZ (front e)) (lenZ (e_data e));
      install_all s base (off + lenZ (encode e)) es
  end.

(** What one iteration sees of an encoded entry. *)
Lemma entry_seen m base off e rest :
  holds m (base + off) (encode e ++ rest) → entry_ok e → 0 < base → 0 ≤ off → off mod 4 = 0 →
  base + off + lenZ (encode e) + 4 < 2 ^ 64 →
  let hdr := u64 (base + off) in
  let data_off := align4 (u64 (off + HDR_SIZE + (lenZ (e_name e) + 1))) in
  magic_ok m hdr = true ∧ hex_val m (u64 (hdr + HDR_NAMESIZE)) 8 = lenZ (e_name e) + 1 ∧
  hex_val m (u64 (hdr + HDR_FILESIZE)) 8 = lenZ (e_data e) ∧
  hex_val m (u64 (hdr + HDR_MODE)) 8 = e_mode e ∧
  cstr m (u64 (hdr + HDR_SIZE)) = Ret (e_name e) ∧
  data_off = off + lenZ (front e) ∧
  align4 (u64 (data_off + lenZ (e_data e))) = off + lenZ (encode e).
Proof.
  intros Hh Hok Hb Ho Ho4 Hend hdr data_off.
  pose proof (length_encode e) as Hle. pose proof (length_front e) as Hlf.
  pose proof (lenZ_nonneg (e_name e)). pose proof (lenZ_nonneg (e_data e)).
  unfold name_end, HDR_SIZE in *.
  assert (Eh : hdr = base + off) by (apply u64_small; dlia).
  assert (Ed : data_off = off + lenZ (front e)).
  { unfold data_off. rewrite u64_small by dlia. rewrite align4_up by dlia. rewrite Hlf. dlia. }
  unfold encode, front in Hh. rewrite <- !app_assoc in Hh.
  pose proof (header_fields m (base + off) e _ Hh Hok ltac:(lia) ltac:(unfold HDR_SIZE; dlia)) as (F1 & F2 & F3 & F4).
  apply holds_app in Hh as [_ Hn]. change (Z.of_nat (length (header e))) with (lenZ (header e)) in Hn.
  rewrite length_header in Hn. unfold HDR_SIZE in *.
  rewrite Eh. split; [done|]. split; [done|]. split; [done|]. split; [done|].
  split; [|split; [done|]].
  - rewrite u64_small by dlia. eapply cstr_spec; [exact Hn|apply Hok|lia|].
    unfold lenZ in *. dlia.
  - rewrite Ed, u64_small by dlia. rewrite align4_up by dlia. pose proof (front_aligned e). dlia.
Qed.

Lemma archive_cons e es : archive (e :: es) = encode e ++ archive es.
Proof. unfold archive. cbn [app fmap list_fmap concat]. by rewrite ?app_assoc. Qed.

Lemma archive_length es : HDR_SIZE * (1 + Z.of_nat (length es)) ≤ lenZ (archive es).
Proof.
  induction es as [|e es IH].
  - by vm_compute.
  - rewrite archive_cons, lenZ_app, length_encode, length_front. unfold name_end, HDR_SIZE in *.
    pose proof (lenZ_nonneg (e_name e)). pose proof (lenZ_nonneg (e_data e)). cbn [length]. dlia.
Qed.

Lemma trailer_ok : entry_ok trailer.
Proof. split; [repeat constructor; done|]. vdone. Qed.

Lemma extract_loop_spec es : ∀ fuel s base size off,
  holds (vfs_ram s) (base + off) (archive es) →
  Forall (λ e, entry_ok e ∧ e_name e ≠ CPIO_TRAILER) es →
  0 < base → 0 ≤ off → off mod 4 = 0 → off + lenZ (archive es) ≤ size → base + size + 4 < 2 ^ 64 →
  (length es < fuel)%nat →
  extract_loop fuel s base size off = install_all s base off es.
Proof.
  induction es as [|e es IH]; intros fuel s base size off Hh Hok Hb Ho Ho4 Hsz Hend Hf;
    (destruct fuel as [|fuel]; [lia|]); cbn [extract_loop].
  - unfold archive in *. cbn [fmap list_fmap concat app] in *. rewrite <- (app_nil_r (encode trailer)) in Hh.
    pose proof (length_encode trailer) as Hle. pose proof (length_front trailer) as Hlf.
    unfold name_end in Hlf. change (lenZ (e_name trailer)) with 10 in Hlf.
    change (lenZ (e_data trailer)) with 0 in Hle. unfold HDR_SIZE in Hlf.
    destruct (entry_seen _ base off trailer [] Hh trailer_ok Hb Ho Ho4 ltac:(lia)) as (-> & _ & _ & _ & -> & _).
    rewrite u64_small by (unfold HDR_SIZE; dlia). unfold HDR_SIZE at 1.
    destruct (Z.ltb_spec size (off + 110)); [dlia|]. cbn [negb]. rewrite bind_Ret.
    by rewrite bool_decide_true.
  - apply Forall_cons in Hok as [[He Hne] Hok]. rewrite archive_cons in *. rewrite lenZ_app in Hsz.
    pose proof (archive_length es) as Hal. unfold HDR_SIZE in Hal.
    pose proof (length_encode e) as Hle. pose proof (length_front e) as Hlf.
    pose proof (lenZ_nonneg (e_name e)). pose proof (lenZ_nonneg (e_data e)).
    unfold name_end, HDR_SIZE in Hlf.
    destruct (entry_seen _ base off e _ Hh He Hb Ho Ho4 ltac:(lia)) as (-> & -> & -> & -> & -> & -> & ->).
    rewrite u64_small by (unfold HDR_SIZE; dlia). unfold HDR_SIZE at 1.
    destruct (Z.ltb_spec size (off + 110)); [dlia|]. cbn [negb]. rewrite bind_Ret.
    rewrite bool_decide_false by done. destruct (Z.ltb_spec size (off + lenZ (encode e))); [lia|].
    rewrite u64_small by dlia. cbn [install_all]. rewrite Z.add_assoc.
    destruct (install s _ _ _ _) as [s1| | |] eqn:Ei; try done. rewrite !bind_Ret.
    pose proof (encode_aligned e). apply IH; try done; [|dlia|dlia|lia|cbn in Hf; lia].
    rewrite (install_ram _ _ _ _ _ _ Ei). apply holds_app in Hh as [_ Hh].
    rewrite Z.add_assoc. exact Hh.
Qed.

(** C24. [cpio_extract] reads what the format says.  For every list of entries
    (names without zero bytes and other than the trailer's, sizes and mode below
    [2^32]), when memory holds their encoding as a "newc" archive, followed by
    anything, extraction terminates and does exactly what installing the entries
    in order does: directories are made, regular files get their bytes in place
    inside the archive, and everything else is skipped. *)
Theorem cpio_extract_archive s base size es :
  holds (vfs_ram s) base (archive es) →
  Forall (λ e, entry_ok e ∧ e_name e ≠ CPIO_TRAILER) es →
  0 < base → lenZ (archive es) ≤ size → base + size + 4 < 2 ^ 64 →
  cpio_extract s base size = install_all s base 0 es.
Proof.
  intros Hh Hok Hb Hsz Hend. pose proof (archive_length es) as Hl. unfold HDR_SIZE in Hl.
  unfold cpio_extract. destruct (Z.eqb_spec base 0); [lia|]. unfold HDR_SIZE.
  destruct (Z.ltb_spec size 110); [lia|]. cbn [orb].
  apply extract_loop_spec; try done; [by rewrite Z.add_0_r|].
  unfold extract_fuel, HDR_SIZE. dlia.
Qed.
End ram_kept.

(** An archive with the directory "d" and the file "d/f" that holds "hi". *)
Definition demo_entries : list entry :=
  [Entry [100] 0x41ED []; Entry [100; 47; 102] 0x81A4 [104; 105]].
Definition demo_archive : ram := list_to_map (zip (seqZ 0x1000 1000) (archive demo_entries)).

Definition demo_fs : vfs kheap := Vfs (vfs_root fs0) (vnodes fs0) (vfs_heap fs0) demo_archive.

Lemma demo_archive_holds :
  forallb (λ i, ld8 demo_archive (0x1000 + Z.of_nat i) =? default 0 (archive demo_entries !! i))
    (seq 0 (length (archive demo_entries))) = true.
Proof. vm_compute. reflexivity. Qed.

Lemma holds_check m a xs :
  forallb (λ i, ld8 m (a + Z.of_nat i) =? default 0 (xs !! i)) (seq 0 (length xs)) = true → holds m a xs.
Proof.
  intros Hc i x Hi. rewrite forallb_forall in Hc. pose proof (lookup_lt_Some _ _ _ Hi).
  specialize (Hc i). rewrite Hi in Hc. apply Z.eqb_eq, Hc, in_seq. lia.
Qed.

(** The archive is read: afterwards "d/f" is a file of two bytes. *)
Lemma cpio_extract_witness :
  cpio_extract demo_fs 0x1000 1000 = install_all demo_fs 0x1000 0 demo_entries ∧
  (s ← cpio_extract demo_fs 0x1000 1000; n ← vfs_find s [47; 100; 47; 102];
   Ret (v_size (default zero_node (vnodes s !! n)))) = Ret 2.
Proof.
  assert (E : cpio_extract demo_fs 0x1000 1000 = install_all demo_fs 0x1000 0 demo_entries).
  { apply (cpio_extract_archive demo_fs 0x1000 1000 demo_entries).
    - apply (holds_check demo_archive), demo_archive_holds.
    - repeat constructor; try done; vm_compute; discriminate.
    - done.
    - vm_compute. discriminate.
    - done. }
  split; [exact E|]. rewrite E. vm_compute. reflexivity.
Defined.
