(* ===== verification/Elf.v ===== *)
(** The ELF loader, [packages/elf/elf.c]. *)
From S2P Require Import Prelude Interfaces Ram PhysMem DList Kheap Paging Vmm RunQueue Space Context Proc.
Import MemLib.

Definition align_up (v a : Z) : Z := Z.land (u64 (v + a - 1)) (not64 (u64 (a - 1))).
Definition align_down (v a : Z) : Z := Z.land v (not64 (u64 (a - 1))).

Definition ELF_MAGIC0 : Z := 0x7F.
Definition ELF_MAGIC1 : Z := 69.
Definition ELF_MAGIC2 : Z := 76.
Definition ELF_MAGIC3 : Z := 70.
Definition ELF_CLASS64 : Z := 2.
Definition ELF_DATA2LSB : Z := 1.
Definition ELF_TYPE_EXEC : Z := 2.
Definition ELF_TYPE_DYN : Z := 3.
Definition ELF_MACH_X86_64 : Z := 0x3E.
Definition PT_LOAD : Z := 1.
Definition PF_X : Z := 0x1.
Definition PF_W : Z := 0x2.
Definition PF_R : Z := 0x4.

(** [elf64_ehdr_t], the fields that are used; [sizeof] is 64. *)
Record elf64_ehdr := Ehdr {
  e_ident : list Z;
  e_type : Z;
  e_machine : Z;
  e_entry : Z;
  e_phoff : Z;
  e_phentsize : Z;
  e_phnum : Z;
}.
Definition EHDR_SIZE : Z := 64.
Definition read_ehdr (m : ram) (a : Z) : elf64_ehdr :=
  Ehdr ((λ i, ld8 m (u64 (a + i))) <$> seqZ 0 16) (ld16 m (u64 (a + 16))) (ld16 m (u64 (a + 18)))
    (ld64 m (u64 (a + 24))) (ld64 m (u64 (a + 32))) (ld16 m (u64 (a + 54))) (ld16 m (u64 (a + 56))).

(** [elf64_phdr_t], the fields that are used; [sizeof] is 56. *)
Record elf64_phdr := Phdr {
  ph_type : Z;
  ph_flags : Z;
  ph_offset : Z;
  ph_vaddr : Z;
  ph_filesz : Z;
  ph_memsz : Z;
}.
Definition PHDR_SIZE : Z := 56.
Definition read_phdr (m : ram) (a : Z) : elf64_phdr :=
  Phdr (ld32 m a) (ld32 m (u64 (a + 4))) (ld64 m (u64 (a + 8))) (ld64 m (u64 (a + 16)))
    (ld64 m (u64 (a + 32))) (ld64 m (u64 (a + 40))).

Definition ident (eh : elf64_ehdr) (i : nat) : Z := default 0 (e_ident eh !! i).

(** [elf_check]; [true] stands for the return value 0. *)
Definition elf_check (m : ram) (data size : Z) : bool :=
  if size <? EHDR_SIZE then false else
  let eh := read_ehdr m data in
  if negb (ident eh 0 =? ELF_MAGIC0) || negb (ident eh 1 =? ELF_MAGIC1) ||
     negb (ident eh 2 =? ELF_MAGIC2) || negb (ident eh 3 =? ELF_MAGIC3) then false else
  if negb (ident eh 4 =? ELF_CLASS64) then false else
  if negb (ident eh 5 =? ELF_DATA2LSB) then false else
  if negb (e_type eh =? ELF_TYPE_EXEC) && negb (e_type eh =? ELF_TYPE_DYN) then false else
  if negb (e_machine eh =? ELF_MACH_X86_64) then false else
  if e_phentsize eh <? PHDR_SIZE then false else
  let ph_end := u64 (e_phoff eh + e_phnum eh * e_phentsize eh) in
  negb (size <? ph_end).

Definition USER_STACK_PAGES : Z := 16.
Definition USER_STACK_TOP : Z := 0x00007FFFFFFFE000.
Definition USER_STACK_BASE : Z := USER_STACK_TOP - USER_STACK_PAGES * 4096.

Section elf.
Context {H : Type} `{HeapAlloc H} `{KernelCode}.
Implicit Types (s : ks H).

(** One address-space call on the kernel state. *)
Definition k_space_alloc s (space vaddr pages flags : Z) : res (Z * ks H) :=
  '(a, m) ← vmm_space_alloc (k_mm s) space vaddr pages flags; Ret (a, with_mm s m).

(** What one iteration of the page loop puts at [dest]: [copy] bytes of the
    file, then zeros up to [chunk] bytes. *)
Definition fill_chunk (m : ram) (dest file_src file_rem chunk : Z) : ram * Z :=
  let copy := if 0 <? file_rem then (if chunk <? file_rem then chunk else file_rem) else 0 in
  let m := if 0 <? file_rem then memcpy m dest file_src copy else m in
  (if 0 <? chunk - copy then memset m (u64 (dest + copy)) 0 (chunk - copy) else m, copy).

(** The page loop of a segment; [false] when a page is not mapped. *)
Fixpoint load_pages (fuel : nat) s (space file_src file_rem va_cursor mem_rem : Z) :
    res (bool * ks H) :=
  match fuel with
  | O => NoFuel
  | S fuel =>
      if mem_rem =? 0 then Ret (true, s) else
      let page_va := align_down va_cursor 4096 in
      let page_off := u64 (va_cursor - page_va) in
      phys ← vmm_space_get_phys (k_mm s) space page_va;
      if phys =? 0 then Ret (false, s) else
      let dest := u64 (phys + mm_hhdm (k_mm s) + page_off) in
      let chunk := u64 (4096 - page_off) in
      let chunk := if mem_rem <? chunk then mem_rem else chunk in
      let '(m, copy) := fill_chunk (k_ram s) dest file_src file_rem chunk in
      load_pages fuel (put_ram s m) space (u64 (file_src + copy)) (u64 (file_rem - copy))
        (u64 (va_cursor + chunk)) (u64 (mem_rem - chunk))
  end.
(** Every iteration but the first starts at a page boundary. *)
Definition load_fuel (memsz : Z) : nat := Z.to_nat (memsz / 4096 + 3).

(** One program header; [false] when loading fails.  The header is read again
    after the pages were mapped, as the code does. *)
Definition load_segment s (space data size ph : Z) : res (bool * ks H) :=
  let h := read_phdr (k_ram s) ph in
  if negb (ph_type h =? PT_LOAD) then Ret (true, s) else
  if size <? u64 (ph_offset h + ph_filesz h) then Ret (false, s) else
  if ph_memsz h <? ph_filesz h then Ret (false, s) else
  let va_base := align_down (ph_vaddr h) 4096 in
  let va_end := align_up (u64 (ph_vaddr h + ph_memsz h)) 4096 in
  let pg_count := u64 (va_end - va_base) / 4096 in
  let vmm_flags := Z.lor VMM_REGION_USER VMM_REGION_READ in
  let vmm_flags := if has (ph_flags h) PF_W then Z.lor vmm_flags VMM_REGION_WRITE else vmm_flags in
  let vmm_flags := if has (ph_flags h) PF_X then Z.lor vmm_flags VMM_REGION_EXEC else vmm_flags in
  '(mapped, s) ← k_space_alloc s space va_base pg_count vmm_flags;
  if mapped =? 0 then Ret (false, s) else
  let h := read_phdr (k_ram s) ph in
  load_pages (load_fuel (ph_memsz h)) s space (u64 (data + ph_offset h)) (ph_filesz h)
    (ph_vaddr h) (ph_memsz h).

(** The loop over the program headers; [i] is a [u16]. *)
Fixpoint load_segments (fuel : nat) (i : Z) s (p data size : Z) : res (bool * ks H) :=
  match fuel with
  | O => NoFuel
  | S fuel =>
      let eh := read_ehdr (k_ram s) data in
      if e_phnum eh <=? i then Ret (true, s) else
      x ← get_proc s p;
      '(ok, s) ← load_segment s (p_space x) data size
        (u64 (data + e_phoff eh + i * e_phentsize eh));
      if negb ok then Ret (false, s) else load_segments fuel (u16 (i + 1)) s p data size
  end.
(** [e_phnum] is below [2^16]. *)
Definition PHDR_FUEL : nat := Z.to_nat 65536.

Definition fail_load s (p : Z) : res (Z * ks H) := s ← process_destroy s p; Ret (-1, s).

Definition elf_load s (data size : Z) (name : list Z) (initial_caps : Z) : res (Z * ks H) :=
  if (data =? 0) || (size =? 0) then Ret (-1, s) else
  if negb (elf_check (k_ram s) data size) then Ret (-1, s) else
  '(p, s) ← process_create_user s name initial_caps;
  if p =? 0 then Ret (-1, s) else
  '(ok, s) ← load_segments PHDR_FUEL 0 s p data size;
  if negb ok then fail_load s p else
  x ← get_proc s p;
  '(stack, s) ← k_space_alloc s (p_space x) USER_STACK_BASE USER_STACK_PAGES
    (Z.lor (Z.lor VMM_REGION_USER VMM_REGION_READ) VMM_REGION_WRITE);
  if stack =? 0 then fail_load s p else
  let eh := read_ehdr (k_ram s) data in
  '(t, s) ← thread_create_user s p name (e_entry eh) 0 USER_STACK_TOP;
  if t =? 0 then fail_load s p else Ret (0, s).
End elf.

(** ** Loading a segment *)

Lemma align_down_page v : 0 ≤ v < 2 ^ 64 → align_down v 4096 = v / 4096 * 4096.
Proof.
  intros. unfold align_down. change (u64 (4096 - 1)) with 0xFFF. rewrite align_down_spec by done. dlia.
Qed.

(** [n] source bytes at [src] do not touch [k] bytes at [a]. *)
Definition apart (a k src n : Z) : Prop := a + k ≤ src ∨ src + n ≤ a.

Lemma fill_chunk_spec m dest src frem chunk :
  0 ≤ dest → 0 < chunk → dest + chunk ≤ 2 ^ 64 → 0 ≤ src → 0 ≤ frem → src + frem < 2 ^ 64 →
  apart dest chunk src frem →
  let '(m', copy) := fill_chunk m dest src frem chunk in
  copy = Z.min chunk frem ∧
  ∀ x, ld8 m' x = if (dest <=? x) && (x <? dest + chunk)
                  then (if x - dest <? frem then ld8 m (src + (x - dest)) else 0) else ld8 m x.
Proof.
  intros Hd Hc Hdc Hs Hf Hsf Ha. unfold fill_chunk, apart in *.
  set (copy := if 0 <? frem then _ else 0).
  assert (Ec : copy = Z.min chunk frem) by (unfold copy; repeat zcase; lia).
  split; [done|]. intros x. set (m1 := if 0 <? frem then _ else m).
  assert (E1 : ∀ x, ld8 m1 x = if (dest <=? x) && (x <? dest + copy) then ld8 m (src + (x - dest)) else ld8 m x).
  { intros y. unfold m1. destruct (Z.ltb_spec 0 frem).
    - apply ld8_memcpy; lia.
    - repeat zcase; cbn; try done; lia. }
  destruct (Z.ltb_spec 0 (chunk - copy)); [rewrite u64_small, ld8_memset by lia|]; rewrite E1;
    change (u8 0) with 0; repeat zcase; cbn; try done; lia.
Qed.

Section load.
Context {H : Type} `{HeapAlloc H} `{KernelCode} (D U : Z → Prop).
Context (off r : Z) (fr : Z → Z) (Hoff : 0 ≤ off ∧ off + 2 ^ 47 ≤ 2 ^ 64).
Implicit Types (s : ks H).

(** Page [p] of the space with root [r] is mapped to the frame [fr p], which is
    none of its tables. *)
Record page_ready (m : ram) (p : Z) : Prop := {
  pr_slot : D (pml4_index (p * 4096));
  pr_pte : ∃ e, pte_at off m r (p * 4096) = Some e ∧ Z.land e PTE_ADDR_MASK = fr p;
  pr_frame : frame_ok (fr p);
  pr_data q : path_ok D q → table_at off m r q ≠ Some (fr p);
}.

(** The addresses [va .. va + n) are mapped, each page to a frame of its own. *)
Record range_ready (m : ram) (va n : Z) : Prop := {
  rr_wf : pt_wf off D U m r;
  rr_page i : 0 ≤ i < n → page_ready m ((va + i) / 4096);
  rr_inj i j : 0 ≤ i < n → 0 ≤ j < n → fr ((va + i) / 4096) = fr ((va + j) / 4096) →
    (va + i) / 4096 = (va + j) / 4096;
}.

(** Where the byte of the user address [v] is in the kernel's memory. *)
Definition home (v : Z) : Z := fr (v / 4096) + off + v mod 4096.

Lemma home_inj m va n i j :
  range_ready m va n → 0 ≤ i < n → 0 ≤ j < n → home (va + i) = home (va + j) → i = j.
Proof.
  intros Hr Hi Hj. unfold home. intros E. destruct (rr_page _ _ _ Hr i Hi) as [_ _ [? Fi] _].
  destruct (rr_page _ _ _ Hr j Hj) as [_ _ [? Fj] _].
  assert (Ef : fr ((va + i) / 4096) = fr ((va + j) / 4096)) by dlia.
  pose proof (rr_inj _ _ _ Hr i j Hi Hj Ef). dlia.
Qed.

Lemma agree_trans m m1 m2 : agree off D m m1 r → agree off D m1 m2 r → agree off D m m2 r.
Proof.
  intros Ha Hb q t i Hq Ht Hi. rewrite (Hb q t i Hq); [exact (Ha q t i Hq Ht Hi)| |done].
  by rewrite (agree_tables off D m m1).
Qed.

Lemma range_ready_agree m m' va n k :
  agree off D m m' r → 0 ≤ k ≤ n → range_ready m va n → range_ready m' (va + k) (n - k).
Proof.
  intros Ha Hk [Hw Hp Hi]. split.
  - by apply (agree_wf off D U m).
  - intros i Hr. rewrite <- Z.add_assoc. destruct (Hp (k + i)) as [P1 P2 P3 P4]; [lia|]. split; try done.
    + by rewrite (agree_pte off D m).
    + intros q Hq. rewrite (agree_tables off D m) by done. by apply P4.
  - intros i j Hri Hrj. rewrite <- !Z.add_assoc. apply Hi; lia.
Qed.

Lemma get_phys_ready s space sp p :
  mm_hhdm (k_mm s) = off → mm_spaces (k_mm s) !! space = Some sp → pml4_phys sp = r → space ≠ 0 →
  0 ≤ p * 4096 < 2 ^ 64 → page_ready (k_ram s) p →
  vmm_space_get_phys (k_mm s) space (p * 4096) = Ret (fr p).
Proof.
  intros Ho Hsp Hr Hs Hp [_ (e & He & Hm) _ _]. unfold vmm_space_get_phys.
  destruct (Z.eqb_spec space 0); [done|]. unfold PAGE_ALIGN_DOWN. rewrite align_down_spec by done.
  replace (_ - _) with (p * 4096) by dlia. unfold pte_lookup, get_space. rewrite Hsp. cbn [deref].
  rewrite bind_Ret, Hr, Ho. fold (k_ram s). destruct (pte_at_walk _ _ _ _ _ He) as (t & -> & -> & ->).
  by rewrite Hm.
Qed.

Lemma load_pages_spec fuel : ∀ s space sp src frem va rem,
  mm_hhdm (k_mm s) = off → mm_spaces (k_mm s) !! space = Some sp → pml4_phys sp = r → space ≠ 0 →
  range_ready (k_ram s) va rem → 0 ≤ va → va + rem < 2 ^ 64 → 0 ≤ frem ≤ rem →
  0 ≤ src → src + frem < 2 ^ 64 →
  (∀ i, 0 ≤ i < rem → apart (fr ((va + i) / 4096) + off) 4096 src frem) →
  rem = 0 ∧ (0 < fuel)%nat ∨ va mod 4096 + rem ≤ 4096 * (Z.of_nat fuel - 1) →
  returns (load_pages fuel s space src frem va rem) (λ '(ok, s'), ok = true ∧ ∃ m',
    s' = put_ram s m' ∧ agree off D (k_ram s) m' r ∧
    (∀ x, (∀ i, 0 ≤ i < rem → x ≠ home (va + i)) → ld8 m' x = ld8 (k_ram s) x) ∧
    ∀ i, 0 ≤ i < rem → ld8 m' (home (va + i)) = if i <? frem then ld8 (k_ram s) (src + i) else 0).
Proof.
  induction fuel as [|fuel IH]; intros s space sp src frem va rem Ho Hsp Hr Hs0 Hrr Hva Hend Hf Hsrc Hse Hap Hfu.
  { dlia. }
  cbn [load_pages]. destruct (Z.eqb_spec rem 0) as [->|Hrem].
  { split; [done|]. exists (k_ram s). split_and!; try done; try lia. by destruct s as [[]]. }
  rewrite align_down_page by lia.
  assert (E0 : va - va / 4096 * 4096 = va mod 4096) by dlia. rewrite E0.
  rewrite !u64_small by dlia.
  assert (Hp0 : page_ready (k_ram s) (va / 4096)).
  { pose proof (rr_page _ _ _ Hrr 0 ltac:(lia)) as Hp. by rewrite Z.add_0_r in Hp. }
  rewrite (get_phys_ready s space sp) by (try done; dlia). rewrite bind_Ret.
  destruct (pr_frame _ _ Hp0) as [Hfr Hfa]. destruct (Z.eqb_spec (fr (va / 4096)) 0); [lia|].
  rewrite Ho. rewrite (u64_small (_ + _ + _)) by dlia.
  set (chunk := if rem <? 4096 - va mod 4096 then rem else 4096 - va mod 4096).
  assert (Hch : 0 < chunk ≤ rem ∧ va mod 4096 + chunk ≤ 4096 ∧
    (chunk = rem ∨ va mod 4096 + chunk = 4096)) by (unfold chunk; zcase; dlia).
  set (dest := fr (va / 4096) + off + va mod 4096).
  assert (Ehome : ∀ i, 0 ≤ i < chunk → home (va + i) = dest + i).
  { intros i Hi. unfold home, dest. assert ((va + i) / 4096 = va / 4096) as -> by dlia. dlia. }
  pose proof (Hap 0 ltac:(lia)) as Hap0. rewrite Z.add_0_r in Hap0.
  pose proof (fill_chunk_spec (k_ram s) dest src frem chunk) as Hfc.
  destruct (fill_chunk _ _ _ _ _) as [m1 copy].
  assert (Hde : 0 ≤ dest ∧ dest + chunk ≤ 2 ^ 64) by (unfold dest; dlia).
  destruct Hfc as [-> Hm1]; try lia.
  { unfold apart, dest in *. dlia. }
  assert (Hag : agree off D (k_ram s) m1 r).
  { apply (agree_frame off Hoff D _ _ U r (fr (va / 4096)));
      [apply Hrr|by split|apply (pr_data _ _ Hp0)|].
    intros x Hx. rewrite Hm1. unfold dest in *. repeat zcase; cbn; try done; dlia. }
  rewrite !u64_small by lia.
  assert (Hrd : ∀ i, 0 ≤ i < frem → ld8 m1 (src + i) = ld8 (k_ram s) (src + i)).
  { intros i Hi. rewrite Hm1. unfold apart, dest in *. repeat zcase; cbn; try done; dlia. }
  eapply returns_mono.
  { apply (IH (put_ram s m1) space sp); try done; try lia.
    - by apply range_ready_agree with (m := k_ram s); [done|lia|].
    - intros i Hi. specialize (Hap (chunk + i) ltac:(lia)). rewrite Z.add_assoc in Hap.
      unfold apart in *. lia.
    - dlia. }
  intros [ok s'] (-> & m' & -> & Hag' & Hout & Hin). split; [done|]. exists m'.
  split; [by destruct s as [[]]|]. split; [by eapply agree_trans|].
  change (k_ram (put_ram s m1)) with m1 in *. split.
  - intros x Hx. rewrite Hout.
    + rewrite Hm1. destruct (Z.leb_spec dest x), (Z.ltb_spec x (dest + chunk)); try done. cbn.
      destruct (Hx (x - dest)); [lia|]. rewrite Ehome by lia. lia.
    + intros i Hi. rewrite <- Z.add_assoc. apply Hx. lia.
  - intros i Hi. destruct (Z.lt_ge_cases i chunk) as [Hl|Hl].
    + rewrite Hout.
      * rewrite Ehome, Hm1 by lia.
        assert ((dest <=? dest + i) && (dest + i <? dest + chunk) = true) as -> by (repeat zcase; done || lia).
        by replace (dest + i - dest) with i by lia.
      * intros j Hj. rewrite <- Z.add_assoc. intros E.
        pose proof (home_inj _ _ _ i (chunk + j) Hrr ltac:(lia) ltac:(lia) E). lia.
    + pose proof (Hin (i - chunk) ltac:(lia)) as Hi'.
      replace (va + chunk + (i - chunk)) with (va + i) in Hi' by lia. rewrite Hi'.
      destruct (Z.ltb_spec i frem) as [Hif|Hif].
      * rewrite Z.min_l by lia. destruct (Z.ltb_spec (i - chunk) (frem - chunk)); [|lia].
        replace (src + chunk + (i - chunk)) with (src + i) by lia. apply Hrd. lia.
      * destruct (Z.ltb_spec (i - chunk) (frem - Z.min chunk frem)); [lia|done].
Qed.

(** The byte user code reads at [v]. *)
Definition user_byte (m : ram) (v : Z) : option Z :=
  e ← pte_at off m r (v / 4096 * 4096);
  Some (ld8 m (Z.land e PTE_ADDR_MASK + off + v mod 4096)).

Lemma user_byte_home m v : page_ready m (v / 4096) → user_byte m v = Some (ld8 m (home v)).
Proof. intros [_ (e & He & Hm) _ _]. unfold user_byte. rewrite He. cbn. by rewrite Hm. Qed.

(** C25. Loading the pages of a segment is right.  When the pages of the segment
    are mapped, each to a frame of its own that is no page table, and the file
    bytes lie elsewhere, then the page loop terminates with success; afterwards
    user code reads the file's bytes at the start of the segment and zeros up to
    its memory size; no address translation changed, and no byte outside the
    segment did. *)
Theorem load_pages_correct s space sp src filesz va memsz :
  mm_hhdm (k_mm s) = off → mm_spaces (k_mm s) !! space = Some sp → pml4_phys sp = r → space ≠ 0 →
  range_ready (k_ram s) va memsz → 0 ≤ va → va + memsz < 2 ^ 64 → 0 ≤ filesz ≤ memsz →
  0 ≤ src → src + filesz < 2 ^ 64 →
  (∀ i, 0 ≤ i < memsz → apart (fr ((va + i) / 4096) + off) 4096 src filesz) →
  returns (load_pages (load_fuel memsz) s space src filesz va memsz) (λ '(ok, s'), ok = true ∧
    (∀ i, 0 ≤ i < memsz →
       user_byte (k_ram s') (va + i) = Some (if i <? filesz then ld8 (k_ram s) (src + i) else 0)) ∧
    (∀ v, D (pml4_index v) → pte_at off (k_ram s') r v = pte_at off (k_ram s) r v) ∧
    (∀ x, (∀ i, 0 ≤ i < memsz → x ≠ home (va + i)) → ld8 (k_ram s') x = ld8 (k_ram s) x)).
Proof.
  intros Ho Hsp Hr Hs0 Hrr Hva Hend Hf Hsrc Hse Hap. eapply returns_mono.
  { eapply load_pages_spec; try done. unfold load_fuel. dlia. }
  intros [ok s'] (-> & m' & -> & Hag & Hout & Hin). change (k_ram (put_ram s m')) with m'.
  split; [done|]. split; [|split; [|done]].
  - intros i Hi. rewrite user_byte_home; [by rewrite Hin|].
    pose proof (range_ready_agree _ _ va memsz 0 Hag ltac:(lia) Hrr) as Hrr'.
    rewrite Z.add_0_r, Z.sub_0_r in Hrr'. by apply (rr_page _ _ _ Hrr').
  - intros v Hd. by apply (agree_pte off D).
Qed.
End load.

(** ** Header checks that wrap

    [elf_check] adds the offset and the size of the program header table in 64
    bits: a table at the end of the address space passes. *)
Definition wrap_image : ram :=
  list_to_map (zip (seqZ 0x1000 64)
    ([0x7F; 69; 76; 70; 2; 1; 0; 0; 0; 0; 0; 0; 0; 0; 0; 0; 2; 0; 0x3E; 0; 1; 0; 0; 0;
      0; 0; 0; 0; 0; 0; 0; 0] ++ replicate 8 0xFF ++
     [0; 0; 0; 0; 0; 0; 0; 0; 0; 0; 0; 0; 64; 0; 56; 0; 1; 0; 0; 0; 0; 0; 0; 0])).

Example elf_check_wraps :
  elf_check wrap_image 0x1000 64 = true ∧ e_phoff (read_ehdr wrap_image 0x1000) = 2 ^ 64 - 1.
Proof. by vm_compute. Qed.

(** ** A program with one segment: four bytes of file, eight of memory *)

#[local] Instance demo_elf_code : KernelCode := {|
  thread_trampoline := 0x1000;
  user_thread_trampoline := 0x2000;
  fork_child_return_addr := 0x3000;
|}.
Definition le (n : nat) (v : Z) : list Z := (λ i, (v / 256 ^ Z.of_nat i) mod 256) <$> seq 0 n.
Definition prog_bytes : list Z :=
  [0x7F; 69; 76; 70; 2; 1] ++ replicate 10 0 ++ le 2 2 ++ le 2 0x3E ++ le 4 1 ++ le 8 0x400010 ++
  le 8 64 ++ le 8 0 ++ le 4 0 ++ le 2 64 ++ le 2 56 ++ le 2 1 ++ le 6 0 ++
  le 4 1 ++ le 4 5 ++ le 8 120 ++ le 8 0x400010 ++ le 8 0 ++ le 8 4 ++ le 8 8 ++ le 8 0x1000 ++
  [0xDE; 0xAD; 0xBE; 0xEF].
Definition prog_at : Z := 0xFFFF900000000000.
Definition prog_ram : ram := list_to_map (zip (seqZ prog_at 124) prog_bytes).
Definition pm64 : physmem :=
  PhysMem (Some (replicate 2 (Pageframe 1 1) ++ replicate 62 (Pageframe 0 0)))
    64 (3 :: replicate 7 0) 8 0x40000.
Definition elf0 : ks kheap :=
  Ks (MM prog_ram pm64 kheap_init ∅ {[0x700 := Space 0 0 0 0]} paging0 0x700 0)
    {[0x50 := Thread 0 [] THREAD_RUNNING 0 0 0 false 0 zero_state 0 0 0]} ∅
    (Sched (q_init (Rq (replicate 64 0) 0 0 0)) 0x50 0x50 0 0 true 0 0)
    0 0 1 1 (Ctx 0x4000 0x202 1 2 3 4 5 6 0x9000) 0 0.

(** The space of the process at the head of the list. *)
Definition head_root (s : ks kheap) : Z :=
  match k_procs s !! p_head s with
  | Some p => match mm_spaces (k_mm s) !! p_space p with Some sp => pml4_phys sp | None => 0 end
  | None => 0
  end.

(** Loading it makes a process whose memory holds the program and whose only
    thread is in the ready queue. *)
Example elf_load_runs :
  match elf_load elf0 prog_at 124 [112] 1 with
  | Ret (rc, s) =>
      rc = 0 ∧ q_empty (ready_q (k_sched s)) = false ∧
      (λ i, user_byte Paging.hhdm (head_root s) (k_ram s) (0x400010 + i)) <$> seqZ 0 8 =
        Some <$> [0xDE; 0xAD; 0xBE; 0xEF; 0; 0; 0; 0]
  | _ => False
  end.
Proof. vm_compute. done. Qed.

(** Five bytes of file and eight of memory at [0x400010], page [0x400000] mapped
    to frame 3. *)
Definition seg0 : ks kheap := with_mm elf0 cow_state.

Lemma seg0_ready :
  range_ready user_slot (physmem_used (mm_frames cow_state)) Paging.hhdm 0x1000 (λ _, 0x3000)
    (k_ram seg0) 0x400010 8.
Proof.
  assert (E : ∀ i, 0 ≤ i < 8 → (0x400010 + i) / 4096 = 0x400) by (intros; dlia).
  pose proof cow_state_fault as [_ _ _ _ W D _ _ _ _ P F _ _ T _].
  split; [exact W| |].
  - intros i Hi. rewrite (E i Hi). split; [exact D| |exact F|exact T].
    exists 0x3005. split; [exact P|reflexivity].
  - intros i j Hi Hj _. by rewrite (E i Hi), (E j Hj).
Qed.

Lemma load_pages_witness :
  returns (load_pages (load_fuel 8) seg0 0x600 0x9000 5 0x400010 8) (λ '(ok, s'), ok = true ∧
    user_byte Paging.hhdm 0x1000 (k_ram s') 0x400017 = Some 0).
Proof.
  eapply returns_mono.
  - apply (load_pages_correct user_slot (physmem_used (mm_frames cow_state)) Paging.hhdm 0x1000
      (λ _, 0x3000) ltac:(vdone) seg0 0x600 cow_space 0x9000 5 0x400010 8);
      [reflexivity|reflexivity|reflexivity|done|exact seg0_ready|lia|lia|lia|lia|lia|].
    intros i Hi. right. vm_compute. discriminate.
  - intros [ok s'] (Hok & Hin & _). split; [exact Hok|].
    pose proof (Hin 7 ltac:(lia)) as H7. change (0x400010 + 7) with 0x400017 in H7. rewrite H7. reflexivity.
Defined.
