(* ===== verification/SysMem.v ===== *)
(** The system calls on memory and processes: [arch/x86_64/user/sys_mem.c] and
    [arch/x86_64/user/sys_process.c]. *)
From S2P Require Import Prelude Interfaces Ram PhysMem DList Kheap Paging Vmm RunQueue Space Context Proc.

Definition MMAP_PROT_READ : Z := 0x1.
Definition MMAP_PROT_WRITE : Z := 0x2.
Definition MMAP_PROT_EXEC : Z := 0x4.
Definition MMAP_MAP_FIXED : Z := 0x10.
Definition MMAP_MAP_ANON : Z := 0x20.
(** The bounds the code writes out: the last user address, the lowest address
    [is_vaddr_range_free] accepts, where [find_free_vaddr] starts, and the first
    break. *)
Definition USER_LAST : Z := 0x00007FFFFFFFFFFF.
Definition MMAP_LOWEST : Z := 0x1000000.
Definition MMAP_START : Z := 0x50000000.
Definition BRK_START : Z := 0x10000000.

(** [state->rax = v] *)
Definition set_rax (c : cpu_state) (v : Z) : cpu_state :=
  CpuState (s_r15 c) (s_r14 c) (s_r13 c) (s_r12 c) (s_r11 c) (s_r10 c) (s_r9 c) (s_r8 c)
    (s_rbp c) (s_rdi c) (s_rsi c) (s_rdx c) (s_rcx c) (s_rbx c) v (s_rip c) (s_rflags c) (s_rsp c).
(** [(u64)-1] *)
Definition ERR : Z := 2 ^ 64 - 1.

(** The walk of [is_vaddr_range_free] over the regions. *)
Fixpoint range_free_from (fuel : nat) (ns : nodes) (vaddr size cur : Z) : res bool :=
  match fuel with
  | O => NoFuel
  | S fuel =>
      if cur =? 0 then Ret true else
      c ← node ns cur;
      if negb ((u64 (r_base c + r_size c) <=? vaddr) || (u64 (vaddr + size) <=? r_base c))
      then Ret false else range_free_from fuel ns vaddr size (r_next c)
  end.

(** The walk of [find_free_vaddr]. *)
Fixpoint find_gap (fuel : nat) (ns : nodes) (size start cur : Z) : res Z :=
  match fuel with
  | O => NoFuel
  | S fuel =>
      if cur =? 0 then Ret start else
      c ← node ns cur;
      if u64 (r_base c + r_size c) <=? start then find_gap fuel ns size start (r_next c) else
      if u64 (start + size) <=? r_base c then Ret start else
      find_gap fuel ns size (u64 (r_base c + r_size c)) (r_next c)
  end.

Section sys_mem.
Context {H : Type} `{HeapAlloc H} `{KernelCode}.
Implicit Types (s : ks H) (c : cpu_state).

Definition with_mm_res (r : res (mm H)) s : res (ks H) := m ← r; Ret (with_mm s m).
Definition sys_ret s c (v : Z) : res (ks H * cpu_state) := Ret (s, set_rax c v).

Definition is_vaddr_range_free s (space vaddr size : Z) : res bool :=
  if (vaddr <? MMAP_LOWEST) || (USER_LAST <? u64 (vaddr + size)) then Ret false else
  sp ← get_space (k_mm s) space;
  range_free_from (S (base.size (mm_nodes (k_mm s)))) (mm_nodes (k_mm s)) vaddr size (regions sp).

Definition find_free_vaddr s (space size : Z) : res Z :=
  sp ← get_space (k_mm s) space;
  start ← find_gap (S (base.size (mm_nodes (k_mm s)))) (mm_nodes (k_mm s)) size MMAP_START (regions sp);
  Ret (if USER_LAST <? u64 (start + size) then 0 else start).

Definition mmap_flags (prot : Z) : Z :=
  let f := Z.lor VMM_REGION_USER VMM_REGION_USED in
  let f := if has prot MMAP_PROT_READ then Z.lor f VMM_REGION_READ else f in
  let f := if has prot MMAP_PROT_WRITE then Z.lor f VMM_REGION_WRITE else f in
  if has prot MMAP_PROT_EXEC then Z.lor f VMM_REGION_EXEC else f.

(** What the hint gives: 0 when it is not used.  A fixed mapping drops the
    region that starts at the hint, when something overlaps the range. *)
Definition mmap_hint s (space hint size flags : Z) : res (Z * ks H) :=
  if hint =? 0 then Ret (0, s) else
  let aligned := Z.land hint (not64 (PAGE_SIZE - 1)) in
  free ← is_vaddr_range_free s space aligned size;
  if has flags MMAP_MAP_FIXED then
    s ← (if (free : bool) then Ret s else with_mm_res (vmm_space_free (k_mm s) space aligned) s);
    Ret (aligned, s)
  else Ret (if free then aligned else 0, s).

Definition sys_mmap s c : res (ks H * cpu_state) :=
  let hint := s_rdi c in
  let length := s_rsi c in
  let prot := s_rdx c in
  let flags := s_r10 c in
  if negb (has flags MMAP_MAP_ANON) then sys_ret s c ERR else
  if length =? 0 then sys_ret s c ERR else
  p ← process_get_current s;
  if p =? 0 then sys_ret s c ERR else
  x ← get_proc s p;
  if p_space x =? 0 then sys_ret s c ERR else
  let page_count := u64 (length + PAGE_SIZE - 1) / PAGE_SIZE in
  let size := u64 (page_count * PAGE_SIZE) in
  '(target, s) ← mmap_hint s (p_space x) hint size flags;
  target ← (if target =? 0 then find_free_vaddr s (p_space x) size else Ret target);
  if target =? 0 then sys_ret s c ERR else
  '(vaddr, m) ← vmm_space_alloc (k_mm s) (p_space x) target page_count (mmap_flags prot);
  let s := with_mm s m in
  if vaddr =? 0 then sys_ret s c ERR else sys_ret s c vaddr.

Definition sys_munmap s c : res (ks H * cpu_state) :=
  let addr := s_rdi c in
  if (addr =? 0) || (USER_LAST <? addr) then sys_ret s c ERR else
  p ← process_get_current s;
  if p =? 0 then sys_ret s c ERR else
  x ← get_proc s p;
  if p_space x =? 0 then sys_ret s c ERR else
  region ← vmm_space_find (k_mm s) (p_space x) addr;
  if region =? 0 then sys_ret s c ERR else
  s ← with_mm_res (vmm_space_free (k_mm s) (p_space x) addr) s;
  sys_ret s c 0.

Definition brk_flags : Z :=
  Z.lor (Z.lor (Z.lor VMM_REGION_USER VMM_REGION_USED) VMM_REGION_READ) VMM_REGION_WRITE.

Definition sys_brk s c : res (ks H * cpu_state) :=
  let new_break := s_rdi c in
  p ← process_get_current s;
  if p =? 0 then sys_ret s c ERR else
  x ← get_proc s p;
  let x := if p_heap_break x =? 0 then set_brk x BRK_START else x in
  let s := put_proc s p x in
  if new_break =? 0 then sys_ret s c (p_heap_break x) else
  if USER_LAST <? new_break then sys_ret s c ERR else
  if new_break <=? p_heap_break x then
    sys_ret (put_proc s p (set_brk x new_break)) c new_break
  else
  let old_break := p_heap_break x in
  let grow_bytes := u64 (new_break - old_break) in
  let pages := u64 (grow_bytes + PAGE_SIZE - 1) / PAGE_SIZE in
  '(mapped, m) ← vmm_space_alloc (k_mm s) (p_space x) old_break pages brk_flags;
  let s := with_mm s m in
  if mapped =? 0 then sys_ret s c old_break else
  sys_ret (put_proc s p (set_brk x new_break)) c new_break.

(** ** Processes *)

Definition sys_exit s c : res (ks H * cpu_state) := s ← thread_exit s; Ret (s, c).
Definition sys_yield s c : res (ks H * cpu_state) := s ← sched_yield s; sys_ret s c 0.

(** A field of the running process, or [none]. *)
Definition sys_field s c (f : proc → Z) (none : Z) : res (ks H * cpu_state) :=
  p ← process_get_current s;
  if p =? 0 then sys_ret s c none else x ← get_proc s p; sys_ret s c (f x).
Definition sys_getpid s c : res (ks H * cpu_state) := sys_field s c p_pid ERR.
Definition sys_getuid s c : res (ks H * cpu_state) := sys_field s c p_uid 0.
Definition sys_getgid s c : res (ks H * cpu_state) := sys_field s c p_gid 0.

Definition sys_fork s c : res (ks H * cpu_state) :=
  '(child, s) ← process_fork s c;
  if child =? 0 then sys_ret s c ERR else x ← get_proc s child; sys_ret s c (p_pid x).
End sys_mem.

(** ** Where mappings go *)

Notation region_list := (list (Z * rdata)).






Section places.
Context {H : Type} `{HeapAlloc H} `{KernelCode}.
Implicit Types (s : ks H) (c : cpu_state).







End places.

(** ** Lengths near [2^64]

    The sum in [find_free_vaddr] wraps: a request for almost the whole address
    space passes the bound, and [vmm_space_alloc] is asked for [2^52 - 1] pages. *)
Theorem find_free_vaddr_wraps {H} `{HeapAlloc H} `{KernelCode} (s : ks H) space sp :
  mm_spaces (k_mm s) !! space = Some sp → regions sp = 0 →
  find_free_vaddr s space (2 ^ 64 - 4096) = Ret MMAP_START.
Proof.
  intros Hsp Hr. unfold find_free_vaddr, get_space. rewrite Hsp. cbn [deref]. rewrite bind_Ret, Hr.
  cbn [find_gap]. rewrite Z.eqb_refl, bind_Ret. reflexivity.
Qed.

(** ** A process with one region at [MMAP_START] *)

#[local] Instance demo_mmap_code : KernelCode := {|
  thread_trampoline := 0x1000;
  user_thread_trampoline := 0x2000;
  fork_child_return_addr := 0x3000;
|}.
Definition mmap_proc : proc := Proc 1 [112] PROC_ALIVE 0 0 0 0 0 0x600 0x50 1 1 [] 0.
Definition mmap0 : ks kheap :=
  Ks (MM ∅ pm16 kheap_init {[0x500 := Region MMAP_START 0x2000 VMM_REGION_USED 0 0]}
        {[0x600 := Space 0x1000 0x500 1 0x2000]} paging0 0x700 0x600)
    {[0x50 := Thread 1 [] THREAD_RUNNING 0 0 0 true 0 zero_state 0x80 0 0]} {[0x80 := mmap_proc]}
    (Sched (q_init (Rq (replicate 64 0) 0 0 0)) 0x50 0x50 0 0 true 0 0)
    0x80 0 2 2 (Ctx 0x4000 0x202 1 2 3 4 5 6 0x9000) 0 0.




(** Fixed mappings: one page over the second page of the region of [mmap0], which
    stays in the list beside the new one; and one page at a kernel address. *)
Definition mmap_fixed_call (hint : Z) : cpu_state :=
  CpuState 0 0 0 0 0 (Z.lor MMAP_MAP_ANON MMAP_MAP_FIXED) 0 0 0 hint 0x1000 1 0 0 9 0 0 0.
Definition mmap_outcome (hint : Z) : option (Z * list (Z * Z)) :=
  match sys_mmap mmap0 (mmap_fixed_call hint) with
  | Ret (s, c) => Some (s_rax c, (λ x, (r_base x.2, r_size x.2)) <$> map_to_list (mm_nodes (k_mm s)))
  | _ => None
  end.
Lemma mmap_fixed_overlaps :
  mmap_outcome (MMAP_START + 0x1000) =
    Some (MMAP_START + 0x1000, [(MMAP_START + 0x1000, 0x1000); (MMAP_START, 0x2000)]) ∧
  mmap_outcome 0xFFFF800000000000 =
    Some (0xFFFF800000000000, [(0xFFFF800000000000, 0x1000); (MMAP_START, 0x2000)]).
Proof. vm_compute. split; reflexivity. Qed.
