(* ===== verification/Input.v ===== *)
(** The input subsystem: [devices/input/ctrl.c], and the two event queues,
    [devices/input/kbd.c] and [devices/input/mouse.c]. *)
From S2P Require Import Prelude.

Inductive input_event_type := INPUT_EV_KEY | INPUT_EV_REL | INPUT_EV_ABS.
#[export] Instance input_event_type_eq_dec : EqDecision input_event_type.
Proof. solve_decision. Defined.

Definition INPUT_REL_X : Z := 0.
Definition INPUT_REL_Y : Z := 1.
Definition INPUT_BTN_LEFT : Z := 0x110.
Definition INPUT_BTN_RIGHT : Z := 0x111.
Definition INPUT_BTN_MIDDLE : Z := 0x112.
Definition INPUT_MOD_SHIFT : Z := Z.shiftl 1 0.
Definition INPUT_MOD_CTRL : Z := Z.shiftl 1 1.
Definition INPUT_MOD_ALT : Z := Z.shiftl 1 2.
Definition INPUT_MOD_CAPS : Z := Z.shiftl 1 3.

(** [input_event_t]; [sizeof] is 16. *)
Record input_event := Event {
  ev_type : input_event_type;
  ev_code : Z;
  ev_value : Z;
  ev_modifiers : Z;
}.
#[export] Instance input_event_eq_dec : EqDecision input_event.
Proof. solve_decision. Defined.
Definition EVENT_SIZE : Z := 16.

(** [kbd_queue_t] and [mouse_queue_t]: the buffer is as long as the queue's
    size. *)
Record queue := Queue {
  q_buf : list input_event;
  q_head : Z;
  q_tail : Z;
}.
Definition KBD_QUEUE_SIZE : Z := 64.
Definition MOUSE_QUEUE_SIZE : Z := 128.

(** [kbd_push_event] and [mouse_push_event] with the size of their queue. *)
Definition push_event (n : Z) (q : queue) (ev : input_event) : queue :=
  let next := u32 (q_head q + 1) mod n in
  if next =? q_tail q then q else Queue (updateZ (q_buf q) (q_head q) ev) next (q_tail q).
Definition kbd_push_event : queue → input_event → queue := push_event KBD_QUEUE_SIZE.
Definition mouse_push_event : queue → input_event → queue := push_event MOUSE_QUEUE_SIZE.

Definition has_event (q : queue) : bool := negb (q_head q =? q_tail q).
Definition kbd_has_event : queue → bool := has_event.

(** One event taken from a queue. *)
Definition read_event (n : Z) (q : queue) : res (option input_event * queue) :=
  if negb (has_event q) then Ret (None, q) else
  ev ← deref (lookupZ (q_buf q) (q_tail q));
  Ret (Some ev, Queue (q_buf q) (q_head q) (u32 (q_tail q + 1) mod n)).
Definition kbd_read_event : queue → res (option input_event * queue) := read_event KBD_QUEUE_SIZE.

(** The loop of [kbd_read_events] and of [mouse_read]: the events copied to a
    buffer of [size] bytes, of which [written] are used. *)
Fixpoint read_loop (fuel : nat) (n : Z) (q : queue) (size written : Z) :
    res (list input_event * queue) :=
  match fuel with
  | O => NoFuel
  | S fuel =>
      if size <? u64 (written + EVENT_SIZE) then Ret ([], q) else
      '(o, q) ← read_event n q;
      match o with
      | None => Ret ([], q)
      | Some ev =>
          '(evs, q) ← read_loop fuel n q size (u64 (written + EVENT_SIZE)); Ret (ev :: evs, q)
      end
  end.
(** A queue holds fewer events than its size. *)
Definition read_events (n : Z) (q : queue) (size : Z) : res (list input_event * queue) :=
  read_loop (S (Z.to_nat n)) n q size 0.

(** The number of bytes written is the first result of [kbd_read_events]; the
    bytes are the events, one after the other. *)
Definition kbd_read_events (q : queue) (size : Z) : res (Z * list input_event * queue) :=
  '(evs, q) ← read_events KBD_QUEUE_SIZE q size;
  Ret (EVENT_SIZE * Z.of_nat (length evs), evs, q).
Definition kbd_read (q : queue) (count : Z) : res (Z * list input_event * queue) :=
  '(w, evs, q) ← kbd_read_events q count; Ret (i32 w, evs, q).
Definition mouse_read (q : queue) (count : Z) : res (Z * list input_event * queue) :=
  '(evs, q) ← read_events MOUSE_QUEUE_SIZE q count;
  Ret (i32 (EVENT_SIZE * Z.of_nat (length evs)), evs, q).

(** [kbd_module_init], [mouse_module_init] and the two [fini] functions. *)
Definition queue_reset (q : queue) : queue := Queue (q_buf q) 0 0.
Definition kbd_module_init (q : queue) : Z * queue := (0, queue_reset q).
Definition kbd_module_fini (q : queue) : queue := queue_reset q.
Definition mouse_module_init (q : queue) : Z * queue := (0, queue_reset q).
Definition mouse_module_fini (q : queue) : queue := queue_reset q.

(** ** The controller *)

Record input := Input { kbd_queue : queue; mouse_queue : queue }.

Definition input_dispatch (i : input) (ev : input_event) : input :=
  match ev_type ev with
  | INPUT_EV_KEY =>
      if (INPUT_BTN_LEFT <=? ev_code ev) && (ev_code ev <=? INPUT_BTN_MIDDLE)
      then Input (kbd_queue i) (mouse_push_event (mouse_queue i) ev)
      else Input (kbd_push_event (kbd_queue i) ev) (mouse_queue i)
  | INPUT_EV_REL => Input (kbd_queue i) (mouse_push_event (mouse_queue i) ev)
  | INPUT_EV_ABS => i
  end.

Definition input_report_key (i : input) (code : Z) (pressed : bool) (modifiers : Z) : input :=
  input_dispatch i (Event INPUT_EV_KEY code (if pressed then 1 else 0) modifiers).
Definition input_report_rel (i : input) (axis value : Z) : input :=
  input_dispatch i (Event INPUT_EV_REL axis value 0).

(** ** The queues are bounded FIFO queues *)

(** Positions in a ring of size [n]. *)
Lemma ring_inj n a i j : 0 ≤ i < n → 0 ≤ j < n → (a + i) mod n = (a + j) mod n → i = j.
Proof.
  intros Hi Hj E. apply Z.cong_iff_0 in E. replace (a + i - (a + j)) with (i - j) in E by lia.
  destruct (Z.le_gt_cases j i); [rewrite Z.mod_small in E by lia; lia|].
  rewrite <- (Z.mod_unique_pos _ n (-1) (i - j + n)) in E by lia. lia.
Qed.
Lemma ring_ne n a k : 0 ≤ a < n → 0 < k < n → (a + k) mod n ≠ a.
Proof.
  intros Ha Hk E. assert (k = 0); [|lia]. apply (ring_inj n a); [lia..|].
  by rewrite E, Z.add_0_r, Z.mod_small.
Qed.

Section fifo.
Context (n : Z) (Hn : 1 < n < 2 ^ 31).

(** [q] holds [evs], the oldest first. *)
Record holds (q : queue) (evs : list input_event) : Prop := {
  qh_buf : Z.of_nat (length (q_buf q)) = n;
  qh_tail : 0 ≤ q_tail q < n;
  qh_head : q_head q = (q_tail q + Z.of_nat (length evs)) mod n;
  qh_len : Z.of_nat (length evs) < n;
  qh_evs i ev : evs !! i = Some ev → lookupZ (q_buf q) ((q_tail q + Z.of_nat i) mod n) = Some ev;
}.

Lemma push_event_spec q evs ev :
  holds q evs →
  holds (push_event n q ev) (if Z.of_nat (length evs) + 1 <? n then evs ++ [ev] else evs).
Proof.
  intros [Hb Ht Hh Hl He]. unfold push_event.
  assert (Hh' : 0 ≤ q_head q < n) by (rewrite Hh; apply Z.mod_pos_bound; lia).
  rewrite u32_small by lia.
  assert (Enext : (q_head q + 1) mod n = (q_tail q + (Z.of_nat (length evs) + 1)) mod n).
  { rewrite Hh, Zplus_mod_idemp_l. f_equal. lia. }
  destruct (Z.ltb_spec (Z.of_nat (length evs) + 1) n) as [Hlt|Hge].
  - destruct (Z.eqb_spec ((q_head q + 1) mod n) (q_tail q)) as [E|_].
    { exfalso. rewrite Enext in E. by eapply (ring_ne n (q_tail q)); [| |exact E]; lia. }
    split; cbn [q_buf q_head q_tail].
    + by rewrite length_updateZ.
    + done.
    + rewrite Enext, length_app. cbn. f_equal. lia.
    + rewrite length_app. cbn. lia.
    + intros i x Hx. apply lookup_app_Some in Hx as [Hx|[Hi Hx]].
      * pose proof (lookup_lt_Some _ _ _ Hx). rewrite lookupZ_updateZ_ne; [by apply He|].
        intros E. rewrite Hh in E. apply (ring_inj n) in E; lia.
      * apply list_lookup_singleton_Some in Hx as [Hi0 <-].
        replace (Z.of_nat i) with (Z.of_nat (length evs)) by lia. rewrite <- Hh.
        apply lookupZ_updateZ_eq. lia.
  - destruct (Z.eqb_spec ((q_head q + 1) mod n) (q_tail q)) as [_|Hne]; [done|]. destruct Hne.
    rewrite Enext. replace (Z.of_nat (length evs) + 1) with n by lia.
    rewrite <- (Z.mod_unique_pos _ n 1 (q_tail q)); lia.
Qed.

Lemma read_event_spec q evs :
  holds q evs →
  returns (read_event n q) (λ '(o, q'),
    match evs with
    | [] => o = None ∧ q' = q
    | ev :: evs => o = Some ev ∧ holds q' evs
    end).
Proof.
  intros [Hb Ht Hh Hl He]. unfold read_event, has_event. destruct evs as [|ev evs].
  - cbn in Hh. rewrite Z.add_0_r, Z.mod_small in Hh by done. by rewrite Hh, Z.eqb_refl.
  - cbn [length] in *. destruct (Z.eqb_spec (q_head q) (q_tail q)) as [E|_].
    { exfalso. rewrite Hh in E. by eapply (ring_ne n (q_tail q)); [| |exact E]; lia. }
    cbn [negb]. pose proof (He 0%nat ev eq_refl) as H0. rewrite Z.add_0_r, Z.mod_small in H0 by done.
    rewrite H0. cbn [deref]. rewrite bind_Ret, u32_small by lia. split; [done|].
    split; cbn [q_buf q_head q_tail]; [done|apply Z.mod_pos_bound; lia| |lia|].
    + rewrite Hh, Zplus_mod_idemp_l. f_equal. lia.
    + intros i x Hx. rewrite Zplus_mod_idemp_l.
      specialize (He (S i) x Hx). rewrite <- He. do 2 f_equal. lia.
Qed.

Lemma read_loop_spec fuel : ∀ q evs size written,
  holds q evs → (length evs < fuel)%nat → 0 ≤ size < 2 ^ 64 → 0 ≤ written →
  written + EVENT_SIZE * (Z.of_nat (length evs) + 1) < 2 ^ 64 →
  returns (read_loop fuel n q size written) (λ '(out, q'),
    let k := Z.to_nat ((size - written) / EVENT_SIZE) in
    out = take k evs ∧ holds q' (drop k evs)).
Proof.
  induction fuel as [|fuel IH]; intros q evs size written Hq Hf Hs Hw Hov; [lia|]. cbn [read_loop].
  unfold EVENT_SIZE in *. rewrite u64_small by lia. destruct (Z.ltb_spec size (written + 16)).
  { cbn. assert (Z.to_nat ((size - written) / 16) = 0%nat) as -> by dlia. done. }
  destruct (proj1 (returns_iff _ _) (read_event_spec q evs Hq)) as ([o q'] & -> & Hr). rewrite bind_Ret.
  destruct evs as [|ev evs].
  { destruct Hr as [-> ->]. cbn. by rewrite take_nil, drop_nil. }
  destruct Hr as [-> Hq']. cbn [length] in *. apply returns_bind.
  eapply returns_mono; [apply IH; try done; lia|]. intros [out q''] [-> Hd]. cbn [returns].
  assert (Z.to_nat ((size - written) / 16) = S (Z.to_nat ((size - (written + 16)) / 16))) as -> by dlia.
  done.
Qed.
End fifo.

(** The event queues are bounded FIFO queues.  Let a queue of size [n] hold
    the events [evs].  Pushing appends an event, or drops it when [n - 1] events
    wait; reading into a buffer of [size] bytes terminates and delivers the
    oldest [size / 16] events in order, or all of them, and leaves the rest. *)
Theorem event_queue_fifo n q evs ev size :
  1 < n < 2 ^ 31 → holds n q evs → 0 ≤ size < 2 ^ 63 →
  holds n (push_event n q ev) (if Z.of_nat (length evs) + 1 <? n then evs ++ [ev] else evs) ∧
  returns (read_events n q size) (λ '(out, q'),
    out ++ drop (Z.to_nat (size / EVENT_SIZE)) evs = evs ∧
    length out = Nat.min (length evs) (Z.to_nat (size / EVENT_SIZE)) ∧
    holds n q' (drop (Z.to_nat (size / EVENT_SIZE)) evs)).
Proof.
  intros Hn Hq Hs. split; [by apply push_event_spec|]. unfold read_events.
  pose proof (qh_len _ _ _ Hq). unfold EVENT_SIZE. eapply returns_mono.
  { apply (read_loop_spec n Hn _ q evs); try done; unfold EVENT_SIZE; lia. }
  intros [out q'] [-> Hd]. unfold EVENT_SIZE in *. rewrite Z.sub_0_r in *.
  split; [apply take_drop|]. split; [|done]. rewrite length_take. lia.
Qed.

Definition empty_queue (n : Z) : queue :=
  Queue (replicate (Z.to_nat n) (Event INPUT_EV_KEY 0 0 0)) 0 0.

Lemma empty_queue_holds n : 1 < n → holds n (empty_queue n) [].
Proof.
  intros Hn. split; cbn; [rewrite length_replicate; lia|lia| |lia|done].
  by rewrite Z.mod_small by lia.
Qed.

(** Four pushes into a queue of size 4: the last is dropped, and two events are
    read into 40 bytes. *)
Definition demo_events : list input_event :=
  (λ c, Event INPUT_EV_KEY c 1 0) <$> [1; 2; 3; 4].
Definition demo_queue : queue := foldl (push_event 4) (empty_queue 4) demo_events.

Lemma event_queue_witness :
  returns (read_events 4 demo_queue 40) (λ '(out, q'), length out = 2%nat).
Proof.
  assert (Hq : holds 4 demo_queue (take 3 demo_events)).
  { unfold demo_queue, demo_events. cbn [fmap list_fmap foldl take].
    pose proof (push_event_spec 4 ltac:(lia) _ _ (Event INPUT_EV_KEY 1 1 0) (empty_queue_holds 4 ltac:(lia))) as Q1.
    pose proof (push_event_spec 4 ltac:(lia) _ _ (Event INPUT_EV_KEY 2 1 0) Q1) as Q2.
    pose proof (push_event_spec 4 ltac:(lia) _ _ (Event INPUT_EV_KEY 3 1 0) Q2) as Q3.
    exact (push_event_spec 4 ltac:(lia) _ _ (Event INPUT_EV_KEY 4 1 0) Q3). }
  destruct (event_queue_fifo 4 demo_queue _ (Event INPUT_EV_KEY 5 1 0) 40 ltac:(lia) Hq ltac:(lia)) as [_ Hr].
  eapply returns_mono; [exact Hr|]. intros [out q'] (_ & Hl & _). exact Hl.
Defined.
