(* ===== verification/Interrupts.v ===== *)
(** Interrupts: the gates of [arch/x86_64/idt/idt.c], the exception and IRQ
    tables of [exceptions/isr.c] and [exceptions/irq.c], and the set-up of the
    system call entry in [user/syscall.c]. *)
From S2P Require Import Prelude.

(** Port input and output.  The devices behind the ports are not part of the
    source: [W] is their state. *)
Class Ports (W : Type) := {
  inb : Z → W → Z * W;
  outb : Z → Z → W → W;
  io_wait : W → W;
}.

(** Where the assembly stubs were linked. *)
Class Stubs := {
  isr_stub : Z → Z;
  irq_stub : Z → Z;
  isr128 : Z;
  syscall_entry : Z;
}.

(** ** Gates *)

Definition IDT_ENTRIES : Z := 256.
Definition IDT_FLAG_PRESENT : Z := 0x80.
Definition IDT_FLAG_RING0 : Z := 0x00.
Definition IDT_FLAG_RING3 : Z := 0x60.
Definition IDT_FLAG_GATE_INT : Z := 0x0E.

(** [idt_entry_t] *)
Record idt_entry := IdtEntry {
  offset_low : Z;
  selector : Z;
  ist : Z;
  idt_flags : Z;
  offset_mid : Z;
  offset_high : Z;
  reserved : Z;
}.
Definition zero_gate : idt_entry := IdtEntry 0 0 0 0 0 0 0.

Definition idt_set_gate (idt : list idt_entry) (num handler flags : Z) : list idt_entry :=
  updateZ idt num
    (IdtEntry (Z.land handler 0xFFFF) 0x08 0 flags (Z.land (Z.shiftr handler 16) 0xFFFF)
       (Z.land (Z.shiftr handler 32) 0xFFFFFFFF) 0).

(** The flags of the gates of the kernel and of vector 128. *)
Definition KERNEL_GATE : Z := Z.lor (Z.lor IDT_FLAG_PRESENT IDT_FLAG_RING0) IDT_FLAG_GATE_INT.
Definition USER_GATE : Z := Z.lor (Z.lor IDT_FLAG_PRESENT IDT_FLAG_RING3) IDT_FLAG_GATE_INT.

(** ** The interrupt controllers *)

Definition PIC1_COMMAND : Z := 0x20.
Definition PIC1_DATA : Z := 0x21.
Definition PIC2_COMMAND : Z := 0xA0.
Definition PIC2_DATA : Z := 0xA1.
Definition PIC_EOI : Z := 0x20.

(** Model-specific registers, as the list of what is written. *)
Definition MSR_EFER : Z := 0xC0000080.
Definition MSR_STAR : Z := 0xC0000081.
Definition MSR_LSTAR : Z := 0xC0000082.
Definition MSR_SFMASK : Z := 0xC0000084.
Definition EFER_SCE : Z := 1.
Definition KERNEL_CODE_SELECTOR : Z := 0x08.
Definition USER_DATA_SELECTOR : Z := 0x18.

Section interrupts.
Context {W : Type} `{Ports W} `{Stubs}.
(** What the handler tables hold: the identity of a handler. *)
Context {F : Type}.

(** One [outb] followed by [io_wait]. *)
Definition out (port v : Z) (w : W) : W := io_wait (outb port v w).

Definition pic_remap (w : W) : W :=
  let w := out PIC1_COMMAND 0x11 w in
  let w := out PIC2_COMMAND 0x11 w in
  let w := out PIC1_DATA 0x20 w in
  let w := out PIC2_DATA 0x28 w in
  let w := out PIC1_DATA 0x04 w in
  let w := out PIC2_DATA 0x02 w in
  let w := out PIC1_DATA 0x01 w in
  let w := out PIC2_DATA 0x01 w in
  let w := out PIC1_DATA 0xFF w in
  out PIC2_DATA 0xFF w.

(** [irq_set_mask]; [enable = true] sets the mask bit. *)
Definition irq_set_mask (irq : Z) (enable : bool) (w : W) : W :=
  let w :=
    if (8 <=? irq) && negb enable then
      let '(master_mask, w) := inb PIC1_DATA w in
      out PIC1_DATA (Z.land master_mask (u8 (not64 (Z.shiftl 1 2)))) w
    else w in
  let '(port, irq) := if irq <? 8 then (PIC1_DATA, irq) else (PIC2_DATA, irq - 8) in
  let '(v, w) := inb port w in
  let value := if enable then u8 (Z.lor v (Z.shiftl 1 irq)) else u8 (Z.land v (not64 (Z.shiftl 1 irq))) in
  out port value w.

Definition irq_ack (irq : Z) (w : W) : W :=
  let w := if 8 <=? irq then outb PIC2_COMMAND PIC_EOI w else w in
  outb PIC1_COMMAND PIC_EOI w.

(** The tables. *)
Record intr := Intr {
  idt : list idt_entry;
  isr_handlers : list (option F);
  irq_handlers : list (option F);
  irq_initialized : bool;
}.
Definition with_idt (s : intr) (t : list idt_entry) : intr :=
  Intr t (isr_handlers s) (irq_handlers s) (irq_initialized s).

Definition isr_install (s : intr) : intr :=
  Intr (foldl (λ t i, idt_set_gate t i (isr_stub i) KERNEL_GATE) (idt s) (seqZ 0 32))
    (replicate 32 None) (irq_handlers s) (irq_initialized s).
Definition isr_register_handler (s : intr) (num : Z) (handler : F) : intr :=
  if num <? 32 then Intr (idt s) (updateZ (isr_handlers s) num (Some handler)) (irq_handlers s)
                      (irq_initialized s) else s.
Definition isr_unregister_handler (s : intr) (num : Z) : intr :=
  if num <? 32 then Intr (idt s) (updateZ (isr_handlers s) num None) (irq_handlers s)
                      (irq_initialized s) else s.
(** The handler [isr_handler] calls; with none it panics. *)
Definition isr_handler (s : intr) (int_no : Z) : res F :=
  if int_no <? 32 then
    match lookupZ (isr_handlers s) int_no with Some (Some f) => Ret f | _ => Panic end
  else Panic.

Definition irq_register_handler (s : intr) (irq : Z) (handler : F) (w : W) : intr * W :=
  if irq <? 16 then
    (Intr (idt s) (isr_handlers s) (updateZ (irq_handlers s) irq (Some handler)) (irq_initialized s),
     irq_set_mask irq false w)
  else (s, w).
Definition irq_unregister_handler (s : intr) (irq : Z) (w : W) : intr * W :=
  if irq <? 16 then
    (Intr (idt s) (isr_handlers s) (updateZ (irq_handlers s) irq None) (irq_initialized s),
     irq_set_mask irq true w)
  else (s, w).
Definition irq_install (s : intr) (w : W) : intr * W :=
  let w := pic_remap w in
  let t := foldl (λ t i, idt_set_gate t (32 + i) (irq_stub i) KERNEL_GATE) (idt s) (seqZ 0 16) in
  let w := irq_set_mask 0 false w in
  let w := irq_set_mask 1 false w in
  (Intr t (isr_handlers s) (replicate 16 None) true, w).
(** [irq_handler]: the handler it calls, if any, after the acknowledgement. *)
Definition irq_handler (s : intr) (int_no : Z) (w : W) : option F * W :=
  if negb (irq_initialized s) then (None, w) else
  let irq := u8 (int_no - 32) in
  let w := irq_ack irq w in
  (if irq <? 16 then match lookupZ (irq_handlers s) irq with Some f => f | None => None end else None, w).

(** The MSR writes of [syscall_enable], given the old value of [EFER]. *)
Definition syscall_enable (efer : Z) : list (Z * Z) :=
  let user_sysret_base := Z.lor (USER_DATA_SELECTOR - 8) 3 in
  let star := Z.lor (u64 (Z.shiftl KERNEL_CODE_SELECTOR 32)) (u64 (Z.shiftl user_sysret_base 48)) in
  [(MSR_EFER, Z.lor efer EFER_SCE); (MSR_STAR, star); (MSR_LSTAR, syscall_entry);
   (MSR_SFMASK, Z.shiftl 1 9)].
Definition syscall_install (s : intr) (efer : Z) : intr * list (Z * Z) :=
  (with_idt s (idt_set_gate (idt s) 128 isr128 USER_GATE), syscall_enable efer).

Definition idt_init (s : intr) (efer : Z) (w : W) : intr * list (Z * Z) * W :=
  let s := with_idt s (replicate (Z.to_nat IDT_ENTRIES) zero_gate) in
  let s := isr_install s in
  let '(s, w) := irq_install s w in
  let '(s, msrs) := syscall_install s efer in
  (s, msrs, w).

(** ** Where the gates lead *)

(** The address a gate sends control to. *)
Definition gate_target (e : idt_entry) : Z :=
  offset_low e + Z.shiftl (offset_mid e) 16 + Z.shiftl (offset_high e) 32.

Lemma split_address a :
  0 ≤ a < 2 ^ 64 →
  Z.land a 0xFFFF + Z.shiftl (Z.land (Z.shiftr a 16) 0xFFFF) 16 +
    Z.shiftl (Z.land (Z.shiftr a 32) 0xFFFFFFFF) 32 = a.
Proof.
  intros Ha. change 0xFFFF with (Z.ones 16). change 0xFFFFFFFF with (Z.ones 32).
  rewrite !Z.land_ones, !Z.shiftr_div_pow2, !Z.shiftl_mul_pow2 by lia. dlia.
Qed.

(** The gate [idt_set_gate] writes. *)
Definition gate (handler flags : Z) : idt_entry :=
  IdtEntry (Z.land handler 0xFFFF) 0x08 0 flags (Z.land (Z.shiftr handler 16) 0xFFFF)
    (Z.land (Z.shiftr handler 32) 0xFFFFFFFF) 0.

(** Filling a table of 256 entries. *)
Lemma fill_table (g g' : Z → idt_entry) (u : idt_entry) :
  updateZ (foldl (λ t i, updateZ t (32 + i) (g' i))
    (foldl (λ t i, updateZ t i (g i)) (replicate 256 zero_gate) (seqZ 0 32)) (seqZ 0 16)) 128 u =
  (g <$> seqZ 0 32) ++ (g' <$> seqZ 0 16) ++ replicate 80 zero_gate ++ [u] ++ replicate 127 zero_gate.
Proof. vm_compute. reflexivity. Qed.

Lemma table_entries (g g' : Z → idt_entry) (u : idt_entry) v :
  0 ≤ v < 256 →
  lookupZ ((g <$> seqZ 0 32) ++ (g' <$> seqZ 0 16) ++ replicate 80 zero_gate ++ [u] ++
           replicate 127 zero_gate) v =
    Some (if v <? 32 then g v else if v <? 48 then g' (v - 32) else if v =? 128 then u else zero_gate).
Proof.
  intros Hv. assert (Hall : List.map (λ v, lookupZ ((g <$> seqZ 0 32) ++ (g' <$> seqZ 0 16) ++
    replicate 80 zero_gate ++ [u] ++ replicate 127 zero_gate) v) (seqZ 0 256) =
    List.map (λ v, Some (if v <? 32 then g v else if v <? 48 then g' (v - 32) else
    if v =? 128 then u else zero_gate)) (seqZ 0 256)) by (vm_compute; reflexivity).
  apply (ext_in_map Hall). apply list_elem_of_In, elem_of_seqZ. lia.
Qed.

Lemma no_handler n i (x : option F) : lookupZ (replicate n (@None F)) i = Some x → x = None.
Proof. unfold lookupZ. case_match; [done|]. intros Hx. by apply lookup_replicate in Hx as [-> _]. Qed.

Lemma idt_init_table s efer w :
  idt (idt_init s efer w).1.1 =
    ((λ i, gate (isr_stub i) KERNEL_GATE) <$> seqZ 0 32) ++
    ((λ i, gate (irq_stub i) KERNEL_GATE) <$> seqZ 0 16) ++ replicate 80 zero_gate ++
    [gate isr128 USER_GATE] ++ replicate 127 zero_gate.
Proof. rewrite <- fill_table. reflexivity. Qed.

(** Every vector has its own gate.  After [idt_init] the gates of the 32
    exceptions and the 16 IRQ lines lead to their stubs and cannot be called from
    user mode, vector 128 leads to the system call stub and can, and every other
    gate is absent; no handler is registered. *)
Theorem idt_init_routes s efer w v :
  0 ≤ v < 256 → (∀ i, 0 ≤ isr_stub i < 2 ^ 64) → (∀ i, 0 ≤ irq_stub i < 2 ^ 64) → 0 ≤ isr128 < 2 ^ 64 →
  let s' := (idt_init s efer w).1.1 in
  ∃ e, lookupZ (idt s') v = Some e ∧
    (if v <? 32 then gate_target e = isr_stub v ∧ idt_flags e = 0x8E
     else if v <? 48 then gate_target e = irq_stub (v - 32) ∧ idt_flags e = 0x8E
     else if v =? 128 then gate_target e = isr128 ∧ idt_flags e = 0xEE
     else has (idt_flags e) IDT_FLAG_PRESENT = false) ∧
    isr_handler s' v = Panic ∧ (irq_handler s' v w).1 = None.
Proof.
  intros Hv Hi Hq Hs s'. unfold s'. rewrite idt_init_table, table_entries by done.
  eexists. split; [done|]. split.
  { unfold gate_target. repeat zcase; cbn [gate offset_low offset_mid offset_high idt_flags zero_gate];
      rewrite ?split_address by auto; done. }
  split.
  - unfold isr_handler. destruct (v <? 32); [|done].
    change (isr_handlers _) with (replicate 32 (@None F)).
    destruct (lookupZ _ v) as [x|] eqn:E; [|done]. by rewrite (no_handler _ _ _ E).
  - unfold irq_handler. change (irq_initialized _) with true. cbn [negb fst].
    change (irq_handlers _) with (replicate 16 (@None F)). destruct (_ <? 16); [|done].
    destruct (lookupZ _ (u8 (v - 32))) as [x|] eqn:E; [|done]. by rewrite (no_handler _ _ _ E).
Qed.

(** ** Masking *)

(** The data ports of the two controllers hold what was written to them: the
    mask registers. *)
Class PicLaws := {
  pic_masks : W → Z * Z;
  pic_range w : 0 ≤ (pic_masks w).1 < 2 ^ 8 ∧ 0 ≤ (pic_masks w).2 < 2 ^ 8;
  pic_in1 w : inb PIC1_DATA w = ((pic_masks w).1, w);
  pic_in2 w : inb PIC2_DATA w = ((pic_masks w).2, w);
  pic_out1 w v : pic_masks (outb PIC1_DATA v w) = (u8 v, (pic_masks w).2);
  pic_out2 w v : pic_masks (outb PIC2_DATA v w) = ((pic_masks w).1, u8 v);
  pic_wait w : pic_masks (io_wait w) = pic_masks w;
}.

(** Line [i] is masked. *)
Definition masked `{PicLaws} (w : W) (i : Z) : bool :=
  if i <? 8 then Z.testbit (pic_masks w).1 i else Z.testbit (pic_masks w).2 (i - 8).

Lemma u8_bit x i : 0 ≤ i < 8 → Z.testbit (u8 x) i = Z.testbit x i.
Proof. intros. unfold u8. by rewrite Z.mod_pow2_bits_low by lia. Qed.

Lemma bit_bit k i : 0 ≤ k → Z.testbit (Z.shiftl 1 k) i = (i =? k).
Proof.
  intros. rewrite Z.shiftl_1_l, Z.pow2_bits_eqb by done. apply Z.eqb_sym.
Qed.

(** Setting and clearing one bit of a mask. *)
Lemma set_bit m k i : 0 ≤ i < 8 → 0 ≤ k < 8 →
  Z.testbit (u8 (Z.lor m (Z.shiftl 1 k))) i = (if i =? k then true else Z.testbit m i).
Proof.
  intros. rewrite u8_bit, Z.lor_spec, bit_bit by lia. destruct (i =? k); [apply orb_true_r|apply orb_false_r].
Qed.
Lemma clear_bit m k i : 0 ≤ i < 8 → 0 ≤ k < 8 →
  Z.testbit (u8 (Z.land m (not64 (Z.shiftl 1 k)))) i = (if i =? k then false else Z.testbit m i).
Proof.
  intros. rewrite u8_bit, Z.land_spec, not64_bits, bit_bit; try lia.
  - destruct (i =? k); [apply andb_false_r|apply andb_true_r].
  - rewrite Z.shiftl_1_l. split; [lia|]. apply Z.pow_lt_mono_r; lia.
Qed.

Context `{PicLaws}.

Lemma masks_out1 v w : pic_masks (out PIC1_DATA v w) = (u8 v, (pic_masks w).2).
Proof. unfold out. by rewrite pic_wait, pic_out1. Qed.
Lemma masks_out2 v w : pic_masks (out PIC2_DATA v w) = ((pic_masks w).1, u8 v).
Proof. unfold out. by rewrite pic_wait, pic_out2. Qed.
Lemma u8_u8 x : u8 (u8 x) = u8 x.
Proof. apply u8_small, u8_range. Qed.

(** [irq_set_mask] changes the mask bit of its line and no other, except
    that enabling a line of the second controller also enables line 2 of the
    first, to which that controller is wired.  (A true [enable] masks the line.) *)
Theorem irq_set_mask_spec irq (enable : bool) w i :
  0 ≤ irq < 16 → 0 ≤ i < 16 →
  masked (irq_set_mask irq enable w) i =
    if i =? irq then enable
    else if (8 <=? irq) && negb enable && (i =? 2) then false
    else masked w i.
Proof.
  intros Hq Hi. unfold irq_set_mask.
  destruct (Z.ltb_spec irq 8), (Z.leb_spec 8 irq); try lia; cbn [andb].
  - rewrite pic_in1. destruct enable; unfold masked; rewrite masks_out1; cbn [fst snd]; rewrite u8_u8;
      (destruct (Z.ltb_spec i 8); [rewrite ?set_bit, ?clear_bit by lia; by destruct (i =? irq)|]);
      destruct (Z.eqb_spec i irq); done || lia.
  - destruct enable; cbn [negb andb].
    + rewrite pic_in2. unfold masked. rewrite masks_out2. cbn [fst snd]. rewrite u8_u8.
      destruct (Z.ltb_spec i 8); [destruct (Z.eqb_spec i irq); done || lia|].
      rewrite set_bit by lia. repeat zcase; done || lia.
    + rewrite pic_in1, pic_in2. unfold masked. rewrite masks_out2, masks_out1. cbn [fst snd]. rewrite !u8_u8.
      change (Z.land _ (u8 (not64 (Z.shiftl 1 2)))) with (Z.land (pic_masks w).1 251).
      destruct (Z.ltb_spec i 8).
      * rewrite u8_bit, Z.land_spec by lia. assert (Z.testbit 251 i = negb (i =? 2)) as ->.
        { assert (i = 0 ∨ i = 1 ∨ i = 2 ∨ i = 3 ∨ i = 4 ∨ i = 5 ∨ i = 6 ∨ i = 7)
            as [->|[->|[->|[->|[->|[->|[->| ->]]]]]]] by lia; done. }
        destruct (Z.eqb_spec i irq); [lia|]. destruct (i =? 2); [apply andb_false_r|apply andb_true_r].
      * rewrite clear_bit by lia. repeat zcase; try done; lia.
Qed.
End interrupts.

(** ** Two mask registers as the devices *)

Definition reg_masks (w : Z * Z) : Z * Z := (u8 w.1, u8 w.2).
#[local] Instance demo_ports : Ports (Z * Z) := {|
  inb p w := (if p =? PIC1_DATA then u8 w.1 else if p =? PIC2_DATA then u8 w.2 else 0, w);
  outb p v w := if p =? PIC1_DATA then (v, w.2) else if p =? PIC2_DATA then (w.1, v) else w;
  io_wait w := w;
|}.
#[local] Instance demo_stubs : Stubs := {|
  isr_stub i := 0xFFFFFFFF80001000 + (i mod 32) * 16;
  irq_stub i := 0xFFFFFFFF80002000 + (i mod 16) * 16;
  isr128 := 0xFFFFFFFF80003000;
  syscall_entry := 0xFFFFFFFF80004000;
|}.
#[local] Instance demo_pic : PicLaws (W := Z * Z).
Proof.
  refine {| pic_masks := reg_masks |}; try reflexivity.
  intros w. split; apply u8_range.
Defined.

Definition intr0 : @intr unit := Intr [] [] [] false.

Lemma idt_init_witness :
  ∃ e, lookupZ (idt (idt_init intr0 0 (0, 0)).1.1) 14 = Some e ∧
    gate_target e = 0xFFFFFFFF80001000 + 14 * 16.
Proof.
  destruct (idt_init_routes intr0 0 (0, 0) 14) as (e & He & [Ht _] & _).
  - lia.
  - intros i. cbn. dlia.
  - intros i. cbn. dlia.
  - done.
  - exists e. split; [exact He|exact Ht].
Defined.

(** Enabling line 12 with everything masked leaves lines 2 and 12 enabled. *)
Lemma irq_set_mask_witness :
  (masked (irq_set_mask 12 false (0xFF, 0xFF)) <$> [1; 2; 12; 13]) = [true; false; false; true].
Proof.
  cbn [fmap list_fmap].
  rewrite (irq_set_mask_spec 12 false (0xFF, 0xFF) 1), (irq_set_mask_spec 12 false (0xFF, 0xFF) 2),
    (irq_set_mask_spec 12 false (0xFF, 0xFF) 12), (irq_set_mask_spec 12 false (0xFF, 0xFF) 13) by lia.
  reflexivity.
Defined.
