(* ===== verification/Ps2.v ===== *)
(** The PS/2 drivers: [drivers/ps2/keyboard/keyboard.c] and
    [drivers/ps2/mouse/mouse.c], with the key codes of
    [devices/input/keycodes.h]. *)
From S2P Require Import Prelude Input Interrupts.

(** [keycode_t] *)
Definition KEY_NONE : Z := 0.
Definition KEY_ESC : Z := 1.
Definition KEY_1 : Z := 2.
Definition KEY_2 : Z := 3.
Definition KEY_3 : Z := 4.
Definition KEY_4 : Z := 5.
Definition KEY_5 : Z := 6.
Definition KEY_6 : Z := 7.
Definition KEY_7 : Z := 8.
Definition KEY_8 : Z := 9.
Definition KEY_9 : Z := 10.
Definition KEY_0 : Z := 11.
Definition KEY_MINUS : Z := 12.
Definition KEY_EQUAL : Z := 13.
Definition KEY_BACKSPACE : Z := 14.
Definition KEY_TAB : Z := 15.
Definition KEY_Q : Z := 16.
Definition KEY_W : Z := 17.
Definition KEY_E : Z := 18.
Definition KEY_R : Z := 19.
Definition KEY_T : Z := 20.
Definition KEY_Y : Z := 21.
Definition KEY_U : Z := 22.
Definition KEY_I : Z := 23.
Definition KEY_O : Z := 24.
Definition KEY_P : Z := 25.
Definition KEY_LBRACKET : Z := 26.
Definition KEY_RBRACKET : Z := 27.
Definition KEY_ENTER : Z := 28.
Definition KEY_LCTRL : Z := 29.
Definition KEY_A : Z := 30.
Definition KEY_S : Z := 31.
Definition KEY_D : Z := 32.
Definition KEY_F : Z := 33.
Definition KEY_G : Z := 34.
Definition KEY_H : Z := 35.
Definition KEY_J : Z := 36.
Definition KEY_K : Z := 37.
Definition KEY_L : Z := 38.
Definition KEY_SEMICOLON : Z := 39.
Definition KEY_APOSTROPHE : Z := 40.
Definition KEY_GRAVE : Z := 41.
Definition KEY_LSHIFT : Z := 42.
Definition KEY_BACKSLASH : Z := 43.
Definition KEY_Z : Z := 44.
Definition KEY_X : Z := 45.
Definition KEY_C : Z := 46.
Definition KEY_V : Z := 47.
Definition KEY_B : Z := 48.
Definition KEY_N : Z := 49.
Definition KEY_M : Z := 50.
Definition KEY_COMMA : Z := 51.
Definition KEY_DOT : Z := 52.
Definition KEY_SLASH : Z := 53.
Definition KEY_RSHIFT : Z := 54.
Definition KEY_KP_ASTERISK : Z := 55.
Definition KEY_LALT : Z := 56.
Definition KEY_SPACE : Z := 57.
Definition KEY_CAPSLOCK : Z := 58.
Definition KEY_DELETE : Z := 59.
Definition KEY_UP : Z := 60.
Definition KEY_DOWN : Z := 61.
Definition KEY_LEFT : Z := 62.
Definition KEY_RIGHT : Z := 63.
Definition KEY_HOME : Z := 64.
Definition KEY_END : Z := 65.
Definition KEY_PAGEUP : Z := 66.
Definition KEY_PAGEDOWN : Z := 67.
Definition KEY_INSERT : Z := 68.
Definition KEY_RCTRL : Z := 69.
Definition KEY_RALT : Z := 70.
Definition KEY_KP_ENTER : Z := 71.
Definition KEY_KP_SLASH : Z := 72.
Definition KEY_F1 : Z := 73.
Definition KEY_F2 : Z := 74.
Definition KEY_F3 : Z := 75.
Definition KEY_F4 : Z := 76.
Definition KEY_F5 : Z := 77.
Definition KEY_F6 : Z := 78.
Definition KEY_F7 : Z := 79.
Definition KEY_F8 : Z := 80.
Definition KEY_F9 : Z := 81.
Definition KEY_F10 : Z := 82.
Definition KEY_F11 : Z := 83.
Definition KEY_F12 : Z := 84.

Definition PS2_DATA : Z := 0x60.
Definition PS2_STATUS : Z := 0x64.
Definition PS2_COMMAND : Z := 0x64.
Definition SC_LSHIFT : Z := 0x2A.
Definition SC_RSHIFT : Z := 0x36.
Definition SC_CAPS : Z := 0x3A.
Definition SC_LCTRL : Z := 0x1D.
Definition SC_LALT : Z := 0x38.
Definition SC_RELEASE : Z := 0x80.
Definition SC_EXTENDED : Z := 0xE0.

(** The table of scan codes, from 0 on. *)
Definition sc_to_key : list Z :=
  [KEY_NONE; KEY_ESC; KEY_1; KEY_2; KEY_3; KEY_4; KEY_5; KEY_6; KEY_7; KEY_8; KEY_9; KEY_0;
   KEY_MINUS; KEY_EQUAL; KEY_BACKSPACE; KEY_TAB; KEY_Q; KEY_W; KEY_E; KEY_R; KEY_T; KEY_Y;
   KEY_U; KEY_I; KEY_O; KEY_P; KEY_LBRACKET; KEY_RBRACKET; KEY_ENTER; KEY_LCTRL; KEY_A; KEY_S;
   KEY_D; KEY_F; KEY_G; KEY_H; KEY_J; KEY_K; KEY_L; KEY_SEMICOLON; KEY_APOSTROPHE; KEY_GRAVE;
   KEY_LSHIFT; KEY_BACKSLASH; KEY_Z; KEY_X; KEY_C; KEY_V; KEY_B; KEY_N; KEY_M; KEY_COMMA;
   KEY_DOT; KEY_SLASH; KEY_RSHIFT; KEY_KP_ASTERISK; KEY_LALT; KEY_SPACE; KEY_CAPSLOCK; KEY_F1;
   KEY_F2; KEY_F3; KEY_F4; KEY_F5; KEY_F6; KEY_F7; KEY_F8; KEY_F9; KEY_F10; KEY_NONE;
   KEY_NONE; KEY_NONE; KEY_NONE; KEY_NONE; KEY_NONE; KEY_NONE; KEY_NONE; KEY_NONE; KEY_NONE;
   KEY_NONE; KEY_NONE; KEY_NONE; KEY_NONE; KEY_NONE; KEY_NONE; KEY_NONE; KEY_NONE; KEY_F11;
   KEY_F12] ++ replicate 39 KEY_NONE.

Definition extended_to_key (make : Z) : Z :=
  if make =? 0x1C then KEY_KP_ENTER else
  if make =? 0x1D then KEY_RCTRL else
  if make =? 0x35 then KEY_KP_SLASH else
  if make =? 0x38 then KEY_RALT else
  if make =? 0x47 then KEY_HOME else
  if make =? 0x48 then KEY_UP else
  if make =? 0x49 then KEY_PAGEUP else
  if make =? 0x4B then KEY_LEFT else
  if make =? 0x4D then KEY_RIGHT else
  if make =? 0x4F then KEY_END else
  if make =? 0x50 then KEY_DOWN else
  if make =? 0x51 then KEY_PAGEDOWN else
  if make =? 0x52 then KEY_INSERT else
  if make =? 0x53 then KEY_DELETE else
  KEY_NONE.

(** The driver's variables. *)
Record keyboard := Keyboard {
  shift_held : bool;
  ctrl_held : bool;
  alt_held : bool;
  caps_lock : bool;
  extended_key : bool;
}.
Definition keyboard_reset : keyboard := Keyboard false false false false false.
Definition set_shift (k : keyboard) b := Keyboard b (ctrl_held k) (alt_held k) (caps_lock k) (extended_key k).
Definition set_ctrl (k : keyboard) b := Keyboard (shift_held k) b (alt_held k) (caps_lock k) (extended_key k).
Definition set_alt (k : keyboard) b := Keyboard (shift_held k) (ctrl_held k) b (caps_lock k) (extended_key k).
Definition set_caps (k : keyboard) b := Keyboard (shift_held k) (ctrl_held k) (alt_held k) b (extended_key k).
Definition set_extended (k : keyboard) b := Keyboard (shift_held k) (ctrl_held k) (alt_held k) (caps_lock k) b.

Definition build_modifiers (k : keyboard) : Z :=
  let mods := 0 in
  let mods := if shift_held k then Z.lor mods INPUT_MOD_SHIFT else mods in
  let mods := if ctrl_held k then Z.lor mods INPUT_MOD_CTRL else mods in
  let mods := if alt_held k then Z.lor mods INPUT_MOD_ALT else mods in
  if caps_lock k then Z.lor mods INPUT_MOD_CAPS else mods.

(** [keyboard_irq_handler] once it has the byte [sc]. *)
Definition keyboard_byte (ki : keyboard * input) (sc : Z) : keyboard * input :=
  let '(k, i) := ki in
  if sc =? SC_EXTENDED then (set_extended k true, i) else
  let pressed := negb (has sc SC_RELEASE) in
  let make := Z.land sc (u8 (not64 SC_RELEASE)) in
  if extended_key k then
    let k := set_extended k false in
    let code := extended_to_key make in
    let k := if code =? KEY_RCTRL then set_ctrl k pressed else k in
    let k := if code =? KEY_RALT then set_alt k pressed else k in
    (k, if negb (code =? KEY_NONE) then input_report_key i code pressed (build_modifiers k) else i)
  else
  let k :=
    if (make =? SC_LSHIFT) || (make =? SC_RSHIFT) then set_shift k pressed
    else if make =? SC_LCTRL then set_ctrl k pressed
    else if make =? SC_LALT then set_alt k pressed
    else if (make =? SC_CAPS) && pressed then set_caps k (negb (caps_lock k))
    else k in
  if 128 <=? make then (k, i) else
  let code := default KEY_NONE (lookupZ sc_to_key make) in
  if code =? KEY_NONE then (k, i) else
  (k, input_report_key i code pressed (build_modifiers k)).

(** ** The mouse *)

Record mouse := Mouse {
  packet : list Z;
  packet_index : Z;
  buttons : Z;
}.
Definition PS2_TIMEOUT : Z := 200000.

Definition report_button (buttons : Z) (i : input) (changed bit code : Z) : input :=
  if has changed bit then input_report_key i code (has buttons bit) 0 else i.

(** [mouse_irq_handler] once it has the byte [data]. *)
Definition mouse_byte (mi : mouse * input) (data : Z) : res (mouse * input) :=
  let '(m, i) := mi in
  if (packet_index m =? 0) && negb (has data 0x08) then Ret (m, i) else
  let pk := updateZ (packet m) (packet_index m) data in
  let index := u8 (packet_index m + 1) in
  if negb (index =? 3) then Ret (Mouse pk index (buttons m), i) else
  b0 ← deref (lookupZ pk 0);
  b1 ← deref (lookupZ pk 1);
  b2 ← deref (lookupZ pk 2);
  if has b0 0xC0 then Ret (Mouse pk 0 (buttons m), i) else
  let dx := i8 b1 in
  let dy := - i8 b2 in
  let i := if dx =? 0 then i else input_report_rel i INPUT_REL_X dx in
  let i := if dy =? 0 then i else input_report_rel i INPUT_REL_Y dy in
  let new := Z.land b0 0x07 in
  let changed := Z.lxor (buttons m) new in
  let i := report_button new i changed 0x01 INPUT_BTN_LEFT in
  let i := report_button new i changed 0x02 INPUT_BTN_RIGHT in
  let i := report_button new i changed 0x04 INPUT_BTN_MIDDLE in
  Ret (Mouse pk 0 new, i).

(** ** The handlers and the set-up, at the ports *)

(** The handlers the kernel registers. *)
Inductive irq_driver := timer_handler | keyboard_irq_handler_id | mouse_irq_handler_id.

Section ports.
Context {W : Type} `{Ports W} `{Stubs}.
Implicit Types (w : W).

Definition keyboard_irq_handler (ki : keyboard * input) w : keyboard * input * W :=
  let '(st, w) := inb PS2_STATUS w in
  if negb (has st 1) then (ki, w) else
  let '(sc, w) := inb PS2_DATA w in
  (keyboard_byte ki sc, w).

(** [while (inb(PS2_STATUS) & 1) inb(PS2_DATA)]: as often as the device has a
    byte, so the number of rounds is the device's choice. *)
Fixpoint drain_keyboard (fuel : nat) w : res W :=
  match fuel with
  | O => NoFuel
  | S fuel =>
      let '(st, w) := inb PS2_STATUS w in
      if has st 1 then let '(_, w) := inb PS2_DATA w in drain_keyboard fuel w else Ret w
  end.
Definition keyboard_init (fuel : nat) (s : @intr irq_driver) w : res (keyboard * intr * W) :=
  w ← drain_keyboard fuel w;
  let '(s, w) := irq_register_handler s 1 keyboard_irq_handler_id w in
  Ret (keyboard_reset, s, w).
Definition keyboard_fini (s : @intr irq_driver) w : intr * W := irq_unregister_handler s 1 w.

Definition mouse_irq_handler (mi : mouse * input) w : res (mouse * input * W) :=
  let '(status, w) := inb PS2_STATUS w in
  if negb (has status 0x01) || negb (has status 0x20) then Ret (mi, w) else
  let '(data, w) := inb PS2_DATA w in
  mi ← mouse_byte mi data; Ret (mi, w).

(** The polling loops; each gives up after [n] rounds. *)
Fixpoint wait_input_loop (n : nat) w : bool * W :=
  match n with
  | O => (false, w)
  | S n =>
      let '(st, w) := inb PS2_STATUS w in
      if negb (has st 0x02) then (true, w) else wait_input_loop n (io_wait w)
  end.
Definition wait_input_clear w : bool * W := wait_input_loop (Z.to_nat PS2_TIMEOUT) w.

Definition controller_command (value : Z) w : bool * W :=
  let '(ok, w) := wait_input_clear w in
  if negb ok then (false, w) else (true, io_wait (outb PS2_COMMAND value w)).

Fixpoint drain_output_loop (n : nat) w : W :=
  match n with
  | O => w
  | S n =>
      let '(st, w) := inb PS2_STATUS w in
      if has st 0x01 then let '(_, w) := inb PS2_DATA w in drain_output_loop n (io_wait w) else w
  end.
Definition drain_output w : W := drain_output_loop 256 w.

Fixpoint read_byte_loop (n : nat) w : option Z * W :=
  match n with
  | O => (None, w)
  | S n =>
      let '(st, w) := inb PS2_STATUS w in
      if has st 0x01 then let '(v, w) := inb PS2_DATA w in (Some v, w)
      else read_byte_loop n (io_wait w)
  end.
Definition read_controller_byte w : option Z * W := read_byte_loop (Z.to_nat PS2_TIMEOUT) w.

Definition write_controller_config (config : Z) w : bool * W :=
  let '(ok, w) := controller_command 0x60 w in
  if negb ok then (false, w) else
  let '(ok, w) := wait_input_clear w in
  if negb ok then (false, w) else (true, io_wait (outb PS2_DATA config w)).

Fixpoint mouse_reply_loop (n : nat) w : option Z * W :=
  match n with
  | O => (None, w)
  | S n =>
      let '(status, w) := inb PS2_STATUS w in
      if has status 0x01 then
        let '(data, w) := inb PS2_DATA w in
        if has status 0x20 then (Some data, w) else mouse_reply_loop n (io_wait w)
      else mouse_reply_loop n (io_wait w)
  end.
Definition read_mouse_reply w : option Z * W := mouse_reply_loop (Z.to_nat PS2_TIMEOUT) w.

(** [n] attempts are left. *)
Fixpoint write_mouse_loop (n : nat) (value : Z) w : bool * W :=
  match n with
  | O => (false, w)
  | S n =>
      let '(ok, w) := controller_command 0xD4 w in
      if negb ok then (false, w) else
      let '(ok, w) := wait_input_clear w in
      if negb ok then (false, w) else
      let w := io_wait (outb PS2_DATA value w) in
      let '(reply, w) := read_mouse_reply w in
      match reply with
      | None => (false, w)
      | Some r => if r =? 0xFA then (true, w) else if negb (r =? 0xFE) then (false, w)
                  else write_mouse_loop n value w
      end
  end.
Definition write_mouse (value : Z) w : bool * W := write_mouse_loop 3 value w.

Definition both (a b : W → bool * W) w : bool * W :=
  let '(ok, w) := a w in if negb ok then (false, w) else b w.

(** The status, the driver's variables, the handler table and the devices. *)
Definition ps2_mouse_init (m : mouse) (s : @intr irq_driver) w : Z * mouse * intr * W :=
  let m := Mouse (packet m) 0 0 in
  let '(ok, w) := both (controller_command 0xAD) (controller_command 0xA7) w in
  if negb ok then (-1, m, s, w) else
  let w := drain_output w in
  let '(ok, w) := controller_command 0x20 w in
  if negb ok then (-2, m, s, w) else
  let '(c, w) := read_controller_byte w in
  match c with
  | None => (-2, m, s, w)
  | Some config =>
      let config := Z.land config (u8 (not64 0x03)) in
      let '(ok, w) := write_controller_config config w in
      if negb ok then (-3, m, s, w) else
      let '(ok, w) := controller_command 0xA8 w in
      if negb ok then (-4, m, s, w) else
      let '(ok, w) := write_mouse 0xF6 w in
      if negb ok then (-5, m, s, (controller_command 0xAE w).2) else
      let '(ok, w) := write_mouse 0xF4 w in
      if negb ok then (-6, m, s, (controller_command 0xAE w).2) else
      let '(s, w) := irq_register_handler s 12 mouse_irq_handler_id w in
      let config := Z.land (Z.lor config 0x03) (u8 (not64 0x30)) in
      let '(ok, w) := write_controller_config config w in
      if negb ok then (-7, m, s, w) else
      let '(ok, w) := both (controller_command 0xAE) (controller_command 0xA8) w in
      if negb ok then (-8, m, s, w) else (0, m, s, w)
  end.
Definition ps2_mouse_fini (s : @intr irq_driver) w : intr * W :=
  let '(_, w) := write_mouse 0xF5 w in irq_unregister_handler s 12 w.
End ports.

(** ** What a stream of scan codes means *)

(** A key going down or up, and the bytes the keyboard sends for it. *)
Record key_action := KeyAction { a_extended : bool; a_make : Z; a_pressed : bool }.
Definition key_bytes (a : key_action) : list Z :=
  (if a_extended a then [SC_EXTENDED] else []) ++
  [a_make a + (if a_pressed a then 0 else SC_RELEASE)].
(** 0x60 would make the release of a key look like the prefix. *)
Definition key_ok (a : key_action) : Prop := 0 ≤ a_make a < 128 ∧ a_make a ≠ 0x60.

Definition key_code (a : key_action) : Z :=
  if a_extended a then extended_to_key (a_make a) else default KEY_NONE (lookupZ sc_to_key (a_make a)).

(** Whether the last action on a key of [p] was a press. *)
Definition held_after (p : key_action → bool) (hs : list key_action) : bool :=
  foldl (λ b a, if p a then a_pressed a else b) false hs.
(** Whether [p] was pressed an odd number of times. *)
Definition toggled (p : key_action → bool) (hs : list key_action) : bool :=
  foldl (λ b a, if p a && a_pressed a then negb b else b) false hs.

Definition is_key (ext : bool) (make : Z) (a : key_action) : bool :=
  eqb (a_extended a) ext && (a_make a =? make).
Definition is_shift (a : key_action) : bool := is_key false SC_LSHIFT a || is_key false SC_RSHIFT a.
Definition is_ctrl (a : key_action) : bool := is_key false SC_LCTRL a || is_key true SC_LCTRL a.
Definition is_alt (a : key_action) : bool := is_key false SC_LALT a || is_key true SC_LALT a.
Definition is_caps (a : key_action) : bool := is_key false SC_CAPS a.

(** The modifiers after a history. *)
Definition modifiers (hs : list key_action) : Z :=
  Z.lor (if held_after is_shift hs then 1 else 0) (Z.lor (if held_after is_ctrl hs then 2 else 0)
    (Z.lor (if held_after is_alt hs then 4 else 0) (if toggled is_caps hs then 8 else 0))).

(** The events for [hs] after the history [pre]: one for each known key. *)
Fixpoint key_events (pre hs : list key_action) : list input_event :=
  match hs with
  | [] => []
  | a :: hs =>
      (if key_code a =? KEY_NONE then []
       else [Event INPUT_EV_KEY (key_code a) (if a_pressed a then 1 else 0) (modifiers (pre ++ [a]))]) ++
      key_events (pre ++ [a]) hs
  end.

(** The driver's state after a history. *)
Definition keyboard_after (hs : list key_action) : keyboard :=
  Keyboard (held_after is_shift hs) (held_after is_ctrl hs) (held_after is_alt hs)
    (toggled is_caps hs) false.

Lemma keyboard_after_modifiers hs : build_modifiers (keyboard_after hs) = modifiers hs.
Proof.
  unfold build_modifiers, modifiers, keyboard_after. cbn.
  by destruct (held_after is_shift hs), (held_after is_ctrl hs), (held_after is_alt hs), (toggled is_caps hs).
Qed.

(** The bits of a scan code. *)
Lemma scan_bits m : 0 ≤ m < 128 →
  has m 0x80 = false ∧ has (m + 0x80) 0x80 = true ∧ Z.land m 0x7F = m ∧ Z.land (m + 0x80) 0x7F = m.
Proof.
  intros Hm. assert (Hall : forallb (λ m, negb (has m 0x80) && has (m + 0x80) 0x80 &&
    (Z.land m 0x7F =? m) && (Z.land (m + 0x80) 0x7F =? m)) (seqZ 0 128) = true) by (vm_compute; reflexivity).
  rewrite forallb_forall in Hall. specialize (Hall m).
  assert (Hi : In m (seqZ 0 128)) by (apply list_elem_of_In, elem_of_seqZ; lia).
  specialize (Hall Hi). zbool. done.
Qed.

Lemma scan_code a : key_ok a →
  let sc := a_make a + (if a_pressed a then 0 else SC_RELEASE) in
  (sc =? SC_EXTENDED) = false ∧ negb (has sc SC_RELEASE) = a_pressed a ∧
  Z.land sc (u8 (not64 SC_RELEASE)) = a_make a.
Proof.
  intros [Hm Hn] sc. destruct (scan_bits _ Hm) as (B1 & B2 & B3 & B4). unfold sc, SC_RELEASE, SC_EXTENDED.
  change (u8 (not64 0x80)) with 0x7F. destruct (a_pressed a); rewrite ?Z.add_0_r.
  - rewrite B1, B3. split_and!; try done. apply Z.eqb_neq. lia.
  - rewrite B2, B4. split_and!; try done. apply Z.eqb_neq. lia.
Qed.

Lemma held_snoc p hs a : held_after p (hs ++ [a]) = if p a then a_pressed a else held_after p hs.
Proof. unfold held_after. by rewrite foldl_app. Qed.
Lemma toggled_snoc p hs a :
  toggled p (hs ++ [a]) = if p a && a_pressed a then negb (toggled p hs) else toggled p hs.
Proof. unfold toggled. by rewrite foldl_app. Qed.

(** What is reported for one action. *)
Definition key_report (pre : list key_action) (a : key_action) : list input_event :=
  if key_code a =? KEY_NONE then []
  else [Event INPUT_EV_KEY (key_code a) (if a_pressed a then 1 else 0) (modifiers (pre ++ [a]))].

Lemma key_plain_step hs i a : key_ok a → a_extended a = false →
  keyboard_byte (keyboard_after hs, i) (a_make a + (if a_pressed a then 0 else SC_RELEASE)) =
    (keyboard_after (hs ++ [a]), foldl input_dispatch i (key_report hs a)).
Proof.
  intros Hok He. destruct (scan_code a Hok) as (E1 & E2 & E3). unfold keyboard_byte. rewrite E1, E2, E3.
  cbn [extended_key keyboard_after].
  assert (Ek : keyboard_after (hs ++ [a]) =
    if (a_make a =? SC_LSHIFT) || (a_make a =? SC_RSHIFT) then set_shift (keyboard_after hs) (a_pressed a)
    else if a_make a =? SC_LCTRL then set_ctrl (keyboard_after hs) (a_pressed a)
    else if a_make a =? SC_LALT then set_alt (keyboard_after hs) (a_pressed a)
    else if (a_make a =? SC_CAPS) && a_pressed a
         then set_caps (keyboard_after hs) (negb (caps_lock (keyboard_after hs)))
    else keyboard_after hs).
  { unfold keyboard_after at 1. rewrite !held_snoc, toggled_snoc.
    unfold is_shift, is_ctrl, is_alt, is_caps, is_key. rewrite He. cbn [eqb andb orb].
    unfold SC_LSHIFT, SC_RSHIFT, SC_LCTRL, SC_LALT, SC_CAPS.
    repeat (zcase; [match goal with H : a_make a = _ |- _ => rewrite ?H end; by destruct (a_pressed a)|]).
    done. }
  rewrite <- Ek. destruct Hok as [Hm _]. destruct (Z.leb_spec 128 (a_make a)); [lia|].
  unfold key_report, key_code. rewrite He. destruct (_ =? KEY_NONE); [done|].
  rewrite keyboard_after_modifiers. done.
Qed.

(** The two extended keys that are modifiers. *)
Lemma extended_modifiers m :
  (extended_to_key m =? KEY_RCTRL) = (m =? SC_LCTRL) ∧ (extended_to_key m =? KEY_RALT) = (m =? SC_LALT).
Proof.
  unfold extended_to_key, SC_LCTRL, SC_LALT.
  repeat match goal with |- context [m =? ?c] => destruct (Z.eqb_spec m c); [by subst|] end. done.
Qed.

Lemma key_extended_step hs i a : key_ok a → a_extended a = true →
  keyboard_byte (set_extended (keyboard_after hs) true, i)
    (a_make a + (if a_pressed a then 0 else SC_RELEASE)) =
    (keyboard_after (hs ++ [a]), foldl input_dispatch i (key_report hs a)).
Proof.
  intros Hok He. destruct (scan_code a Hok) as (E1 & E2 & E3). unfold keyboard_byte. rewrite E1, E2, E3.
  cbn [extended_key set_extended].
  set (k := keyboard_after hs). assert (Ek : keyboard_after (hs ++ [a]) =
    let k := if extended_to_key (a_make a) =? KEY_RCTRL then set_ctrl k (a_pressed a) else k in
    if extended_to_key (a_make a) =? KEY_RALT then set_alt k (a_pressed a) else k).
  { unfold keyboard_after at 1. rewrite !held_snoc, toggled_snoc.
    unfold is_shift, is_ctrl, is_alt, is_caps, is_key. rewrite He. cbn [eqb andb orb].
    destruct (extended_modifiers (a_make a)) as [-> ->].
    destruct (Z.eqb_spec (a_make a) SC_LCTRL) as [->|]; [done|]. by destruct (a_make a =? SC_LALT). }
  unfold key_report, key_code. rewrite He, <- keyboard_after_modifiers, Ek.
  change (set_extended (set_extended k true) false) with k.
  by destruct (extended_to_key (a_make a) =? KEY_NONE).
Qed.

Lemma key_step hs i a : key_ok a →
  foldl keyboard_byte (keyboard_after hs, i) (key_bytes a) =
    (keyboard_after (hs ++ [a]), foldl input_dispatch i (key_report hs a)).
Proof.
  intros Hok. unfold key_bytes. destruct (a_extended a) eqn:He; cbn [app foldl].
  - change (keyboard_byte (keyboard_after hs, i) SC_EXTENDED)
      with (set_extended (keyboard_after hs) true, i). by apply key_extended_step.
  - by apply key_plain_step.
Qed.

(** C27. The keyboard driver decodes its byte stream.  After the bytes of any
    sequence of key presses and releases, plain and extended, the driver has
    reported exactly one event per known key, in order, with the modifiers that
    the history implies: shift, control and alt are held when the last action on
    one of their keys was a press, caps lock when its key was pressed an odd
    number of times; and it waits for a new code. *)
Theorem keyboard_decodes hs pre i :
  Forall key_ok hs →
  foldl keyboard_byte (keyboard_after pre, i) (concat (key_bytes <$> hs)) =
    (keyboard_after (pre ++ hs), foldl input_dispatch i (key_events pre hs)).
Proof.
  revert pre i. induction hs as [|a hs IH]; intros pre i Hok.
  { by rewrite app_nil_r. }
  apply Forall_cons in Hok as [Ha Hok]. cbn [fmap list_fmap concat key_events].
  rewrite !foldl_app, key_step by done. fold (key_report pre a).
  rewrite (IH (pre ++ [a])) by done. by rewrite <- app_assoc.
Qed.

Definition input0 : input := Input (empty_queue KBD_QUEUE_SIZE) (empty_queue MOUSE_QUEUE_SIZE).
(** Shift down, "a" down and up, the right arrow. *)
Definition demo_keys : list key_action :=
  [KeyAction false SC_LSHIFT true; KeyAction false 0x1E true; KeyAction false 0x1E false;
   KeyAction true 0x4D true].

Lemma keyboard_witness :
  foldl keyboard_byte (keyboard_reset, input0) [0x2A; 0x1E; 0x9E; 0xE0; 0x4D] =
    (Keyboard true false false false false,
     foldl input_dispatch input0 [Event INPUT_EV_KEY KEY_LSHIFT 1 1; Event INPUT_EV_KEY KEY_A 1 1;
       Event INPUT_EV_KEY KEY_A 0 1; Event INPUT_EV_KEY KEY_RIGHT 1 1]).
Proof.
  apply (keyboard_decodes demo_keys [] input0). repeat constructor; done.
Defined.

(** ** What a stream of mouse bytes means *)

Lemma has_pow2 x k : 0 ≤ k → has x (2 ^ k) = Z.testbit x k.
Proof.
  intros Hk. unfold has. assert (E : Z.land x (2 ^ k) = if Z.testbit x k then 2 ^ k else 0).
  { apply Z.bits_inj'. intros n Hn. rewrite Z.land_spec, Z.pow2_bits_eqb by done.
    destruct (Z.eqb_spec k n) as [->|Hne].
    - rewrite andb_true_r. destruct (Z.testbit x n); [by rewrite Z.pow2_bits_true|by rewrite Z.bits_0].
    - rewrite andb_false_r. destruct (Z.testbit x k); [by rewrite Z.pow2_bits_false|by rewrite Z.bits_0]. }
  rewrite E. destruct (Z.testbit x k); [|done]. apply negb_true_iff, Z.eqb_neq. pose proof (Z.pow_pos_nonneg 2 k). lia.
Qed.

(** A byte that cannot start a packet, or a whole packet. *)
Inductive mouse_chunk := Noise (b : Z) | Packet (b0 b1 b2 : Z).
Definition chunk_bytes (c : mouse_chunk) : list Z :=
  match c with Noise b => [b] | Packet b0 b1 b2 => [b0; b1; b2] end.
Definition chunk_ok (c : mouse_chunk) : Prop :=
  match c with
  | Noise b => Z.testbit b 3 = false
  | Packet b0 b1 b2 => Z.testbit b0 3 = true ∧ 0 ≤ b1 < 256 ∧ 0 ≤ b2 < 256
  end.

(** A byte as a signed number. *)
Definition signed (b : Z) : Z := if b <? 128 then b else b - 256.
Definition motion (axis v : Z) : list input_event := if v =? 0 then [] else [Event INPUT_EV_REL axis v 0].
Definition button_change (old new k code : Z) : list input_event :=
  if eqb (Z.testbit old k) (Z.testbit new k) then []
  else [Event INPUT_EV_KEY code (if Z.testbit new k then 1 else 0) 0].

(** What a chunk reports when the buttons were [old], and the new buttons.  A
    packet whose counters overflowed is dropped as a whole. *)
Definition chunk_report (old : Z) (c : mouse_chunk) : list input_event * Z :=
  match c with
  | Noise _ => ([], old)
  | Packet b0 b1 b2 =>
      if Z.testbit b0 6 || Z.testbit b0 7 then ([], old) else
      let new := b0 mod 8 in
      (motion INPUT_REL_X (signed b1) ++ motion INPUT_REL_Y (- signed b2) ++
       button_change old new 0 INPUT_BTN_LEFT ++ button_change old new 1 INPUT_BTN_RIGHT ++
       button_change old new 2 INPUT_BTN_MIDDLE, new)
  end.
Fixpoint mouse_report (old : Z) (cs : list mouse_chunk) : list input_event * Z :=
  match cs with
  | [] => ([], old)
  | c :: cs =>
      let '(evs, new) := chunk_report old c in
      let '(rest, last) := mouse_report new cs in (evs ++ rest, last)
  end.

(** The driver on a sequence of bytes. *)
Fixpoint mouse_run (mi : mouse * input) (bs : list Z) : res (mouse * input) :=
  match bs with
  | [] => Ret mi
  | b :: bs => mi ← mouse_byte mi b; mouse_run mi bs
  end.

Lemma mouse_run_app mi xs ys : mouse_run mi (xs ++ ys) = mi ← mouse_run mi xs; mouse_run mi ys.
Proof.
  revert mi. induction xs as [|x xs IH]; intros mi; cbn [app mouse_run]; [done|].
  destruct (mouse_byte mi x) as [mi'| | |]; [|done..]. by rewrite !bind_Ret, IH.
Qed.

Lemma report_motion i axis v :
  (if v =? 0 then i else input_report_rel i axis v) = foldl input_dispatch i (motion axis v).
Proof. unfold motion. by destruct (v =? 0). Qed.

Lemma report_button_spec old new i k code : 0 ≤ k →
  report_button new i (Z.lxor old new) (2 ^ k) code = foldl input_dispatch i (button_change old new k code).
Proof.
  intros Hk. unfold report_button, button_change. rewrite !has_pow2, Z.lxor_spec by done.
  by destruct (Z.testbit old k), (Z.testbit new k).
Qed.

Lemma i8_signed b : 0 ≤ b < 256 → i8 b = signed b.
Proof. intros. unfold i8, signed. zcase; dlia. Qed.

Lemma has_overflow b : has b 0xC0 = Z.testbit b 6 || Z.testbit b 7.
Proof.
  assert (E : ∀ x, has b (Z.lor (2 ^ 6) x) = has b (2 ^ 6) || has b x).
  { intros x. unfold has. rewrite Z.land_lor_distr_r.
    destruct (Z.eqb_spec (Z.land b (2 ^ 6)) 0) as [->|Hn]; [by rewrite Z.lor_0_l|].
    cbn [negb orb]. apply negb_true_iff, Z.eqb_neq. intros [? _]%Z.lor_eq_0_iff. done. }
  change 0xC0 with (Z.lor (2 ^ 6) (2 ^ 7)). by rewrite E, !has_pow2.
Qed.

Lemma chunk_run c pk old i : chunk_ok c → length pk = 3%nat →
  let '(evs, new) := chunk_report old c in
  ∃ pk', length pk' = 3%nat ∧
    mouse_run (Mouse pk 0 old, i) (chunk_bytes c) = Ret (Mouse pk' 0 new, foldl input_dispatch i evs).
Proof.
  intros Hok Hl. destruct c as [b|b0 b1 b2]; cbn [chunk_report chunk_bytes mouse_run].
  - exists pk. split; [done|]. unfold mouse_byte. cbn [packet_index]. change 0x08 with (2 ^ 3).
    cbn [chunk_ok] in Hok. by rewrite has_pow2, Hok.
  - destruct Hok as (H3 & Hb1 & Hb2). destruct pk as [|p0 [|p1 [|p2 [|]]]]; try done.
    assert (H8 : has b0 0x08 = true) by (change 0x08 with (2 ^ 3); by rewrite has_pow2).
    assert (E1 : mouse_byte (Mouse [p0; p1; p2] 0 old, i) b0 = Ret (Mouse [b0; p1; p2] 1 old, i)).
    { unfold mouse_byte. cbn [packet_index]. rewrite H8. reflexivity. }
    assert (E2 : mouse_byte (Mouse [b0; p1; p2] 1 old, i) b1 = Ret (Mouse [b0; b1; p2] 2 old, i))
      by reflexivity.
    rewrite E1, bind_Ret, E2, bind_Ret. unfold mouse_byte. cbn [packet_index packet buttons].
    change ((2 =? 0) && negb (has b2 8)) with false. change (negb (u8 (2 + 1) =? 3)) with false. cbn iota.
    change (updateZ [b0; b1; p2] 2 b2) with [b0; b1; b2].
    change (lookupZ [b0; b1; b2] 0) with (Some b0). change (lookupZ [b0; b1; b2] 1) with (Some b1).
    change (lookupZ [b0; b1; b2] 2) with (Some b2). cbn [deref]. rewrite !bind_Ret, has_overflow.
    destruct (_ || _); exists [b0; b1; b2]; (split; [done|]); [done|].
    rewrite !report_motion, !i8_signed by done.
    assert (E7 : Z.land b0 0x07 = b0 mod 8) by (change 0x07 with (Z.ones 3); by rewrite Z.land_ones).
    rewrite E7, bind_Ret. rewrite (report_button_spec _ _ _ 0), (report_button_spec _ _ _ 1),
      (report_button_spec _ _ _ 2) by done. by rewrite !foldl_app.
Qed.

(** The mouse driver decodes its byte stream.  On any sequence of packets,
    with bytes in between that cannot start one, the driver never accesses its
    buffer out of bounds, stays in step with the packets, and has reported for
    each packet its motion (the vertical axis inverted) and one event per changed
    button; packets whose counters overflowed are dropped. *)
Theorem mouse_decodes cs pk old i :
  Forall chunk_ok cs → length pk = 3%nat →
  returns (mouse_run (Mouse pk 0 old, i) (concat (chunk_bytes <$> cs))) (λ '(m, i'),
    packet_index m = 0 ∧ buttons m = (mouse_report old cs).2 ∧
    i' = foldl input_dispatch i (mouse_report old cs).1).
Proof.
  revert pk old i. induction cs as [|c cs IH]; intros pk old i Hok Hl; [done|].
  apply Forall_cons in Hok as [Hc Hok]. cbn [fmap list_fmap concat mouse_report].
  pose proof (chunk_run c pk old i Hc Hl) as Hr. destruct (chunk_report old c) as [evs new].
  destruct Hr as (pk' & Hl' & E). rewrite mouse_run_app, E, bind_Ret.
  eapply returns_mono; [by apply IH|]. intros [m i'] (H1 & H2 & H3).
  destruct (mouse_report new cs) as [rest last]. cbn in *. by rewrite foldl_app.
Qed.

(** Noise, then a move by (5, 2) with the left button going down. *)
Lemma mouse_witness :
  returns (mouse_run (Mouse [0; 0; 0] 0 0, input0) [0x01; 0x29; 5; 0xFE]) (λ '(m, i'),
    buttons m = 1 ∧ i' = foldl input_dispatch input0
      [Event INPUT_EV_REL 0 5 0; Event INPUT_EV_REL 1 2 0; Event INPUT_EV_KEY 0x110 1 0]).
Proof.
  eapply returns_mono.
  - apply (mouse_decodes [Noise 0x01; Packet 0x29 5 0xFE] [0; 0; 0] 0 input0); [|reflexivity].
    apply Forall_cons. split; [reflexivity|]. apply Forall_cons. split; [|constructor]. vdone.
  - intros [m i'] (_ & Hb & Hi). split; [exact Hb|exact Hi].
Defined.
