(* ===== verification/Screen.v ===== *)
(** The screen: pixels ([screen/graphics.c]), shapes ([screen/draw.c]) and the
    boot screens with their text output ([screen/bootscreen/boot.c] and
    [layout.c]). *)
From S2P Require Import Prelude Interfaces Ram PhysMem.
Import MemLib.

(** The font: 132 glyphs of eight rows. *)
Definition font_8x8 : list (list Z) :=
  [ [0x00; 0x00; 0x00; 0x00; 0x00; 0x00; 0x00; 0x00];
    [0x10; 0x18; 0x1C; 0x1E; 0x1C; 0x18; 0x10; 0x00];
    [0x00; 0x00; 0x00; 0xFF; 0x00; 0x00; 0x00; 0x00];
    [0xFF; 0xFF; 0xFF; 0xFF; 0xFF; 0xFF; 0xFF; 0xFF];
    [0xFF; 0x81; 0x81; 0x81; 0x81; 0x81; 0x81; 0xFF];
    [0x7E; 0xFF; 0xFF; 0xFF; 0xFF; 0xFF; 0xFF; 0x7E];
    [0x7E; 0x81; 0x81; 0x81; 0x81; 0x81; 0x81; 0x7E];
    [0x3C; 0x7E; 0xFF; 0xFF; 0xFF; 0xFF; 0x7E; 0x3C];
    [0x18; 0x7E; 0x7E; 0xFF; 0xFF; 0x7E; 0x7E; 0x18];
    [0x3C; 0x42; 0x81; 0x81; 0x81; 0x81; 0x42; 0x3C];
    [0x18; 0x66; 0x42; 0x81; 0x81; 0x42; 0x66; 0x18];
    [0x00; 0x00; 0x00; 0x00; 0x00; 0x00; 0x00; 0x00];
    [0x00; 0x00; 0x00; 0x00; 0x00; 0x00; 0x00; 0x00];
    [0x00; 0x00; 0x00; 0x00; 0x00; 0x00; 0x00; 0x00];
    [0x00; 0x00; 0x00; 0x00; 0x00; 0x00; 0x00; 0x00];
    [0x00; 0x00; 0x00; 0x00; 0x00; 0x00; 0x00; 0x00];
    [0x00; 0x00; 0x00; 0x00; 0x00; 0x00; 0x00; 0x00];
    [0x00; 0x00; 0x00; 0x00; 0x00; 0x00; 0x00; 0x00];
    [0x00; 0x00; 0x00; 0x00; 0x00; 0x00; 0x00; 0x00];
    [0x00; 0x00; 0x00; 0x00; 0x00; 0x00; 0x00; 0x00];
    [0x00; 0x00; 0x00; 0x00; 0x00; 0x00; 0x00; 0x00];
    [0x00; 0x00; 0x00; 0x00; 0x00; 0x00; 0x00; 0x00];
    [0x00; 0x00; 0x00; 0x00; 0x00; 0x00; 0x00; 0x00];
    [0x00; 0x00; 0x00; 0x00; 0x00; 0x00; 0x00; 0x00];
    [0x00; 0x00; 0x00; 0x00; 0x00; 0x00; 0x00; 0x00];
    [0x00; 0x00; 0x00; 0x00; 0x00; 0x00; 0x00; 0x00];
    [0x00; 0x00; 0x00; 0x00; 0x00; 0x00; 0x00; 0x00];
    [0x00; 0x00; 0x00; 0x00; 0x00; 0x00; 0x00; 0x00];
    [0x00; 0x00; 0x00; 0x00; 0x00; 0x00; 0x00; 0x00];
    [0x00; 0x00; 0x00; 0x00; 0x00; 0x00; 0x00; 0x00];
    [0x00; 0x00; 0x00; 0x00; 0x00; 0x00; 0x00; 0x00];
    [0x00; 0x00; 0x00; 0x00; 0x00; 0x00; 0x00; 0x00];
    [0x00; 0x00; 0x00; 0x00; 0x00; 0x00; 0x00; 0x00];
    [0x10; 0x10; 0x10; 0x10; 0x10; 0x00; 0x10; 0x00];
    [0x28; 0x28; 0x00; 0x00; 0x00; 0x00; 0x00; 0x00];
    [0x28; 0x28; 0x7C; 0x28; 0x7C; 0x28; 0x28; 0x00];
    [0x10; 0x78; 0x50; 0x38; 0x14; 0x78; 0x10; 0x00];
    [0x60; 0x64; 0x08; 0x10; 0x20; 0x4C; 0x0C; 0x00];
    [0x30; 0x48; 0x30; 0x68; 0x84; 0x84; 0x78; 0x00];
    [0x10; 0x10; 0x20; 0x00; 0x00; 0x00; 0x00; 0x00];
    [0x08; 0x10; 0x20; 0x20; 0x20; 0x10; 0x08; 0x00];
    [0x20; 0x10; 0x08; 0x08; 0x08; 0x10; 0x20; 0x00];
    [0x00; 0x28; 0x10; 0x7C; 0x10; 0x28; 0x00; 0x00];
    [0x00; 0x10; 0x10; 0x7C; 0x10; 0x10; 0x00; 0x00];
    [0x00; 0x00; 0x00; 0x00; 0x10; 0x10; 0x20; 0x00];
    [0x00; 0x00; 0x00; 0x7C; 0x00; 0x00; 0x00; 0x00];
    [0x00; 0x00; 0x00; 0x00; 0x00; 0x10; 0x10; 0x00];
    [0x04; 0x08; 0x10; 0x20; 0x40; 0x80; 0x00; 0x00];
    [0x38; 0x44; 0x4C; 0x54; 0x64; 0x44; 0x38; 0x00];
    [0x10; 0x30; 0x10; 0x10; 0x10; 0x10; 0x38; 0x00];
    [0x38; 0x44; 0x04; 0x18; 0x20; 0x40; 0x7C; 0x00];
    [0x38; 0x44; 0x04; 0x18; 0x04; 0x44; 0x38; 0x00];
    [0x08; 0x18; 0x28; 0x48; 0x7C; 0x08; 0x08; 0x00];
    [0x7C; 0x40; 0x78; 0x04; 0x04; 0x44; 0x38; 0x00];
    [0x18; 0x20; 0x40; 0x78; 0x44; 0x44; 0x38; 0x00];
    [0x7C; 0x04; 0x08; 0x10; 0x20; 0x20; 0x20; 0x00];
    [0x38; 0x44; 0x44; 0x38; 0x44; 0x44; 0x38; 0x00];
    [0x38; 0x44; 0x44; 0x3C; 0x04; 0x08; 0x30; 0x00];
    [0x00; 0x00; 0x10; 0x00; 0x00; 0x00; 0x10; 0x00];
    [0x00; 0x00; 0x10; 0x00; 0x10; 0x10; 0x20; 0x00];
    [0x08; 0x10; 0x20; 0x40; 0x20; 0x10; 0x08; 0x00];
    [0x00; 0x00; 0x7C; 0x00; 0x7C; 0x00; 0x00; 0x00];
    [0x20; 0x10; 0x08; 0x04; 0x08; 0x10; 0x20; 0x00];
    [0x38; 0x44; 0x08; 0x10; 0x10; 0x00; 0x10; 0x00];
    [0x38; 0x44; 0x4C; 0x54; 0x58; 0x40; 0x38; 0x00];
    [0x10; 0x28; 0x44; 0x44; 0x7C; 0x44; 0x44; 0x00];
    [0x78; 0x44; 0x44; 0x78; 0x44; 0x44; 0x78; 0x00];
    [0x38; 0x44; 0x40; 0x40; 0x40; 0x44; 0x38; 0x00];
    [0x70; 0x48; 0x44; 0x44; 0x44; 0x48; 0x70; 0x00];
    [0x7C; 0x40; 0x40; 0x78; 0x40; 0x40; 0x7C; 0x00];
    [0x7C; 0x40; 0x40; 0x78; 0x40; 0x40; 0x40; 0x00];
    [0x38; 0x44; 0x40; 0x40; 0x4C; 0x44; 0x3C; 0x00];
    [0x44; 0x44; 0x44; 0x7C; 0x44; 0x44; 0x44; 0x00];
    [0x38; 0x10; 0x10; 0x10; 0x10; 0x10; 0x38; 0x00];
    [0x1C; 0x08; 0x08; 0x08; 0x08; 0x48; 0x30; 0x00];
    [0x44; 0x48; 0x50; 0x60; 0x50; 0x48; 0x44; 0x00];
    [0x40; 0x40; 0x40; 0x40; 0x40; 0x40; 0x7C; 0x00];
    [0x44; 0x6C; 0x54; 0x54; 0x44; 0x44; 0x44; 0x00];
    [0x44; 0x64; 0x54; 0x4C; 0x44; 0x44; 0x44; 0x00];
    [0x38; 0x44; 0x44; 0x44; 0x44; 0x44; 0x38; 0x00];
    [0x78; 0x44; 0x44; 0x78; 0x40; 0x40; 0x40; 0x00];
    [0x38; 0x44; 0x44; 0x44; 0x54; 0x48; 0x34; 0x00];
    [0x78; 0x44; 0x44; 0x78; 0x50; 0x48; 0x44; 0x00];
    [0x38; 0x44; 0x40; 0x38; 0x04; 0x44; 0x38; 0x00];
    [0x7C; 0x10; 0x10; 0x10; 0x10; 0x10; 0x10; 0x00];
    [0x44; 0x44; 0x44; 0x44; 0x44; 0x44; 0x38; 0x00];
    [0x44; 0x44; 0x44; 0x44; 0x28; 0x28; 0x10; 0x00];
    [0x44; 0x44; 0x44; 0x54; 0x54; 0x6C; 0x44; 0x00];
    [0x44; 0x44; 0x28; 0x10; 0x28; 0x44; 0x44; 0x00];
    [0x44; 0x44; 0x28; 0x10; 0x10; 0x10; 0x10; 0x00];
    [0x7C; 0x04; 0x08; 0x10; 0x20; 0x40; 0x7C; 0x00];
    [0x38; 0x20; 0x20; 0x20; 0x20; 0x20; 0x38; 0x00];
    [0x80; 0x40; 0x20; 0x10; 0x08; 0x04; 0x00; 0x00];
    [0x38; 0x08; 0x08; 0x08; 0x08; 0x08; 0x38; 0x00];
    [0x10; 0x28; 0x44; 0x00; 0x00; 0x00; 0x00; 0x00];
    [0x00; 0x00; 0x00; 0x00; 0x00; 0x00; 0x00; 0x7C];
    [0x10; 0x10; 0x08; 0x00; 0x00; 0x00; 0x00; 0x00];
    [0x00; 0x00; 0x38; 0x04; 0x3C; 0x44; 0x3C; 0x00];
    [0x40; 0x40; 0x78; 0x44; 0x44; 0x44; 0x78; 0x00];
    [0x00; 0x00; 0x38; 0x44; 0x40; 0x44; 0x38; 0x00];
    [0x04; 0x04; 0x3C; 0x44; 0x44; 0x44; 0x3C; 0x00];
    [0x00; 0x00; 0x38; 0x44; 0x7C; 0x40; 0x38; 0x00];
    [0x18; 0x24; 0x20; 0x78; 0x20; 0x20; 0x20; 0x00];
    [0x00; 0x00; 0x3C; 0x44; 0x44; 0x3C; 0x04; 0x38];
    [0x40; 0x40; 0x78; 0x44; 0x44; 0x44; 0x44; 0x00];
    [0x10; 0x00; 0x30; 0x10; 0x10; 0x10; 0x38; 0x00];
    [0x08; 0x00; 0x18; 0x08; 0x08; 0x48; 0x30; 0x00];
    [0x40; 0x40; 0x44; 0x48; 0x70; 0x48; 0x44; 0x00];
    [0x30; 0x10; 0x10; 0x10; 0x10; 0x10; 0x38; 0x00];
    [0x00; 0x00; 0x68; 0x54; 0x54; 0x54; 0x44; 0x00];
    [0x00; 0x00; 0x78; 0x44; 0x44; 0x44; 0x44; 0x00];
    [0x00; 0x00; 0x38; 0x44; 0x44; 0x44; 0x38; 0x00];
    [0x00; 0x00; 0x78; 0x44; 0x44; 0x78; 0x40; 0x40];
    [0x00; 0x00; 0x3C; 0x44; 0x44; 0x3C; 0x04; 0x04];
    [0x00; 0x00; 0x58; 0x64; 0x40; 0x40; 0x40; 0x00];
    [0x00; 0x00; 0x3C; 0x40; 0x38; 0x04; 0x78; 0x00];
    [0x20; 0x20; 0x78; 0x20; 0x20; 0x24; 0x18; 0x00];
    [0x00; 0x00; 0x44; 0x44; 0x44; 0x44; 0x3C; 0x00];
    [0x00; 0x00; 0x44; 0x44; 0x44; 0x28; 0x10; 0x00];
    [0x00; 0x00; 0x44; 0x54; 0x54; 0x54; 0x28; 0x00];
    [0x00; 0x00; 0x44; 0x28; 0x10; 0x28; 0x44; 0x00];
    [0x00; 0x00; 0x44; 0x44; 0x44; 0x3C; 0x04; 0x38];
    [0x00; 0x00; 0x7C; 0x08; 0x10; 0x20; 0x7C; 0x00];
    [0x0C; 0x10; 0x10; 0x60; 0x10; 0x10; 0x0C; 0x00];
    [0x10; 0x10; 0x10; 0x10; 0x10; 0x10; 0x10; 0x00];
    [0x60; 0x10; 0x10; 0x0C; 0x10; 0x10; 0x60; 0x00];
    [0x64; 0x98; 0x00; 0x00; 0x00; 0x00; 0x00; 0x00];
    [0x00; 0x00; 0x00; 0x00; 0x00; 0x00; 0x00; 0x00];
    [0x00; 0x00; 0x28; 0x00; 0x38; 0x04; 0x3C; 0x44];
    [0x00; 0x00; 0x28; 0x00; 0x38; 0x44; 0x44; 0x38];
    [0x00; 0x00; 0x28; 0x00; 0x44; 0x44; 0x44; 0x3C];
    [0x00; 0x00; 0x38; 0x44; 0x40; 0x38; 0x40; 0x7C] ].

Definition black : Z := 0xFF000000.
Definition BS1 : Z := 0.
Definition BS2 : Z := 1.
Definition BS3 : Z := 2.
Definition BS4 : Z := 3.
Definition BS_COUNT : Z := 4.
Definition BS_BUF_SIZE : Z := 4096.
Definition BS_MAX_PIXELS : Z := 1920 * 1080.

(** [bs_screen_t] *)
Record bs_screen := Screen {
  bs_buffer : Z;
  buf_len : Z;
  bs_cursor_x : Z;
  bs_cursor_y : Z;
  bs_x : Z;
  bs_y : Z;
  bs_width : Z;
  bs_height : Z;
  visible : Z;
  pixels : Z;
  pixel_count : Z;
  pixels_phys : Z;
}.
Definition set_cursor (s : bs_screen) (x y : Z) : bs_screen :=
  Screen (bs_buffer s) (buf_len s) x y (bs_x s) (bs_y s) (bs_width s) (bs_height s) (visible s)
    (pixels s) (pixel_count s) (pixels_phys s).
Definition set_buf_len (s : bs_screen) (n : Z) : bs_screen :=
  Screen (bs_buffer s) n (bs_cursor_x s) (bs_cursor_y s) (bs_x s) (bs_y s) (bs_width s) (bs_height s)
    (visible s) (pixels s) (pixel_count s) (pixels_phys s).
Definition set_visible (s : bs_screen) (b : Z) : bs_screen :=
  Screen (bs_buffer s) (buf_len s) (bs_cursor_x s) (bs_cursor_y s) (bs_x s) (bs_y s) (bs_width s)
    (bs_height s) b (pixels s) (pixel_count s) (pixels_phys s).
Definition set_pixels (s : bs_screen) (p phys : Z) : bs_screen :=
  Screen (bs_buffer s) (buf_len s) (bs_cursor_x s) (bs_cursor_y s) (bs_x s) (bs_y s) (bs_width s)
    (bs_height s) (visible s) p (pixel_count s) phys.

(** The framebuffer variables of [graphics.c], [bs.Screens] and
    [active_screen]. *)
Record gfx := Gfx {
  framebuffer : Z;
  fb_width : Z;
  fb_height : Z;
  fb_pitch : Z;
  fb_bpp : Z;
  fb_size : Z;
  fb_phys_addr : Z;
  font_scale : Z;
  screens : list bs_screen;
  active_screen : Z;
}.
Definition set_screens (g : gfx) (ss : list bs_screen) (act : Z) : gfx :=
  Gfx (framebuffer g) (fb_width g) (fb_height g) (fb_pitch g) (fb_bpp g) (fb_size g) (fb_phys_addr g)
    (font_scale g) ss act.
Definition put_screen (g : gfx) (i : Z) (s : bs_screen) : gfx :=
  set_screens g (updateZ (screens g) i s) (active_screen g).
Definition get_screen (g : gfx) (i : Z) : res bs_screen := deref (lookupZ (screens g) i).

(** [limine_framebuffer], the fields that are used. *)
Record limine_framebuffer := LimineFb {
  lfb_address : Z;
  lfb_width : Z;
  lfb_height : Z;
  lfb_pitch : Z;
  lfb_bpp : Z;
}.

(** Cell [i] of the array of [u32] at [a]. *)
Definition cell (a i : Z) : Z := a + 4 * i.
Definition st32 (m : ram) (a v : Z) : ram := st_le 4 m a v.

(** ** Pixels and shapes *)

Definition putpixel (g : gfx) (m : ram) (x y color : Z) : ram :=
  if (x <? fb_width g) && (y <? fb_height g)
  then st32 m (cell (framebuffer g) (u32 (y * (fb_pitch g / 4) + x))) color else m.

Definition draw_rect (g : gfx) (m : ram) (x y width height color : Z) : ram :=
  upto 0 height (λ dy m, upto 0 width (λ dx m, putpixel g m (u32 (x + dx)) (u32 (y + dy)) color) m) m.

Definition draw_circle (g : gfx) (m : ram) (cx cy radius color : Z) : ram :=
  upto 0 (radius + 1) (λ y m, upto 0 (radius + 1) (λ x m,
    if u32 (u32 (x * x) + u32 (y * y)) <=? u32 (radius * radius) then
      let m := putpixel g m (u32 (cx + x)) (u32 (cy + y)) color in
      let m := putpixel g m (u32 (cx - x)) (u32 (cy + y)) color in
      let m := putpixel g m (u32 (cx + x)) (u32 (cy - y)) color in
      putpixel g m (u32 (cx - x)) (u32 (cy - y)) color
    else m) m) m.

Definition clear (g : gfx) (m : ram) (color : Z) : ram :=
  draw_rect g m 0 0 (fb_width g) (fb_height g) color.

Definition scroll_up (g : gfx) (m : ram) (lines : Z) : ram :=
  let pitch_dwords := fb_pitch g / 4 in
  let at_ y x := cell (framebuffer g) (u32 (y * pitch_dwords + x)) in
  let m := upto lines (fb_height g) (λ y m, upto 0 (fb_width g) (λ x m,
             st32 m (at_ (u32 (y - lines)) x) (ld32 m (at_ y x))) m) m in
  upto (u32 (fb_height g - lines)) (fb_height g) (λ y m, upto 0 (fb_width g) (λ x m,
    st32 m (at_ y x) black) m) m.

Definition set_font_scale (g : gfx) (scale : Z) : gfx :=
  if (1 <=? scale) && (scale <=? 4) then
    Gfx (framebuffer g) (fb_width g) (fb_height g) (fb_pitch g) (fb_bpp g) (fb_size g) (fb_phys_addr g)
      scale (screens g) (active_screen g)
  else g.

(** ** Boot screens *)

Definition bs_setpixel (m : ram) (s : bs_screen) (x y color : Z) : ram :=
  if pixels s =? 0 then m else
  if (bs_width s <=? x) || (bs_height s <=? y) then m else
  st32 m (cell (pixels s) (u32 (y * bs_width s + x))) color.

Definition bs_draw_glyph (g : gfx) (m : ram) (s : bs_screen) (c color : Z) : res ram :=
  glyph ← deref (lookupZ font_8x8 c);
  let scale := font_scale g in
  Ret (upto 0 8 (λ dy m,
    let row := default 0 (lookupZ glyph dy) in
    upto 0 8 (λ dx m,
      if negb (has row (Z.shiftl 1 (7 - dx))) then m else
      upto 0 scale (λ sy m, upto 0 scale (λ sx m,
        bs_setpixel m s (u32 (u32 (bs_cursor_x s + dx * scale) + sx))
          (u32 (u32 (bs_cursor_y s + dy * scale) + sy)) color) m) m) m) m).

Definition bs_flush_rect (g : gfx) (m : ram) (s : bs_screen) (x y w h : Z) : ram :=
  if pixels s =? 0 then m else
  let end_x := u32 (x + w) in
  let end_y := u32 (y + h) in
  let end_x := if bs_width s <? end_x then bs_width s else end_x in
  let end_y := if bs_height s <? end_y then bs_height s else end_y in
  let fb_stride := fb_pitch g / 4 in
  if negb (framebuffer g =? 0) && (bs_x s =? 0) && (bs_y s =? 0) && (bs_width s =? fb_width g) &&
     (bs_height s =? fb_height g) then
    upto y end_y (λ yy m,
      memcpy m (cell (framebuffer g) (u32 (yy * fb_stride + x)))
        (cell (pixels s) (u32 (yy * bs_width s + x))) (u32 (end_x - x) * 4)) m
  else
    upto y end_y (λ yy m, upto x end_x (λ xx m,
      putpixel g m (u32 (bs_x s + xx)) (u32 (bs_y s + yy))
        (ld32 m (cell (pixels s) (u32 (yy * bs_width s + xx))))) m) m.

Definition bs_flush (g : gfx) (m : ram) (s : bs_screen) : ram :=
  bs_flush_rect g m s 0 0 (bs_width s) (bs_height s).

Definition bs_clear_area (g : gfx) (m : ram) (s : bs_screen) : ram :=
  if pixels s =? 0 then m else
  let m := upto 0 (pixel_count s) (λ i m, st32 m (cell (pixels s) i) black) m in
  bs_flush g m s.

(** The memory and the screen, with its new cursor. *)
Definition bs_scroll (g : gfx) (m : ram) (s : bs_screen) : ram * bs_screen :=
  let scale := font_scale g in
  let line_h := u32 (8 * scale + 2 * scale) in
  if (pixels s =? 0) || (bs_height s <=? line_h) then (bs_clear_area g m s, set_cursor s 0 0) else
  let keep_rows := u32 (bs_height s - line_h) in
  let m := memmove m (pixels s) (cell (pixels s) (u32 (line_h * bs_width s)))
             (u32 (keep_rows * bs_width s) * 4) in
  let bottom := cell (pixels s) (u32 (keep_rows * bs_width s)) in
  let m := upto 0 (u32 (line_h * bs_width s)) (λ i m, st32 m (cell bottom i) black) m in
  (bs_flush g m s, set_cursor s 0 keep_rows).

Definition NEWLINE : Z := 10.

(** [bs_putchar] on the active screen: the glyph, the cursor, the scrolling and
    the copy in the log buffer. *)
Definition screen_putchar (g : gfx) (m : ram) (s : bs_screen) (c color : Z) : res (ram * bs_screen) :=
  if visible s =? 0 then Ret (m, s) else
  let scale := font_scale g in
  let char_w := u32 (8 * scale) in
  let char_h := u32 (8 * scale) in
  let line_h := u32 (char_h + 2 * scale) in
  '(m, s) ← (if c =? NEWLINE then Ret (m, set_cursor s 0 (u32 (bs_cursor_y s + line_h))) else
    let s := if bs_width s <=? u32 (bs_cursor_x s + char_w)
             then set_cursor s 0 (u32 (bs_cursor_y s + line_h)) else s in
    m ← bs_draw_glyph g m s c color;
    let m := bs_flush_rect g m s (bs_cursor_x s) (bs_cursor_y s) char_w char_h in
    Ret (m, set_cursor s (u32 (bs_cursor_x s + char_w)) (bs_cursor_y s)));
  let '(m, s) := if bs_height s <=? u32 (bs_cursor_y s + line_h) then bs_scroll g m s else (m, s) in
  if negb (bs_buffer s =? 0) && (buf_len s <? BS_BUF_SIZE - 1) then
    let m := st8 m (bs_buffer s + buf_len s) c in
    let s := set_buf_len s (u32 (buf_len s + 1)) in
    Ret (st8 m (bs_buffer s + buf_len s) 0, s)
  else Ret (m, s).
Definition bs_putchar (g : gfx) (m : ram) (c color : Z) : res (ram * gfx) :=
  s ← get_screen g (active_screen g);
  '(m, s) ← screen_putchar g m s c color;
  Ret (m, put_screen g (active_screen g) s).

(** [bs_print] on the characters of a string. *)
Fixpoint bs_print (g : gfx) (m : ram) (str : list Z) (color : Z) : res (ram * gfx) :=
  match str with
  | [] => Ret (m, g)
  | c :: str => '(m, g) ← bs_putchar g m c color; bs_print g m str color
  end.

Definition bs_putpixel (g : gfx) (m : ram) (x y color : Z) : res ram :=
  s ← get_screen g (active_screen g);
  if visible s =? 0 then Ret m else
  let m := bs_setpixel m s x y color in
  Ret (putpixel g m (u32 (bs_x s + x)) (u32 (bs_y s + y)) color).

Definition screen_id_ok (screen : Z) : bool := negb ((screen <? 0) || (BS_COUNT <=? screen)).
Definition bs_switch_screen (g : gfx) (screen : Z) : gfx :=
  if screen_id_ok screen then set_screens g (screens g) screen else g.
Definition bs_screens_visible (g : gfx) (screen on : Z) : res gfx :=
  if screen_id_ok screen then
    s ← get_screen g screen; Ret (put_screen g screen (set_visible s on))
  else Ret g.
Definition bs_clear (g : gfx) (m : ram) (screen : Z) : res (ram * gfx) :=
  if screen_id_ok screen then
    s ← get_screen g screen;
    let m := bs_clear_area g m s in
    let m := if bs_buffer s =? 0 then m else st8 m (bs_buffer s) 0 in
    Ret (m, put_screen g screen (set_buf_len (set_cursor s 0 0) 0))
  else Ret (m, g).
Definition bs_flush_screen (g : gfx) (m : ram) (screen : Z) : res ram :=
  if screen_id_ok screen then s ← get_screen g screen; Ret (bs_flush g m s) else Ret m.

Definition zero_screen : bs_screen := Screen 0 0 0 0 0 0 0 0 0 0 0 0.
Definition bs_init (g : gfx) : gfx := set_screens g (replicate 4 zero_screen) BS1.

(** ** Layout *)

(** Where the linker put the static buffers of [layout.c]. *)
Class ScreenBuffers := {
  bs_buf : Z → Z;
  bs_pix : Z → Z;
}.

Definition bs_size_clamp (width height : Z) : Z * Z :=
  if width =? 0 then (width, 0) else
  if width * height <=? BS_MAX_PIXELS then (width, height) else (width, BS_MAX_PIXELS / width).

Definition bs_setup_screen (g : gfx) (screen pix buffer x y width height : Z) : res gfx :=
  s ← get_screen g screen;
  let '(width, height) := bs_size_clamp width height in
  Ret (put_screen g screen
    (Screen buffer (buf_len s) 0 0 x y width height (visible s) pix (u32 (width * height)) 0)).

Section layout.
Context `{ScreenBuffers}.

Definition bootscreen_layout_init (g : gfx) : res gfx :=
  let fw := fb_width g in
  let fh := fb_height g in
  let half := fw / 2 in
  let mid := fh / 2 in
  g ← bs_screens_visible g BS1 1;
  g ← bs_screens_visible g BS2 1;
  g ← bs_screens_visible g BS3 1;
  g ← bs_screens_visible g BS4 1;
  g ← bs_setup_screen g BS1 (bs_pix BS1) (bs_buf BS1) 0 0 half fh;
  g ← bs_setup_screen g BS2 (bs_pix BS2) (bs_buf BS2) half 0 half mid;
  g ← bs_setup_screen g BS3 0 (bs_buf BS3) 0 0 fw fh;
  g ← bs_setup_screen g BS4 (bs_pix BS4) (bs_buf BS4) half mid half (fh - mid);
  Ret (bs_switch_screen g BS1).

(** [graphics_init] up to its first line of text. *)
Definition graphics_init (fb : limine_framebuffer) (hhdm : option Z) : res gfx :=
  let g := Gfx (lfb_address fb) (u32 (lfb_width fb)) (u32 (lfb_height fb)) (u32 (lfb_pitch fb))
             (u32 (lfb_bpp fb)) (u32 (lfb_pitch fb) * u32 (lfb_height fb))
             (u64 (lfb_address fb - default 0 hhdm)) 1 [] 0 in
  bootscreen_layout_init (bs_init g).

(** [bootscreen_bs3_init_backbuffer]; without memory the screen stays without
    pixels. *)
Definition bootscreen_bs3_init_backbuffer (g : gfx) (m : ram) (p : physmem) (hhdm : Z) :
    res (gfx * ram * physmem) :=
  s ← get_screen g BS3;
  let size := u64 (bs_width s * bs_height s * 4) in
  let page_count := u64 (size + PAGE_SIZE - 1) / PAGE_SIZE in
  '(phys, p) ← physmem_alloc_to p page_count;
  if phys =? 0 then Ret (g, m, p) else
  let a := u64 (phys + hhdm) in
  Ret (put_screen g BS3 (set_pixels s a phys), memset m a 0 (page_count * PAGE_SIZE), p).
End layout.

(** ** Where drawing writes *)

(** [m'] differs from [m] only inside [A]. *)
Definition only (A : Z → Prop) (m m' : ram) : Prop := ∀ a, ¬ A a → ld8 m' a = ld8 m a.
(** The [n] bytes at [p]. *)
Definition span (p n a : Z) : Prop := p ≤ a < p + n.

Lemma only_refl A m : only A m m.
Proof. done. Qed.
Lemma only_trans A m m1 m2 : only A m m1 → only A m1 m2 → only A m m2.
Proof. intros H1 H2 a Ha. by rewrite H2, H1. Qed.
Lemma only_mono (A B : Z → Prop) m m' : (∀ a, A a → B a) → only A m m' → only B m m'.
Proof. intros HAB Ho a Ha. apply Ho. eauto. Qed.

Lemma upto_only A a b (body : Z → ram → ram) m :
  (∀ i m, a ≤ i < b → only A m (body i m)) → only A m (upto a b body m).
Proof.
  intros Hb. unfold upto. assert (Hl : Forall (λ i, a ≤ i < b) (seqZ a (b - a))).
  { apply Forall_forall. intros i Hi%elem_of_seqZ. lia. }
  revert m. induction Hl as [|i l Hi Hl IH]; intros m; cbn; [done|].
  eapply only_trans; [by apply Hb|apply IH].
Qed.

Lemma st32_only m a v : only (span a 4) m (st32 m a v).
Proof. intros b Hb. apply ld8_st_le_out. unfold span in Hb. lia. Qed.
Lemma st8_only m a v : only (span a 1) m (st8 m a v).
Proof. intros b Hb. rewrite ld8_st8. unfold span in Hb. zcase; [lia|done]. Qed.

Lemma copy_up_only k : ∀ i m d s, 0 ≤ d → 0 ≤ i → d + i + Z.of_nat k ≤ 2 ^ 64 →
  only (span (d + i) (Z.of_nat k)) m (copy_up k i m d s).
Proof.
  induction k as [|k IH]; intros i m d s Hd Hi Hk; cbn [copy_up]; [done|].
  eapply only_trans; [|eapply only_mono; [|apply IH; lia]]; [|unfold span; intros; lia].
  intros a Ha. rewrite ld8_st8, u64_small by lia. unfold span in Ha. zcase; [lia|done].
Qed.
Lemma copy_down_only k : ∀ m d s, 0 ≤ d → d + Z.of_nat k ≤ 2 ^ 64 →
  only (span d (Z.of_nat k)) m (copy_down k m d s).
Proof.
  induction k as [|k IH]; intros m d s Hd Hk; cbn [copy_down]; [done|].
  eapply only_trans; [|eapply only_mono; [|apply IH; lia]]; [|unfold span; intros; lia].
  intros a Ha. rewrite ld8_st8, u64_small by lia. unfold span in Ha. zcase; [lia|done].
Qed.
Lemma memcpy_only m d s n : 0 ≤ d → 0 ≤ n → d + n ≤ 2 ^ 64 → only (span d n) m (memcpy m d s n).
Proof.
  intros Hd Hn Hk. unfold memcpy. eapply only_mono; [|apply copy_up_only; lia]. unfold span. intros. lia.
Qed.
Lemma memmove_only m d s n : 0 ≤ d → 0 ≤ n → d + n ≤ 2 ^ 64 → only (span d n) m (memmove m d s n).
Proof.
  intros Hd Hn Hk. unfold memmove. destruct (d <? s).
  - eapply only_mono; [|apply copy_up_only; lia]. unfold span. intros. lia.
  - eapply only_mono; [|apply copy_down_only; lia]. unfold span. intros. lia.
Qed.

(** The framebuffer of [g]: rows of [fb_pitch] bytes, addressed below [2^64],
    and small enough for the 32-bit index arithmetic of the code. *)
Record fb_ok (g : gfx) : Prop := {
  fo_addr : 0 ≤ framebuffer g;
  fo_size : 0 ≤ fb_width g ∧ 0 ≤ fb_height g ∧ 4 * fb_width g ≤ fb_pitch g;
  fo_index : fb_pitch g * fb_height g < 2 ^ 32;
  fo_end : framebuffer g + fb_pitch g * fb_height g ≤ 2 ^ 64;
  fo_scale : 1 ≤ font_scale g ≤ 4;
}.
Definition fb_area (g : gfx) : Z → Prop := span (framebuffer g) (fb_pitch g * fb_height g).

(** A screen whose back buffer, when it has one, holds its pixels, and whose log
    buffer has its size. *)
Record screen_ok (s : bs_screen) : Prop := {
  so_size : 0 ≤ bs_width s < 2 ^ 31 ∧ 0 ≤ bs_height s < 2 ^ 31 ∧ bs_width s * bs_height s < 2 ^ 29;
  so_pixels : 0 ≤ pixels s ∧ pixels s + 4 * (bs_width s * bs_height s) ≤ 2 ^ 64;
  so_count : pixel_count s = bs_width s * bs_height s;
  so_len : 0 ≤ buf_len s < BS_BUF_SIZE;
  so_cursor : 0 ≤ bs_cursor_x s ≤ bs_width s + 32 ∧ 0 ≤ bs_cursor_y s ≤ bs_height s;
}.
Definition pixel_area (s : bs_screen) : Z → Prop := span (pixels s) (4 * (bs_width s * bs_height s)).
Definition log_area (s : bs_screen) : Z → Prop := span (bs_buffer s) BS_BUF_SIZE.
(** What output on a screen may write. *)
Definition screen_area (g : gfx) (s : bs_screen) (a : Z) : Prop :=
  fb_area g a ∨ pixel_area s a ∨ log_area s a.

(** The cursor and the log length are all that output changes of a screen. *)
Definition same_screen (s s' : bs_screen) : Prop :=
  bs_buffer s' = bs_buffer s ∧ bs_width s' = bs_width s ∧ bs_height s' = bs_height s ∧
  pixels s' = pixels s ∧ bs_x s' = bs_x s ∧ bs_y s' = bs_y s ∧ pixel_count s' = pixel_count s ∧
  visible s' = visible s.

Lemma same_screen_area g s s' : same_screen s s' → ∀ a, screen_area g s' a ↔ screen_area g s a.
Proof.
  intros (E1 & E2 & E3 & E4 & _) a. unfold screen_area, pixel_area, log_area. by rewrite E1, E2, E3, E4.
Qed.

Section bounds.
Context (g : gfx) (Hg : fb_ok g).
Implicit Types (s : bs_screen).

(** Index arithmetic of a row of [w] cells out of [h] rows of [stride]. *)
Lemma row_bound x y w h : 0 ≤ x < w → 0 ≤ y < h → 0 ≤ y * w + x ∧ y * w + x + 1 ≤ w * h.
Proof. intros. nia. Qed.

Lemma stride_bound st p h : 4 * st ≤ p → 0 ≤ h → 4 * (st * h) ≤ p * h.
Proof. intros. nia. Qed.

Lemma putpixel_only m x y color : 0 ≤ x → 0 ≤ y → only (fb_area g) m (putpixel g m x y color).
Proof.
  intros Hx Hy. unfold putpixel. destruct (Z.ltb_spec x (fb_width g)), (Z.ltb_spec y (fb_height g)); try done.
  cbn [andb]. destruct Hg as [Ha (Hw & Hh & Hp) Hi He _]. set (st := fb_pitch g / 4).
  assert (Hst : fb_width g ≤ st ∧ 4 * st ≤ fb_pitch g) by (unfold st; dlia).
  pose proof (row_bound x y st (fb_height g) ltac:(lia) ltac:(lia)) as [H1 H2].
  pose proof (stride_bound st (fb_pitch g) (fb_height g) (proj2 Hst) ltac:(lia)) as Hb.
  rewrite u32_small by lia. eapply only_mono; [|apply st32_only]. unfold fb_area, span, cell. intros. lia.
Qed.

Lemma bs_setpixel_only s m x y color : screen_ok s → 0 ≤ x → 0 ≤ y →
  only (pixel_area s) m (bs_setpixel m s x y color).
Proof.
  intros [(Hw & Hh & Hwh) Hp _ _ _] Hx Hy. unfold bs_setpixel. destruct (pixels s =? 0); [done|].
  destruct (Z.leb_spec (bs_width s) x), (Z.leb_spec (bs_height s) y); try done. cbn [orb].
  pose proof (row_bound x y (bs_width s) (bs_height s) ltac:(lia) ltac:(lia)) as [H1 H2].
  rewrite u32_small by lia. eapply only_mono; [|apply st32_only]. unfold pixel_area, span, cell. intros. lia.
Qed.

Lemma bs_draw_glyph_only s m c color : screen_ok s → 0 ≤ c < 132 →
  returns (bs_draw_glyph g m s c color) (λ m', only (pixel_area s) m m').
Proof.
  intros Hs Hc. unfold bs_draw_glyph. destruct (lookupZ_is_some font_8x8 c Hc) as [gl ->].
  cbn [deref]. rewrite bind_Ret. apply upto_only. intros dy m1 _. apply upto_only. intros dx m2 _.
  destruct (negb _); [done|]. apply upto_only. intros sy m3 _. apply upto_only. intros sx m4 _.
  apply bs_setpixel_only; [done|apply u32_range|apply u32_range].
Qed.

Lemma bs_flush_rect_only s m x y w h : screen_ok s → 0 ≤ x ≤ bs_width s → 0 ≤ y → 0 ≤ w → 0 ≤ h →
  x + w < 2 ^ 32 → y + h < 2 ^ 32 → only (fb_area g) m (bs_flush_rect g m s x y w h).
Proof.
  intros [(Hw & Hh & Hwh) Hp _ _ _] Hx Hy Hw0 Hh0 Hxw Hyh. unfold bs_flush_rect.
  destruct (pixels s =? 0); [done|]. rewrite !(u32_small (x + w)), !(u32_small (y + h)) by lia.
  set (ex := if bs_width s <? x + w then _ else _). set (ey := if bs_height s <? y + h then _ else _).
  assert (Hex : x ≤ ex ≤ bs_width s) by (unfold ex; zcase; lia).
  assert (Hey : ey ≤ bs_height s) by (unfold ey; zcase; lia).
  destruct (_ && _) eqn:E.
  - apply andb_prop in E as [E E5]. apply andb_prop in E as [E E4]. apply andb_prop in E as [E E3].
    apply Z.eqb_eq in E4, E5. clear E E3. apply upto_only. intros yy m1 Hyy.
    destruct Hg as [Ha (Hfw & Hfh & Hpi) Hi He _]. set (st := fb_pitch g / 4).
    assert (Hst : fb_width g ≤ st ∧ 4 * st ≤ fb_pitch g) by (unfold st; dlia).
    assert (Hr : 0 ≤ yy * st ∧ yy * st + st ≤ st * fb_height g).
    { assert (H0 : 0 ≤ st ∧ 0 ≤ yy ∧ yy + 1 ≤ fb_height g) by lia. clear -H0. nia. }
    pose proof (stride_bound st (fb_pitch g) (fb_height g) (proj2 Hst) ltac:(lia)) as Hb.
    destruct (Z.eq_dec ex x) as [Exx|Hnx].
    { rewrite Exx, Z.sub_diag. done. }
    rewrite (u32_small (yy * st + x)), (u32_small (ex - x)) by lia.
    eapply only_mono; [|apply memcpy_only; unfold cell; lia]. unfold fb_area, span, cell. intros. lia.
  - apply upto_only. intros yy m1 _. apply upto_only. intros xx m2 _.
    apply putpixel_only; apply u32_range.
Qed.

Lemma bs_flush_only s m : screen_ok s → only (fb_area g) m (bs_flush g m s).
Proof.
  intros Hs. pose proof (so_size _ Hs) as (Hw & Hh & _). by apply bs_flush_rect_only; try lia.
Qed.

(** Filling cells of the back buffer. *)
Lemma fill_only s m p a n color : screen_ok s → p = cell (pixels s) a → 0 ≤ a →
  a + n ≤ bs_width s * bs_height s → only (pixel_area s) m (upto 0 n (λ i m, st32 m (cell p i) color) m).
Proof.
  intros Hs -> Ha Hn. apply upto_only. intros i m1 Hi. eapply only_mono; [|apply st32_only].
  unfold pixel_area, span, cell. intros. lia.
Qed.

Definition both_areas s (a : Z) : Prop := fb_area g a ∨ pixel_area s a.

Lemma bs_clear_area_only s m : screen_ok s → only (both_areas s) m (bs_clear_area g m s).
Proof.
  intros Hs. unfold bs_clear_area. destruct (pixels s =? 0); [done|]. eapply only_trans.
  - eapply only_mono; [|apply (fill_only s m (pixels s) 0 (pixel_count s) black Hs)]; [by right|unfold cell; lia|done|].
    rewrite (so_count _ Hs). lia.
  - eapply only_mono; [|by apply bs_flush_only]. by left.
Qed.

Lemma bs_scroll_only s m : screen_ok s →
  only (both_areas s) m (bs_scroll g m s).1 ∧
  same_screen s (bs_scroll g m s).2 ∧ buf_len (bs_scroll g m s).2 = buf_len s ∧
  bs_cursor_x (bs_scroll g m s).2 = 0 ∧ 0 ≤ bs_cursor_y (bs_scroll g m s).2 ≤ bs_height s.
Proof.
  intros Hs. pose proof (so_size _ Hs) as (Hw & Hh & Hwh). unfold bs_scroll.
  pose proof (fo_scale _ Hg) as Hsc. rewrite u32_small by lia. set (lh := _ + _).
  assert (Hlh : 10 ≤ lh ≤ 40) by (unfold lh; lia).
  destruct (Z.leb_spec (bs_height s) lh).
  { rewrite orb_true_r. cbn [fst snd set_cursor bs_cursor_x bs_cursor_y buf_len].
    split; [by apply bs_clear_area_only|]. split_and!; done || lia. }
  rewrite orb_false_r. destruct (pixels s =? 0).
  { cbn [fst snd set_cursor bs_cursor_x bs_cursor_y buf_len].
    split; [by apply bs_clear_area_only|]. split_and!; done || lia. }
  cbn [fst snd set_cursor bs_cursor_x bs_cursor_y buf_len]. rewrite !(u32_small (bs_height s - lh)) by lia.
  split; [|split_and!; try done; lia]. set (k := bs_height s - lh).
  assert (Hk : 0 ≤ k * bs_width s ∧ lh * bs_width s + k * bs_width s = bs_width s * bs_height s ∧
    0 ≤ lh * bs_width s) by (unfold k; nia).
  pose proof (so_pixels _ Hs) as [Hp1 Hp2].
  pose proof (λ m, fill_only s m (cell (pixels s) (k * bs_width s)) (k * bs_width s) (lh * bs_width s) black Hs eq_refl) as Hfill.
  assert (Hmm : ∀ m n, 0 ≤ n → n ≤ bs_width s * bs_height s → only (pixel_area s) m
    (memmove m (pixels s) (cell (pixels s) (u32 (lh * bs_width s))) (n * 4))).
  { clear -Hp1 Hp2. intros m0 n H1 H2. eapply only_mono; [|apply memmove_only; lia].
    unfold pixel_area, span. intros. lia. }
  rewrite (u32_small (k * bs_width s)) by lia.
  eapply only_trans; [|eapply only_mono; [|by apply bs_flush_only]; by left].
  eapply only_mono; [by right|]. eapply only_trans; [apply (Hmm _ (k * bs_width s)); lia|].
  rewrite (u32_small (lh * bs_width s)) by lia. apply Hfill; lia.
Qed.

(** The part of [screen_putchar] before scrolling. *)
Lemma place_char s m c color lh cw : screen_ok s → 0 ≤ c < 132 → 0 ≤ lh ≤ 40 → 0 ≤ cw ≤ 32 →
  returns (if c =? NEWLINE then Ret (m, set_cursor s 0 (u32 (bs_cursor_y s + lh))) else
    let s := if bs_width s <=? u32 (bs_cursor_x s + cw)
             then set_cursor s 0 (u32 (bs_cursor_y s + lh)) else s in
    m ← bs_draw_glyph g m s c color;
    let m := bs_flush_rect g m s (bs_cursor_x s) (bs_cursor_y s) cw cw in
    Ret (m, set_cursor s (u32 (bs_cursor_x s + cw)) (bs_cursor_y s))) (λ '(m', s'),
    only (both_areas s) m m' ∧ same_screen s s' ∧ buf_len s' = buf_len s ∧
    0 ≤ bs_cursor_x s' ≤ bs_width s + 32 ∧ 0 ≤ bs_cursor_y s' ≤ bs_height s + 40).
Proof.
  intros Hs Hc Hlh Hcw. pose proof (so_size _ Hs) as (Hw & Hh & Hwh).
  pose proof (so_cursor _ Hs) as [Hx Hy]. rewrite !(u32_small (bs_cursor_y s + lh)) by lia.
  destruct (c =? NEWLINE); [cbn; split_and!; try done; lia|].
  rewrite (u32_small (bs_cursor_x s + cw)) by lia.
  set (s1 := if bs_width s <=? _ then set_cursor s 0 _ else s).
  assert (Hs1 : same_screen s s1 ∧ buf_len s1 = buf_len s ∧ 0 ≤ bs_cursor_x s1 ≤ bs_width s ∧
    bs_cursor_x s1 + cw ≤ bs_width s + 32 ∧ 0 ≤ bs_cursor_y s1 ≤ bs_height s + 40).
  { unfold s1. zcase; cbn; (split; [done|]); lia. }
  destruct Hs1 as (Hsame & Hlen & Hx1 & Hx2 & Hy1).
  destruct Hsame as (S1 & S2 & S3 & S4 & S5 & S6 & S7 & S8).
  assert (Hdraw : ∀ m c color, 0 ≤ c < 132 →
    returns (bs_draw_glyph g m s1 c color) (λ m', only (pixel_area s) m m') ∧
    ∀ m, only (fb_area g) m (bs_flush_rect g m s1 (bs_cursor_x s1) (bs_cursor_y s1) cw cw)).
  { intros m0 c0 color0 Hc0. split.
    - unfold bs_draw_glyph. destruct (lookupZ_is_some font_8x8 c0 Hc0) as [gl ->].
      cbn [deref]. rewrite bind_Ret. apply upto_only. intros dy m1 _. apply upto_only. intros dx m2 _.
      destruct (negb _); [done|]. apply upto_only. intros sy m3 _. apply upto_only. intros sx m4 _.
      assert (E : ∀ x y, bs_setpixel m4 s1 x y color0 = bs_setpixel m4 s x y color0).
      { intros. unfold bs_setpixel. by rewrite S2, S3, S4. }
      rewrite E. apply bs_setpixel_only; [done|apply u32_range|apply u32_range].
    - intros m1. assert (E : ∀ x y w h, bs_flush_rect g m1 s1 x y w h = bs_flush_rect g m1 s x y w h).
      { intros. unfold bs_flush_rect. by rewrite S2, S3, S4, S5, S6. }
      rewrite E. apply bs_flush_rect_only; try done; lia. }
  cbv zeta. destruct (proj1 (returns_iff _ _) (proj1 (Hdraw m c color Hc))) as (m1 & -> & Ho). rewrite bind_Ret.
  cbn [returns set_cursor bs_cursor_x bs_cursor_y buf_len]. split.
  - eapply only_trans; [eapply only_mono; [|exact Ho]; by right|].
    eapply only_mono; [|by apply (Hdraw m c color Hc)]. by left.
  - rewrite u32_small by lia. split; [done|]. split; [done|]. lia.
Qed.
(** Printing a character of the font on a screen. *)
Lemma same_screen_ok s s' : screen_ok s → same_screen s s' → 0 ≤ buf_len s' < BS_BUF_SIZE →
  0 ≤ bs_cursor_x s' ≤ bs_width s + 32 → 0 ≤ bs_cursor_y s' ≤ bs_height s → screen_ok s'.
Proof.
  intros [] (E1 & E2 & E3 & E4 & E5 & E6 & E7 & E8) Hl Hx Hy.
  split; rewrite ?E2, ?E3, ?E4, ?E7; done.
Qed.

Definition logged s m c m' s' : Prop :=
  if negb (visible s =? 0) && negb (bs_buffer s =? 0) && (buf_len s <? BS_BUF_SIZE - 1) then
    m' = st8 (st8 m (bs_buffer s + buf_len s) c) (bs_buffer s + (buf_len s + 1)) 0 ∧
    buf_len s' = buf_len s + 1
  else m' = m ∧ buf_len s' = buf_len s.
Lemma screen_putchar_steps s m c color : screen_ok s → 0 ≤ c < 132 →
  returns (screen_putchar g m s c color) (λ '(m', s'),
    same_screen s s' ∧ screen_ok s' ∧ ∃ m1, only (both_areas s) m m1 ∧ logged s m1 c m' s').
Proof.
  intros Hs Hc. unfold screen_putchar, logged. destruct (visible s =? 0); [cbn; split; [done|]; split; [done|]; by exists m|].
  pose proof (fo_scale _ Hg) as Hsc. rewrite !(u32_small (8 * font_scale g)) by lia.
  rewrite (u32_small (8 * font_scale g + _)) by lia. set (lh := _ + _). set (cw := 8 * font_scale g) in *.
  assert (Hlh : 10 ≤ lh ≤ 40 ∧ 0 ≤ cw ≤ 32) by (unfold lh, cw; lia).
  cbv zeta. apply returns_bind. eapply returns_mono; [apply (place_char s m c color lh cw); try done; lia|].
  intros [m1 s1] (Ho & Hsame & Hlen & Hx & Hy).
  pose proof (so_size _ Hs) as (Hw & Hh & _). pose proof (so_len _ Hs) as Hl.
  pose proof Hsame as (E1 & E2 & E3 & E4 & _).
  rewrite (u32_small (bs_cursor_y s1 + lh)), E3 by lia.
  set (st := if bs_height s <=? bs_cursor_y s1 + lh then bs_scroll g m1 s1 else (m1, s1)).
  assert (Hst : only (both_areas s) m1 st.1 ∧ same_screen s st.2 ∧ buf_len st.2 = buf_len s ∧ screen_ok st.2).
  { unfold st. destruct (Z.leb_spec (bs_height s) (bs_cursor_y s1 + lh)) as [Hge|Hlt].
    - change (bs_scroll g m1 s1) with (bs_scroll g m1 (set_cursor s1 0 0)).
      assert (Hok1 : screen_ok (set_cursor s1 0 0)).
      { apply (same_screen_ok s); try done; cbn; lia. }
      pose proof (bs_scroll_only (set_cursor s1 0 0) m1 Hok1) as (G1 & G2 & G3 & G4 & G5).
      assert (Hss : same_screen s (bs_scroll g m1 (set_cursor s1 0 0)).2).
      { destruct G2 as (G21 & G22 & G23 & G24 & G25 & G26 & G27 & G28).
        destruct Hsame as (S1 & S2 & S3 & S4 & S5 & S6 & S7 & S8).
        cbn in G21, G22, G23, G24, G25, G26, G27, G28. by split_and!; etrans. }
      split; [|split; [done|]].
      + eapply only_mono; [|exact G1]. unfold both_areas, pixel_area. cbn. rewrite E2, E3, E4. done.
      + split; [rewrite G3; exact Hlen|]. cbn in G3, G5. apply (same_screen_ok s); try done; lia.
    - cbn. split; [done|]. split; [done|]. split; [done|]. apply (same_screen_ok s); try done; lia. }
  clearbody st. destruct st as [m2 s2]. cbn [fst snd] in Hst. destruct Hst as (Ho2 & Hsame2 & Hlen2 & Hok2).
  assert (Ho12 : only (both_areas s) m m2) by (by eapply only_trans).
  pose proof Hsame2 as (F1 & _). rewrite F1, Hlen2. cbn [negb andb].
  destruct (negb _ && _) eqn:Eb; [|cbn; split; [done|]; split; [done|]; by exists m2].
  apply andb_prop in Eb as [_ Hlt%Z.ltb_lt]. cbn [returns buf_len bs_buffer set_buf_len].
  rewrite u32_small by (unfold BS_BUF_SIZE in *; lia). rewrite F1.
  split; [done|]. split; [|by exists m2].
  eapply same_screen_ok; [done|done|..]; cbn; unfold BS_BUF_SIZE in *; try lia; apply Hok2.
Qed.

Lemma logged_only s m c m' s' : screen_ok s → logged s m c m' s' → only (log_area s) m m'.
Proof.
  intros Hs Hl. unfold logged in Hl. destruct (_ && _) eqn:Eb; [|by destruct Hl as [-> _]].
  apply andb_prop in Eb as [_ Hlt%Z.ltb_lt]. destruct Hl as [-> _]. pose proof (so_len _ Hs).
  eapply only_trans; (eapply only_mono; [|apply st8_only]); unfold log_area, span, BS_BUF_SIZE in *; intros; lia.
Qed.
End bounds.

(** Storing the screen back, when only the cursor and the log length changed. *)
Lemma put_screen_put g i s s' : put_screen (put_screen g i s) i s' = put_screen g i s'.
Proof.
  unfold put_screen, set_screens. cbn. f_equal. unfold updateZ. destruct (i <? 0); [done|].
  apply list_insert_insert_eq.
Qed.
Lemma put_screen_id g i s : lookupZ (screens g) i = Some s → put_screen g i s = g.
Proof.
  destruct g as [? ? ? ? ? ? ? ? ss ?]. unfold put_screen, set_screens, lookupZ, updateZ. cbn.
  destruct (i <? 0); [done|]. intros Hl. by rewrite list_insert_id.
Qed.
Lemma get_put_screen g i s s' : lookupZ (screens g) i = Some s →
  lookupZ (screens (put_screen g i s')) i = Some s'.
Proof. intros Hl%lookupZ_some. by apply lookupZ_updateZ_eq. Qed.
Lemma same_screen_refl s : same_screen s s.
Proof. done. Qed.
Lemma same_screen_trans s1 s2 s3 : same_screen s1 s2 → same_screen s2 s3 → same_screen s1 s3.
Proof.
  intros (E1 & E2 & E3 & E4 & E5 & E6 & E7 & E8) (F1 & F2 & F3 & F4 & F5 & F6 & F7 & F8).
  by split_and!; etrans.
Qed.
Lemma fb_ok_put g i s : fb_ok g → fb_ok (put_screen g i s).
Proof. intros []. by split. Qed.

(** The text that is in the log buffer of [s]: its first [buf_len] bytes and
    the terminator. *)
Definition log_text (m : ram) (s : bs_screen) (text : list Z) : Prop :=
  Z.of_nat (length text) = buf_len s ∧
  (∀ i c, lookupZ text i = Some c → ld8 m (bs_buffer s + i) = c) ∧
  ld8 m (bs_buffer s + buf_len s) = 0.
(** The log buffer lies outside what is drawn on. *)
Definition log_apart (g : gfx) (s : bs_screen) : Prop :=
  bs_buffer s ≠ 0 ∧ ∀ a, log_area s a → ¬ both_areas g s a.

Lemma log_text_step g s m m1 c m' s' text : screen_ok s → same_screen s s' → log_apart g s →
  visible s ≠ 0 → only (both_areas g s) m m1 → logged s m1 c m' s' → 0 ≤ c < 256 →
  Z.of_nat (length text) + 1 < BS_BUF_SIZE → log_text m s text → log_text m' s' (text ++ [c]).
Proof.
  intros Hs Hsame [Hb Hap] Hv Ho Hl Hc Hlen (Ht1 & Ht2 & Ht3). unfold logged in Hl.
  rewrite (proj2 (Z.eqb_neq _ _) Hv), (proj2 (Z.eqb_neq _ _) Hb) in Hl.
  rewrite (proj2 (Z.ltb_lt _ _)) in Hl by lia. cbn [negb andb] in Hl. destruct Hl as [-> El].
  destruct Hsame as (E1 & _). unfold log_text. rewrite E1, El, length_app. cbn [length].
  split; [lia|]. split; [|by rewrite ld8_st8, Z.eqb_refl].
  intros i x Hi. rewrite !ld8_st8. pose proof (lookupZ_some _ _ _ Hi) as Hr. rewrite length_app in Hr. cbn in Hr.
  zcase; [lia|]. destruct (Z.eqb_spec (bs_buffer s + i) (bs_buffer s + buf_len s)) as [Ei|Ei].
  - assert (i = Z.of_nat (length text)) as -> by lia. unfold lookupZ in Hi.
    destruct (_ <? 0); [done|]. rewrite Nat2Z.id, lookup_app_r, Nat.sub_diag in Hi by lia. cbn in Hi.
    injection Hi as <-. unfold u8. by rewrite Z.mod_small.
  - rewrite Ho. { apply Ht2. unfold lookupZ in *. destruct (i <? 0); [done|]. rewrite lookup_app_l in Hi by lia. done. }
    apply Hap. unfold log_area, span. lia.
Qed.

(** Output of a character stays in range and keeps the screen well formed. *)
Lemma bs_putchar_spec g m s c color : fb_ok g → lookupZ (screens g) (active_screen g) = Some s →
  screen_ok s → 0 ≤ c < 132 →
  returns (bs_putchar g m c color) (λ '(m', g'), ∃ s' m1, g' = put_screen g (active_screen g) s' ∧
    same_screen s s' ∧ screen_ok s' ∧ only (both_areas g s) m m1 ∧ logged s m1 c m' s').
Proof.
  intros Hg Hl Hs Hc. unfold bs_putchar, get_screen. rewrite Hl. cbn [deref]. rewrite bind_Ret.
  apply returns_bind. eapply returns_mono; [by apply screen_putchar_steps|].
  intros [m' s'] (? & ? & m1 & ? & ?). cbn. by exists s', m1.
Qed.

Lemma bs_print_step g m s str color : fb_ok g → lookupZ (screens g) (active_screen g) = Some s →
  screen_ok s → Forall (λ c, 0 ≤ c < 132) str →
  returns (bs_print g m str color) (λ '(m', g'), ∃ s', g' = put_screen g (active_screen g) s' ∧
    same_screen s s' ∧ screen_ok s' ∧ only (screen_area g s) m m' ∧
    ∀ text, visible s ≠ 0 → log_apart g s → log_text m s text →
      Z.of_nat (length text + length str) < BS_BUF_SIZE → log_text m' s' (text ++ str)).
Proof.
  intros Hg Hl Hs Hstr. revert g m s Hg Hl Hs. induction Hstr as [|c str Hc Hstr IH]; intros g m s Hg Hl Hs; cbn [bs_print].
  { exists s. rewrite put_screen_id by done. split_and!; try done. intros text. by rewrite app_nil_r. }
  apply returns_bind. eapply returns_mono; [by apply bs_putchar_spec|].
  intros [m1 g1] (s1 & m0 & -> & Hss & Hok & Ho & Hlog).
  eapply returns_mono; [apply (IH _ m1 s1); [by apply fb_ok_put|by eapply get_put_screen|done]|].
  intros [m2 g2] (s2 & -> & Hss2 & Hok2 & Ho2 & Hlog2). exists s2. rewrite put_screen_put.
  split; [done|]. split; [by eapply same_screen_trans|]. split; [done|]. split.
  - eapply only_trans; [eapply only_mono; [|exact Ho]; intros a [?|?]; unfold screen_area; tauto|].
    eapply only_trans; [eapply only_mono; [|exact (logged_only s m0 c m1 s1 Hs Hlog)]; unfold screen_area; tauto|].
    eapply only_mono; [|exact Ho2]. intros a. apply (same_screen_area g s s1 Hss).
  - intros text Hv Hap Ht Hlen. cbn [length] in Hlen.
    replace (text ++ c :: str) with ((text ++ [c]) ++ str) by (by rewrite <- app_assoc).
    pose proof Hss as (E1 & E2 & E3 & E4 & _ & _ & _ & E8). apply Hlog2.
    + by rewrite E8.
    + destruct Hap as [Hb Hap]. split; [by rewrite E1|]. intros a. specialize (Hap a).
      unfold log_area, both_areas, pixel_area in *. by rewrite E1, E2, E3, E4.
    + eapply (log_text_step g s m m0 c m1 s1); try done; lia.
    + rewrite length_app. cbn. lia.
Qed.

(** C28. Printing text of the font on the active screen ends, writes nothing but
    the framebuffer, the screen's back buffer and its log buffer, whatever the
    text, the cursor and the scrolling do, leaves a well-formed screen of the
    same place and size, and, while the log buffer has room, appends the text to
    the log as a terminated string. *)
Theorem bs_print_spec g m s str color : fb_ok g → lookupZ (screens g) (active_screen g) = Some s →
  screen_ok s → Forall (λ c, 0 ≤ c < 132) str →
  returns (bs_print g m str color) (λ '(m', g'), ∃ s', g' = put_screen g (active_screen g) s' ∧
    same_screen s s' ∧ screen_ok s' ∧ only (screen_area g s) m m' ∧
    ∀ text, visible s ≠ 0 → log_apart g s → log_text m s text →
      Z.of_nat (length text + length str) < BS_BUF_SIZE → log_text m' s' (text ++ str)).
Proof. apply bs_print_step. Qed.

(** A character outside the font makes a visible screen read past its end. *)
Theorem bs_putchar_outside_font g m s c color : lookupZ (screens g) (active_screen g) = Some s →
  visible s ≠ 0 → 132 ≤ c < 256 → bs_putchar g m c color = Undef.
Proof.
  intros Hl Hv Hc. unfold bs_putchar, get_screen, screen_putchar. rewrite Hl. cbn [deref]. rewrite bind_Ret.
  rewrite (proj2 (Z.eqb_neq _ _) Hv), (proj2 (Z.eqb_neq c NEWLINE)) by (unfold NEWLINE; lia).
  cbv zeta. unfold bs_draw_glyph. rewrite (lookupZ_none font_8x8 c); [done|]. right. cbn. lia.
Qed.

(** ** The layout *)

(** A visible screen with its buffers, inside the framebuffer of [g]. *)
Definition placed `{ScreenBuffers} (g : gfx) (i x y w h : Z) (s : bs_screen) : Prop :=
  lookupZ (screens g) i = Some s ∧ visible s = 1 ∧ bs_buffer s = bs_buf i ∧
  bs_x s = x ∧ bs_y s = y ∧ bs_width s = w ∧ 0 ≤ bs_height s ≤ h ∧
  (0 < w → w * h ≤ BS_MAX_PIXELS → bs_height s = h) ∧ bs_width s * bs_height s ≤ BS_MAX_PIXELS ∧
  pixel_count s = bs_width s * bs_height s ∧ bs_cursor_x s = 0 ∧ bs_cursor_y s = 0.

Lemma bs_size_clamp_spec w h : 0 ≤ w → 0 ≤ h → ∃ h', bs_size_clamp w h = (w, h') ∧
  0 ≤ h' ≤ h ∧ (0 < w → w * h ≤ BS_MAX_PIXELS → h' = h) ∧ 0 ≤ w * h' ≤ BS_MAX_PIXELS.
Proof.
  intros Hw Hh. unfold bs_size_clamp. destruct (Z.eqb_spec w 0) as [->|Hn].
  { exists 0. unfold BS_MAX_PIXELS. split; [done|]. lia. }
  destruct (Z.leb_spec (w * h) BS_MAX_PIXELS).
  - exists h. split; [done|]. nia.
  - exists (BS_MAX_PIXELS / w). assert (0 < w) by lia.
    pose proof (Z.mul_div_le BS_MAX_PIXELS w ltac:(lia)).
    pose proof (Z.div_pos BS_MAX_PIXELS w ltac:(by unfold BS_MAX_PIXELS) ltac:(lia)).
    split; [done|]. split; [|split; [lia|nia]]. split; [done|].
    apply Z.lt_le_incl, Z.div_lt_upper_bound; lia.
Qed.

Lemma bs_setup_screen_spec g i s pix buf x y w h : lookupZ (screens g) i = Some s →
  0 ≤ w < 2 ^ 32 → 0 ≤ h < 2 ^ 32 → ∃ h', bs_setup_screen g i pix buf x y w h =
    Ret (put_screen g i (Screen buf (buf_len s) 0 0 x y w h' (visible s) pix (w * h') 0)) ∧
    0 ≤ h' ≤ h ∧ (0 < w → w * h ≤ BS_MAX_PIXELS → h' = h) ∧ 0 ≤ w * h' ≤ BS_MAX_PIXELS.
Proof.
  intros Hl Hw Hh. destruct (bs_size_clamp_spec w h ltac:(lia) ltac:(lia)) as (h' & E & Hr & He & Hm).
  exists h'. split; [|done]. unfold bs_setup_screen, get_screen. rewrite Hl. cbn [deref].
  rewrite bind_Ret, E, u32_small; [done|]. unfold BS_MAX_PIXELS in *. lia.
Qed.
Lemma bs_screens_visible_spec g i s on : lookupZ (screens g) i = Some s → 0 ≤ i < 4 →
  bs_screens_visible g i on = Ret (put_screen g i (set_visible s on)).
Proof.
  intros Hl Hi. unfold bs_screens_visible, screen_id_ok, get_screen, BS_COUNT.
  rewrite (proj2 (Z.ltb_ge i 0)), (proj2 (Z.leb_gt 4 i)) by lia. cbn [orb negb]. by rewrite Hl.
Qed.

(** With the screens given one by one, a store replaces one of them. *)
Lemma put_screen_lists fb fw fh pi bpp sz ph sc act i a b c d s : 0 ≤ i < 4 →
  put_screen (Gfx fb fw fh pi bpp sz ph sc [a; b; c; d] act) i s =
  Gfx fb fw fh pi bpp sz ph sc
    [if i =? 0 then s else a; if i =? 1 then s else b; if i =? 2 then s else c; if i =? 3 then s else d] act.
Proof.
  intros Hi. unfold put_screen, set_screens. cbn [screens framebuffer fb_width fb_height fb_pitch fb_bpp
    fb_size fb_phys_addr font_scale active_screen]. f_equal.
  assert (i = 0 ∨ i = 1 ∨ i = 2 ∨ i = 3) as [-> | [-> | [-> | ->]]] by lia; done.
Qed.

Section layout_proofs.
Context `{ScreenBuffers}.

(** The layout: all four screens are visible, get their own log buffers,
    start with the cursor at the origin and never hold more pixels than their
    static buffers; screens 1, 2 and 4 tile the two halves of the framebuffer
    without overlapping, screen 3 covers it, and screen 1 is the one that
    receives output. *)
Theorem bootscreen_layout_spec (g : gfx) : length (screens g) = 4%nat →
  0 ≤ fb_width g < 2 ^ 32 → 0 ≤ fb_height g < 2 ^ 32 →
  returns (bootscreen_layout_init g) (λ g', ∃ s1 s2 s3 s4,
    let half := fb_width g / 2 in let mid := fb_height g / 2 in
    screens g' = [s1; s2; s3; s4] ∧ active_screen g' = BS1 ∧
    placed g' BS1 0 0 half (fb_height g) s1 ∧ placed g' BS2 half 0 half mid s2 ∧
    placed g' BS3 0 0 (fb_width g) (fb_height g) s3 ∧ placed g' BS4 half mid half (fb_height g - mid) s4 ∧
    pixels s1 = bs_pix BS1 ∧ pixels s2 = bs_pix BS2 ∧ pixels s3 = 0 ∧ pixels s4 = bs_pix BS4 ∧
    bs_x s1 + bs_width s1 ≤ bs_x s2 ∧ bs_x s2 + bs_width s2 ≤ fb_width g ∧
    bs_y s2 + bs_height s2 ≤ bs_y s4 ∧ bs_y s4 + bs_height s4 ≤ fb_height g).
Proof.
  destruct g as [fb fw fh pi bpp sz ph sc ss act]. cbn [screens fb_width fb_height].
  destruct ss as [|a [|b [|c [|d [|]]]]]; try done. intros _ Hw Hh.
  set (half := fw / 2). set (mid := fh / 2).
  assert (Hd : 0 ≤ half ∧ 2 * half ≤ fw ∧ 0 ≤ mid ∧ 2 * mid ≤ fh) by (unfold half, mid; dlia).
  unfold bootscreen_layout_init. cbn [fb_width fb_height]. fold half mid. clearbody half mid.
  rewrite (bs_screens_visible_spec _ _ a), bind_Ret, put_screen_lists by done. cbn [Z.eqb Pos.eqb BS1].
  rewrite (bs_screens_visible_spec _ _ b), bind_Ret, put_screen_lists by done. cbn [Z.eqb Pos.eqb BS2].
  rewrite (bs_screens_visible_spec _ _ c), bind_Ret, put_screen_lists by done. cbn [Z.eqb Pos.eqb BS3].
  rewrite (bs_screens_visible_spec _ _ d), bind_Ret, put_screen_lists by done. cbn [Z.eqb Pos.eqb BS4].
  destruct (bs_setup_screen_spec (Gfx fb fw fh pi bpp sz ph sc [set_visible a 1; set_visible b 1;
    set_visible c 1; set_visible d 1] act) BS1 _ (bs_pix BS1) (bs_buf BS1) 0 0 half fh eq_refl
    ltac:(lia) ltac:(lia)) as (h1 & -> & R1 & S1 & M1).
  rewrite bind_Ret, put_screen_lists by done. cbn [Z.eqb Pos.eqb BS1 visible buf_len set_visible].
  match goal with |- context [bs_setup_screen ?g BS2 _ _ _ _ _ _] =>
    destruct (bs_setup_screen_spec g BS2 _ (bs_pix BS2) (bs_buf BS2) half 0 half mid eq_refl
      ltac:(lia) ltac:(lia)) as (h2 & -> & R2 & S2 & M2) end.
  rewrite bind_Ret, put_screen_lists by done. cbn [Z.eqb Pos.eqb BS2 visible buf_len set_visible].
  match goal with |- context [bs_setup_screen ?g BS3 _ _ _ _ _ _] =>
    destruct (bs_setup_screen_spec g BS3 _ 0 (bs_buf BS3) 0 0 fw fh eq_refl
      ltac:(lia) ltac:(lia)) as (h3 & -> & R3 & S3 & M3) end.
  rewrite bind_Ret, put_screen_lists by done. cbn [Z.eqb Pos.eqb BS3 visible buf_len set_visible].
  match goal with |- context [bs_setup_screen ?g BS4 _ _ _ _ _ _] =>
    destruct (bs_setup_screen_spec g BS4 _ (bs_pix BS4) (bs_buf BS4) half mid half (fh - mid) eq_refl
      ltac:(lia) ltac:(lia)) as (h4 & -> & R4 & S4 & M4) end.
  rewrite bind_Ret, put_screen_lists by done. cbn [Z.eqb Pos.eqb BS4 visible buf_len set_visible].
  unfold bs_switch_screen. cbn [screen_id_ok BS1 BS_COUNT Z.ltb Z.leb Z.compare orb negb set_screens screens returns].
  do 4 eexists. split; [reflexivity|]. split; [reflexivity|]. unfold placed.
  split_and!; first [reflexivity | assumption | cbn -[Z.mul BS_MAX_PIXELS]; lia].
Qed.
End layout_proofs.

(** ** Lines *)

Section line.
Context (g : gfx) (x1 y1 dx dy sx sy color : Z).

(** The loop of [draw_line], from pixel [(x0, y0)]. *)
Fixpoint draw_line_loop (fuel : nat) (m : ram) (x0 y0 err : Z) : res ram :=
  match fuel with
  | O => NoFuel
  | S fuel =>
    let m := putpixel g m x0 y0 color in
    if (x0 =? x1) && (y0 =? y1) then Ret m else
    let e2 := i32 (2 * err) in
    let '(err, x0) := if i32 (- dy) <? e2 then (i32 (err - dy), u32 (x0 + sx)) else (err, x0) in
    let '(err, y0) := if e2 <? dx then (i32 (err + dx), u32 (y0 + sy)) else (err, y0) in
    draw_line_loop fuel m x0 y0 err
  end.
End line.

Definition draw_line (g : gfx) (fuel : nat) (m : ram) (x0 y0 x1 y1 color : Z) : res ram :=
  let dx := i32 (x1 - x0) in
  let dy := i32 (y1 - y0) in
  let dx := if dx <? 0 then i32 (- dx) else dx in
  let dy := if dy <? 0 then i32 (- dy) else dy in
  let sx := if x0 <? x1 then 1 else -1 in
  let sy := if y0 <? y1 then 1 else -1 in
  draw_line_loop g x1 y1 dx dy sx sy color fuel m x0 y0 (i32 (dx - dy)).

(** A path of pixels from [p] to [q], each next to the one before. *)
Definition adjacent (p q : Z * Z) : Prop := Z.abs (q.1 - p.1) ≤ 1 ∧ Z.abs (q.2 - p.2) ≤ 1 ∧ q ≠ p.
Inductive path (q : Z * Z) : Z * Z → list (Z * Z) → Prop :=
| path_end : path q q [q]
| path_step p p' l : adjacent p p' → path q p' l → path q p (p :: l).
Definition plot (g : gfx) (m : ram) (color : Z) (l : list (Z * Z)) : ram :=
  foldl (λ m '(x, y), putpixel g m x y color) m l.

(** What a run of the loop from [(x0, y0)] gives: a path of [n] steps. *)
Definition draws g x1 y1 dx dy sx sy color (n : nat) (x0 y0 err : Z) : Prop :=
  ∃ l, length l = S n ∧ path (x1, y1) (x0, y0) l ∧
    ∀ fuel m, (n < fuel)%nat → draw_line_loop g x1 y1 dx dy sx sy color fuel m x0 y0 err = Ret (plot g m color l).

Lemma draws_end g x1 y1 dx dy sx sy color err : draws g x1 y1 dx dy sx sy color 0 x1 y1 err.
Proof.
  exists [(x1, y1)]. split; [done|]. split; [constructor|]. intros [|fuel] m Hf; [lia|].
  cbn [draw_line_loop]. by rewrite !Z.eqb_refl.
Qed.

(** One step, with the next position and error term. *)
Lemma draws_step g x1 y1 dx dy sx sy color n x0 y0 err x0' y0' err' : (x0, y0) ≠ (x1, y1) →
  Z.abs err < 2 ^ 30 → 0 ≤ dx < 2 ^ 30 → 0 ≤ dy < 2 ^ 30 →
  x0' = (if - dy <? 2 * err then x0 + sx else x0) → y0' = (if 2 * err <? dx then y0 + sy else y0) →
  err' = (err - (if - dy <? 2 * err then dy else 0)) + (if 2 * err <? dx then dx else 0) →
  Z.abs err' < 2 ^ 30 → 0 ≤ x0' < 2 ^ 32 → 0 ≤ y0' < 2 ^ 32 → adjacent (x0, y0) (x0', y0') →
  draws g x1 y1 dx dy sx sy color n x0' y0' err' → draws g x1 y1 dx dy sx sy color (S n) x0 y0 err.
Proof.
  intros Hne He Hdx Hdy Ex Ey Ee He' Hx Hy Hadj (l & Hl & Hp & Hrun). exists ((x0, y0) :: l).
  split; [cbn; lia|]. split; [by econstructor|]. intros [|fuel] m Hf; [lia|]. cbn [draw_line_loop].
  destruct (Z.eqb_spec x0 x1) as [->|], (Z.eqb_spec y0 y1) as [->|]; try done; cbn [andb];
  rewrite (i32_small (2 * err)), (i32_small (- dy)) by lia;
  (destruct (- dy <? 2 * err), (2 * err <? dx); subst x0' y0' err'; rewrite ?(i32_small (_ - _)), ?(i32_small (_ + _)),
    ?u32_small by lia; rewrite ?Z.sub_0_r, ?Z.add_0_r in Hrun; apply (Hrun fuel); lia).
Qed.

(** The error term of the longer axis keeps to a band that pins the pixels left
    on the other axis: [p] steps are left of [dx], [q] of [dy]. *)
Definition band (dx dy p q err : Z) : Prop :=
  err = dx - dy - q * dx + p * dy ∧ - dy < 2 * err < 3 * dx - 2 * dy.
Lemma band_left dx dy p q err : 0 ≤ dy ≤ dx → 0 < dx → 0 ≤ p → band dx dy p q err → 0 ≤ q.
Proof. intros H1 H2 Hp [-> Hb]. destruct (Z_lt_le_dec q 0); [exfalso|done]. nia. Qed.
Lemma band_done dx dy q err : 0 ≤ dy ≤ dx → 0 < dx → band dx dy 0 q err → q = 0.
Proof. intros H1 H2 [-> Hb]. assert (- 1 < q < 1) by (split; nia). lia. Qed.
Lemma band_step dx dy p q err : 0 ≤ dy ≤ dx → band dx dy p q err →
  - dy < 2 * err ∧
  band dx dy (p - 1) (if 2 * err <? dx then q - 1 else q) (err - dy + (if 2 * err <? dx then dx else 0)).
Proof.
  intros H1 [He Hb]. split; [lia|]. unfold band. assert (E : (p - 1) * dy = p * dy - dy ∧ (q - 1) * dx = q * dx - dx) by lia.
  destruct E as [E1 E2]. destruct (Z.ltb_spec (2 * err) dx); rewrite ?E1, ?E2; clear E1 E2; lia.
Qed.

Lemma draws_wide g x1 y1 dx dy sx sy color : 0 ≤ dy ≤ dx → 0 < dx < 2 ^ 28 → sx = 1 ∨ sx = -1 → sy = 1 ∨ sy = -1 →
  0 ≤ x1 < 2 ^ 28 → 0 ≤ y1 < 2 ^ 28 → ∀ p x0 y0 q err, 0 ≤ x0 < 2 ^ 28 → 0 ≤ y0 < 2 ^ 28 →
  x1 = x0 + sx * Z.of_nat p → y1 = y0 + sy * q → band dx dy (Z.of_nat p) q err →
  draws g x1 y1 dx dy sx sy color p x0 y0 err.
Proof.
  intros Hd Hdx Hsx Hsy Hx1 Hy1. induction p as [|p IH]; intros x0 y0 q err Hx0 Hy0 Ex Ey Hb.
  - pose proof (band_done _ _ _ _ Hd ltac:(lia) Hb) as ->.
    replace x0 with x1 by lia. replace y0 with y1 by lia. apply draws_end.
  - destruct (band_step _ _ _ _ _ Hd Hb) as [Hlt Hb'].
    replace (Z.of_nat (S p) - 1) with (Z.of_nat p) in Hb' by lia.
    pose proof (band_left dx dy (Z.of_nat p) _ _ Hd ltac:(lia) ltac:(lia) Hb') as Hq.
    pose proof (proj2 Hb) as Hr. pose proof (proj2 Hb') as Hr'.
    set (q' := if 2 * err <? dx then q - 1 else q) in *.
    set (y' := if 2 * err <? dx then y0 + sy else y0).
    assert (Hy' : y1 = y' + sy * q' ∧ 0 ≤ y' < 2 ^ 28).
    { unfold y', q' in *. clear -Ey Hq Hsy Hy0 Hy1. destruct (2 * err <? dx), Hsy as [-> | ->]; lia. }
    assert (Hx' : 0 ≤ x0 + sx < 2 ^ 28) by (destruct Hsx as [-> | ->]; lia).
    eapply (draws_step _ _ _ _ _ _ _ _ _ _ _ _ (x0 + sx) y' (err - dy + (if 2 * err <? dx then dx else 0)));
      rewrite ?(proj2 (Z.ltb_lt (- dy) (2 * err)) Hlt); cbv iota; try reflexivity; try lia.
    + intros [= -> _]. destruct Hsx as [-> | ->]; lia.
    + unfold adjacent, y'. cbn [fst snd]. split; [destruct Hsx as [-> | ->]; lia|].
      split; [destruct (_ <? _), Hsy as [-> | ->]; lia|]. intros [= E _]. lia.
    + apply (IH _ _ q'); try done; try lia.
Qed.

Lemma draws_tall g x1 y1 dx dy sx sy color : 0 ≤ dx ≤ dy → 0 < dy < 2 ^ 28 → sx = 1 ∨ sx = -1 → sy = 1 ∨ sy = -1 →
  0 ≤ x1 < 2 ^ 28 → 0 ≤ y1 < 2 ^ 28 → ∀ p x0 y0 q err, 0 ≤ x0 < 2 ^ 28 → 0 ≤ y0 < 2 ^ 28 →
  y1 = y0 + sy * Z.of_nat p → x1 = x0 + sx * q → band dy dx (Z.of_nat p) q (- err) →
  draws g x1 y1 dx dy sx sy color p x0 y0 err.
Proof.
  intros Hd Hdy Hsx Hsy Hx1 Hy1. induction p as [|p IH]; intros x0 y0 q err Hx0 Hy0 Ey Ex Hb.
  - pose proof (band_done _ _ _ _ Hd ltac:(lia) Hb) as ->.
    replace x0 with x1 by lia. replace y0 with y1 by lia. apply draws_end.
  - destruct (band_step _ _ _ _ _ Hd Hb) as [Hlt Hb'].
    replace (Z.of_nat (S p) - 1) with (Z.of_nat p) in Hb' by lia.
    assert (El : (2 * err <? dx) = true) by lia.
    assert (Eg : (2 * - err <? dy) = (- dy <? 2 * err)).
    { destruct (Z.ltb_spec (2 * - err) dy), (Z.ltb_spec (- dy) (2 * err)); lia. }
    rewrite Eg in Hb'.
    pose proof (band_left dy dx (Z.of_nat p) _ _ Hd ltac:(lia) ltac:(lia) Hb') as Hq.
    pose proof (proj2 Hb) as Hr. pose proof (proj2 Hb') as Hr'.
    set (q' := if - dy <? 2 * err then q - 1 else q) in *.
    set (x' := if - dy <? 2 * err then x0 + sx else x0).
    set (k := if - dy <? 2 * err then dy else 0) in *.
    assert (Hx' : x1 = x' + sx * q' ∧ 0 ≤ x' < 2 ^ 28).
    { unfold x', q' in *. clear -Ex Hq Hsx Hx0 Hx1. destruct (_ <? _), Hsx as [-> | ->]; lia. }
    assert (Hy' : 0 ≤ y0 + sy < 2 ^ 28) by (destruct Hsy as [-> | ->]; lia).
    eapply (draws_step _ _ _ _ _ _ _ _ _ _ _ _ x' (y0 + sy) (err - k + dx)); rewrite ?El; cbv iota; try reflexivity; try lia.
    + intros [= _ ->]. destruct Hsy as [-> | ->]; lia.
    + unfold adjacent, x'. cbn [fst snd]. split; [destruct (_ <? _), Hsx as [-> | ->]; lia|].
      split; [destruct Hsy as [-> | ->]; lia|]. intros [= _ E]. lia.
    + apply (IH _ _ q'); try done; try lia.
      by replace (- (err - k + dx)) with (- err - dx + k) by lia.
Qed.

(** C29. [draw_line] ends, for every pair of points in range, and plots a
    connected path of pixels from the first point to the second, as long as the
    longer of the two distances. *)
Theorem draw_line_spec g m x0 y0 x1 y1 color : 0 ≤ x0 < 2 ^ 28 → 0 ≤ y0 < 2 ^ 28 →
  0 ≤ x1 < 2 ^ 28 → 0 ≤ y1 < 2 ^ 28 →
  let n := Z.to_nat (Z.max (Z.abs (x1 - x0)) (Z.abs (y1 - y0))) in
  ∃ l, length l = S n ∧ path (x1, y1) (x0, y0) l ∧
    ∀ fuel, (n < fuel)%nat → draw_line g fuel m x0 y0 x1 y1 color = Ret (plot g m color l).
Proof.
  intros Hx0 Hy0 Hx1 Hy1 n. unfold draw_line.
  rewrite !(i32_small (x1 - x0)), !(i32_small (y1 - y0)), (i32_small (- (x1 - x0))), (i32_small (- (y1 - y0))) by lia.
  set (dx := if x1 - x0 <? 0 then _ else _). set (dy := if y1 - y0 <? 0 then _ else _).
  set (sx := if x0 <? x1 then _ else _). set (sy := if y0 <? y1 then _ else _).
  assert (Ex : dx = Z.abs (x1 - x0) ∧ x1 = x0 + sx * dx ∧ (sx = 1 ∨ sx = -1)).
  { unfold dx, sx. repeat zcase; lia. }
  assert (Ey : dy = Z.abs (y1 - y0) ∧ y1 = y0 + sy * dy ∧ (sy = 1 ∨ sy = -1)).
  { unfold dy, sy. repeat zcase; lia. }
  destruct Ex as (Ex & Px & Sx), Ey as (Ey & Py & Sy). clearbody dx dy sx sy.
  rewrite (i32_small (dx - dy)) by lia.
  enough (draws g x1 y1 dx dy sx sy color n x0 y0 (dx - dy)) as (l & ? & ? & ?) by (exists l; auto).
  destruct (Z_le_gt_dec dy dx) as [Hle|Hgt]; [destruct (Z.eq_dec dx 0) as [E0|Hne]|].
  - replace n with 0%nat by lia. replace x1 with x0 by lia. replace y1 with y0 by lia. apply draws_end.
  - replace n with (Z.to_nat dx) by lia. apply (draws_wide _ _ _ _ _ _ _ _) with (q := dy); try done; try lia.
    unfold band. rewrite Z2Nat.id; lia.
  - replace n with (Z.to_nat dy) by lia. apply (draws_tall _ _ _ _ _ _ _ _) with (q := dx); try done; try lia.
    unfold band. rewrite Z2Nat.id; lia.
Qed.

(** ** Instances *)

(** A small framebuffer at [0x1000] with a screen of 40 by 24 pixels whose back
    buffer lies at [0x100000] and whose log buffer at [0x8000]. *)
Definition demo_screen : bs_screen := Screen 0x8000 0 0 0 0 0 40 24 1 0x100000 (40 * 24) 0.
Definition demo_gfx : gfx :=
  Gfx 0x1000 40 24 160 32 (160 * 24) 0x1000 1 [demo_screen; zero_screen; zero_screen; zero_screen] BS1.

Lemma bs_print_witness :
  returns (bs_print demo_gfx ∅ [79; 75; NEWLINE; 33] 0xFFFFFFFF) (λ '(m', g'), ∃ s',
    g' = put_screen demo_gfx BS1 s' ∧ log_text m' s' [79; 75; NEWLINE; 33] ∧ screen_ok s').
Proof.
  eapply returns_mono.
  - apply (bs_print_spec demo_gfx ∅ demo_screen [79; 75; NEWLINE; 33] 0xFFFFFFFF);
      [split; vdone|reflexivity|split; vdone|]. repeat constructor; vdone.
  - intros [m' g'] (s' & -> & Hs & Hok & _ & Ht). exists s'. split; [done|]. split; [|done].
    apply (Ht []); [done| |split; [done|]; split; [|done]; intros i c; rewrite lookupZ_none; [done|cbn; lia]|vdone].
    split; [done|]. intros a Ha [Hf|Hp]; unfold log_area, fb_area, pixel_area, span in *; cbn in *;
      unfold BS_BUF_SIZE in *; lia.
Defined.

Lemma draw_line_witness : ∃ l, length l = 8%nat ∧ path (9, 3) (2, 6) l ∧
  draw_line demo_gfx 8 ∅ 2 6 9 3 black = Ret (plot demo_gfx ∅ black l).
Proof.
  destruct (draw_line_spec demo_gfx ∅ 2 6 9 3 black ltac:(vdone) ltac:(vdone) ltac:(vdone) ltac:(vdone))
    as (l & Hl & Hp & Hrun).
  exists l. split; [exact Hl|]. split; [exact Hp|]. apply Hrun. vm_compute. lia.
Defined.

#[local] Instance demo_buffers : ScreenBuffers :=
  { bs_buf i := 0x100000 + 4096 * i; bs_pix i := 0x200000 + 4 * BS_MAX_PIXELS * i }.
Definition boot_gfx : gfx := Gfx 0xE0000000 1280 800 5120 32 (5120 * 800) 0xE0000000 1 (replicate 4 zero_screen) BS1.
Lemma bootscreen_layout_witness :
  returns (bootscreen_layout_init boot_gfx) (λ g', ∃ s1 s4, lookupZ (screens g') BS1 = Some s1 ∧
    lookupZ (screens g') BS4 = Some s4 ∧ bs_width s1 = 640 ∧ bs_x s4 = 640 ∧ bs_y s4 = 400 ∧ bs_height s4 = 400).
Proof.
  eapply returns_mono; [apply (bootscreen_layout_spec boot_gfx); vdone|].
  intros g' (s1 & s2 & s3 & s4 & _ & _ & H1 & _ & _ & H4 & _). exists s1, s4.
  destruct H1 as (L1 & _ & _ & _ & _ & W1 & _). destruct H4 as (L4 & _ & _ & X4 & Y4 & W4 & _ & F4 & _).
  split; [exact L1|]. split; [exact L4|]. split; [rewrite W1; reflexivity|]. split; [rewrite X4; reflexivity|].
  split; [rewrite Y4; reflexivity|]. rewrite F4; vdone.
Defined.
