(* ===== verification/Serial.v ===== *)
(** The serial port and the kernel's formatted output, [communication/serial.c]
    ([printf] is [serial_printf]).  The device is behind the ports; a variable
    argument list is a list of 64-bit words. *)
From stdpp Require Import strings.
From S2P Require Import Prelude Ram Interrupts.

(** The characters of a string literal, and the end of a line. *)
Definition text (s : string) : list Z := (λ c, Z.of_N (Ascii.N_of_ascii c)) <$> String.list_ascii_of_string s.
Arguments text s%_string.
Definition EOL : list Z := [10].

Definition COM1 : Z := 0x3F8.

Section serial.
Context {W : Type} `{Ports W} (fuel : nat).
Implicit Types (w : W).

Definition serial_init w : W :=
  let w := outb (COM1 + 1) 0x00 w in
  let w := outb (COM1 + 3) 0x80 w in
  let w := outb (COM1 + 0) 0x03 w in
  let w := outb (COM1 + 1) 0x00 w in
  let w := outb (COM1 + 3) 0x03 w in
  let w := outb (COM1 + 2) 0xC7 w in
  outb (COM1 + 4) 0x0B w.

Definition serial_ready w : bool * W := let '(st, w) := inb (COM1 + 5) w in (has st 0x20, w).

(** The loop waits until the device is ready. *)
Fixpoint putchar_loop (n : nat) (c : Z) w : res W :=
  match n with
  | O => NoFuel
  | S n => let '(ready, w) := serial_ready w in if ready : bool then Ret (outb COM1 (u8 c) w) else putchar_loop n c w
  end.
Definition serial_putchar (c : Z) w : res W := putchar_loop fuel c w.

(** The bytes of an array, first to last. *)
Fixpoint put_all (cs : list Z) w : res W :=
  match cs with [] => Ret w | c :: cs => w ← serial_putchar c w; put_all cs w end.

Fixpoint puts_loop (n : nat) (m : ram) (str : Z) w : res W :=
  match n with
  | O => NoFuel
  | S n => if ld8 m str =? 0 then Ret w else w ← serial_putchar (ld8 m str) w; puts_loop n m (str + 1) w
  end.
Definition serial_puts (m : ram) (str : Z) w : res W := if str =? 0 then Ret w else puts_loop fuel m str w.

Definition hex_char (digit : Z) : Z := if digit <? 10 then 48 + digit else 97 + digit - 10.
(** The array [buf] of [print_u64], least significant digit first; it holds 64
    digits. *)
Fixpoint u64_digits (n : nat) (num base : Z) : list Z :=
  match n with
  | O => []
  | S n => if 0 <? num then hex_char (num mod base) :: u64_digits n (num / base) base else []
  end.
Definition print_u64 (num base : Z) w : res W :=
  if num =? 0 then serial_putchar 48 w else put_all (reverse (u64_digits 64 num base)) w.
Definition print_i64 (num : Z) w : res W :=
  if num <? 0 then w ← serial_putchar 45 w; print_u64 (u64 (i64 (- num))) 10 w else print_u64 (u64 num) 10 w.

(** The [k] hexadecimal digits of a word, most significant first. *)
Definition hex_fixed (k : nat) (num : Z) : list Z :=
  (λ i, hex_char (Z.land (Z.shiftr num (4 * i)) 0xF)) <$> reverse (seqZ 0 (Z.of_nat k)).
Definition print_hexa32 (num : Z) w : res W := put_all ([48; 120] ++ hex_fixed 8 num) w.
Definition print_ptr (ptr : Z) w : res W := put_all ([48; 120] ++ hex_fixed 16 ptr) w.

(** The length modifiers: [is_long], [is_llong] and the format behind them. *)
Definition modifiers (m : ram) (format : Z) : bool * bool * Z :=
  if ld8 m format =? 108 then
    if ld8 m (format + 1) =? 108 then (true, true, format + 2) else (true, false, format + 1)
  else (false, false, format).

(** One conversion. *)
Definition print_arg (m : ram) (conv : Z) (is_long is_llong : bool) (args : list Z) w : res (W * list Z) :=
  if (conv =? 100) || (conv =? 105) then
    '(a, args) ← va_arg args;
    w ← print_i64 (if is_llong || is_long then i64 a else i32 a) w; Ret (w, args)
  else if conv =? 117 then
    '(a, args) ← va_arg args;
    w ← print_u64 (if is_llong || is_long then u64 a else u32 a) 10 w; Ret (w, args)
  else if (conv =? 120) || (conv =? 88) then
    '(a, args) ← va_arg args;
    w ← (if is_llong then print_u64 (u64 a) 16 w else print_hexa32 (u32 a) w); Ret (w, args)
  else if conv =? 112 then '(a, args) ← va_arg args; w ← print_ptr (u64 a) w; Ret (w, args)
  else if conv =? 115 then '(a, args) ← va_arg args; w ← serial_puts m a w; Ret (w, args)
  else if conv =? 99 then '(a, args) ← va_arg args; w ← serial_putchar a w; Ret (w, args)
  else if conv =? 37 then w ← serial_putchar 37 w; Ret (w, args)
  else
    w ← put_all ([37] ++ (if is_llong then [108; 108] else if is_long then [108] else []) ++ [conv]) w;
    Ret (w, args).

Fixpoint printf_loop (n : nat) (m : ram) (format : Z) (args : list Z) w : res W :=
  match n with
  | O => NoFuel
  | S n =>
      let c := ld8 m format in
      if c =? 0 then Ret w else
      if negb (c =? 37) then w ← serial_putchar c w; printf_loop n m (format + 1) args w else
      let '(is_long, is_llong, format) := modifiers m (format + 1) in
      '(w, args) ← print_arg m (ld8 m format) is_long is_llong args w;
      printf_loop n m (format + 1) args w
  end.
Definition serial_printf (m : ram) (format : Z) (args : list Z) w : res W :=
  if format =? 0 then Ret w else printf_loop fuel m format args w.
End serial.

(** ** What is sent *)

(** The value of a digit as [hex_char] writes it, and of digits, least significant
    first. *)
Definition digit_value (c : Z) : Z := if c <? 97 then c - 48 else c - 97 + 10.
Definition digits_value (base : Z) (cs : list Z) : Z := foldr (λ c v, digit_value c + base * v) 0 cs.

Lemma digit_value_hex d : 0 ≤ d → d < 16 → digit_value (hex_char d) = d.
Proof. intros. unfold digit_value, hex_char. repeat zcase; lia. Qed.

Lemma u64_digits_value base n : 2 ≤ base ≤ 16 → ∀ num, 0 ≤ num < 2 ^ Z.of_nat n →
  digits_value base (u64_digits n num base) = num.
Proof.
  intros Hb. induction n as [|n IH]; intros num Hn; cbn [u64_digits].
  { change (2 ^ Z.of_nat 0) with 1 in Hn. cbn. lia. }
  rewrite Nat2Z.inj_succ, Z.pow_succ_r in Hn by lia. zcase; [|cbn; lia].
  change (digits_value base (?c :: ?l)) with (digit_value c + base * digits_value base l).
  pose proof (Z.mod_pos_bound num base ltac:(lia)). rewrite digit_value_hex by lia.
  rewrite IH; [pose proof (Z.div_mod num base); lia|].
  split; [apply Z.div_pos; lia|apply Z.div_lt_upper_bound; [lia|nia]].
Qed.

(** The array of 64 digits of [print_u64] holds every 64-bit number in every base of
    [serial_printf]: the digits sent stand for the number. *)
Lemma print_u64_digits num base : 2 ≤ base ≤ 16 → 0 ≤ num < 2 ^ 64 →
  digits_value base (u64_digits 64 num base) = num ∧ (length (u64_digits 64 num base) ≤ 64)%nat.
Proof.
  intros Hb Hn. split; [by apply u64_digits_value|].
  assert (H : ∀ n v, (length (u64_digits n v base) ≤ n)%nat); [|apply H].
  induction n as [|n IH]; intros v; cbn [u64_digits]; [cbn; lia|]. zcase; cbn [length]; [specialize (IH (v / base)); lia|lia].
Qed.

(** A device that is always ready and keeps the bytes it is sent, last first. *)
#[local] Instance log_ports : Ports (list Z) :=
  { inb port w := (if port =? COM1 + 5 then 0x20 else 0, w); outb port v w := if port =? COM1 then v :: w else w; io_wait w := w }.

Lemma put_all_log fuel cs w : (0 < fuel)%nat → put_all fuel cs w = Ret (reverse (u8 <$> cs) ++ w).
Proof.
  intros Hf. destruct fuel as [|fuel]; [lia|]. revert w. induction cs as [|c cs IH]; intros w; [done|].
  change (put_all (S fuel) (c :: cs) w) with (put_all (S fuel) cs (u8 c :: w)). rewrite IH. f_equal.
  rewrite fmap_cons, reverse_cons, <-(assoc_L (++)). done.
Qed.

(** [%lx] drops the upper half of its argument, [%llx] prints all of it. *)
Example printf_lx : serial_printf 20 (poke ∅ 0x100 [37; 108; 120; 0]) 0x100 [0x100000002] [] =
  Ret (reverse [48; 120; 48; 48; 48; 48; 48; 48; 48; 50]).
Proof. vm_compute. reflexivity. Qed.
Example printf_llx : serial_printf 20 (poke ∅ 0x100 [37; 108; 108; 120; 0]) 0x100 [0x100000002] [] =
  Ret (reverse [49; 48; 48; 48; 48; 48; 48; 48; 50]).
Proof. vm_compute. reflexivity. Qed.
