(* ===== verification/VfsDump.v ===== *)
(** [fs/vfs/lookup.c]: the listing of the whole tree that goes to the serial port. *)
From stdpp Require Import strings.
From S2P Require Import Prelude Interfaces Ram Vfs VfsTree VfsData Interrupts Serial.

(** What [%llu] prints. *)
Definition u64_text (num : Z) : list Z :=
  if num =? 0 then [48] else reverse (u64_digits 64 num 10).

Section dump.
Context {H : Type} `{HA : HeapAlloc H}.
Implicit Types (s : vfs H).

Definition dump_indent (depth : nat) : list Z := concat (replicate depth (text "    ")).

(** The line of a node. *)
Definition dump_line (x : vnode) (depth : nat) : list Z :=
  dump_indent depth ++
  match v_type x with
  | VFS_DIRECTORY => v_name x ++ text "/" ++ EOL
  | VFS_DEVICE => v_name x ++ text " (device)" ++ EOL
  | VFS_FILE => v_name x ++ text " (" ++ u64_text (v_size x) ++ text " bytes)" ++ EOL
  end.

(** [dump_node] and its loop over the children; [fuel] bounds the recursion. *)
Fixpoint dump_node (fuel : nat) s (node : Z) (depth : nat) : res (list Z) :=
  match fuel with
  | O => NoFuel
  | S fuel =>
      if node =? 0 then Ret [] else
      x ← get_vnode s node;
      let fix dump_children (cs : list Z) : res (list Z) :=
        match cs with
        | [] => Ret []
        | c :: cs => l ← dump_node fuel s c (S depth); r ← dump_children cs; Ret (l ++ r)
        end in
      if bool_decide (v_type x = VFS_DIRECTORY)
      then l ← dump_children (v_children x); Ret (dump_line x depth ++ l)
      else Ret (dump_line x depth)
  end.
Fixpoint dump_nodes (fuel : nat) s (cs : list Z) (depth : nat) : res (list Z) :=
  match cs with
  | [] => Ret []
  | c :: cs => l ← dump_node fuel s c depth; r ← dump_nodes fuel s cs depth; Ret (l ++ r)
  end.

(** The text of [vfs_dump], and [vfs_dump], which sends it. *)
Definition dump_head : list Z := text "[VFS] tree dump meow :3" ++ EOL ++ text "/" ++ EOL.
Definition dump_foot : list Z := text "[VFS] seems like this is the end :)" ++ EOL.
Definition dump_text (fuel : nat) s : res (list Z) :=
  if vfs_root s =? 0 then Ret (text "[VFS] tree is empty, theres literally nothing to dump" ++ EOL) else
  x ← get_vnode s (vfs_root s);
  l ← dump_nodes fuel s (v_children x) 1;
  Ret (dump_head ++ l ++ dump_foot).
Definition vfs_dump {W} `{Ports W} (fuel spin : nat) s (w : W) : res W :=
  t ← dump_text fuel s; put_all spin t w.

(** ** The paths of a tree *)

Implicit Types (ns : gmap Z vnode).



(** ** What a listing looks like *)







(** The nodes a path leads through, the first one excepted. *)
Fixpoint trail ns (n : Z) (path : list (list Z)) : list Z :=
  match path with
  | [] => []
  | c :: path => match child ns n c with Some m => m :: trail ns m path | None => [] end
  end.






(** ** What is listed *)




Section tree.
Context (root : Z) ns (T : tree_inv root ns).



End tree.




End dump.


(** The listing of a tree with a directory, a device in it and a file. *)
Example dump_small :
  dump_text 3 (Vfs 1 {[ 1 := Vnode ROOT VFS_DIRECTORY 0 0 0 false 0 0 [2; 3];
    2 := Vnode (text "dev") VFS_DIRECTORY 0 0 0 false 0 1 [4]; 3 := Vnode (text "a") VFS_FILE 0 120 0 false 0 1 [];
    4 := Vnode (text "tty0") VFS_DEVICE 0 0 0 false 9 2 [] ]} () ∅) =
  Ret (dump_head ++ text "    dev/" ++ EOL ++ text "        tty0 (device)" ++ EOL ++
       text "    a (120 bytes)" ++ EOL ++ dump_foot).
Proof. vm_compute. reflexivity. Qed.
