(* ===== verification/Pci.v ===== *)
(** The PCI bus: configuration space, enumeration and capabilities, [pci/config.c],
    [device.c], [express.c] and [pci.c].  The hardware is behind two 32-bit ports. *)
From S2P Require Import Prelude.

(** 32-bit port input and output. *)
Class Ports32 (W : Type) := {
  inl : Z → W → Z * W;
  outl : Z → Z → W → W;
}.

Definition PCI_CONFIG_ADDRESS : Z := 0xCF8.
Definition PCI_CONFIG_DATA : Z := 0xCFC.
Definition PCI_VENDOR_ID : Z := 0x00.
Definition PCI_STATUS : Z := 0x06.
Definition PCI_CLASS_REVISION : Z := 0x08.
Definition PCI_HEADER_TYPE : Z := 0x0E.
Definition PCI_BAR0 : Z := 0x10.
Definition PCI_SECONDARY_BUS : Z := 0x19.
Definition PCI_CAPABILITIES : Z := 0x34.
Definition PCIE_CAP_ID : Z := 0x10.
Definition MAX_PCI_DEVICES : nat := 256.

(** [pci_device_t] *)
Record pci_device := PciDevice {
  vendor_id : Z; device_id : Z; bus : Z; device : Z; function : Z;
  class_code : Z; subclass : Z; prog_if : Z; revision : Z;
  header_type : Z; multifunction : Z; bar0 : Z;
}.

Section pci.
Context {W : Type} `{Ports32 W}.
Implicit Types (w : W).

(** ** [config.c] *)

Definition config_address (bus device function offset : Z) : Z :=
  Z.lor (Z.lor (Z.lor (Z.lor (Z.shiftl bus 16) (Z.shiftl device 11)) (Z.shiftl function 8)) (Z.land offset 0xFC)) 0x80000000.

Definition pci_config_read (bus device function offset : Z) w : Z * W :=
  inl PCI_CONFIG_DATA (outl PCI_CONFIG_ADDRESS (config_address bus device function offset) w).
Definition pci_config_write (bus device function offset value : Z) w : W :=
  outl PCI_CONFIG_DATA value (outl PCI_CONFIG_ADDRESS (config_address bus device function offset) w).

Definition pci_config_read_word (bus device function offset : Z) w : Z * W :=
  let '(value, w) := pci_config_read bus device function (Z.land offset 0xFC) w in
  (u16 (Z.land (Z.shiftr value (Z.land offset 2 * 8)) 0xFFFF), w).
Definition pci_config_read_byte (bus device function offset : Z) w : Z * W :=
  let '(value, w) := pci_config_read bus device function (Z.land offset 0xFC) w in
  (u8 (Z.land (Z.shiftr value (Z.land offset 3 * 8)) 0xFF), w).

(** [(old & ~(mask << shift)) | (value << shift)] on a [u32]. *)
Definition merge_bits (old mask shift value : Z) : Z :=
  Z.lor (Z.land old (not32 (u32 (Z.shiftl mask shift)))) (u32 (Z.shiftl value shift)).
Definition pci_config_write_word (bus device function offset value : Z) w : W :=
  let '(old, w) := pci_config_read bus device function (Z.land offset 0xFC) w in
  pci_config_write bus device function (Z.land offset 0xFC) (merge_bits old 0xFFFF (Z.land offset 2 * 8) value) w.
Definition pci_config_write_byte (bus device function offset value : Z) w : W :=
  let '(old, w) := pci_config_read bus device function (Z.land offset 0xFC) w in
  pci_config_write bus device function (Z.land offset 0xFC) (merge_bits old 0xFF (Z.land offset 3 * 8) value) w.

(** ** [device.c] *)

(** The fields of a function that answered; [vendor_device] is its first register. *)
Definition read_device (bus device function vendor_device : Z) w : pci_device * W :=
  let '(class_info, w) := pci_config_read bus device function PCI_CLASS_REVISION w in
  let '(header_info, w) := pci_config_read bus device function PCI_HEADER_TYPE w in
  let '(bar0, w) := pci_config_read bus device function PCI_BAR0 w in
  (PciDevice (Z.land vendor_device 0xFFFF) (Z.land (Z.shiftr vendor_device 16) 0xFFFF) bus device function
     (Z.land (Z.shiftr class_info 24) 0xFF) (Z.land (Z.shiftr class_info 16) 0xFF)
     (Z.land (Z.shiftr class_info 8) 0xFF) (Z.land class_info 0xFF)
     (Z.land (Z.shiftr header_info 16) 0x7F) (Z.land (Z.shiftr header_info 16) 0x80) bar0, w).

(** The functions of a device from [function] on, [n] left: the table, whether
    it was full, and the hardware. *)
Fixpoint scan_functions (n : nat) (bus device function : Z) (ds : list pci_device) w : list pci_device * bool * W :=
  match n with
  | O => (ds, false, w)
  | S n =>
      let '(vendor_device, w) := pci_config_read bus device function PCI_VENDOR_ID w in
      if Z.land vendor_device 0xFFFF =? 0xFFFF then
        if function =? 0 then (ds, false, w) else scan_functions n bus device (function + 1) ds w
      else
      if bool_decide (MAX_PCI_DEVICES ≤ length ds)%nat then (ds, true, w) else
      let '(dev, w) := read_device bus device function vendor_device w in
      let ds := ds ++ [dev] in
      if (function =? 0) && (multifunction dev =? 0) then (ds, false, w)
      else scan_functions n bus device (function + 1) ds w
  end.
Fixpoint scan_devices (n : nat) (bus device : Z) (ds : list pci_device) w : list pci_device * W :=
  match n with
  | O => (ds, w)
  | S n =>
      let '(ds, full, w) := scan_functions 8 bus device 0 ds w in
      if full : bool then (ds, w) else scan_devices n bus (device + 1) ds w
  end.
Definition pci_device_scan_bus (bus : Z) (ds : list pci_device) w : list pci_device * W :=
  scan_devices 32 bus 0 ds w.

(** The loop over the devices found so far; it scans the buses behind bridges,
    which adds devices to the table it runs over. *)
Fixpoint bridge_loop (n : nat) (i : nat) (ds : list pci_device) w : res (list pci_device * W) :=
  match n with
  | O => NoFuel
  | S n =>
      match ds !! i with
      | None => Ret (ds, w)
      | Some d =>
          let '(ds, w) :=
            if (class_code d =? 0x06) && (subclass d =? 0x04) then
              let '(bus_info, w) := pci_config_read (bus d) (device d) (function d) PCI_SECONDARY_BUS w in
              let secondary_bus := Z.land (Z.shiftr bus_info 8) 0xFF in
              if 0 <? secondary_bus then pci_device_scan_bus secondary_bus ds w else (ds, w)
            else (ds, w) in
          bridge_loop n (S i) ds w
      end
  end.
(** The table holds [MAX_PCI_DEVICES]: so many turns, and one to find the end. *)
Definition pci_device_init w : res (list pci_device * W) :=
  let '(ds, w) := pci_device_scan_bus 0 [] w in bridge_loop (S MAX_PCI_DEVICES) 0 ds w.

Definition pci_device_get_count (ds : list pci_device) : Z := Z.of_nat (length ds).
Definition pci_device_get (ds : list pci_device) (index : Z) : option pci_device :=
  if (0 <=? index) && (index <? Z.of_nat (length ds)) then lookupZ ds index else None.
Fixpoint pci_device_find_by_class (ds : list pci_device) (class sub : Z) : option pci_device :=
  match ds with
  | [] => None
  | d :: ds => if (class_code d =? class) && ((sub =? 0xFF) || (subclass d =? sub)) then Some d
               else pci_device_find_by_class ds class sub
  end.
Fixpoint pci_device_find_by_vendor (ds : list pci_device) (vendor dev : Z) : option pci_device :=
  match ds with
  | [] => None
  | d :: ds => if (vendor_id d =? vendor) && ((dev =? 0xFFFF) || (device_id d =? dev)) then Some d
               else pci_device_find_by_vendor ds vendor dev
  end.

(** ** [express.c] and [pci.c] *)

Fixpoint capability_loop (fuel : nat) (bus device function cap_id cap_ptr : Z) w : res (Z * W) :=
  match fuel with
  | O => NoFuel
  | S fuel =>
      if cap_ptr =? 0 then Ret (0, w) else
      let '(id, w) := pci_config_read_byte bus device function cap_ptr w in
      if id =? cap_id then Ret (cap_ptr, w) else
      let '(next, w) := pci_config_read_byte bus device function (u8 (cap_ptr + 1)) w in
      capability_loop fuel bus device function cap_id next w
  end.
Definition pci_find_capability (fuel : nat) (bus device function cap_id : Z) w : res (Z * W) :=
  let '(status, w) := pci_config_read_word bus device function PCI_STATUS w in
  if negb (has status 0x10) then Ret (0, w) else
  let '(cap_ptr, w) := pci_config_read_byte bus device function PCI_CAPABILITIES w in
  capability_loop fuel bus device function cap_id cap_ptr w.
Definition pcie_is_device (fuel : nat) (bus device function : Z) w : res (bool * W) :=
  '(cap, w) ← pci_find_capability fuel bus device function PCIE_CAP_ID w; Ret (negb (cap =? 0), w).

(** [pcie_link_speed_t]: the generation, 0 when it is unknown. *)
Definition pcie_get_link_speed (fuel : nat) (bus device function : Z) w : res (Z * W) :=
  '(cap_ptr, w) ← pci_find_capability fuel bus device function PCIE_CAP_ID w;
  if cap_ptr =? 0 then Ret (0, w) else
  let '(link_status, w) := pci_config_read_word bus device function (u8 (cap_ptr + 0x12)) w in
  let speed := Z.land link_status 0x0F in
  Ret (if (1 <=? speed) && (speed <=? 5) then speed else 0, w).
Definition pcie_get_link_width (fuel : nat) (bus device function : Z) w : res (Z * W) :=
  '(cap_ptr, w) ← pci_find_capability fuel bus device function PCIE_CAP_ID w;
  if cap_ptr =? 0 then Ret (0, w) else
  let '(link_status, w) := pci_config_read_word bus device function (u8 (cap_ptr + 0x12)) w in
  Ret (Z.land (Z.shiftr link_status 4) 0x3F, w).

(** [pci_init] counts the devices and those with the PCI Express capability. *)
Fixpoint count_express (fuel : nat) (ds : list pci_device) (pcie_count : Z) w : res (Z * W) :=
  match ds with
  | [] => Ret (pcie_count, w)
  | d :: ds =>
      '(express, w) ← pcie_is_device fuel (bus d) (device d) (function d) w;
      count_express fuel ds (if express : bool then pcie_count + 1 else pcie_count) w
  end.
Definition pci_init (fuel : nat) w : res (list pci_device * Z * W) :=
  '(ds, w) ← pci_device_init w;
  '(pcie_count, w) ← count_express fuel ds 0 w;
  Ret (ds, pcie_count, w).

(** ** What enumeration finds *)

(** The configuration registers read during enumeration hold [cfg]. *)
Context (cfg : Z → Z).
Definition config_stable : Prop := ∀ a w, (inl PCI_CONFIG_DATA (outl PCI_CONFIG_ADDRESS a w)).1 = cfg a.
Definition reg (b d f o : Z) : Z := cfg (config_address b d f o).
Definition device_at (b d f : Z) : pci_device :=
  PciDevice (Z.land (reg b d f PCI_VENDOR_ID) 0xFFFF) (Z.land (Z.shiftr (reg b d f PCI_VENDOR_ID) 16) 0xFFFF) b d f
    (Z.land (Z.shiftr (reg b d f PCI_CLASS_REVISION) 24) 0xFF) (Z.land (Z.shiftr (reg b d f PCI_CLASS_REVISION) 16) 0xFF)
    (Z.land (Z.shiftr (reg b d f PCI_CLASS_REVISION) 8) 0xFF) (Z.land (reg b d f PCI_CLASS_REVISION) 0xFF)
    (Z.land (Z.shiftr (reg b d f PCI_HEADER_TYPE) 16) 0x7F) (Z.land (Z.shiftr (reg b d f PCI_HEADER_TYPE) 16) 0x80)
    (reg b d f PCI_BAR0).
(** A function answers; it exists if its device does, and is the first or one of
    several. *)
Definition present (b d f : Z) : bool := negb (vendor_id (device_at b d f) =? 0xFFFF).
Definition exists_fn (b d f : Z) : bool :=
  present b d 0 && present b d f && ((f =? 0) || negb (multifunction (device_at b d 0) =? 0)).
Definition reported (ds : list pci_device) (b : Z) : Prop :=
  ∀ d f, 0 ≤ d < 32 → 0 ≤ f < 8 → exists_fn b d f = true → device_at b d f ∈ ds.

Definition is_bridge (d : pci_device) : bool := (class_code d =? 0x06) && (subclass d =? 0x04).
Definition secondary (d : pci_device) : Z := Z.land (Z.shiftr (reg (bus d) (device d) (function d) PCI_SECONDARY_BUS) 8) 0xFF.
(** The table is bounded and lists functions that answered. *)
Definition table_ok (ds : list pci_device) : Prop :=
  (length ds ≤ MAX_PCI_DEVICES)%nat ∧
  Forall (λ dev, present (bus dev) (device dev) (function dev) = true ∧ dev = device_at (bus dev) (device dev) (function dev)) ds.

Section enumeration.
Context (Hcfg : config_stable).

Lemma pci_config_read_cfg b d f o w : ∃ w', pci_config_read b d f o w = (reg b d f o, w').
Proof. unfold pci_config_read, reg. rewrite <-(Hcfg (config_address b d f o) w). by destruct (inl _ _) as [v w']; exists w'. Qed.

Lemma read_device_cfg b d f w : ∃ w', read_device b d f (reg b d f PCI_VENDOR_ID) w = (device_at b d f, w').
Proof.
  unfold read_device.
  destruct (pci_config_read_cfg b d f PCI_CLASS_REVISION w) as [w1 ->].
  destruct (pci_config_read_cfg b d f PCI_HEADER_TYPE w1) as [w2 ->].
  destruct (pci_config_read_cfg b d f PCI_BAR0 w2) as [w3 ->]. by exists w3.
Qed.

Lemma table_ok_snoc ds b d f : table_ok ds → (length ds < MAX_PCI_DEVICES)%nat → present b d f = true →
  table_ok (ds ++ [device_at b d f]).
Proof.
  intros [_ Ha] Hl Hp. split; [rewrite length_app; cbn; lia|]. apply Forall_app. split; [done|]. by apply Forall_singleton.
Qed.

(** What a run of the scan from function [f] on must list. *)
Definition due (b d f f' : Z) : bool := if f =? 0 then exists_fn b d f' else present b d f'.

Lemma scan_functions_spec n b d f ds w : 0 ≤ f → table_ok ds →
  ∃ ds' full w', scan_functions n b d f ds w = (ds', full, w') ∧ table_ok ds' ∧ ds `prefix_of` ds' ∧
    (full = true → length ds' = MAX_PCI_DEVICES) ∧
    (full = false → ∀ f', f ≤ f' < f + Z.of_nat n → due b d f f' = true → device_at b d f' ∈ ds').
Proof.
  revert f ds w. induction n as [|n IH]; intros f ds w Hf Hds; cbn [scan_functions].
  { eexists _, _, _. split_and!; [done..|]. intros _ f' ?. lia. }
  destruct (pci_config_read_cfg b d f PCI_VENDOR_ID w) as [w1 ->].
  assert (Hp : present b d f = negb (Z.land (reg b d f PCI_VENDOR_ID) 0xFFFF =? 0xFFFF)) by done.
  destruct (Z.land (reg b d f PCI_VENDOR_ID) 0xFFFF =? 0xFFFF); cbn [negb] in Hp.
  - destruct (Z.eqb_spec f 0) as [->|Hf0].
    + eexists _, _, _. split_and!; [done..|]. intros _ f' _. unfold due, exists_fn. by rewrite Hp.
    + destruct (IH (f + 1) ds w1) as (ds' & full & w' & E & H1 & H2 & H3 & H4); [lia|done|]. rewrite E.
      eexists _, _, _. split_and!; [done..|]. intros Hfull f' Hf'. unfold due. rewrite (proj2 (Z.eqb_neq f 0) Hf0).
      intros Hd. destruct (decide (f' = f)) as [->|]; [by rewrite Hp in Hd|]. apply H4; [done|lia|].
      unfold due. by rewrite (proj2 (Z.eqb_neq (f + 1) 0) ltac:(lia)).
  - case_bool_decide as Hfull.
    { eexists _, _, _. split_and!; [done..| |done]. destruct Hds. intros _. lia. }
    destruct (read_device_cfg b d f w1) as [w2 ->]. pose proof (table_ok_snoc ds b d f Hds ltac:(lia) Hp) as Hds'.
    assert (Hin : device_at b d f ∈ ds ++ [device_at b d f]) by set_solver.
    destruct ((f =? 0) && (multifunction (device_at b d f) =? 0)) eqn:Hm.
    + apply andb_true_iff in Hm as [->%Z.eqb_eq Hm]. eexists _, _, _. split_and!; [done|done|by eexists|done|].
      intros _ f' _. unfold due, exists_fn. cbn [Z.eqb]. rewrite Hm. cbn [negb]. rewrite orb_false_r, !andb_true_iff.
      by intros [_ ->%Z.eqb_eq].
    + destruct (IH (f + 1) _ w2 ltac:(lia) Hds') as (ds' & full & w' & E & H1 & H2 & H3 & H4). rewrite E.
      eexists _, _, _. split_and!; [done|done|by eapply prefix_app_l|done|]. intros Hff f' Hf' Hd.
      destruct (decide (f' = f)) as [->|]; [destruct H2 as [k ->]; apply elem_of_app; by left|]. apply H4; [done|lia|].
      unfold due, exists_fn in *. rewrite (proj2 (Z.eqb_neq (f + 1) 0) ltac:(lia)).
      destruct (f =? 0); [|done]. rewrite !andb_true_iff in Hd. tauto.
Qed.

Lemma scan_devices_spec n b d ds w : table_ok ds →
  ∃ ds' w', scan_devices n b d ds w = (ds', w') ∧ table_ok ds' ∧ ds `prefix_of` ds' ∧
    ((length ds' < MAX_PCI_DEVICES)%nat →
     ∀ d' f, d ≤ d' < d + Z.of_nat n → 0 ≤ f < 8 → exists_fn b d' f = true → device_at b d' f ∈ ds').
Proof.
  revert d ds w. induction n as [|n IH]; intros d ds w Hds; cbn [scan_devices].
  { eexists _, _. split_and!; [done..|]. intros _ d' f ?. lia. }
  destruct (scan_functions_spec 8 b d 0 ds w) as (ds1 & full & w1 & -> & H1 & H2 & H3 & H4); [lia|done|].
  destruct full. { eexists _, _. split_and!; [done..|]. specialize (H3 eq_refl). lia. }
  destruct (IH (d + 1) ds1 w1 H1) as (ds' & w' & -> & H5 & H6 & H7).
  eexists _, _. split_and!; [done|done|by etrans|]. intros Hl d' f Hd' Hf He.
  destruct (decide (d' = d)) as [->|]; [|apply H7; [done|lia|done..]].
  destruct H6 as [k ->]. apply elem_of_app. left. by apply H4.
Qed.

Lemma bridge_loop_spec n i ds w : table_ok ds → (i ≤ length ds)%nat → (MAX_PCI_DEVICES < n + i)%nat →
  ∃ ds' w', bridge_loop n i ds w = Ret (ds', w') ∧ table_ok ds' ∧ ds `prefix_of` ds' ∧
    ((length ds' < MAX_PCI_DEVICES)%nat →
     ∀ j br, (i ≤ j)%nat → ds' !! j = Some br → is_bridge br = true → 0 < secondary br → reported ds' (secondary br)).
Proof.
  revert i ds w. induction n as [|n IH]; intros i ds w Hds Hi Hn; [destruct Hds; lia|]. cbn [bridge_loop].
  destruct (ds !! i) as [d|] eqn:Hd.
  2: { eexists _, _. split_and!; [done..|]. intros _ j br Hj Hb. apply lookup_lt_Some in Hb. apply lookup_ge_None in Hd. lia. }
  pose proof (lookup_lt_Some _ _ _ Hd) as Hlt.
  assert (Hstep : ∃ ds1 w1, (if (class_code d =? 0x06) && (subclass d =? 0x04) then
      let '(bus_info, w) := pci_config_read (bus d) (device d) (function d) PCI_SECONDARY_BUS w in
      if 0 <? Z.land (Z.shiftr bus_info 8) 0xFF then pci_device_scan_bus (Z.land (Z.shiftr bus_info 8) 0xFF) ds w else (ds, w)
      else (ds, w)) = (ds1, w1) ∧ table_ok ds1 ∧ ds `prefix_of` ds1 ∧
      ((length ds1 < MAX_PCI_DEVICES)%nat → is_bridge d = true → 0 < secondary d → reported ds1 (secondary d))).
  { unfold is_bridge. case_match; [|by eexists _, _].
    destruct (pci_config_read_cfg (bus d) (device d) (function d) PCI_SECONDARY_BUS w) as [w1 ->]. cbn zeta.
    fold (secondary d). destruct (Z.ltb_spec 0 (secondary d)); [|eexists _, _; split_and!; [done..|lia]].
    destruct (scan_devices_spec 32 (secondary d) 0 ds w1 Hds) as (ds1 & w2 & E & T1 & T2 & T3).
    exists ds1, w2. split_and!; [done..|]. intros Hl _ _ d' f Hd' Hf He. by apply T3. }
  destruct Hstep as (ds1 & w1 & -> & T1 & T2 & T3). pose proof (prefix_length _ _ T2) as Hpl.
  destruct (IH (S i) ds1 w1 T1) as (ds' & w' & -> & T4 & T5 & T6); [lia..|].
  eexists _, _. split_and!; [done|done|by etrans|]. intros Hl j br Hj Hb Hbr Hs. pose proof (prefix_length _ _ T5).
  destruct (decide (j = i)) as [->|]; [|apply (T6 Hl j br); [lia|done..]].
  assert (br = d) as ->. { eapply prefix_lookup_Some in Hd; [|by etrans]. congruence. }
  intros d' f Hd' Hf He. destruct T5 as [k ->]. apply elem_of_app. left. apply T3; [rewrite length_app in Hl; lia|done..].
Qed.
End enumeration.

(** C39. [pci_device_init] always ends, although the loop that looks for bridges adds
    devices to the table it runs over and bridges may lead back: when the
    configuration registers are stable, the table holds at most
    [MAX_PCI_DEVICES] entries, each of them is a function that answers with its own
    registers, and unless the table is full every function of bus 0 and of
    every bus behind a listed bridge is listed. *)
Theorem pci_device_init_enumerates w : config_stable →
  ∃ ds w', pci_device_init w = Ret (ds, w') ∧ table_ok ds ∧
    ((length ds < MAX_PCI_DEVICES)%nat →
     reported ds 0 ∧ ∀ br, br ∈ ds → is_bridge br = true → 0 < secondary br → reported ds (secondary br)).
Proof.
  intros Hcfg. unfold pci_device_init, pci_device_scan_bus.
  destruct (scan_devices_spec Hcfg 32 0 0 [] w) as (ds1 & w1 & -> & T1 & _ & T2); [split; [cbn; lia|done]|].
  destruct (bridge_loop_spec Hcfg (S MAX_PCI_DEVICES) 0 ds1 w1 T1) as (ds & w' & E & T3 & T4 & T5); [lia..|].
  exists ds, w'. split_and!; [done..|]. intros Hl. split.
  - intros d f Hd Hf He. pose proof (prefix_length _ _ T4). destruct T4 as [k ->]. apply elem_of_app. left. apply T2; [lia|done..].
  - intros br [j Hj]%list_elem_of_lookup Hbr Hs. apply (T5 Hl j br); [lia|done..].
Qed.
End pci.

(** A machine whose ports hold the last address written: a host bridge, a bridge to
    bus 1 that is also reachable from itself, and a network card behind it. *)
Definition demo_config (a : Z) : Z :=
  if a =? config_address 0 0 0 0 then 0x12378086 else
  if a =? config_address 0 1 0 0 then 0x00011B36 else
  if a =? config_address 0 1 0 0x08 then 0x06040000 else
  if a =? config_address 0 1 0 0x18 then 0x00010100 else
  if a =? config_address 1 3 0 0 then 0x10D38086 else
  if a =? config_address 1 3 0 0x08 then 0x02000000 else 0xFFFFFFFF.
#[local] Instance demo_ports : Ports32 Z :=
  { inl port w := (demo_config w, w); outl port v w := if port =? PCI_CONFIG_ADDRESS then v else w }.

Lemma demo_stable : config_stable demo_config.
Proof. done. Qed.
Example demo_found :
  returns (pci_device_init 0) (λ '(ds, _), map (λ d, (vendor_id d, device_id d, bus d, device d)) ds =
    [(0x8086, 0x1237, 0, 0); (0x1B36, 0x0001, 0, 1); (0x8086, 0x10D3, 1, 3)]).
Proof. vm_compute. reflexivity. Qed.
Lemma pci_device_init_witness : ∃ ds w', pci_device_init 0 = Ret (ds, w') ∧ table_ok demo_config ds ∧
  ((length ds < MAX_PCI_DEVICES)%nat → reported demo_config ds 0 ∧
   ∀ br, br ∈ ds → is_bridge br = true → 0 < secondary demo_config br → reported demo_config ds (secondary demo_config br)).
Proof. exact (pci_device_init_enumerates demo_config 0 demo_stable). Defined.
