(* ===== verification/Platform.v ===== *)
(** The segments and the task state ([arch/x86_64/gdt/gdt.c]), the real-time clock
    ([drivers/cmos/cmos.c]) and the timer ([exceptions/timer.c]). *)
From S2P Require Import Prelude Interfaces Ram PhysMem DList Kheap Paging Vmm RunQueue Space Context Proc Interrupts.

(** ** Segments *)

Definition GDT_ENTRIES : Z := 7.
Definition GDT_PRESENT : Z := 0x80.
Definition GDT_RING0 : Z := 0x00.
Definition GDT_RING3 : Z := 0x60.
Definition GDT_CODE_DATA : Z := 0x10.
Definition GDT_EXECUTABLE : Z := 0x08.
Definition GDT_RW : Z := 0x02.
Definition GDT_GRANULAR : Z := 0x80.
Definition GDT_LONG_MODE : Z := 0x20.
Definition GDT_32BIT : Z := 0x40.
Definition KERNEL_DATA_SELECTOR : Z := 0x10.
Definition USER_CODE_SELECTOR : Z := 0x20.
Definition TSS_SELECTOR : Z := 0x28.

(** [gdt_entry_t], and the two slots of [gdt_tss_entry_t]. *)
Record gdt_entry := GdtEntry {
  limit_low : Z; base_low : Z; base_mid : Z; access : Z; granularity : Z; base_high : Z;
}.
Record gdt_tss_entry := GdtTssEntry { tss_low : gdt_entry; base_upper : Z; tss_reserved : Z }.

(** The fields of [tss_t] that are not 0 after [tss_init]. *)
Record tss := Tss { rsp0 : Z; ist1 : Z; iopb_offset : Z }.
Definition TSS_SIZE : Z := 104.

Definition gdt_set_gate (base limit acc gran : Z) : gdt_entry :=
  GdtEntry (Z.land limit 0xFFFF) (Z.land base 0xFFFF) (Z.land (Z.shiftr base 16) 0xFF) acc
    (Z.lor (Z.land (Z.shiftr limit 16) 0x0F) (Z.land gran 0xF0)) (Z.land (Z.shiftr base 24) 0xFF).

Definition tss_set_entry (base : Z) : gdt_tss_entry :=
  let limit := TSS_SIZE - 1 in
  GdtTssEntry
    (GdtEntry (Z.land limit 0xFFFF) (Z.land base 0xFFFF) (Z.land (Z.shiftr base 16) 0xFF) 0x89 0x00
       (Z.land (Z.shiftr base 24) 0xFF))
    (Z.land (Z.shiftr base 32) 0xFFFFFFFF) 0.

Definition tss_init (kernel_stack df_stack : Z) : tss := Tss (kernel_stack + 16384) (df_stack + 8192) TSS_SIZE.
Definition tss_set_stack (t : tss) (stack : Z) : tss := Tss stack (ist1 t) (iopb_offset t).
Definition gdt_set_kernel_stack (t : tss) (stack : Z) : tss := tss_set_stack t stack.

Definition flags (l : list Z) : Z := foldl Z.lor 0 l.
(** The table [gdt_init] builds: five segments and the descriptor of the task
    state at address [tss_addr]; and the task state. *)
Definition gdt_init (tss_addr kernel_stack df_stack : Z) : list gdt_entry * gdt_tss_entry * tss :=
  ([gdt_set_gate 0 0 0 0;
    gdt_set_gate 0 0xFFFFF (flags [GDT_PRESENT; GDT_RING0; GDT_CODE_DATA; GDT_EXECUTABLE; GDT_RW]) (flags [GDT_GRANULAR; GDT_LONG_MODE]);
    gdt_set_gate 0 0xFFFFF (flags [GDT_PRESENT; GDT_RING0; GDT_CODE_DATA; GDT_RW]) (flags [GDT_GRANULAR; GDT_32BIT]);
    gdt_set_gate 0 0xFFFFF (flags [GDT_PRESENT; GDT_RING3; GDT_CODE_DATA; GDT_RW]) (flags [GDT_GRANULAR; GDT_32BIT]);
    gdt_set_gate 0 0xFFFFF (flags [GDT_PRESENT; GDT_RING3; GDT_CODE_DATA; GDT_EXECUTABLE; GDT_RW]) (flags [GDT_GRANULAR; GDT_LONG_MODE])],
   tss_set_entry tss_addr, tss_init kernel_stack df_stack).

(** What the processor reads from a descriptor. *)
Definition seg_base (e : gdt_entry) : Z := base_low e + Z.shiftl (base_mid e) 16 + Z.shiftl (base_high e) 24.
Definition seg_limit (e : gdt_entry) : Z := limit_low e + Z.shiftl (Z.land (granularity e) 0x0F) 16.
Definition seg_flags (e : gdt_entry) : Z := Z.land (granularity e) 0xF0.
Definition tss_base (e : gdt_tss_entry) : Z := seg_base (tss_low e) + Z.shiftl (base_upper e) 32.

Lemma gran_bits a g : 0 ≤ a < 16 → 0 ≤ g < 16 →
  Z.land (Z.lor a (Z.land (16 * g) 0xF0)) 0x0F = a ∧ Z.land (Z.lor a (Z.land (16 * g) 0xF0)) 0xF0 = 16 * g.
Proof.
  intros Ha Hg.
  assert (E : forallb (λ x, forallb (λ y, (Z.land (Z.lor x (Z.land (16 * y) 0xF0)) 0x0F =? x) &&
    (Z.land (Z.lor x (Z.land (16 * y) 0xF0)) 0xF0 =? 16 * y)) (seqZ 0 16)) (seqZ 0 16) = true) by (vm_compute; reflexivity).
  rewrite forallb_forall in E. specialize (E a). rewrite forallb_forall in E.
  assert (Hin : ∀ x, 0 ≤ x < 16 → In x (seqZ 0 16)) by (intros x Hx; apply list_elem_of_In, elem_of_seqZ; lia).
  specialize (E (Hin a Ha) g (Hin g Hg)). apply andb_true_iff in E as [E1%Z.eqb_eq E2%Z.eqb_eq]. done.
Qed.

(** A descriptor gives back the base, the limit, the access byte and the flags
    it was made of. *)
Lemma gdt_set_gate_roundtrip base limit acc g :
  0 ≤ base < 2 ^ 32 → 0 ≤ limit < 2 ^ 20 → 0 ≤ g < 16 →
  let e := gdt_set_gate base limit acc (16 * g) in
  seg_base e = base ∧ seg_limit e = limit ∧ access e = acc ∧ seg_flags e = 16 * g.
Proof.
  intros Hb Hl Hg. unfold gdt_set_gate, seg_base, seg_limit, seg_flags. cbn [base_low base_mid base_high limit_low granularity access].
  assert (Hn : Z.land (Z.shiftr limit 16) 0x0F = limit / 2 ^ 16).
  { change 0x0F with (Z.ones 4). rewrite Z.land_ones, Z.shiftr_div_pow2 by lia. apply Z.mod_small. dlia. }
  rewrite Hn. destruct (gran_bits (limit / 2 ^ 16) g) as [-> ->]; [dlia|done|].
  change 0xFFFF with (Z.ones 16). change 0xFF with (Z.ones 8).
  rewrite !Z.land_ones, !Z.shiftr_div_pow2, !Z.shiftl_mul_pow2 by lia. split_and!; try done; dlia.
Qed.

Lemma tss_set_entry_base base : 0 ≤ base < 2 ^ 64 → tss_base (tss_set_entry base) = base.
Proof.
  intros Hb. unfold tss_set_entry, tss_base, seg_base. cbn [tss_low base_upper base_low base_mid base_high].
  change 0xFFFF with (Z.ones 16). change 0xFFFFFFFF with (Z.ones 32). change 0xFF with (Z.ones 8).
  rewrite !Z.land_ones, !Z.shiftr_div_pow2, !Z.shiftl_mul_pow2 by lia. dlia.
Qed.

(** The segment a selector names: its index is the selector without its three low
    bits. *)
Definition segment (table : list gdt_entry) (sel : Z) : option gdt_entry := lookupZ table (sel / 8).
(** Present, privilege level, code or data, executable, 64-bit. *)
Definition seg_is (e : gdt_entry) (ring : Z) (code : bool) : bool :=
  has (access e) GDT_PRESENT && (Z.land (access e) 0x60 =? Z.shiftl ring 5) && has (access e) GDT_CODE_DATA &&
  eqb (has (access e) GDT_EXECUTABLE) code && eqb (has (seg_flags e) GDT_LONG_MODE) code && negb (has (seg_flags e) GDT_32BIT && code) &&
  (seg_base e =? 0) && (seg_limit e =? 0xFFFFF).

(** The selectors of the kernel name the segments their names say, the selectors
    that [SYSRET] derives from [STAR] among them: user data at base + 8 and user
    code at base + 16, both of ring 3. *)
Lemma gdt_init_segments tss_addr ks df : 0 ≤ tss_addr < 2 ^ 64 →
  let '(table, tssd, t) := gdt_init tss_addr ks df in
  let sysret := Z.lor (USER_DATA_SELECTOR - 8) 3 in
  Z.of_nat (length table) + 2 = GDT_ENTRIES ∧
  from_option (λ e, seg_is e 0 true) false (segment table KERNEL_CODE_SELECTOR) = true ∧
  from_option (λ e, seg_is e 0 false) false (segment table KERNEL_DATA_SELECTOR) = true ∧
  from_option (λ e, seg_is e 3 false) false (segment table USER_DATA_SELECTOR) = true ∧
  from_option (λ e, seg_is e 3 true) false (segment table USER_CODE_SELECTOR) = true ∧
  sysret + 8 = Z.lor USER_DATA_SELECTOR 3 ∧ sysret + 16 = Z.lor USER_CODE_SELECTOR 3 ∧
  TSS_SELECTOR / 8 = Z.of_nat (length table) ∧ tss_base tssd = tss_addr ∧ rsp0 t = ks + 16384.
Proof.
  intros Ha. pose proof (tss_set_entry_base tss_addr Ha) as Hb. unfold gdt_init.
  cbv zeta. split_and!; [clear; vm_compute; reflexivity..|exact Hb|reflexivity].
Qed.

(** ** The real-time clock *)

Section cmos.
Context {W : Type} `{Ports W} (fuel : nat).
Implicit Types (w : W).

Definition cmos_read_register (reg : Z) w : Z * W := inb 0x71 (outb 0x70 reg w).
Definition bcd_to_binary (bcd : Z) : Z := u8 (bcd / 16 * 10 + Z.land bcd 0x0F).

(** [cmos_time_t] *)
Record cmos_time := CmosTime { second : Z; minute : Z; hour : Z; day : Z; month : Z; year : Z }.

(** The loop that waits for the end of an update. *)
Fixpoint update_loop (n : nat) w : res W :=
  match n with
  | O => NoFuel
  | S n => let '(st, w) := inb 0x71 w in if has st 0x80 then update_loop n w else Ret w
  end.
Definition cmos_read_time w : res (cmos_time * W) :=
  w ← update_loop fuel (outb 0x70 0x0A w);
  let '(s, w) := cmos_read_register 0x00 w in
  let '(mi, w) := cmos_read_register 0x02 w in
  let '(h, w) := cmos_read_register 0x04 w in
  let '(d, w) := cmos_read_register 0x07 w in
  let '(mo, w) := cmos_read_register 0x08 w in
  let '(y, w) := cmos_read_register 0x09 w in
  Ret (CmosTime (bcd_to_binary s) (bcd_to_binary mi) (bcd_to_binary h) (bcd_to_binary d) (bcd_to_binary mo) (bcd_to_binary y), w).

Definition unix_timestamp (t : cmos_time) : Z :=
  u64 (946684800 + u64 (year t * 365 * 24 * 3600) + u64 (u64 (month t - 1) * 30 * 24 * 3600) +
       u64 (u64 (day t - 1) * 24 * 3600) + hour t * 3600 + minute t * 60 + second t).
Definition cmos_get_unix_timestamp w : res (Z * W) := '(t, w) ← cmos_read_time w; Ret (unix_timestamp t, w).

(** Low memory in KB. *)
Definition GetCMOSMem w : Z * W :=
  let '(low, w) := inb 0x71 (outb 0x70 0x30 w) in
  let '(high, w) := inb 0x71 (outb 0x70 0x31 w) in
  (u16 (Z.lor low (Z.shiftl high 8)), w).
End cmos.

(** Two BCD digits. *)
Lemma bcd_to_binary_spec v : 0 ≤ v < 100 → bcd_to_binary (v / 10 * 16 + v mod 10) = v.
Proof.
  intros Hv. unfold bcd_to_binary. change 0x0F with (Z.ones 4). rewrite Z.land_ones by lia. unfold u8. dlia.
Qed.

(** ** The timer *)

Definition TIMER_FREQUENCY : Z := 1000.
Definition MAX_TIMER_CALLBACKS : nat := 8.

Section timer.
Context {H : Type} `{HeapAlloc H} `{KernelCode}.
(** Callbacks by their identity, and what they do. *)
Context {F : Type} `{EqDecision F} (run : F → ks H → res (ks H)).
Context {W : Type} `{Ports W} `{Stubs}.
Implicit Types (s : ks H) (w : W).

(** [timer_callbacks[0 .. callback_count)] and the counters. *)
Record timer := Timer {
  timer_ticks : Z; timer_initialized : bool; boot_timestamp : Z; timer_callbacks : list F;
}.

Fixpoint run_all (cs : list F) s : res (ks H) :=
  match cs with [] => Ret s | c :: cs => s ← run c s; run_all cs s end.
Definition timer_handler (t : timer) s : res (timer * ks H) :=
  if negb (timer_initialized t) then Ret (t, s) else
  let t := Timer (u64 (timer_ticks t + 1)) true (boot_timestamp t) (timer_callbacks t) in
  s ← run_all (timer_callbacks t) s;
  s ← (if sched_is_enabled s then sched_tick s else Ret s);
  Ret (t, s).

(** [handler] stands for [timer_handler] in the table of IRQ handlers. *)
Definition timer_init {G : Type} (handler : G) (frequency : Z) (t : timer) (i : intr (F := G)) w : timer * intr (F := G) * W :=
  let frequency := if (frequency =? 0) || (1193182 <? frequency) then TIMER_FREQUENCY else frequency in
  let '(i, w) := irq_register_handler i 0 handler w in
  let divisor := 1193182 / frequency in
  let divisor := if divisor <? 1 then 1 else divisor in
  let divisor := if 65535 <? divisor then 65535 else divisor in
  let w := io_wait (outb 0x43 0x36 w) in
  let w := io_wait (outb 0x40 (Z.land divisor 0xFF) w) in
  let w := io_wait (outb 0x40 (Z.land (Z.shiftr divisor 8) 0xFF) w) in
  (Timer 0 true (boot_timestamp t) [], i, w).

(** [None] is the null pointer. *)
Definition timer_register_callback (t : timer) (callback : option F) : Z * timer :=
  match callback with
  | None => (-1, t)
  | Some c =>
      if bool_decide (MAX_TIMER_CALLBACKS ≤ length (timer_callbacks t))%nat then (-1, t) else
      if bool_decide (c ∈ timer_callbacks t) then (-1, t) else
      (0, Timer (timer_ticks t) (timer_initialized t) (boot_timestamp t) (timer_callbacks t ++ [c]))
  end.
Fixpoint remove_first (cs : list F) (c : F) : list F :=
  match cs with [] => [] | x :: cs => if bool_decide (x = c) then cs else x :: remove_first cs c end.
Definition timer_unregister_callback (t : timer) (callback : option F) : timer :=
  match callback with
  | None => t
  | Some c => Timer (timer_ticks t) (timer_initialized t) (boot_timestamp t) (remove_first (timer_callbacks t) c)
  end.

Definition timer_get_ticks (t : timer) : Z := timer_ticks t.
Definition timer_get_seconds (t : timer) : Z := if timer_initialized t then timer_ticks t / TIMER_FREQUENCY else 0.
Definition timer_get_milliseconds (t : timer) : Z := if timer_initialized t then timer_ticks t else 0.
Definition timer_set_boot_time (t : timer) : timer :=
  Timer (timer_ticks t) (timer_initialized t) (timer_ticks t) (timer_callbacks t).
Definition timer_get_uptime_seconds (t : timer) : Z :=
  if timer_initialized t then u64 (timer_ticks t - boot_timestamp t) / TIMER_FREQUENCY else 0.

(** The callbacks stay distinct and few; what was registered is called until it is
    unregistered. *)
Definition callbacks_ok (t : timer) : Prop :=
  NoDup (timer_callbacks t) ∧ (length (timer_callbacks t) ≤ MAX_TIMER_CALLBACKS)%nat.

Lemma register_callback_spec t c : callbacks_ok t →
  let '(rc, t') := timer_register_callback t (Some c) in callbacks_ok t' ∧
  (rc = 0 ∧ c ∉ timer_callbacks t ∧ timer_callbacks t' = timer_callbacks t ++ [c] ∨
   rc = -1 ∧ t' = t ∧ (c ∈ timer_callbacks t ∨ length (timer_callbacks t) = MAX_TIMER_CALLBACKS)).
Proof.
  intros [Hn Hl]. unfold timer_register_callback. case_bool_decide as Hf.
  { split; [done|]. right. split_and!; [done..|]. right. lia. }
  case_bool_decide as Hc; [split; [done|]; right; by auto|]. split; [|left; by auto].
  split; cbn [timer_callbacks]; [|rewrite length_app; cbn; lia].
  apply NoDup_app. split_and!; [done| |by apply NoDup_singleton]. by intros x Hx ->%list_elem_of_singleton.
Qed.

Lemma remove_first_sub cs c x : x ∈ remove_first cs c → x ∈ cs.
Proof.
  induction cs as [|y cs IH]; [done|]. cbn. case_bool_decide; [by right|].
  intros [->|Hx]%elem_of_cons; [by left|right; by apply IH].
Qed.
Lemma unregister_callback_spec t c : callbacks_ok t →
  let t' := timer_unregister_callback t (Some c) in callbacks_ok t' ∧
  ∀ x, x ∈ timer_callbacks t' ↔ x ∈ timer_callbacks t ∧ x ≠ c.
Proof.
  intros [Hn Hl]. cbn [timer_unregister_callback]. unfold callbacks_ok. cbn [timer_callbacks].
  assert (E : ∀ cs, NoDup cs → NoDup (remove_first cs c) ∧ (length (remove_first cs c) ≤ length cs)%nat ∧
    ∀ x, x ∈ remove_first cs c ↔ x ∈ cs ∧ x ≠ c).
  { induction 1 as [|y cs Hy Hcs (IH1 & IH2 & IH3)]; cbn [remove_first].
    - split_and!; [constructor|lia|]. intros x. split; [by intros ?%elem_of_nil|by intros [?%elem_of_nil _]].
    - case_bool_decide as Hyc.
      + subst y. split_and!; [done|cbn; lia|]. intros x. rewrite elem_of_cons. split; [|by intros [[->|?] ?]].
        intros Hx. split; [by right|]. by intros ->.
      + split_and!; [constructor; [|done]; by intros ?%remove_first_sub|cbn; lia|].
        intros x. rewrite !elem_of_cons, IH3. split; [intros [->|[]]; auto|intros [[->|?] ?]; auto]. }
  destruct (E _ Hn) as (E1 & E2 & E3). split; [split; [done|lia]|done].
Qed.
End timer.
