(* ===== verification/Console.v ===== *)
(** Text on the screen and on the serial port: [screen/lib/print.c],
    [screen/lib/log.c], the screens of [exceptions/panic.c] with the messages of
    [exceptions/exception_handler.c], the logo, and the functions of the clock and
    the timer that print.  A string is the list of its characters. *)
From stdpp Require Import strings.
From S2P Require Import Prelude Ram PhysMem Str Interrupts Screen Serial Platform.

(** [screen/colors.h] *)
Definition red : Z := 0xFFFF0000.
Definition green : Z := 0xFF00FF00.
Definition yellow : Z := 0xFFFFFF00.
Definition blue : Z := 0xFF0000FF.
Definition white : Z := 0xFFFFFFFF.
Definition COLOR_WHITE : Z := 0xFFFFFFFF.

(** The terminated string at [p]. *)
Fixpoint c_string (fuel : nat) (m : ram) (p : Z) : res (list Z) :=
  match fuel with
  | O => NoFuel
  | S fuel => if ld8 m p =? 0 then Ret [] else s ← c_string fuel m (p + 1); Ret (ld8 m p :: s)
  end.

(** Arrays of characters on the stack: [BUF] is the array itself, [LIT] a string
    literal and [TMP] the array of the number printers; they do not overlap. *)
Definition BUF : Z := 0x1000.
Definition LIT : Z := 0x2000.
Definition TMP : Z := 0x3000.
Definition BUF_FUEL : nat := 256.
Definition set_buf (m : ram) (s : list Z) : res ram := str_copy BUF_FUEL (poke m LIT (s ++ [0])) BUF LIT.
Definition add_buf (m : ram) (s : list Z) : res ram := str_append BUF_FUEL (poke m LIT (s ++ [0])) BUF LIT.
Definition add_uint (m : ram) (num : Z) : res ram := str_append_uint BUF_FUEL TMP m BUF num.
Definition add_hex (m : ram) (num : Z) : res ram := len ← str_len BUF_FUEL m BUF; str_from_hex TMP m (BUF + len) num.

Section console.
Context {W : Type} `{Ports W} (fuel : nat).
Implicit Types (w : W).

(** The screens, memory, the serial device and [last_tag_width]. *)
Record console := Con { con_gfx : gfx; con_ram : ram; con_port : W; last_tag_width : Z }.
Implicit Types (k : console).
Definition with_screen k (m : ram) (g : gfx) : console := Con g m (con_port k) (last_tag_width k).
Definition with_port k w : console := Con (con_gfx k) (con_ram k) w (last_tag_width k).

(** [printf(str)]: the text is the format, and there are no arguments. *)
Definition printf (str : list Z) w : res W := serial_printf fuel (poke ∅ LIT (str ++ [0])) LIT [] w.

(** ** [print.c] *)

Definition putchar k (c color : Z) : res console :=
  '(m, g) ← bs_putchar (con_gfx k) (con_ram k) c color; Ret (with_screen k m g).
Definition string k (str : list Z) (color : Z) : res console :=
  '(m, g) ← bs_print (con_gfx k) (con_ram k) str color;
  w ← printf str (con_port k);
  Ret (with_port (with_screen k m g) w).
Definition print k (str : list Z) (color : Z) : res console := string k str color.
Definition printInt k (value color : Z) : res console :=
  m ← IntToString TMP ∅ value BUF;
  s ← c_string 13 m BUF;
  string k s color.
Definition print_buf k (m : ram) (color : Z) : res console := s ← c_string BUF_FUEL m BUF; print k s color.
Definition println k (color : Z) : res console := print k EOL color.

(** ** [log.c] *)

Inductive log_level := LNORMAL | LSUCCESS | LWARNING | LERROR | LWHITE.
Definition get_tag_color (level : log_level) : Z :=
  match level with LSUCCESS => green | LWARNING => yellow | LERROR => red | LWHITE => white | LNORMAL => green end.
Definition get_msg_color (level : log_level) : Z :=
  match level with LSUCCESS => green | LWARNING => yellow | LERROR => red | LWHITE => white | LNORMAL => white end.
(** A null string is [None]. *)
Definition log_message k (tag message : option (list Z)) (level : log_level) : res console :=
  match tag, message with
  | Some tag, Some message =>
      let k := Con (con_gfx k) (con_ram k) (con_port k) (Z.of_nat (length tag) + 1) in
      k ← print k tag (get_tag_color level);
      k ← print k (text " ") (get_tag_color level);
      print k message (get_msg_color level)
  | _, _ => Ret k
  end.
Definition log k (tag message : list Z) : res console := log_message k (Some tag) (Some message) LNORMAL.
Definition log_continue k (message : option (list Z)) : res console :=
  match message with
  | None => Ret k
  | Some message =>
      k ← for_range 0 (last_tag_width k) (λ _ k, print k (text " ") white) k;
      print k message white
  end.

(** ** Panics: the state in which the processor is halted *)

Definition PANICSCREEN_COLOR : Z := 0xFFffffff.
Definition PANICSCREEN_BG_COLOR : Z := 0xFFff0000.
Definition clear_screen k (color : Z) : console := with_screen k (clear (con_gfx k) (con_ram k) color) (con_gfx k).

Definition panic k (message : option (list Z)) : res console :=
  let k := clear_screen k PANICSCREEN_BG_COLOR in
  k ← println k PANICSCREEN_COLOR;
  k ← print k (text "!!! --- KERNEL PANIC --- !!!") PANICSCREEN_COLOR;
  k ← println k PANICSCREEN_COLOR;
  k ← match message with
      | Some message => k ← print k message PANICSCREEN_COLOR; println k PANICSCREEN_COLOR
      | None => Ret k
      end;
  print k (EOL ++ text "System halted.") PANICSCREEN_COLOR.

(** The fields of [cpu_state_t] an exception shows, and the register [cr2]. *)
Record exc_state := Exc { int_no : Z; err_code : Z; exc_rip : Z; exc_rsp : Z; cr2 : Z }.

Definition page_fault_lines k (e : exc_state) (buf : ram) : res (console * ram) :=
  buf ← set_buf buf (text "CR2 (faulting addr): 0x");
  buf ← add_hex buf (cr2 e);
  k ← print_buf k buf PANICSCREEN_COLOR;
  k ← println k PANICSCREEN_COLOR;
  buf ← set_buf buf (text "  present: ");
  buf ← add_buf buf (if has (err_code e) 1 then text "yes" else text "no (unmapped)");
  buf ← add_buf buf (text ", write: ");
  buf ← add_buf buf (if has (err_code e) 2 then text "yes" else text "no");
  k ← print_buf k buf PANICSCREEN_COLOR;
  k ← println k PANICSCREEN_COLOR;
  Ret (k, buf).
Definition panic_exception k (e : exc_state) (message : option (list Z)) : res console :=
  let k := clear_screen k PANICSCREEN_BG_COLOR in
  k ← println k PANICSCREEN_COLOR;
  k ← print k (text "!!! PANIC !!!") PANICSCREEN_COLOR;
  k ← println k PANICSCREEN_COLOR;
  k ← match message with
      | Some message =>
          buf ← set_buf ∅ (text "Exception: ");
          buf ← add_buf buf message;
          k ← print_buf k buf PANICSCREEN_COLOR;
          println k PANICSCREEN_COLOR
      | None => Ret k
      end;
  buf ← set_buf ∅ (text "INT: ");
  buf ← add_uint buf (u32 (int_no e));
  buf ← add_buf buf (text " ERR: ");
  buf ← add_uint buf (u32 (err_code e));
  k ← print_buf k buf PANICSCREEN_COLOR;
  k ← println k PANICSCREEN_COLOR;
  '(k, buf) ← (if int_no e =? 14 then page_fault_lines k e buf else Ret (k, buf));
  buf ← set_buf buf (text "RIP: 0x");
  buf ← add_hex buf (exc_rip e);
  k ← print_buf k buf PANICSCREEN_COLOR;
  k ← println k PANICSCREEN_COLOR;
  buf ← set_buf buf (text "RSP: 0x");
  buf ← add_hex buf (exc_rsp e);
  k ← print_buf k buf PANICSCREEN_COLOR;
  k ← print k (EOL ++ EOL) PANICSCREEN_COLOR;
  print k (text "System halted.") PANICSCREEN_COLOR.

Definition exception_messages : list (list Z) :=
  [text "Division By Zero"; text "Debug"; text "Non Maskable Interrupt"; text "Breakpoint"; text "Overflow";
   text "Bound Range Exceeded"; text "Invalid Opcode"; text "Device Not Available"; text "Double Fault";
   text "Coprocessor Segment Overrun"; text "Invalid TSS"; text "Segment Not Present"; text "Stack-Segment Fault";
   text "General Protection Fault"; text "Page Fault"; text "Reserved"; text "x87 FPU Error"; text "Alignment Check";
   text "Machine Check"; text "SIMD Floating-Point Exception"; text "Virtualization Exception"; text "Reserved";
   text "Reserved"; text "Reserved"; text "Reserved"; text "Reserved"; text "Reserved"; text "Reserved";
   text "Reserved"; text "Reserved"; text "Security Exception"; text "Reserved"].
Definition exception_handler k (e : exc_state) : res console :=
  if int_no e <? 32 then
    message ← deref (lookupZ exception_messages (int_no e)); panic_exception k e (Some message)
  else panic_exception k e (Some (text "Unknown Exception")).

(** ** The clock and the timer *)

(** [GetCMOSDate] and [GetCMOSTime]: the month first. *)
Definition GetCMOSDate k : res console :=
  w ← update_loop fuel (outb 0x70 0x0A (con_port k));
  let '(day, w) := cmos_read_register 0x07 w in
  let '(month, w) := cmos_read_register 0x08 w in
  let '(year, w) := cmos_read_register 0x09 w in
  let k := with_port k w in
  k ← printInt k (bcd_to_binary month) COLOR_WHITE;
  k ← print k (text "/") COLOR_WHITE;
  k ← printInt k (bcd_to_binary day) COLOR_WHITE;
  k ← print k (text "/") COLOR_WHITE;
  printInt k (bcd_to_binary year) COLOR_WHITE.
Definition print_two k (n : Z) : res console :=
  k ← (if n <? 10 then print k (text "0") COLOR_WHITE else Ret k); printInt k n COLOR_WHITE.
Definition GetCMOSTime k : res console :=
  '(t, w) ← cmos_read_time fuel (con_port k);
  let k := with_port k w in
  k ← print_two k (hour t);
  k ← print k (text ":") COLOR_WHITE;
  k ← print_two k (minute t);
  k ← print k (text ":") COLOR_WHITE;
  print_two k (second t).

(** The two texts of [timer_print_uptime]. *)
Definition uptime_days (days : Z) : res (list Z) :=
  buf ← set_buf ∅ [];
  buf ← add_uint buf (u32 days);
  buf ← add_buf buf (text " day");
  buf ← (if days =? 1 then Ret buf else add_buf buf (text "s"));
  buf ← add_buf buf (text ", ");
  c_string BUF_FUEL buf BUF.
Definition uptime_clock (hours minutes seconds : Z) : res (list Z) :=
  buf ← set_buf ∅ [];
  buf ← add_uint buf (u32 hours);
  buf ← add_buf buf (text ":");
  buf ← (if minutes <? 10 then add_buf buf (text "0") else Ret buf);
  buf ← add_uint buf (u32 minutes);
  buf ← add_buf buf (text ":");
  buf ← (if seconds <? 10 then add_buf buf (text "0") else Ret buf);
  buf ← add_uint buf (u32 seconds);
  c_string BUF_FUEL buf BUF.
Definition timer_print_uptime {F} k (t : timer (F := F)) : res console :=
  let uptime := timer_get_uptime_seconds t in
  let days := uptime / 86400 in
  k ← (if 0 <? days then s ← uptime_days days; print k s COLOR_WHITE else Ret k);
  s ← uptime_clock (uptime mod 86400 / 3600) (uptime mod 3600 / 60) (uptime mod 60);
  print k s COLOR_WHITE.

(** ** The banner of [graphics_init] and the welcome of [_start] *)

Definition graphics_banner k : res console :=
  k ← print k (text "Welcome to doccrOS " ++ EOL) white;
  k ← print k (text "v0.0.1 (alpha)" ++ EOL) white;
  k ← print k (text "Graphics" ++ EOL) white;
  buf ← set_buf ∅ (text "Framebuffer ");
  buf ← add_uint buf (fb_width (con_gfx k));
  buf ← add_buf buf (text "x");
  buf ← add_uint buf (fb_height (con_gfx k));
  k ← print_buf k buf white;
  println k white.
Definition welcome k : res console :=
  k ← print k (text "Welcome to ") white;
  k ← print k (text "doccrOS") blue;
  print k (text "!" ++ EOL ++ EOL) white.
End console.

(** ** The logo *)

Definition logo_width : Z := 80.
Definition logo_height : Z := 16.
Definition LOGO_SCALE : Z := 6.
Definition logo : list Z := [
  0;0;0;0;0;0;0;0;0;0;0;1;1;1;1;0;0;0;0;0;0;0;0;0;0;0;0;0;0;0;0;0;0;0;0;0;0;0;0;0;0;0;0;0;0;0;0;0;0;0;0;0;0;0;0;0;0;0;0;0;0;0;0;0;0;0;0;0;0;0;0;0;0;0;0;0;0;0;0;0;
  0;0;0;0;0;0;0;0;0;0;1;1;1;1;0;0;0;0;0;0;0;0;0;0;0;0;0;0;0;0;0;0;0;0;0;0;0;0;0;0;0;0;0;0;0;0;0;0;0;0;0;0;0;0;0;0;0;0;0;0;0;0;0;0;0;0;0;0;0;0;0;0;0;0;0;0;0;0;0;0;
  0;0;0;0;0;0;0;0;0;0;1;1;1;0;0;0;0;0;0;0;0;0;0;0;0;0;0;0;0;0;0;0;0;0;0;0;0;0;0;0;0;0;0;0;0;0;0;0;0;0;0;0;0;0;0;0;0;0;0;0;0;0;0;0;0;0;0;0;0;0;0;0;0;0;0;0;0;0;0;0;
  0;0;0;0;0;0;0;0;0;0;1;1;1;0;0;0;0;0;0;0;0;0;0;0;0;0;0;0;0;0;0;0;0;0;0;0;0;0;0;0;0;0;0;0;0;0;0;0;0;0;0;0;0;0;0;0;0;0;0;0;0;0;0;0;0;0;0;0;0;0;0;0;0;0;0;0;0;0;0;0;
  0;0;0;0;0;0;0;0;0;0;1;1;1;0;0;0;0;0;0;0;0;0;0;0;0;0;0;0;0;0;0;0;0;0;0;0;0;0;0;0;0;0;0;0;0;0;0;0;0;0;0;0;0;0;0;0;0;0;0;0;0;0;0;0;0;0;0;0;0;0;0;0;0;0;0;0;0;0;0;0;
  0;0;0;0;0;1;1;1;1;0;1;1;1;0;0;0;0;0;0;0;0;0;1;1;1;1;0;0;0;0;0;0;0;0;0;0;0;0;1;1;1;1;0;0;0;0;0;0;0;0;0;0;0;0;1;1;1;1;0;0;0;0;0;0;0;1;1;1;0;1;1;1;1;1;1;1;0;0;0;0;
  0;0;0;1;1;1;1;1;1;1;1;1;1;0;0;0;0;0;0;0;1;1;1;1;1;1;1;1;0;0;0;0;0;0;0;0;1;1;1;1;1;1;1;1;0;0;0;0;0;0;0;0;1;1;1;1;1;1;1;1;0;0;0;0;0;0;1;1;1;1;1;1;1;1;1;1;1;0;0;0;
  0;0;1;1;1;1;1;1;1;1;1;1;1;0;0;0;0;0;0;1;1;1;1;1;1;1;1;1;1;0;0;0;0;0;0;1;1;1;1;1;1;1;1;1;1;0;0;0;0;0;0;1;1;1;1;1;1;1;1;1;1;0;0;0;0;0;1;1;1;1;1;0;0;0;1;1;1;0;0;0;
  0;0;1;1;1;0;0;0;0;1;1;1;1;0;0;0;0;0;0;1;1;1;0;0;0;0;1;1;1;0;0;0;0;0;0;1;1;1;0;0;0;0;1;1;1;0;0;0;0;0;0;1;1;1;0;0;0;0;1;1;1;0;0;0;0;0;1;1;1;1;0;0;0;0;0;1;1;0;0;0;
  0;1;1;1;0;0;0;0;0;0;1;1;1;0;0;0;0;0;1;1;1;0;0;0;0;0;0;1;1;1;0;0;0;0;1;1;1;0;0;0;0;0;0;0;0;0;0;0;0;0;1;1;1;0;0;0;0;0;0;0;0;0;0;0;0;0;1;1;1;0;0;0;0;0;0;0;0;0;0;0;
  0;1;1;1;0;0;0;0;0;0;1;1;1;0;0;0;0;0;1;1;1;0;0;0;0;0;0;1;1;1;0;0;0;0;1;1;1;0;0;0;0;0;0;0;0;0;0;0;0;0;1;1;1;0;0;0;0;0;0;0;0;0;0;0;0;0;1;1;1;0;0;0;0;0;0;0;0;0;0;0;
  0;1;1;1;0;0;0;0;0;0;1;1;1;0;0;0;0;0;1;1;1;0;0;0;0;0;0;1;1;1;0;0;0;0;1;1;1;0;0;0;0;0;0;0;0;0;0;0;0;0;1;1;1;0;0;0;0;0;0;0;0;0;0;0;0;0;1;1;1;0;0;0;0;0;0;0;0;0;0;0;
  0;0;1;1;1;0;0;0;0;1;1;1;1;0;0;0;0;0;0;1;1;1;0;0;0;0;1;1;1;0;0;0;0;0;0;1;1;1;0;0;0;0;1;1;1;0;0;0;0;0;0;1;1;1;0;0;0;0;1;1;1;0;0;0;0;0;1;1;1;0;0;0;0;0;0;0;0;0;0;0;
  0;0;1;1;1;1;1;1;1;1;1;1;1;0;0;0;0;0;0;1;1;1;1;1;1;1;1;1;1;0;0;0;0;0;0;1;1;1;1;1;1;1;1;1;1;0;0;0;0;0;0;1;1;1;1;1;1;1;1;1;1;0;0;0;0;0;1;1;1;0;0;0;0;0;0;0;0;0;0;0;
  0;0;0;1;1;1;1;1;1;1;1;1;1;1;0;0;0;0;0;0;1;1;1;1;1;1;1;1;0;0;0;0;0;0;0;0;1;1;1;1;1;1;1;1;0;0;0;0;0;0;0;0;1;1;1;1;1;1;1;1;0;0;0;0;0;0;1;1;1;0;0;0;0;0;0;0;0;0;0;0;
  0;0;0;0;0;1;1;1;1;0;0;1;1;1;1;0;0;0;0;0;0;0;1;1;1;1;0;0;0;0;0;0;0;0;0;0;0;0;1;1;1;1;0;0;0;0;0;0;0;0;0;0;0;0;1;1;1;1;0;0;0;0;0;0;0;1;1;1;1;1;0;0;0;0;0;0;0;0;0;0].
Definition draw_logo (g : gfx) (m : ram) : ram :=
  let start_x := u32 (fb_width g - logo_width * LOGO_SCALE) / 2 in
  let start_y := u32 (fb_height g - logo_height * LOGO_SCALE) / 2 in
  upto 0 logo_height (λ y m, upto 0 logo_width (λ x m,
    if default 0 (lookupZ logo (y * logo_width + x)) =? 0 then m else
    upto 0 LOGO_SCALE (λ dy m, upto 0 LOGO_SCALE (λ dx m,
      putpixel g m (u32 (start_x + x * LOGO_SCALE + dx)) (u32 (start_y + y * LOGO_SCALE + dy)) COLOR_WHITE) m) m) m) m.

(** ** What is shown and what is sent *)

(** Characters of the font that are not the start of a conversion. *)
Definition plain (c : Z) : Prop := 0 < c < 132 ∧ c ≠ 37.

Lemma text_plain s : forallb (λ c, (0 <? c) && (c <? 132) && negb (c =? 37)) (text s) = true → Forall plain (text s).
Proof.
  intros Hs. apply Forall_forall. intros c Hc. rewrite forallb_forall in Hs.
  specialize (Hs c (proj1 (list_elem_of_In _ _) Hc)). rewrite !andb_true_iff, negb_true_iff in Hs.
  destruct Hs as [[H1 H2] H3]. apply Z.ltb_lt in H1, H2. apply Z.eqb_neq in H3. done.
Qed.

Section sent.
Context {W : Type} `{Ports W} (fuel : nat).
Implicit Types (w : W) (k : console (W := W)).

Lemma printf_loop_plain m str : ∀ n p w, str_at m p str → Forall plain str → (length str < n)%nat →
  printf_loop fuel n m p [] w = put_all fuel str w.
Proof.
  induction str as [|c str IH]; intros n p w Ha Hp Hn; (destruct n as [|n]; [cbn in Hn; lia|]); cbn [printf_loop put_all].
  - cbn in Ha. by rewrite Ha.
  - destruct Ha as (Hc & Hc0 & Ha). apply Forall_cons in Hp as [[Hr H37] Hp]. rewrite Hc.
    destruct (Z.eqb_spec c 0); [lia|]. destruct (Z.eqb_spec c 37); [done|]. cbn [negb].
    destruct (serial_putchar fuel c w) as [w'| | |]; [|done..]. cbn. apply IH; [done|done|]. cbn in Hn. lia.
Qed.

Lemma printf_plain str w : Forall plain str → (length str < fuel)%nat → printf fuel str w = put_all fuel str w.
Proof.
  intros Hp Hn. unfold printf, serial_printf. cbn [Z.eqb LIT]. apply printf_loop_plain; [|done|done].
  apply str_at_poke. eapply Forall_impl; [exact Hp|]. intros c [? _]. lia.
Qed.

Lemma put_all_app a b w : put_all fuel (a ++ b) w = w ← put_all fuel a w; put_all fuel b w.
Proof.
  revert w. induction a as [|c a IH]; intros w; [done|]. cbn [app put_all].
  destruct (serial_putchar fuel c w) as [w'| | |]; [|done..]. cbn. apply IH.
Qed.

(** A console whose active screen is well formed, visible and has a log buffer of
    its own, with [log] in it. *)
Definition console_log k (log : list Z) : Prop :=
  ∃ s, fb_ok (con_gfx k) ∧ lookupZ (screens (con_gfx k)) (active_screen (con_gfx k)) = Some s ∧ screen_ok s ∧
    visible s ≠ 0 ∧ log_apart (con_gfx k) s ∧ log_text (con_ram k) s log.

(** [str] went to the screen and to the serial port. *)
Definition shows k (log str : list Z) k' : Prop :=
  console_log k' (log ++ str) ∧ put_all fuel str (con_port k) = Ret (con_port k') ∧ last_tag_width k' = last_tag_width k.

(** The serial device becomes ready in time for every character. *)
Context (ready : ∀ c w, is_ret (serial_putchar fuel c w) = true).

Lemma put_all_ready str w : ∃ w', put_all fuel str w = Ret w'.
Proof.
  revert w. induction str as [|c str IH]; intros w; [by exists w|]. cbn [put_all].
  pose proof (ready c w) as Hr. destruct (serial_putchar fuel c w) as [w'| | |]; [|done..]. cbn. apply IH.
Qed.

Lemma print_shows k log str color : console_log k log → Forall plain str → (length str < fuel)%nat →
  Z.of_nat (length log + length str) < BS_BUF_SIZE → returns (print fuel k str color) (shows k log str).
Proof.
  intros (s & Hg & Hl & Hs & Hv & Ha & Ht) Hp Hn Hlen. unfold print, string. apply returns_bind.
  eapply returns_mono; [apply (bs_print_step (con_gfx k) (con_ram k) s str color); try done|].
  { eapply Forall_impl; [exact Hp|]. intros c [? _]. lia. }
  intros [m g] (s' & -> & Hss & Hok & _ & Hlog). cbv beta iota. rewrite printf_plain by done.
  destruct (put_all_ready str (con_port k)) as [w' Hw]. cbn [con_port with_screen]. rewrite Hw. cbn. split; [|done].
  exists s'. pose proof Hss as (E1 & E2 & E3 & E4 & _ & _ & _ & E8). split_and!.
  - by apply fb_ok_put.
  - by apply (get_put_screen (con_gfx k) (active_screen (con_gfx k)) s).
  - done.
  - by rewrite E8.
  - destruct Ha as [Hb Ha]. split; [by rewrite E1|]. intros a. specialize (Ha a).
    unfold log_area, both_areas, pixel_area in *. by rewrite E1, E2, E3, E4.
  - by apply Hlog.
Qed.

Lemma shows_trans k1 k2 k3 log a b : shows k1 log a k2 → shows k2 (log ++ a) b k3 → shows k1 log (a ++ b) k3.
Proof.
  intros (_ & Ha & Ea) (Hl & Hb & Eb). split; [by rewrite (assoc_L (++))|]. split; [|congruence].
  rewrite put_all_app, Ha. exact Hb.
Qed.

(** Printing one text after another. *)
Lemma print_then k0 k log a str color : shows k0 log a k → Forall plain str → (length str < fuel)%nat →
  Z.of_nat (length log + length a + length str) < BS_BUF_SIZE → returns (print fuel k str color) (shows k0 log (a ++ str)).
Proof.
  intros Ha Hp Hn Hlen. eapply returns_mono; [apply (print_shows k (log ++ a)); [apply Ha|done|done|rewrite length_app; lia]|].
  intros k' Hk. by eapply shows_trans.
Qed.

Definition blanks (n : nat) : list Z := replicate n 32.

(** The loop of [log_continue]. *)
Lemma print_blanks k0 k log a n : (1 < fuel)%nat → shows k0 log a k → 0 ≤ n →
  Z.of_nat (length log + length a) + n < BS_BUF_SIZE →
  returns (for_range 0 n (λ _ k, print fuel k (text " ") white) k) (shows k0 log (a ++ blanks (Z.to_nat n))).
Proof.
  intros Hf Ha Hn Hlen.
  apply (for_range_inv (λ i, shows k0 log (a ++ blanks (Z.to_nat i)))); [done|by rewrite app_nil_r|].
  intros i k' Hi Hk. eapply returns_mono.
  - apply (print_then k0 k' log (a ++ blanks (Z.to_nat i)) (text " ")); [exact Hk|by apply text_plain|done|].
    rewrite length_app. unfold blanks. rewrite length_replicate. cbn [text length fmap list_fmap String.list_ascii_of_string]. lia.
  - intros k2. unfold blanks. rewrite Z2Nat.inj_add by lia. rewrite replicate_add, (assoc_L (++)). done.
Qed.

Definition tagged k (tag : list Z) : console := Con (con_gfx k) (con_ram k) (con_port k) (Z.of_nat (length tag) + 1).

Lemma log_message_step k log tag message level :
  console_log k log → Forall plain tag → Forall plain message →
  (length tag < fuel)%nat → (length message < fuel)%nat → (1 < fuel)%nat →
  Z.of_nat (length log + (length tag + length message + 1)) < BS_BUF_SIZE →
  returns (log_message fuel k (Some tag) (Some message) level) (shows (tagged k tag) log (tag ++ text " " ++ message)).
Proof.
  intros Hk Ht Hm Hft Hfm Hf Hlen. unfold log_message. fold (tagged k tag). rewrite (assoc_L (++)).
  apply returns_bind. eapply returns_mono; [apply (print_shows (tagged k tag) log); [exact Hk|done|done|lia]|].
  intros k1 Hk1. apply returns_bind.
  eapply returns_mono; [apply (print_then (tagged k tag) k1 log tag); [exact Hk1|by apply text_plain|done|cbn; lia]|].
  intros k2 Hk2. apply (print_then (tagged k tag) k2 log (tag ++ text " ") message); [exact Hk2|done|done|]. rewrite length_app. cbn. lia.
Qed.

(** C40. A log message and its continuation line up.  On a well-formed screen with
    room in its log, and for texts of characters of the font without a percent sign
    (the serial port takes a text as a format: [print] hands it to [printf] as it is),
    [log_message] followed by [log_continue] returns; the screen's
    log and the serial port get the same characters: the tag, a blank, the message,
    then as many blanks as the tag and its blank are wide, and the second message. *)
Theorem log_lines_up k log tag message more level :
  console_log k log → Forall plain tag → Forall plain message → Forall plain more →
  (length tag < fuel)%nat → (length message < fuel)%nat → (length more < fuel)%nat → (1 < fuel)%nat →
  Z.of_nat (length log + (2 * length tag + length message + length more + 2)) < BS_BUF_SIZE →
  returns (k ← log_message fuel k (Some tag) (Some message) level; log_continue fuel k (Some more))
    (λ k', let sent := (tag ++ text " " ++ message) ++ blanks (S (length tag)) ++ more in
       console_log k' (log ++ sent) ∧ put_all fuel sent (con_port k) = Ret (con_port k')).
Proof.
  intros Hk Ht Hm Hc Hft Hfm Hfc Hf Hlen. apply returns_bind.
  eapply returns_mono; [apply (log_message_step k log tag message level); done || lia|].
  intros k1 Hk1. unfold log_continue. assert (Ew : last_tag_width k1 = Z.of_nat (length tag) + 1) by apply Hk1. rewrite Ew.
  assert (El : length (tag ++ text " " ++ message) = S (length tag + length message)) by (rewrite !length_app; cbn; lia).
  apply returns_bind. eapply returns_mono; [apply (print_blanks (tagged k tag) k1 log _ _ Hf Hk1); lia|].
  replace (Z.to_nat (Z.of_nat (length tag) + 1)) with (S (length tag)) by lia.
  intros k2 Hk2. eapply returns_mono; [apply (print_then (tagged k tag) k2 log ((tag ++ text " " ++ message) ++ blanks (S (length tag))) more); [exact Hk2|done|done|]|].
  { rewrite length_app. unfold blanks. rewrite length_replicate. lia. }
  intros k3 (Hl & Hp & _). rewrite <-(assoc_L (++)) in Hl, Hp. by split.
Qed.
End sent.

(** ** An instance: the screen of [Screen] and a serial line that is always ready *)

#[local] Existing Instance log_ports.
Definition demo_console : console := Con demo_gfx (∅ : ram) ([] : list Z) 0.

Lemma demo_console_ok : console_log demo_console [].
Proof.
  exists demo_screen. split_and!; [split; vdone|reflexivity|split; vdone|done| |].
  - split; [done|]. intros a Ha [Hf|Hp]; unfold log_area, fb_area, pixel_area, span in *; cbn in *; unfold BS_BUF_SIZE in *; lia.
  - split; [done|]. split; [|done]. intros i c. rewrite lookupZ_none; [done|]. cbn. lia.
Qed.

Lemma log_lines_up_witness :
  returns (k ← log_message 20 demo_console (Some (text "[OK]")) (Some (text "go" ++ EOL)) LNORMAL;
           log_continue 20 k (Some (text "on")))
    (λ k', console_log k' (text "[OK] go" ++ EOL ++ text "     on") ∧
       con_port k' = reverse (text "[OK] go" ++ EOL ++ text "     on")).
Proof.
  eapply returns_mono.
  - apply (log_lines_up 20 ltac:(done) demo_console [] (text "[OK]") (text "go" ++ EOL) (text "on") LNORMAL demo_console_ok);
      [by apply text_plain| |by apply text_plain|first [vdone|vm_compute; lia]..].
    apply Forall_app. split; [by apply text_plain|]. repeat constructor; done.
  - intros k' [Hl Hp]. split; [exact Hl|]. rewrite put_all_log in Hp by lia. injection Hp as Hp. rewrite <-Hp. vm_compute. reflexivity.
Defined.

(** A panic on a page fault with no screen visible: the lines on the serial port. *)
Definition blind_console : console := Con (bs_init demo_gfx) (∅ : ram) ([] : list Z) 0.
Example page_fault_panic :
  (k ← exception_handler 200 blind_console (Exc 14 2 0x401000 0x7000 0xDEAD); Ret (reverse (con_port k))) =
  Ret (EOL ++ text "!!! PANIC !!!" ++ EOL ++ text "Exception: Page Fault" ++ EOL ++ text "INT: 14 ERR: 2" ++ EOL ++
       text "CR2 (faulting addr): 0xDEAD" ++ EOL ++ text "  present: no (unmapped), write: yes" ++ EOL ++
       text "RIP: 0x401000" ++ EOL ++ text "RSP: 0x7000" ++ EOL ++ EOL ++ text "System halted.").
Proof. vm_compute. reflexivity. Qed.
Example uptime_example : uptime_clock 7 5 42 = Ret (text "7:05:42").
Proof. vm_compute. reflexivity. Qed.
