(* ===== verification/Cpu.v ===== *)
(** The processor: identification ([arch/x86_64/cpu.c]), the control registers
    ([hal_glue.c]), random numbers ([rand.h]), and turning the machine off
    ([poweroff.c]).  The instructions are parameters. *)
From stdpp Require Import strings.
From S2P Require Import Prelude Ram PhysMem Str Interrupts Screen Serial Platform Console.

(** ** Identification *)

(** The bytes of a [u32], lowest first. *)
Definition word_bytes (v : Z) : list Z := (λ i, Z.land (Z.shiftr v (8 * i)) 0xFF) <$> [0; 1; 2; 3].

(** The string at the start of an array. *)
Fixpoint c_prefix (s : list Z) : list Z :=
  match s with [] => [] | c :: s => if c =? 0 then [] else c :: c_prefix s end.
(** The loop that skips blanks. *)
Fixpoint skip_blanks_list (s : list Z) : list Z :=
  match s with c :: s' => if c =? SPACE then skip_blanks_list s' else s | [] => [] end.
(** Leading blanks are cut off in place: what stood behind the shorter string stays. *)
Definition trim_brand (brand : list Z) : list Z :=
  let start := skip_blanks_list brand in
  if (length start =? length brand)%nat then brand
  else c_prefix start ++ [0] ++ drop (S (length (c_prefix start))) brand.

Section detect.
(** The [cpuid] instruction: eax, ebx, ecx, edx. *)
Context (cpuid : Z → Z * Z * Z * Z).

Definition brand_part (code : Z) : list Z :=
  let '(eax, ebx, ecx, edx) := cpuid code in
  word_bytes eax ++ word_bytes ebx ++ word_bytes ecx ++ word_bytes edx.
(** [cpu_detect]: the arrays [cpu_vendor] and [cpu_brand]; the second one keeps its
    other bytes, [old], when there is no brand. *)
Definition cpu_detect (old : list Z) : list Z * list Z :=
  let '(_, ebx, ecx, edx) := cpuid 0 in
  let vendor := word_bytes ebx ++ word_bytes edx ++ word_bytes ecx ++ [0] in
  let '(eax, _, _, _) := cpuid 0x80000000 in
  if 0x80000004 <=? eax then
    (vendor, trim_brand (brand_part 0x80000002 ++ brand_part 0x80000003 ++ brand_part 0x80000004 ++ [0]))
  else (vendor, 0 :: drop 1 old).
End detect.

Definition cpu_get_vendor (vendor : list Z) : list Z := c_prefix vendor.
Definition cpu_get_brand (vendor brand : list Z) : list Z :=
  if default 0 (head brand) =? 0 then c_prefix vendor else c_prefix brand.

(** ** Control registers *)

Definition CR0_EM : Z := Z.shiftl 1 2.
Definition CR0_MP : Z := Z.shiftl 1 1.
Definition CR4_OSFXSR : Z := Z.shiftl 1 9.
Definition CR4_OSXMMEXCPT : Z := Z.shiftl 1 10.
(** The values that [cpu_early_init] gives cr0 and cr4. *)
Definition early_cr0 (cr0 : Z) : Z := Z.lor (Z.land cr0 (not64 CR0_EM)) CR0_MP.
Definition early_cr4 (cr4 : Z) : Z := Z.lor cr4 (Z.lor CR4_OSFXSR CR4_OSXMMEXCPT).

(** ** Random numbers *)

Section rand.
(** The time-stamp counter, and the address of the local variable. *)
Context {W : Type} (rdtsc : W → Z * W) (value_addr : Z).

Fixpoint retry_rand (n : nat) (value : Z) (w : W) : Z * W :=
  match n with
  | O => (value, w)
  | S n => if value =? 0 then let '(value, w) := rdtsc w in retry_rand n value w else (value, w)
  end.
Definition scramble (value : Z) : Z :=
  let value := u64 (Z.lxor value (Z.shiftr value 30) * 0xbf58476d1ce4e5b9) in
  let value := u64 (Z.lxor value (Z.shiftr value 27) * 0x94d049bb133111eb) in
  Z.lxor value (Z.shiftr value 31).
Definition get_hw_rand (w : W) : Z * W :=
  let '(value, w) := rdtsc w in
  let '(value, w) := retry_rand 8 value w in
  let value := if value =? 0 then 0xD3ADF00D else value in
  (scramble (Z.lxor value value_addr), w).
End rand.

(** ** Turning the machine off *)

Definition POWEROFF_SHUTDOWN : Z := 0.
Definition POWEROFF_REBOOT : Z := 1.

Section poweroff.
(** [reset] is what a breakpoint with an empty interrupt table does to the machine. *)
Context {W : Type} `{Ports W} (outw : Z → Z → W → W) (reset : W → W) (fuel : nat).

Definition x86_restart (w : W) : W :=
  let w := outb 0x64 0xFE w in
  let w := outb 0xCF9 0x02 w in
  let w := outb 0xCF9 0x0E w in
  reset w.
Definition x86_shutdown (w : W) : W :=
  let w := outw 0x604 0x2000 w in
  let w := outw 0xB004 0x2000 w in
  outw 0x0604 0x2000 w.
(** What happens when the machine is still running afterwards. *)
Definition cpu_poweroff (k : console (W := W)) (operation : Z) : res (console (W := W)) :=
  if operation =? POWEROFF_REBOOT then
    print fuel (with_port k (x86_restart (con_port k))) (text "Power operation failed or not supported by hardware." ++ EOL) white
  else if operation =? POWEROFF_SHUTDOWN then
    print fuel (with_port k (x86_shutdown (con_port k))) (text "Power operation failed or not supported by hardware." ++ EOL) white
  else print fuel k (text "Power operation not supported." ++ EOL) white.
End poweroff.

(** ** What is detected *)

Lemma skip_blanks_split s : ∃ n, s = replicate n SPACE ++ skip_blanks_list s ∧ head (skip_blanks_list s) ≠ Some SPACE.
Proof.
  induction s as [|c s (n & E & Hh)]; [by exists O|]. cbn [skip_blanks_list]. destruct (Z.eqb_spec c SPACE) as [->|Hc].
  - exists (S n). split; [cbn; by rewrite <-E|done].
  - exists O. split; [done|]. cbn. congruence.
Qed.

Lemma c_prefix_app s t : 0 ∉ s → c_prefix (s ++ 0 :: t) = s.
Proof.
  induction s as [|c s IH]; intros Hs; cbn; [done|]. apply not_elem_of_cons in Hs as [Hc Hs].
  destruct (Z.eqb_spec c 0); [lia|]. by rewrite IH.
Qed.

Lemma c_prefix_no_zero s : 0 ∉ c_prefix s.
Proof.
  induction s as [|c s IH]; cbn; [apply not_elem_of_nil|]. destruct (Z.eqb_spec c 0); [apply not_elem_of_nil|].
  apply not_elem_of_cons. split; [lia|done].
Qed.

(** The brand loses its leading blanks and nothing else. *)
Lemma trim_brand_spec brand : c_prefix (trim_brand brand) = c_prefix (skip_blanks_list brand).
Proof.
  unfold trim_brand. destruct (Nat.eqb_spec (length (skip_blanks_list brand)) (length brand)) as [E|E].
  - destruct (skip_blanks_split brand) as (n & Es & _). rewrite Es in E at 2. rewrite length_app, length_replicate in E.
    assert (n = O) as -> by lia. cbn in Es. by rewrite <-Es.
  - apply c_prefix_app, c_prefix_no_zero.
Qed.
