(* ===== verification/UserMem.v ===== *)
(** The kernel's accesses to user memory.  A system call follows the pointers of
    its caller: the processor translates them through the page tables of the
    active space, and a store to a page that is not writable runs the page-fault
    handler of [mem/vmm/vmm.c] and is tried again. *)
From S2P Require Import Prelude Interfaces Ram PhysMem DList Kheap Paging Vmm RunQueue Space Context Proc Elf.
Import MemLib.

(** The last user address, as the code writes it out. *)
Definition USER_TOP : Z := 0x00007FFFFFFFFFFF.
Definition user_ptr_ok (ptr : Z) : bool := negb (ptr =? 0) && (ptr <=? USER_TOP).

Section user_mem.
Context {H : Type} `{HeapAlloc H}.
Implicit Types (s : mm H).

(** The present page-table entry of an address in the active space; an address
    above the user half is not canonical, and faults. *)
Definition user_pte s (a : Z) : res (option Z) :=
  if USER_TOP <? a then Panic else
  sp ← get_space s (active_space s);
  Ret (match walk_pt (mm_hhdm s) (mm_ram s) (u64 (pml4_phys sp + mm_hhdm s)) a with
       | None => None
       | Some pt => let e := get_entry (mm_ram s) pt (pt_index a) in
                    if has e PTE_PRESENT then Some e else None
       end).
(** Where the entry puts the byte at [a]. *)
Definition user_home s (e a : Z) : Z := Z.land e PTE_ADDR_MASK + mm_hhdm s + a mod 4096.

(** A load: a page that is not present panics in the page-fault handler. *)
Definition user_ld8 s (a : Z) : res Z :=
  e ← user_pte s a;
  match e with
  | None => Panic
  | Some e => Ret (ld8 (mm_ram s) (user_home s e a))
  end.

(** A store; the second try is the one after the page-fault handler, whose error
    code says present and write. *)
Fixpoint user_st8_tries (n : nat) s (a v : Z) : res (mm H) :=
  match n with
  | O => NoFuel
  | S n =>
      e ← user_pte s a;
      match e with
      | None => Panic
      | Some e =>
          if has e PTE_WRITABLE then Ret (with_mem s (st8 (mm_ram s) (user_home s e a) v) (mm_frames s))
          else s ← cow_page_fault_handler s a 3; user_st8_tries n s a v
      end
  end.
Definition user_st8 s (a v : Z) : res (mm H) := user_st8_tries 2 s a v.

(** [memcpy] to and from user memory, byte by byte. *)
Fixpoint to_user (bytes : list Z) s (dst : Z) : res (mm H) :=
  match bytes with
  | [] => Ret s
  | b :: bytes => s ← user_st8 s dst b; to_user bytes s (u64 (dst + 1))
  end.
Fixpoint copy_to_user (k : nat) s (dst src : Z) : res (mm H) :=
  match k with
  | O => Ret s
  | S k => s ← user_st8 s dst (ld8 (mm_ram s) src); copy_to_user k s (u64 (dst + 1)) (u64 (src + 1))
  end.
Fixpoint from_user (k : nat) s (src : Z) : res (list Z) :=
  match k with
  | O => Ret []
  | S k => b ← user_ld8 s src; bs ← from_user k s (u64 (src + 1)); Ret (b :: bs)
  end.
Fixpoint copy_from_user (k : nat) s (dst src : Z) : res (mm H) :=
  match k with
  | O => Ret s
  | S k =>
      b ← user_ld8 s src;
      copy_from_user k (with_mem s (st8 (mm_ram s) dst b) (mm_frames s)) (u64 (dst + 1)) (u64 (src + 1))
  end.
(** Integers in the byte order of the machine. *)
Definition bytes_of (n : nat) (v : Z) : list Z := (λ i, v / 256 ^ Z.of_nat i mod 256) <$> seq 0 n.
Lemma length_bytes_of n v : length (bytes_of n v) = n.
Proof. unfold bytes_of. by rewrite length_fmap, length_seq. Qed.
Definition user_st32 s (a v : Z) : res (mm H) := to_user (bytes_of 4 v) s a.
Definition user_st64 s (a v : Z) : res (mm H) := to_user (bytes_of 8 v) s a.
Fixpoint of_bytes (bs : list Z) : Z :=
  match bs with [] => 0 | b :: bs => b + 256 * of_bytes bs end.
Definition user_ld32 s (a : Z) : res Z := bs ← from_user 4 s a; Ret (of_bytes bs).

(** A string in user memory, without its terminator.  It ends, or a fault does,
    within the user half; [fuel] bounds its length. *)
Fixpoint user_cstr (fuel : nat) s (a : Z) : res (list Z) :=
  match fuel with
  | O => NoFuel
  | S fuel => b ← user_ld8 s a;
              if b =? 0 then Ret [] else bs ← user_cstr fuel s (u64 (a + 1)); Ret (b :: bs)
  end.
End user_mem.

(** ** Mapped ranges *)

Section ranges.
Context {H : Type} `{HeapAlloc H} (D U : Z → Prop).
Context (off r : Z) (fr : Z → Z) (Hoff : 0 ≤ off ∧ off + 2 ^ 47 ≤ 2 ^ 64).
Implicit Types (s : mm H).

(** The active space is the one with root [r]. *)
Record active s : Prop := {
  ac_off : mm_hhdm s = off;
  ac_space : ∃ sp, mm_spaces s !! active_space s = Some sp ∧ pml4_phys sp = r;
}.
(** The range is mapped, every page to a frame of its own, with writable entries. *)
Record range_writable (m : ram) (va n : Z) : Prop := {
  rw_ready : range_ready D U off r fr m va n;
  rw_writable i e : 0 ≤ i < n → pte_at off m r ((va + i) / 4096 * 4096) = Some e → has e PTE_WRITABLE = true;
  rw_bounds : 0 ≤ va ∧ 0 ≤ n ∧ va + n ≤ USER_TOP;
}.

Notation user_at := (user_byte off r).
Notation home := (home off fr).

Lemma pte_at_page m v : pte_at off m r (v / 4096 * 4096) = pte_at off m r v.
Proof.
  assert (E : page_of (v / 4096 * 4096) = page_of v) by (unfold page_of; f_equal; dlia).
  apply page_of_eq in E as [E1 E2]. unfold pte_at. by rewrite E1, E2.
Qed.

Lemma user_pte_ready s v : active s → 0 ≤ v ≤ USER_TOP → page_ready D off r fr (mm_ram s) (v / 4096) →
  ∃ e, pte_at off (mm_ram s) r (v / 4096 * 4096) = Some e ∧ user_pte s v = Ret (Some e) ∧
    user_home s e v = home v.
Proof.
  intros [Ho (sp & Hsp & Hr)] Hv [_ (e & He & Hm) _ _]. exists e. split; [done|].
  unfold user_pte, user_home, Elf.home. rewrite (proj2 (Z.ltb_ge _ _)) by lia.
  unfold get_space. rewrite Hsp. cbn [deref]. rewrite bind_Ret, Hr, Ho.
  rewrite pte_at_page in He. destruct (pte_at_walk _ _ _ _ _ He) as (t & -> & -> & ->).
  by rewrite Hm.
Qed.

Lemma user_ld8_ready s v : active s → 0 ≤ v ≤ USER_TOP → page_ready D off r fr (mm_ram s) (v / 4096) →
  user_ld8 s v = Ret (ld8 (mm_ram s) (home v)).
Proof.
  intros Ha Hv Hp. destruct (user_pte_ready s v Ha Hv Hp) as (e & _ & E & Eh).
  unfold user_ld8. rewrite E, bind_Ret. by rewrite Eh.
Qed.

(** A store to the first byte of a writable range. *)
Lemma user_st8_ready s va n i b : active s → range_writable (mm_ram s) va n → 0 ≤ i < n →
  ∃ m', user_st8 s (va + i) b = Ret (with_mem s m' (mm_frames s)) ∧ m' = st8 (mm_ram s) (home (va + i)) b ∧
    agree off D (mm_ram s) m' r.
Proof.
  intros Ha [Hr Hw Hb] Hi. pose proof (rr_page _ _ _ _ _ _ _ _ Hr i Hi) as Hp.
  destruct (user_pte_ready s (va + i) Ha ltac:(lia) Hp) as (e & Hpte & E & Eh). eexists. split; [|split; [done|]].
  - unfold user_st8. cbn [user_st8_tries]. rewrite E, bind_Ret, (Hw i e Hi Hpte). by rewrite Eh.
  - destruct (pr_frame _ _ _ _ _ _ Hp) as [Hfr Hfa].
    apply (agree_frame off Hoff D _ _ U r (fr ((va + i) / 4096)));
      [apply Hr|by split|apply (pr_data _ _ _ _ _ _ Hp)|].
    intros x Hx. rewrite ld8_st8. unfold Elf.home in *. zcase; [dlia|done].
Qed.

Lemma active_ram s m : active s → active (with_mem s m (mm_frames s)).
Proof. by intros [? (sp & ? & ?)]; split; [|exists sp]. Qed.

Lemma range_writable_agree m m' va n k : agree off D m m' r → 0 ≤ k ≤ n → range_writable m va n →
  range_writable m' (va + k) (n - k).
Proof.
  intros Ha Hk [Hr Hw Hb]. split; [by apply (range_ready_agree D U off r fr m)| |lia].
  intros i e Hi. rewrite <- Z.add_assoc, (agree_pte off D m).
  - intros He. by apply (Hw (k + i)); [lia|].
  - done.
  - apply (rr_page _ _ _ _ _ _ _ _ Hr (k + i)). lia.
Qed.

Lemma range_writable_take m va n n' : 0 ≤ n' ≤ n → range_writable m va n → range_writable m va n'.
Proof.
  intros Hn [[Hw Hp Hi] Hwr Hb]. split; [split; [done| |]| |lia].
  - intros i Hr. apply Hp. lia.
  - intros i j Hr1 Hr2. apply Hi; lia.
  - intros i e Hr. apply Hwr. lia.
Qed.

(** Stores of a list of bytes to a writable range: they land where user code
    reads them, and nothing else changes. *)
Lemma to_user_spec bytes : ∀ s va, active s → range_writable (mm_ram s) va (Z.of_nat (length bytes)) →
  ∃ m', to_user bytes s va = Ret (with_mem s m' (mm_frames s)) ∧ agree off D (mm_ram s) m' r ∧
    (∀ i b, lookupZ bytes i = Some b → ld8 m' (home (va + i)) = u8 b) ∧
    (∀ x, (∀ i, 0 ≤ i < Z.of_nat (length bytes) → x ≠ home (va + i)) → ld8 m' x = ld8 (mm_ram s) x).
Proof.
  induction bytes as [|b bytes IH]; intros s va Ha Hr.
  { exists (mm_ram s). split; [by destruct s|]. split; [done|]. split; [|done].
    intros i b. by rewrite lookupZ_none by (cbn; lia). }
  cbn [to_user]. cbn [length] in *. pose proof (rw_bounds _ _ _ Hr) as Hb.
  destruct (user_st8_ready s va _ 0 b Ha Hr ltac:(lia)) as (m1 & E1 & Em1 & Hag). rewrite Z.add_0_r in *.
  rewrite E1, bind_Ret, u64_small by (unfold USER_TOP in *; lia).
  destruct (IH (with_mem s m1 (mm_frames s)) (va + 1)) as (m' & E & Hag' & Hin & Hout).
  - by apply active_ram.
  - replace (Z.of_nat (length bytes)) with (Z.of_nat (S (length bytes)) - 1) by lia.
    apply (range_writable_agree (mm_ram s)); [done|lia|done].
  - exists m'. split; [done|]. split; [by eapply agree_trans|].
    assert (Hhd : ld8 m' (home va) = ld8 m1 (home va)).
    { apply Hout. intros i Hi Eh. rewrite <- (Z.add_0_r va) in Eh at 1.
      replace (va + 1 + i) with (va + (1 + i)) in Eh by lia.
      pose proof (home_inj _ _ _ _ _ _ _ _ 0 (1 + i) (rw_ready _ _ _ Hr) ltac:(lia) ltac:(lia) Eh). lia. }
    split.
    + intros i x Hx. destruct (Z.eq_dec i 0) as [->|Hi].
      * injection Hx as <-. by rewrite Z.add_0_r, Hhd, Em1, ld8_st8, Z.eqb_refl.
      * pose proof (lookupZ_some _ _ _ Hx) as Hi0. replace (va + i) with (va + 1 + (i - 1)) by lia. apply Hin.
        by rewrite lookupZ_cons in Hx by lia.
    + intros x Hx. rewrite Hout.
      * cbn. rewrite Em1, ld8_st8. zcase; [|done]. exfalso. apply (Hx 0); [lia|]. by rewrite Z.add_0_r.
      * intros i Hi. rewrite <- Z.add_assoc. apply Hx. lia.
Qed.

(** [memcpy] to user memory stores the source's bytes, when the source is not in
    the pages of the destination. *)
Lemma copy_to_user_bytes k : ∀ s va src, active s → range_writable (mm_ram s) va (Z.of_nat k) →
  0 ≤ src → src + Z.of_nat k < 2 ^ 64 →
  (∀ i j, 0 ≤ i < Z.of_nat k → 0 ≤ j < Z.of_nat k → src + j ≠ home (va + i)) →
  copy_to_user k s va src = to_user ((λ i, ld8 (mm_ram s) (src + i)) <$> seqZ 0 (Z.of_nat k)) s va.
Proof.
  induction k as [|k IH]; intros s va src Ha Hr Hs Hk Hap; [done|].
  rewrite (seqZ_cons 0) by lia. cbn [fmap list_fmap copy_to_user to_user]. rewrite Z.add_0_r.
  destruct (user_st8_ready s va _ 0 (ld8 (mm_ram s) src) Ha Hr ltac:(lia)) as (m1 & E1 & Em1 & Hag).
  rewrite Z.add_0_r in E1, Em1. rewrite E1, !bind_Ret. pose proof (rw_bounds _ _ _ Hr) as Hb.
  rewrite !u64_small by (unfold USER_TOP in *; lia).
  rewrite IH.
  - f_equal. change (Z.succ 0) with (0 + 1). replace (Z.pred (Z.of_nat (S k))) with (Z.of_nat k) by lia.
    rewrite <- (fmap_add_seqZ 1 0). rewrite <- list_fmap_compose. apply list_fmap_ext. intros j i Hi. cbn.
    rewrite Em1, ld8_st8. apply lookup_seqZ in Hi as [-> Hi].
    zcase; [|f_equal; lia]. exfalso. apply (Hap 0 (1 + Z.of_nat j)); [lia|lia|]. rewrite Z.add_0_r. lia.
  - by apply active_ram.
  - replace (Z.of_nat k) with (Z.of_nat (S k) - 1) by lia.
    apply (range_writable_agree (mm_ram s)); [done|lia|done].
  - lia.
  - lia.
  - intros i j Hi Hj. replace (va + 1 + i) with (va + (1 + i)) by lia.
    replace (src + 1 + j) with (src + (1 + j)) by lia. apply Hap; lia.
Qed.

(** Loads of a mapped range. *)
Lemma from_user_spec k : ∀ s va, active s → range_ready D U off r fr (mm_ram s) va (Z.of_nat k) →
  0 ≤ va → va + Z.of_nat k ≤ USER_TOP →
  from_user k s va = Ret ((λ i, ld8 (mm_ram s) (home (va + i))) <$> seqZ 0 (Z.of_nat k)).
Proof.
  induction k as [|k IH]; intros s va Ha Hr Hv Hb; [done|].
  rewrite (seqZ_cons 0) by lia. cbn [fmap list_fmap from_user].
  rewrite (user_ld8_ready s va); [|done|lia|].
  2: { pose proof (rr_page _ _ _ _ _ _ _ _ Hr 0 ltac:(lia)) as Hp. by rewrite Z.add_0_r in Hp. }
  rewrite bind_Ret, u64_small by (unfold USER_TOP in *; lia).
  rewrite IH, bind_Ret.
  - do 2 f_equal; [by rewrite Z.add_0_r|].
    change (Z.succ 0) with (0 + 1). replace (Z.pred (Z.of_nat (S k))) with (Z.of_nat k) by lia.
    rewrite <- (fmap_add_seqZ 1 0), <- list_fmap_compose. apply list_fmap_ext. intros j i _. cbn.
    by rewrite Z.add_assoc.
  - done.
  - replace (Z.of_nat k) with (Z.of_nat (S k) - 1) by lia.
    apply (range_ready_agree D U off r fr (mm_ram s)); [done|lia|done].
  - lia.
  - lia.
Qed.
End ranges.
