(* ===== verification/Kernel.v ===== *)
(** The kernel's state as the system calls see it, the device registry
    ([devices/device_init.c], [devices/init.c]), the framebuffer device
    ([devices/fb/fb0.c]) and the first program ([user/init.c]). *)
From S2P Require Import Prelude Interfaces Ram PhysMem DList Kheap Paging Vmm RunQueue Space Context Proc Vfs Cpio Elf Input Screen UserMem.
Import MemLib.

(** [fb_handle_t]; [sizeof] is 24. *)
Record fb_handle := FbHandle {
  h_owner : Z;
  h_mapped : bool;
  h_vaddr : Z;
}.

(** The processes and the memory, the file system, the input queues, the screen,
    the registered devices [devices[0 .. device_count)], the open framebuffer
    handles, what went to the serial port, and the timer. *)
Record kernel {H : Type} := Kernel {
  kn : ks H;
  kfs_root : Z;
  kfs_nodes : gmap Z vnode;
  kinput : input;
  kgfx : gfx;
  kdevs : list Z;
  khandles : gmap Z fb_handle;
  kserial : list Z;
  timer_ticks : Z;
}.
Arguments kernel : clear implicits.
Arguments Kernel {H}.

(** The static [device_handler] objects.  [init], [fini], [open], [close],
    [read], [write] and [ioctl] dispatch on the driver as the function pointers
    of the objects do. *)
Inductive driver := KbdDriver | MouseDriver | Fb0Driver.
#[export] Instance driver_eq_dec : EqDecision driver.
Proof. solve_decision. Defined.
Class DeviceObjects := {
  kbd_module : Z;
  mouse_module : Z;
  fb0_device : Z;
  device_objects_ok : NoDup [0; kbd_module; mouse_module; fb0_device];
}.

Definition DEVICES_MAX_AMOUNT : nat := 256.
Definition CAP_FRAMEBUFFER : Z := 1.

(** The strings of [names.h]. *)
Definition FB0_NAME : list Z := [102; 114; 97; 109; 101; 98; 117; 102; 102; 101; 114; 48].
Definition FB0_MOUNT : list Z := [47; 100; 101; 118; 47; 102; 98; 48].
Definition KBD_NAME : list Z := [107; 101; 121; 98; 111; 97; 114; 100; 95; 100; 101; 118; 48].
Definition KBD_MOUNT : list Z := [47; 100; 101; 118; 47; 107; 98; 100; 95; 101; 118; 101; 110; 116; 48].
Definition MOUSE_NAME : list Z := [109; 111; 117; 115; 101; 95; 100; 101; 118; 48].
Definition MOUSE_MOUNT : list Z := [47; 100; 101; 118; 47; 109; 111; 117; 115; 101].

Definition dev_name (d : driver) : list Z :=
  match d with KbdDriver => KBD_NAME | MouseDriver => MOUSE_NAME | Fb0Driver => FB0_NAME end.
Definition dev_mount (d : driver) : list Z :=
  match d with KbdDriver => KBD_MOUNT | MouseDriver => MOUSE_MOUNT | Fb0Driver => FB0_MOUNT end.
Definition has_open (d : driver) : bool := bool_decide (d = Fb0Driver).
Definition has_close (d : driver) : bool := bool_decide (d = Fb0Driver).
Definition has_read (d : driver) : bool := bool_decide (d ≠ Fb0Driver).
Definition has_write (d : driver) : bool := false.
Definition has_ioctl (d : driver) : bool := bool_decide (d = Fb0Driver).

(** The requests of [fb0_ioctl], and where it maps. *)
Definition FB_IOCTL_GET_WIDTH : Z := 0.
Definition FB_IOCTL_GET_HEIGHT : Z := 1.
Definition FB_IOCTL_GET_PITCH : Z := 2.
Definition FB_IOCTL_GET_BPP : Z := 3.
Definition FB_IOCTL_GET_SIZE : Z := 4.
Definition FB_IOCTL_GET_INFO : Z := 5.
Definition FB_IOCTL_MAP : Z := 6.
Definition FB_IOCTL_UNMAP : Z := 7.
Definition FB_IOCTL_FLUSH : Z := 8.
Definition FB_IOCTL_FLUSH_RECT : Z := 9.
Definition FB_MAP_VADDR : Z := 0x0000600000000000.
(** [fb_rect_t] *)
Record fb_rect := FbRect { rect_x : Z; rect_y : Z; rect_width : Z; rect_height : Z }.

Section kernel.
Context {H : Type} `{HeapAlloc H} `{KernelCode} `{DeviceObjects}.
Implicit Types (k : kernel H).

Definition with_kn k (s : ks H) : kernel H :=
  Kernel s (kfs_root k) (kfs_nodes k) (kinput k) (kgfx k) (kdevs k) (khandles k) (kserial k) (timer_ticks k).
Definition with_kinput k (i : input) : kernel H :=
  Kernel (kn k) (kfs_root k) (kfs_nodes k) i (kgfx k) (kdevs k) (khandles k) (kserial k) (timer_ticks k).
Definition with_kgfx k (g : gfx) : kernel H :=
  Kernel (kn k) (kfs_root k) (kfs_nodes k) (kinput k) g (kdevs k) (khandles k) (kserial k) (timer_ticks k).
Definition with_kdevs k (ds : list Z) : kernel H :=
  Kernel (kn k) (kfs_root k) (kfs_nodes k) (kinput k) (kgfx k) ds (khandles k) (kserial k) (timer_ticks k).
Definition with_khandles k (hs : gmap Z fb_handle) : kernel H :=
  Kernel (kn k) (kfs_root k) (kfs_nodes k) (kinput k) (kgfx k) (kdevs k) hs (kserial k) (timer_ticks k).
Definition with_kserial k (out : list Z) : kernel H :=
  Kernel (kn k) (kfs_root k) (kfs_nodes k) (kinput k) (kgfx k) (kdevs k) (khandles k) out (timer_ticks k).

Definition kmm k : mm H := k_mm (kn k).
Definition with_kmm k (m : mm H) : kernel H := with_kn k (with_mm (kn k) m).
Definition kram k : ram := mm_ram (kmm k).
Definition with_kram k (m : ram) : kernel H := with_kmm k (with_mem (kmm k) m (mm_frames (kmm k))).

(** The file system lives in the kernel's heap and memory. *)
Definition kfs k : vfs H := Vfs (kfs_root k) (kfs_nodes k) (mm_heap (kmm k)) (kram k).
Definition with_kfs k (v : vfs H) : kernel H :=
  let m := with_mem (with_heap (kmm k) (vfs_heap v)) (vfs_ram v) (mm_frames (kmm k)) in
  let k := with_kmm k m in
  Kernel (kn k) (vfs_root v) (vnodes v) (kinput k) (kgfx k) (kdevs k) (khandles k) (kserial k) (timer_ticks k).

(** ** The framebuffer device *)

Definition fb0_ready k : res bool :=
  s ← get_screen (kgfx k) BS3; Ret (negb (pixels s =? 0) && negb (pixels_phys s =? 0)).
Definition fb0_dev_init k : res Z := ready ← fb0_ready k; Ret (if ready : bool then 0 else -1).

(** Without the lines that the two refusals log. *)
Definition fb0_open k : res (Z * kernel H) :=
  ready ← fb0_ready k;
  if negb ready then Ret (0, k) else
  p ← process_get_current (kn k);
  cap ← process_has_cap (kn k) p CAP_FRAMEBUFFER;
  if (p =? 0) || negb cap then Ret (0, k) else
  '(h, s) ← k_alloc (kn k) 24;
  let k := with_kn k s in
  if h =? 0 then Ret (0, k) else
  Ret (h, with_khandles k (<[h := FbHandle p false 0]> (khandles k))).

(** The owner's space, 0 when there is none. *)
Definition owner_space k (x : fb_handle) : res Z :=
  if h_owner x =? 0 then Ret 0 else p ← get_proc (kn k) (h_owner x); Ret (p_space p).

Definition fb0_close k (handle : Z) : res (kernel H) :=
  if handle =? 0 then Ret k else
  x ← deref (khandles k !! handle);
  k ← (if h_mapped x then
         space ← owner_space k x;
         if space =? 0 then Ret k else m ← vmm_unmap_phys (kmm k) space (h_vaddr x); Ret (with_kmm k m)
       else Ret k);
  s ← k_free (kn k) handle;
  Ret (with_khandles (with_kn k s) (delete handle (khandles k))).

(** [fb_info_t], as the bytes that are copied out. *)
Definition info_bytes (g : gfx) : list Z :=
  bytes_of 4 (fb_width g) ++ bytes_of 4 (fb_height g) ++ bytes_of 4 (fb_pitch g) ++ bytes_of 4 (fb_bpp g) ++
  bytes_of 8 (fb_size g).

Definition read_rect k (arg : Z) : res fb_rect :=
  x ← user_ld32 (kmm k) arg; y ← user_ld32 (kmm k) (u64 (arg + 4));
  w ← user_ld32 (kmm k) (u64 (arg + 8)); h ← user_ld32 (kmm k) (u64 (arg + 12));
  Ret (FbRect x y w h).

(** The copy of a rectangle of the back buffer to the framebuffer. *)
Definition flush_rect (g : gfx) (scr : bs_screen) (rect : fb_rect) (m : ram) : Z * ram :=
  let dst := framebuffer g in
  if (dst =? 0) || (pixels scr =? 0) || (bs_width scr <=? rect_x rect) || (bs_height scr <=? rect_y rect)
  then (-1, m) else
  let w := if bs_width scr - rect_x rect <? rect_width rect then bs_width scr - rect_x rect else rect_width rect in
  let h := if bs_height scr - rect_y rect <? rect_height rect then bs_height scr - rect_y rect else rect_height rect in
  let dst_stride := fb_pitch g / 4 in
  (0, upto 0 h (λ y m,
    memcpy m (cell dst (u32 (u32 (rect_y rect + y) * dst_stride + rect_x rect)))
      (cell (pixels scr) (u32 (u32 (rect_y rect + y) * bs_width scr + rect_x rect))) (w * 4)) m).

Definition fb0_map k (handle arg : Z) (x : fb_handle) : res (Z * kernel H) :=
  if arg =? 0 then Ret (-1, k) else
  space ← owner_space k x;
  if space =? 0 then Ret (-1, k) else
  if h_mapped x then m ← user_st64 (kmm k) arg (h_vaddr x); Ret (0, with_kmm k m) else
  scr ← get_screen (kgfx k) BS3;
  if pixels_phys scr =? 0 then Ret (-1, k) else
  let size := u32 (fb_pitch (kgfx k) * fb_height (kgfx k)) in
  let page_count := u64 (size + PAGE_SIZE - 1) / PAGE_SIZE in
  '(vaddr, m) ← vmm_map_phys (kmm k) space FB_MAP_VADDR (pixels_phys scr) page_count
    (Z.lor (Z.lor VMM_REGION_USER VMM_REGION_READ) VMM_REGION_WRITE);
  let k := with_kmm k m in
  if vaddr =? 0 then Ret (-1, k) else
  let k := with_khandles k (<[handle := FbHandle (h_owner x) true vaddr]> (khandles k)) in
  m ← user_st64 (kmm k) arg vaddr;
  Ret (0, with_kmm k m).

Definition fb0_unmap k (handle : Z) (x : fb_handle) : res (Z * kernel H) :=
  if negb (h_mapped x) then Ret (0, k) else
  space ← owner_space k x;
  if space =? 0 then Ret (-1, k) else
  m ← vmm_unmap_phys (kmm k) space (h_vaddr x);
  let k := with_kmm k m in
  Ret (0, with_khandles k (<[handle := FbHandle (h_owner x) false 0]> (khandles k))).

Definition fb0_ioctl k (handle request arg : Z) : res (Z * kernel H) :=
  if handle =? 0 then Ret (-1, k) else
  x ← deref (khandles k !! handle);
  let g := kgfx k in
  if request =? FB_IOCTL_GET_WIDTH then Ret (fb_width g, k) else
  if request =? FB_IOCTL_GET_HEIGHT then Ret (fb_height g, k) else
  if request =? FB_IOCTL_GET_PITCH then Ret (fb_pitch g, k) else
  if request =? FB_IOCTL_GET_BPP then Ret (fb_bpp g, k) else
  if request =? FB_IOCTL_GET_SIZE then Ret (i64 (fb_size g), k) else
  if request =? FB_IOCTL_GET_INFO then
    if arg =? 0 then Ret (-1, k) else m ← to_user (info_bytes g) (kmm k) arg; Ret (0, with_kmm k m) else
  if request =? FB_IOCTL_MAP then fb0_map k handle arg x else
  if request =? FB_IOCTL_UNMAP then fb0_unmap k handle x else
  if request =? FB_IOCTL_FLUSH then m ← bs_flush_screen g (kram k) BS3; Ret (0, with_kram k m) else
  if request =? FB_IOCTL_FLUSH_RECT then
    if arg =? 0 then Ret (-1, k) else
    rect ← read_rect k arg;
    scr ← get_screen g BS3;
    let '(rc, m) := flush_rect g scr rect (kram k) in Ret (rc, with_kram k m)
  else Ret (-1, k).

(** ** The registry *)

Definition driver_of (device : Z) : res driver :=
  if device =? kbd_module then Ret KbdDriver else
  if device =? mouse_module then Ret MouseDriver else
  if device =? fb0_device then Ret Fb0Driver else Undef.

Definition dev_init (d : driver) k : res (Z * kernel H) :=
  match d with
  | KbdDriver =>
      let '(rc, q) := kbd_module_init (kbd_queue (kinput k)) in
      Ret (rc, with_kinput k (Input q (mouse_queue (kinput k))))
  | MouseDriver =>
      let '(rc, q) := mouse_module_init (mouse_queue (kinput k)) in
      Ret (rc, with_kinput k (Input (kbd_queue (kinput k)) q))
  | Fb0Driver => rc ← fb0_dev_init k; Ret (rc, k)
  end.
Definition dev_fini (d : driver) k : kernel H :=
  match d with
  | KbdDriver => with_kinput k (Input (kbd_module_fini (kbd_queue (kinput k))) (mouse_queue (kinput k)))
  | MouseDriver => with_kinput k (Input (kbd_queue (kinput k)) (mouse_module_fini (mouse_queue (kinput k))))
  | Fb0Driver => k
  end.

Definition devices_init k : kernel H := with_kdevs k [].

Definition device_register k (device : Z) : res (Z * kernel H) :=
  if (device =? 0) || bool_decide (DEVICES_MAX_AMOUNT ≤ length (kdevs k))%nat then Ret (-1, k) else
  if bool_decide (device ∈ kdevs k) then Ret (-1, k) else
  d ← driver_of device;
  '(rc, k) ← dev_init d k;
  if negb (rc =? 0) then Ret (-1, k) else
  '(n, v) ← vfs_create_device (kfs k) (dev_mount d) device;
  let k := with_kfs k v in
  if n =? 0 then Ret (-1, dev_fini d k) else
  Ret (0, with_kdevs k (kdevs k ++ [device])).

(** The loop that looks a name up, from index [i]. *)
Fixpoint find_from (ds : list Z) (name : list Z) (i : nat) : res (option (nat * Z)) :=
  match ds with
  | [] => Ret None
  | d :: ds => x ← driver_of d;
               if bool_decide (dev_name x = name) then Ret (Some (i, d)) else find_from ds name (S i)
  end.
Definition device_find k (name : list Z) : res Z :=
  o ← find_from (kdevs k) name 0; Ret (match o with Some (_, d) => d | None => 0 end).

Definition device_unregister k (name : list Z) : res (kernel H) :=
  o ← find_from (kdevs k) name 0;
  match o with
  | None => Ret k
  | Some (i, d) =>
      x ← driver_of d;
      let k := dev_fini x k in
      '(_, v) ← vfs_remove (kfs k) (dev_mount x);
      let k := with_kfs k v in
      Ret (with_kdevs k (delete i (kdevs k)))
  end.

Definition device_get_count k : Z := Z.of_nat (length (kdevs k)).
Definition device_get_by_index k (idx : Z) : Z :=
  if (idx <? 0) || (device_get_count k <=? idx) then 0 else default 0 (lookupZ (kdevs k) idx).

(** The registrations of [kernel_devices_init]. *)
Definition register_devices k : res (kernel H) :=
  '(_, k) ← device_register k kbd_module;
  '(_, k) ← device_register k mouse_module;
  '(_, k) ← device_register k fb0_device;
  Ret k.

(** ** The first program *)

Definition load_elf k (path name : list Z) (initial_caps : Z) : res (kernel H) :=
  node ← vfs_find (kfs k) path;
  if node =? 0 then Ret k else
  x ← get_vnode (kfs k) node;
  if negb (bool_decide (v_type x = VFS_FILE)) then Ret k else
  if (v_data x =? 0) || (v_size x =? 0) then Ret k else
  '(_, s) ← through (vfs_heap (kfs k)) (v_data x) (v_size x) (elf_load (kn k) (v_data x) (v_size x) name initial_caps);
  Ret (with_kn k s).
End kernel.
