(* ===== verification/Files.v ===== *)
(** The system calls on files and devices ([arch/x86_64/user/sys_fs.c],
    [sys_io.c] and [sys_ioctl.c]), [sys_waitpid], and the dispatcher
    ([syscall.c]). *)
From S2P Require Import Prelude Interfaces Ram PhysMem DList Kheap Paging Vmm RunQueue Space Context Proc Vfs Cpio Elf Input Screen UserMem SysMem Kernel.
Import MemLib.

(** [linux_dirent64_t]; [sizeof] is 280. *)
Definition DIRENT_SIZE : Z := 280.
Definition DT_REG : Z := 8.
Definition DT_DIR : Z := 4.

(** The numbers of the system calls. *)
Definition SYS_READ : Z := 0.
Definition SYS_WRITE : Z := 1.
Definition SYS_OPEN : Z := 2.
Definition SYS_CLOSE : Z := 3.
Definition SYS_IOCTL : Z := 16.
Definition SYS_LSEEK : Z := 8.
Definition SYS_MMAP : Z := 9.
Definition SYS_MUNMAP : Z := 11.
Definition SYS_BRK : Z := 12.
Definition SYS_FORK : Z := 57.
Definition SYS_EXIT : Z := 60.
Definition SYS_GETPID : Z := 39.
Definition SYS_YIELD : Z := 24.
Definition SYS_WAITPID : Z := 61.
Definition SYS_GETDENTS : Z := 78.
Definition SYS_MKDIR : Z := 83.
Definition SYS_UNLINK : Z := 87.
Definition SYS_GETUID : Z := 102.
Definition SYS_GETGID : Z := 104.
Definition SYS_CLOCK_GETTIME : Z := 228.

Definition white : Z := 0xFFFFFFFF.

(** The bytes of an [input_event_t]; its padding is written as zeros. *)
Definition event_bytes (ev : input_event) : list Z :=
  bytes_of 4 (match ev_type ev with INPUT_EV_KEY => 0 | INPUT_EV_REL => 1 | INPUT_EV_ABS => 2 end) ++
  bytes_of 2 (ev_code ev) ++ [0; 0] ++ bytes_of 4 (ev_value ev) ++ bytes_of 1 (ev_modifiers ev) ++ [0; 0; 0].

(** What [sys_getdents] stores of child number [i], the entry that ends at
    [d_off] bytes; the rest of the 280 bytes is left alone. *)
Definition dirent_bytes (i d_off : Z) (child : vnode) : list Z :=
  bytes_of 8 (i + 1) ++ bytes_of 8 d_off ++ bytes_of 2 DIRENT_SIZE ++
  [if bool_decide (v_type child = VFS_DIRECTORY) then DT_DIR else DT_REG] ++ take 255 (v_name child) ++ [0].

Section files.
Context {H : Type} `{HeapAlloc H} `{KernelCode} `{DeviceObjects}.
(** A bound on the length of the strings that callers pass. *)
Context (path_fuel : nat).
Implicit Types (k : kernel H) (c : cpu_state).

Definition ret k c (v : Z) : res (kernel H * cpu_state) := Ret (k, set_rax c v).
Definition in_ks k (r : res (ks H * cpu_state)) : res (kernel H * cpu_state) :=
  '(s, c) ← r; Ret (with_kn k s, c).

(** The running process and its object; [None] when there is none. *)
Definition current_proc k : res (option (Z * proc)) :=
  p ← process_get_current (kn k);
  if p =? 0 then Ret None else x ← get_proc (kn k) p; Ret (Some (p, x)).
(** A descriptor in use, outside the three that stand for the console. *)
Definition fd_ok (fd : Z) : bool := (3 <=? fd) && (fd <? Z.of_nat FD_MAX).
Definition used_fd k (fd : Z) : res (option (Z * proc * file_descriptor)) :=
  o ← current_proc k;
  match o with
  | None => Ret None
  | Some (p, x) => d ← deref (lookupZ (p_fd_table x) fd);
                   Ret (if fd_used d then Some (p, x, d) else None)
  end.
Definition put_fd k (p : Z) (x : proc) (fd : Z) (d : file_descriptor) : kernel H :=
  with_kn k (put_proc (kn k) p (set_fds x (updateZ (p_fd_table x) fd d))).

(** The driver of a device node. *)
Definition node_driver (x : vnode) : res (option driver) :=
  if bool_decide (v_type x = VFS_DEVICE) && negb (v_device x =? 0)
  then d ← driver_of (v_device x); Ret (Some d) else Ret None.

(** ** [sys_fs.c] *)

(** The first unused descriptor, from [fd] on. *)
Fixpoint free_fd (ds : list file_descriptor) (fd : Z) : option Z :=
  match ds with
  | [] => None
  | d :: ds => if fd_used d then free_fd ds (fd + 1) else Some fd
  end.

Definition sys_open k c : res (kernel H * cpu_state) :=
  if negb (user_ptr_ok (s_rdi c)) then ret k c ERR else
  path ← user_cstr path_fuel (kmm k) (s_rdi c);
  node ← vfs_find (kfs k) path;
  if node =? 0 then ret k c ERR else
  o ← current_proc k;
  match o with
  | None => ret k c ERR
  | Some (p, x) =>
      match free_fd (drop 3 (p_fd_table x)) 3 with
      | None => ret k c ERR
      | Some fd =>
          y ← get_vnode (kfs k) node;
          dr ← node_driver y;
          '(handle, k, ok) ← (match dr with
            | Some d => if has_open d
                        then '(h, k) ← fb0_open k; Ret (h, k, negb (h =? 0)) else Ret (0, k, true)
            | None => Ret (0, k, true)
            end);
          if negb ok then ret k c ERR else
          x ← get_proc (kn k) p;
          ret (put_fd k p x fd (Fd node 0 true handle)) c fd
      end
  end.

Definition sys_close k c : res (kernel H * cpu_state) :=
  let fd := s_rdi c in
  if negb (fd_ok fd) then ret k c ERR else
  o ← used_fd k fd;
  match o with
  | None => ret k c ERR
  | Some (p, x, d) =>
      k ← (if fd_node d =? 0 then Ret k else
           y ← get_vnode (kfs k) (fd_node d);
           dr ← node_driver y;
           match dr with
           | Some dv => if has_close dv then fb0_close k (fd_handle d) else Ret k
           | None => Ret k
           end);
      x ← get_proc (kn k) p;
      ret (put_fd k p x fd (Fd 0 0 false 0)) c 0
  end.

Definition sys_lseek k c : res (kernel H * cpu_state) :=
  let fd := s_rdi c in
  let offset := i64 (s_rsi c) in
  let whence := i32 (s_rdx c) in
  if negb (fd_ok fd) then ret k c ERR else
  o ← used_fd k fd;
  match o with
  | None => ret k c ERR
  | Some (p, x, d) =>
      if fd_node d =? 0 then ret k c ERR else
      y ← get_vnode (kfs k) (fd_node d);
      if negb (bool_decide (v_type y = VFS_FILE)) then ret k c ERR else
      let new_off :=
        if whence =? 0 then Some offset else
        if whence =? 1 then Some (i64 (i64 (fd_offset d) + offset)) else
        if whence =? 2 then Some (i64 (i64 (v_size y) + offset)) else None in
      match new_off with
      | None => ret k c ERR
      | Some new_off =>
          if new_off <? 0 then ret k c ERR else
          ret (put_fd k p x fd (Fd (fd_node d) (u64 new_off) true (fd_handle d))) c (u64 new_off)
      end
  end.

(** The loop of [sys_getdents] over the children from number [i] on: the kernel,
    the bytes written and the new offset. *)
Fixpoint getdents_loop (cs : list Z) k (i offset buf buf_size written : Z) : res (kernel H * Z * Z) :=
  match cs with
  | [] => Ret (k, written, offset)
  | ch :: cs =>
      if ch =? 0 then getdents_loop cs k (i + 1) offset buf buf_size written else
      child ← get_vnode (kfs k) ch;
      if buf_size <? u64 (written + DIRENT_SIZE) then Ret (k, written, offset) else
      m ← to_user (dirent_bytes i (u64 (written + DIRENT_SIZE)) child) (kmm k) (u64 (buf + written));
      getdents_loop cs (with_kmm k m) (i + 1) (i + 1) buf buf_size (u64 (written + DIRENT_SIZE))
  end.

Definition sys_getdents k c : res (kernel H * cpu_state) :=
  let fd := s_rdi c in
  let buf := s_rsi c in
  let buf_size := s_rdx c in
  if negb (user_ptr_ok buf) then ret k c ERR else
  if negb (fd_ok fd) then ret k c ERR else
  o ← used_fd k fd;
  match o with
  | None => ret k c ERR
  | Some (p, x, d) =>
      if fd_node d =? 0 then ret k c ERR else
      y ← get_vnode (kfs k) (fd_node d);
      if negb (bool_decide (v_type y = VFS_DIRECTORY)) then ret k c ERR else
      let start := i32 (fd_offset d) in
      if start <? 0 then Undef else
      '(k, written, offset) ←
        getdents_loop (drop (Z.to_nat start) (v_children y)) k start (fd_offset d) buf buf_size 0;
      ret (put_fd k p x fd (Fd (fd_node d) offset true (fd_handle d))) c written
  end.

Definition sys_mkdir k c : res (kernel H * cpu_state) :=
  if negb (user_ptr_ok (s_rdi c)) then ret k c ERR else
  path ← user_cstr path_fuel (kmm k) (s_rdi c);
  '(node, v) ← vfs_mkdir (kfs k) path;
  ret (with_kfs k v) c (if node =? 0 then ERR else 0).

Definition sys_unlink k c : res (kernel H * cpu_state) :=
  if negb (user_ptr_ok (s_rdi c)) then ret k c ERR else
  path ← user_cstr path_fuel (kmm k) (s_rdi c);
  '(result, v) ← vfs_remove (kfs k) path;
  ret (with_kfs k v) c (if result =? 0 then 0 else ERR).

(** ** [sys_io.c] and [sys_ioctl.c] *)

(** The events that were read go to the buffer one after the other. *)
Definition deliver k (evs : list input_event) (buf : Z) : res (kernel H) :=
  m ← to_user (concat (event_bytes <$> evs)) (kmm k) buf; Ret (with_kmm k m).

(** [read] of the keyboard and of the mouse. *)
Definition dev_read k (d : driver) (buf len : Z) : res (Z * kernel H) :=
  match d with
  | KbdDriver =>
      '(n, evs, q) ← kbd_read (kbd_queue (kinput k)) len;
      k ← deliver (with_kinput k (Input q (mouse_queue (kinput k)))) evs buf; Ret (n, k)
  | MouseDriver =>
      '(n, evs, q) ← mouse_read (mouse_queue (kinput k)) len;
      k ← deliver (with_kinput k (Input (kbd_queue (kinput k)) q)) evs buf; Ret (n, k)
  | Fb0Driver => Undef
  end.

Definition sys_read k c : res (kernel H * cpu_state) :=
  let fd := s_rdi c in
  let buf := s_rsi c in
  let len := s_rdx c in
  if negb (user_ptr_ok buf) then ret k c ERR else
  if fd =? 0 then
    '(n, evs, q) ← kbd_read_events (kbd_queue (kinput k)) len;
    k ← deliver (with_kinput k (Input q (mouse_queue (kinput k)))) evs buf;
    ret k c n
  else
  if negb (fd_ok fd) then ret k c ERR else
  o ← used_fd k fd;
  match o with
  | None => ret k c ERR
  | Some (p, x, d) =>
      if fd_node d =? 0 then ret k c ERR else
      y ← get_vnode (kfs k) (fd_node d);
      if bool_decide (v_type y = VFS_DEVICE) then
        dr ← node_driver y;
        match dr with
        | Some dv => if has_read dv then '(n, k) ← dev_read k dv buf len; ret k c (u64 n) else ret k c ERR
        | None => ret k c ERR
        end
      else
      if negb (bool_decide (v_type y = VFS_FILE)) then ret k c ERR else
      let offset := fd_offset d in
      if v_size y <=? offset then ret k c 0 else
      let remaining := u64 (v_size y - offset) in
      let to_copy := if len <? remaining then len else remaining in
      m ← through (vfs_heap (kfs k)) (v_data y) (offset + to_copy)
            (copy_to_user (Z.to_nat to_copy) (kmm k) buf (u64 (v_data y + offset)));
      let k := with_kmm k m in
      ret (put_fd k p x fd (Fd (fd_node d) (u64 (offset + to_copy)) true (fd_handle d))) c to_copy
  end.

(** The console loop of [sys_write]. *)
Fixpoint console_loop (n : nat) k (on_screen : bool) (buf : Z) : res (kernel H) :=
  match n with
  | O => Ret k
  | S n =>
      k ← (if on_screen then
             ch ← user_ld8 (kmm k) buf;
             '(m, g) ← bs_putchar (kgfx k) (kram k) ch white; Ret (with_kgfx (with_kram k m) g)
           else Ret k);
      ch ← user_ld8 (kmm k) buf;
      console_loop n (with_kserial k (kserial k ++ [ch])) on_screen (u64 (buf + 1))
  end.

(** [vfs_write] from user memory. *)
Definition write_user k (node buf len : Z) : res (Z * vfs H) :=
  vfs_write_from (λ m dst,
    m ← copy_from_user (Z.to_nat len) (with_mem (kmm k) m (mm_frames (kmm k))) dst buf; Ret (mm_ram m))
    (kfs k) node buf len.

Definition sys_write k c : res (kernel H * cpu_state) :=
  let fd := s_rdi c in
  let buf := s_rsi c in
  let len := s_rdx c in
  p ← process_get_current (kn k);
  if negb (user_ptr_ok buf) then ret k c ERR else
  if (fd =? 1) || (fd =? 2) then
    owns ← process_has_cap (kn k) p CAP_FRAMEBUFFER;
    k ← console_loop (Z.to_nat len) k (negb owns) buf;
    ret k c len
  else
  if negb (fd_ok fd) then ret k c ERR else
  o ← used_fd k fd;
  match o with
  | None => ret k c ERR
  | Some (p, x, d) =>
      if fd_node d =? 0 then ret k c ERR else
      y ← get_vnode (kfs k) (fd_node d);
      (* no driver has a [write] *)
      if negb (bool_decide (v_type y = VFS_FILE)) then ret k c ERR else
      '(written, v) ← write_user k (fd_node d) buf len;
      ret (with_kfs k v) c (if written <? 0 then ERR else u64 written)
  end.

Definition sys_ioctl k c : res (kernel H * cpu_state) :=
  let fd := s_rdi c in
  let request := s_rsi c in
  let arg := s_rdx c in
  if negb (fd_ok fd) then ret k c ERR else
  if negb (arg =? 0) && negb (user_ptr_ok arg) then ret k c ERR else
  o ← used_fd k fd;
  match o with
  | None => ret k c ERR
  | Some (p, x, d) =>
      if fd_node d =? 0 then ret k c ERR else
      y ← get_vnode (kfs k) (fd_node d);
      dr ← node_driver y;
      match dr with
      | Some dv => if has_ioctl dv then '(r, k) ← fb0_ioctl k (fd_handle d) request arg; ret k c (u64 r)
                   else ret k c ERR
      | None => ret k c ERR
      end
  end.

(** ** The rest *)

Definition sys_waitpid k c : res (kernel H * cpu_state) :=
  let target_pid := i64 (s_rdi c) in
  let wstatus_ptr := s_rsi c in
  caller ← process_get_current (kn k);
  if caller =? 0 then ret k c ERR else
  '(result, code, s) ← process_waitpid (kn k) caller target_pid;
  let k := with_kn k s in
  if negb (result =? 0) then ret k c ERR else
  let exit_code := default 0 code in
  k ← (if user_ptr_ok wstatus_ptr then
         m ← user_st32 (kmm k) wstatus_ptr (Z.shiftl (Z.land exit_code 0xFF) 8); Ret (with_kmm k m)
       else Ret k);
  ret k c (u64 target_pid).

Definition sys_clock_gettime k c : res (kernel H * cpu_state) :=
  let ts := s_rsi c in
  if negb (user_ptr_ok ts) then ret k c ERR else
  let ms := timer_ticks k in
  m ← user_st64 (kmm k) ts (ms / 1000);
  m ← user_st64 m (u64 (ts + 8)) (ms mod 1000 * 1000000);
  ret (with_kmm k m) c 0.

Definition syscall_dispatch k c : res (kernel H * cpu_state) :=
  let n := s_rax c in
  if n =? SYS_READ then sys_read k c else
  if n =? SYS_WRITE then sys_write k c else
  if n =? SYS_OPEN then sys_open k c else
  if n =? SYS_CLOSE then sys_close k c else
  if n =? SYS_IOCTL then sys_ioctl k c else
  if n =? SYS_LSEEK then sys_lseek k c else
  if n =? SYS_MMAP then in_ks k (sys_mmap (kn k) c) else
  if n =? SYS_MUNMAP then in_ks k (sys_munmap (kn k) c) else
  if n =? SYS_BRK then in_ks k (sys_brk (kn k) c) else
  if n =? SYS_FORK then in_ks k (sys_fork (kn k) c) else
  if n =? SYS_EXIT then in_ks k (sys_exit (kn k) c) else
  if n =? SYS_YIELD then in_ks k (sys_yield (kn k) c) else
  if n =? SYS_GETPID then in_ks k (sys_getpid (kn k) c) else
  if n =? SYS_WAITPID then sys_waitpid k c else
  if n =? SYS_GETDENTS then sys_getdents k c else
  if n =? SYS_MKDIR then sys_mkdir k c else
  if n =? SYS_UNLINK then sys_unlink k c else
  if n =? SYS_GETUID then in_ks k (sys_getuid (kn k) c) else
  if n =? SYS_GETGID then in_ks k (sys_getgid (kn k) c) else
  if n =? SYS_CLOCK_GETTIME then sys_clock_gettime k c else
  ret k c ERR.
End files.
