(* ===== verification/FileCalls.v ===== *)
(** Theorems on the file system calls of [Files]: descriptors, offsets, what
    [read] and [getdents] put in the caller's memory. *)
From S2P Require Import Prelude Interfaces Ram PhysMem DList Kheap Paging Vmm RunQueue Space Context Proc Vfs Cpio Elf Input Screen UserMem SysMem Kernel Files.
Import MemLib.

Section calls.
Context {H : Type} `{HeapAlloc H} `{KernelCode} `{DeviceObjects} (path_fuel : nat).
Implicit Types (k : kernel H) (c : cpu_state).

(** The running thread belongs to the process [x] at [p]. *)
Record caller k (p : Z) (x : proc) : Prop := {
  cl_thread : thread_get_current (kn k) ≠ 0;
  cl_owner : ∃ t, k_threads (kn k) !! thread_get_current (kn k) = Some t ∧ t_owner t = p;
  cl_null : p ≠ 0;
  cl_proc : k_procs (kn k) !! p = Some x;
  cl_fds : length (p_fd_table x) = FD_MAX;
}.

Lemma process_get_current_spec k p x : caller k p x → process_get_current (kn k) = Ret p.
Proof.
  intros [Ht (t & Hl & Ho) _ _ _]. unfold process_get_current. destruct (Z.eqb_spec (thread_get_current (kn k)) 0); [done|].
  unfold get_thread. rewrite Hl. cbn. by rewrite Ho.
Qed.
Lemma current_proc_spec k p x : caller k p x → current_proc k = Ret (Some (p, x)).
Proof.
  intros Hc. unfold current_proc. rewrite (process_get_current_spec k p x Hc), bind_Ret.
  destruct (Z.eqb_spec p 0); [by destruct (cl_null _ _ _ Hc)|]. unfold get_proc. by rewrite (cl_proc _ _ _ Hc).
Qed.
Lemma used_fd_spec k p x fd d : caller k p x → lookupZ (p_fd_table x) fd = Some d →
  used_fd k fd = Ret (if fd_used d then Some (p, x, d) else None).
Proof. intros Hc Hd. unfold used_fd. rewrite (current_proc_spec k p x Hc), bind_Ret, Hd. done. Qed.

Lemma put_fd_caller k p x fd d : caller k p x →
  caller (put_fd k p x fd d) p (set_fds x (updateZ (p_fd_table x) fd d)).
Proof.
  intros [Ht Ho Hp Hx Hl]. split; try done.
  - cbn. by rewrite lookup_insert_eq.
  - cbn. by rewrite length_updateZ.
Qed.

(** Two stores to descriptors of the same process. *)
Lemma put_fd_put k p x fd d d' :
  put_fd (put_fd k p x fd d) p (set_fds x (updateZ (p_fd_table x) fd d)) fd d' = put_fd k p x fd d'.
Proof.
  unfold put_fd, with_kn, put_proc, with_procs. cbn. rewrite insert_insert_eq. unfold set_fds. cbn.
  do 4 f_equal. unfold updateZ. destruct (fd <? 0); [done|]. by rewrite list_insert_insert_eq.
Qed.
Lemma put_fd_id k p x fd d : k_procs (kn k) !! p = Some x → lookupZ (p_fd_table x) fd = Some d →
  put_fd k p x fd d = k.
Proof.
  intros Hx Hd. destruct k as [[] ]. unfold put_fd, with_kn, put_proc, with_procs. cbn in *. f_equal. f_equal.
  apply insert_id. rewrite Hx. f_equal. destruct x. unfold set_fds. cbn in *. f_equal. symmetry.
  unfold updateZ, lookupZ in *. destruct (fd <? 0); [done|]. by apply list_insert_id.
Qed.

Lemma free_fd_spec ds : ∀ fd,
  match free_fd ds fd with
  | Some r => fd ≤ r < fd + Z.of_nat (length ds) ∧
      (∃ d, lookupZ ds (r - fd) = Some d ∧ fd_used d = false) ∧
      ∀ i d, 0 ≤ i < r - fd → lookupZ ds i = Some d → fd_used d = true
  | None => ∀ i d, lookupZ ds i = Some d → fd_used d = true
  end.
Proof.
  induction ds as [|d ds IH]; intros fd; cbn [free_fd].
  { intros i d Hd%lookupZ_some. cbn in Hd. lia. }
  destruct (fd_used d) eqn:E.
  - specialize (IH (fd + 1)). destruct (free_fd ds (fd + 1)) as [r|].
    + destruct IH as (Hr & (d' & Hd' & Hu) & Hall). cbn [length]. split; [lia|]. split.
      * exists d'. rewrite lookupZ_cons by lia. by replace (r - fd - 1) with (r - (fd + 1)) by lia.
      * intros i e Hi He. destruct (Z.eq_dec i 0) as [->|]; [by injection He as <-|].
        rewrite lookupZ_cons in He by lia. apply (Hall (i - 1)); [lia|done].
    + intros i e He. destruct (Z.eq_dec i 0) as [->|]; [by injection He as <-|].
      pose proof (lookupZ_some _ _ _ He). rewrite lookupZ_cons in He by lia. by apply (IH (i - 1)).
  - cbn [length]. split; [lia|]. split; [exists d; by rewrite Z.sub_diag|]. lia.
Qed.

Lemma lookupZ_drop {A} (l : list A) n i : 0 ≤ i → lookupZ (drop n l) i = lookupZ l (Z.of_nat n + i).
Proof.
  intros Hi. unfold lookupZ. rewrite !(proj2 (Z.ltb_ge _ _)) by lia. rewrite lookup_drop. f_equal. lia.
Qed.
Lemma lookupZ_neg {A} (l : list A) i : i < 0 → lookupZ l i = None.
Proof. intros Hi. unfold lookupZ. by rewrite (proj2 (Z.ltb_lt _ _)). Qed.

(** The lowest unused descriptor from 3 on. *)
Definition lowest_free (x : proc) (fd : Z) : Prop :=
  3 ≤ fd < Z.of_nat FD_MAX ∧ (∃ d, lookupZ (p_fd_table x) fd = Some d ∧ fd_used d = false) ∧
  ∀ i d, 3 ≤ i < fd → lookupZ (p_fd_table x) i = Some d → fd_used d = true.
Definition all_used (x : proc) : Prop := ∀ i d, 3 ≤ i → lookupZ (p_fd_table x) i = Some d → fd_used d = true.

Lemma free_fd_table x : length (p_fd_table x) = FD_MAX →
  match free_fd (drop 3 (p_fd_table x)) 3 with Some fd => lowest_free x fd | None => all_used x end.
Proof.
  intros Hl. pose proof (free_fd_spec (drop 3 (p_fd_table x)) 3) as Hf.
  destruct (free_fd _ _) as [fd|].
  - destruct Hf as (Hr & (d & Hd & Hu) & Hall). rewrite length_drop, Hl in Hr. unfold FD_MAX in *.
    rewrite lookupZ_drop in Hd by lia. replace (Z.of_nat 3 + (fd - 3)) with fd in Hd by lia.
    split; [unfold FD_MAX; lia|]. split; [by exists d|]. intros i e Hi He. apply (Hall (i - 3)); [lia|].
    rewrite lookupZ_drop by lia. by replace (Z.of_nat 3 + (i - 3)) with i by lia.
  - intros i d Hi Hd. apply (Hf (i - 3)). rewrite lookupZ_drop by lia.
    by replace (Z.of_nat 3 + (i - 3)) with i by lia.
Qed.

(** A node without an [open] handler: anything but the framebuffer device. *)
Definition opens_plainly (y : vnode) : Prop :=
  ∃ dr, node_driver y = Ret dr ∧ from_option has_open false dr = false.

Lemma not_device_plain y : v_type y ≠ VFS_DEVICE → opens_plainly y.
Proof. intros Hty. exists None. unfold node_driver. by rewrite bool_decide_false. Qed.

Lemma open_plain k c p x path node y :
  caller k p x → user_ptr_ok (s_rdi c) = true → user_cstr path_fuel (kmm k) (s_rdi c) = Ret path →
  vfs_find (kfs k) path = Ret node → node ≠ 0 → kfs_nodes k !! node = Some y → opens_plainly y →
  sys_open path_fuel k c =
    match free_fd (drop 3 (p_fd_table x)) 3 with
    | Some fd => Ret (put_fd k p x fd (Fd node 0 true 0), set_rax c fd)
    | None => Ret (k, set_rax c ERR)
    end.
Proof.
  intros Hc Hok Hpath Hf Hn Hy (dr & Hdr & Hop). unfold sys_open. rewrite Hok. cbn [negb]. rewrite Hpath, bind_Ret, Hf, bind_Ret.
  destruct (Z.eqb_spec node 0); [done|]. rewrite (current_proc_spec k p x Hc), bind_Ret.
  destruct (free_fd _ _) as [fd|]; [|done]. unfold get_vnode. cbn [kfs vnodes]. rewrite Hy. cbn [deref].
  rewrite bind_Ret, Hdr, bind_Ret.
  assert (E : match dr with
    | Some d => if has_open d then '(h, k) ← fb0_open k; Ret (h, k, negb (h =? 0)) else Ret (0, k, true)
    | None => Ret (0, k, true)
    end = Ret (0, k, true)) by (destruct dr as [d|]; [cbn in Hop; by rewrite Hop|done]).
  rewrite E, bind_Ret. cbn [negb]. unfold get_proc. rewrite (cl_proc _ _ _ Hc). done.
Qed.

(** C30. [open], called by a thread of a process.  A path pointer that is null or
    not below 2^47 is refused: the call fails and changes nothing.  Otherwise, for
    a path string that can be read and names nothing, or a node without an [open]
    handler (a file, a directory, the keyboard or the mouse; the framebuffer
    device, which may refuse as well, is the subject of C32), it takes the lowest
    free descriptor from 3 on and changes nothing but that descriptor, which then
    refers to the node at offset 0; it fails, changing nothing, exactly when the
    path names nothing or all descriptors are in use. *)
Theorem sys_open_spec k c p x :
  caller k p x → 0 ≤ s_rdi c →
  (s_rdi c = 0 ∨ 2 ^ 47 ≤ s_rdi c → sys_open path_fuel k c = Ret (k, set_rax c ERR)) ∧
  ∀ path node, 0 < s_rdi c < 2 ^ 47 → user_cstr path_fuel (kmm k) (s_rdi c) = Ret path →
    vfs_find (kfs k) path = Ret node →
    (node ≠ 0 → ∃ y, kfs_nodes k !! node = Some y ∧ opens_plainly y) →
    returns (sys_open path_fuel k c) (λ '(k', c'),
      (∃ fd, node ≠ 0 ∧ lowest_free x fd ∧ k' = put_fd k p x fd (Fd node 0 true 0) ∧ c' = set_rax c fd) ∨
      (node = 0 ∨ all_used x) ∧ k' = k ∧ c' = set_rax c ERR).
Proof.
  intros Hc Hrdi. split.
  { intros Hbad. unfold sys_open, user_ptr_ok, USER_TOP. by repeat zcase; try lia. }
  intros path node Hptr Hpath Hf Hy.
  assert (Hok : user_ptr_ok (s_rdi c) = true) by (unfold user_ptr_ok, USER_TOP; repeat zcase; try done; lia). destruct (Z.eq_dec node 0) as [->|Hn].
  { unfold sys_open. rewrite Hok. cbn [negb]. rewrite Hpath, bind_Ret, Hf, bind_Ret. right. by auto. }
  destruct (Hy Hn) as (y & Hl & Hty). rewrite (open_plain k c p x path node y) by done.
  pose proof (free_fd_table x (cl_fds _ _ _ Hc)) as Hfd. destruct (free_fd _ _) as [fd|].
  - left. by exists fd.
  - right. by auto.
Qed.

(** [close] of a descriptor of a file or directory. *)
Lemma close_plain k c p x d y :
  caller k p x → fd_ok (s_rdi c) = true → lookupZ (p_fd_table x) (s_rdi c) = Some d → fd_used d = true →
  (fd_node d = 0 ∨ kfs_nodes k !! fd_node d = Some y ∧ v_type y ≠ VFS_DEVICE) →
  sys_close k c = Ret (put_fd k p x (s_rdi c) (Fd 0 0 false 0), set_rax c 0).
Proof.
  intros Hc Hok Hd Hu Hy. unfold sys_close. rewrite Hok. cbn [negb]. rewrite (used_fd_spec k p x _ d), Hu, bind_Ret by done.
  assert (E : (if fd_node d =? 0 then Ret k else
    y ← get_vnode (kfs k) (fd_node d); dr ← node_driver y;
    match dr with Some dv => if has_close dv then fb0_close k (fd_handle d) else Ret k | None => Ret k end) = Ret k).
  { destruct (Z.eqb_spec (fd_node d) 0); [done|]. destruct Hy as [?|[Hy Hty]]; [done|].
    unfold get_vnode. cbn [kfs vnodes]. rewrite Hy. cbn [deref]. rewrite bind_Ret. unfold node_driver.
    by rewrite bool_decide_false. }
  rewrite E, bind_Ret. unfold get_proc. rewrite (cl_proc _ _ _ Hc). done.
Qed.

(** [close] undoes [open]: a descriptor that [open] returned, closed, leaves
    the whole kernel as it was, and the descriptor can be had again. *)
Theorem sys_open_close_roundtrip k c p x path node y fd k1 c1 :
  caller k p x → user_ptr_ok (s_rdi c) = true → user_cstr path_fuel (kmm k) (s_rdi c) = Ret path →
  vfs_find (kfs k) path = Ret node → node ≠ 0 → kfs_nodes k !! node = Some y → v_type y ≠ VFS_DEVICE →
  (∀ i d, lookupZ (p_fd_table x) i = Some d → fd_used d = false → d = empty_fd) →
  lowest_free x fd → sys_open path_fuel k c = Ret (k1, c1) →
  s_rax c1 = fd ∧ ∀ c2, s_rdi c2 = s_rax c1 → sys_close k1 c2 = Ret (k, set_rax c2 0).
Proof.
  intros Hc Hok Hpath Hf Hn Hy Hty Hempty Hlow.
  rewrite (open_plain k c p x path node y) by (done || by apply not_device_plain).
  pose proof (free_fd_table x (cl_fds _ _ _ Hc)) as Hfd. pose proof Hlow as (Hr & (d & Hd & Hu) & Hall).
  destruct (free_fd _ _) as [fd'|].
  2: { specialize (Hfd fd d ltac:(lia) Hd). congruence. }
  assert (fd' = fd) as ->.
  { destruct Hfd as (Hr' & (d' & Hd' & Hu') & Hall'). destruct (Z.lt_trichotomy fd fd') as [Hl|[E|Hl]]; [|done|].
    - specialize (Hall' fd d ltac:(lia) Hd). congruence.
    - specialize (Hall fd' d' ltac:(lia) Hd'). congruence. }
  intros [= <- <-]. cbn [s_rax set_rax]. split; [done|]. intros c2 Hc2.
  assert (Hlk : 0 ≤ fd < Z.of_nat (length (p_fd_table x))) by (rewrite (cl_fds _ _ _ Hc); lia).
  rewrite (close_plain _ c2 p (set_fds x (updateZ (p_fd_table x) fd (Fd node 0 true 0))) (Fd node 0 true 0) y).
  - rewrite Hc2, put_fd_put, (put_fd_id k p x); [done|apply Hc|]. rewrite Hd. f_equal.
    by rewrite (Hempty _ _ Hd Hu).
  - by apply put_fd_caller.
  - unfold fd_ok. rewrite Hc2. apply andb_true_intro. split; [apply Z.leb_le|apply Z.ltb_lt]; lia.
  - rewrite Hc2. cbn. by apply lookupZ_updateZ_eq.
  - done.
  - right. done.
Qed.

(** The file behind a descriptor of the caller. *)
Record open_file k p x (fd : Z) (d : file_descriptor) (y : vnode) : Prop := {
  of_caller : caller k p x;
  of_fd : fd_ok fd = true;
  of_desc : lookupZ (p_fd_table x) fd = Some d;
  of_used : fd_used d = true;
  of_node : fd_node d ≠ 0;
  of_live : kfs_nodes k !! fd_node d = Some y;
}.

(** The start of every call on an open file. *)
Lemma open_file_start k p x fd d y : open_file k p x fd d y →
  fd_ok fd = true ∧ used_fd k fd = Ret (Some (p, x, d)) ∧ (fd_node d =? 0) = false ∧
  get_vnode (kfs k) (fd_node d) = Ret y.
Proof.
  intros [Hc Hok Hd Hu Hn Hy]. split; [done|]. rewrite (used_fd_spec k p x _ d), Hu by done.
  split; [done|]. split; [by apply Z.eqb_neq|]. unfold get_vnode. cbn [kfs vnodes]. by rewrite Hy.
Qed.

(** The position [lseek] is asked for: [None] for an unknown [whence]. *)
Definition seek_target (whence offset pos size : Z) : option Z :=
  match whence with 0 => Some offset | 1 => Some (pos + offset) | 2 => Some (size + offset) | _ => None end.

(** [lseek] moves to the offset counted from the start, the position or the
    end, even past the end of the file, and returns it; it refuses an unknown
    origin and a position before the start, and then changes nothing. *)
Theorem sys_lseek_spec k c p x d y :
  open_file k p x (s_rdi c) d y → v_type y = VFS_FILE → 0 ≤ fd_offset d < 2 ^ 62 → 0 ≤ v_size y < 2 ^ 62 →
  - 2 ^ 62 ≤ i64 (s_rsi c) < 2 ^ 62 →
  sys_lseek k c =
    match seek_target (i32 (s_rdx c)) (i64 (s_rsi c)) (fd_offset d) (v_size y) with
    | Some t => if 0 <=? t
                then Ret (put_fd k p x (s_rdi c) (Fd (fd_node d) t true (fd_handle d)), set_rax c t)
                else Ret (k, set_rax c ERR)
    | None => Ret (k, set_rax c ERR)
    end.
Proof.
  intros Ho Hty Hoff Hsz Hi. destruct (open_file_start _ _ _ _ _ _ Ho) as (Hok & Hu & Hn & Hy).
  unfold sys_lseek. rewrite Hok. cbn [negb]. rewrite Hu, bind_Ret, Hn, Hy, bind_Ret, bool_decide_true by done.
  cbn [negb]. set (w := i32 (s_rdx c)). set (o := i64 (s_rsi c)) in *. clearbody w o.
  assert (E : (if w =? 0 then Some o else if w =? 1 then Some (i64 (i64 (fd_offset d) + o)) else
    if w =? 2 then Some (i64 (i64 (v_size y) + o)) else None) = seek_target w o (fd_offset d) (v_size y)).
  { rewrite !(i64_small (fd_offset d)), !(i64_small (v_size y)), !i64_small by lia.
    unfold seek_target. destruct (Z.eqb_spec w 0) as [->|]; [done|]. destruct (Z.eqb_spec w 1) as [->|]; [done|].
    destruct (Z.eqb_spec w 2) as [->|]; [done|]. by destruct w as [|[[]|[]|]|]. }
  rewrite E. destruct (seek_target _ _ _ _) as [t|] eqn:Et; [|done].
  assert (t < 2 ^ 63).
  { unfold seek_target in Et. destruct w as [|[[]|[]|]|]; try done; injection Et as <-; lia. }
  destruct (Z.ltb_spec t 0), (Z.leb_spec 0 t); try lia; [done|]. by rewrite u64_small by lia.
Qed.
End calls.

(** ** Data in the caller's memory *)

Section reads.
Context {H : Type} `{HeapAlloc H} `{KernelCode} `{DeviceObjects} (D U : Z → Prop).
Context (off r : Z) (fr : Z → Z) (Hoff : 0 ≤ off ∧ off + 2 ^ 47 ≤ 2 ^ 64).
Implicit Types (k : kernel H) (c : cpu_state).
Notation home := (home off fr).
Notation user_at := (user_byte off r).

Lemma with_kram_id k : with_kram k (kram k) = k.
Proof. by destruct k as [[[]]]. Qed.

Lemma range_byte m m' va n i : range_writable D U off r fr m va n → agree off D m m' r → 0 ≤ i < n →
  user_at m' (va + i) = Some (ld8 m' (home (va + i))).
Proof.
  intros Hr Ha Hi. apply (user_byte_home D off r fr).
  pose proof (range_writable_agree D U off r fr m m' va n 0 Ha ltac:(lia) Hr) as Hr'.
  rewrite Z.add_0_r, Z.sub_0_r in Hr'. by apply (rr_page _ _ _ _ _ _ _ _ (rw_ready _ _ _ _ _ _ _ _ Hr')).
Qed.

(** What [sys_read] does to a regular file. *)
Lemma read_step k c p x d y n :
  open_file k p x (s_rdi c) d y → v_type y = VFS_FILE → user_ptr_ok (s_rsi c) = true →
  0 ≤ fd_offset d < 2 ^ 62 → 0 ≤ v_size y < 2 ^ 62 → 0 ≤ s_rdx c → 0 ≤ v_data y → v_data y + v_size y < 2 ^ 64 →
  data_valid (vfs_heap (kfs k)) (v_data y) (v_size y) = true →
  n = Z.max 0 (Z.min (s_rdx c) (v_size y - fd_offset d)) →
  active off r (kmm k) → range_writable D U off r fr (kram k) (s_rsi c) n →
  (∀ i j, 0 ≤ i < n → 0 ≤ j < n → v_data y + fd_offset d + j ≠ home (s_rsi c + i)) →
  returns (sys_read k c) (λ '(k', c'), c' = set_rax c n ∧
    (∀ i, 0 ≤ i < n → user_at (kram k') (s_rsi c + i) = Some (ld8 (kram k) (v_data y + fd_offset d + i))) ∧
    (∀ a, (∀ i, 0 ≤ i < n → a ≠ home (s_rsi c + i)) → ld8 (kram k') a = ld8 (kram k) a) ∧
    k' = put_fd (with_kram k (kram k')) p x (s_rdi c) (Fd (fd_node d) (fd_offset d + n) true (fd_handle d))).
Proof.
  intros Ho Hty Hptr Hpos Hsz Hlen Hd0 Hd1 Hv En Hact Hrw Hap.
  destruct (open_file_start _ _ _ _ _ _ Ho) as (Hok & Hu & Hn & Hy). unfold sys_read. rewrite Hptr. cbn [negb].
  assert (E0 : (s_rdi c =? 0) = false).
  { unfold fd_ok in Hok. apply andb_prop in Hok as [Hok _]. apply Z.leb_le in Hok. apply Z.eqb_neq. lia. }
  rewrite E0, Hok. cbn [negb]. rewrite Hu, bind_Ret, Hn, Hy, bind_Ret, Hty.
  rewrite bool_decide_false, bool_decide_true by done. cbn [negb].
  destruct (Z.leb_spec (v_size y) (fd_offset d)) as [Heof|Hmore].
  { cbn [returns]. assert (n = 0) as -> by lia. split; [done|]. split; [lia|]. split; [done|].
    rewrite with_kram_id, Z.add_0_r, (put_fd_id k p x); [done|apply Ho|]. rewrite (of_desc _ _ _ _ _ _ Ho).
    f_equal. pose proof (of_used _ _ _ _ _ _ Ho). destruct d. cbn in *. by subst. }
  rewrite (u64_small (v_size y - fd_offset d)), (u64_small (v_data y + _)) by lia.
  assert (Ec : (if s_rdx c <? v_size y - fd_offset d then s_rdx c else v_size y - fd_offset d) = n).
  { zcase; lia. }
  rewrite Ec, (u64_small (fd_offset d + n)) by lia.
  rewrite through_valid by (eapply data_valid_mono; [exact Hv|lia]).
  assert (Hnn : Z.of_nat (Z.to_nat n) = n) by lia.
  rewrite (copy_to_user_bytes D U off r fr Hoff); [|done|by rewrite Hnn|lia|lia|by rewrite Hnn].
  rewrite Hnn. destruct (to_user_spec D U off r fr Hoff
    ((λ i, ld8 (mm_ram (kmm k)) (v_data y + fd_offset d + i)) <$> seqZ 0 n) (kmm k) (s_rsi c) Hact)
    as (m' & -> & Hag & Hin & Hout).
  { rewrite length_fmap, length_seqZ, Hnn. exact Hrw. }
  rewrite length_fmap, length_seqZ, Hnn in Hout. rewrite bind_Ret. cbn [returns].
  split; [done|]. change (kram (put_fd (with_kmm k (with_mem (kmm k) m' (mm_frames (kmm k)))) p x (s_rdi c)
    (Fd (fd_node d) (fd_offset d + n) true (fd_handle d)))) with m'. split; [|split; [exact Hout|done]].
  intros i Hi. rewrite (range_byte (kram k) m' (s_rsi c) n) by done. f_equal.
  rewrite (Hin i (ld8 (kram k) (v_data y + fd_offset d + i))).
  - apply u8_small, ld8_range.
  - unfold lookupZ. rewrite (proj2 (Z.ltb_ge _ _)) by lia. rewrite list_lookup_fmap.
    rewrite lookup_seqZ_lt by lia. cbn. by rewrite Z2Nat.id by lia.
Qed.

(** C31. [read] of a file whose contents are there (see [data_valid]: [sys_read] does
    not look whether they are) gives the caller the file's next bytes: as many as
    asked for, or as are left.  Its result is their number, the offset of the
    descriptor advances by it (so that calls in a row deliver the file piece by
    piece, and 0 means the end), and no other byte of memory and nothing else in
    the kernel changes. *)
Theorem sys_read_spec k c p x d y n :
  open_file k p x (s_rdi c) d y → v_type y = VFS_FILE → user_ptr_ok (s_rsi c) = true →
  0 ≤ fd_offset d < 2 ^ 62 → 0 ≤ v_size y < 2 ^ 62 → 0 ≤ s_rdx c → 0 ≤ v_data y → v_data y + v_size y < 2 ^ 64 →
  data_valid (vfs_heap (kfs k)) (v_data y) (v_size y) = true →
  n = Z.max 0 (Z.min (s_rdx c) (v_size y - fd_offset d)) →
  active off r (kmm k) → range_writable D U off r fr (kram k) (s_rsi c) n →
  (∀ i j, 0 ≤ i < n → 0 ≤ j < n → v_data y + fd_offset d + j ≠ home (s_rsi c + i)) →
  returns (sys_read k c) (λ '(k', c'), c' = set_rax c n ∧
    (∀ i, 0 ≤ i < n → user_at (kram k') (s_rsi c + i) = Some (ld8 (kram k) (v_data y + fd_offset d + i))) ∧
    (∀ a, (∀ i, 0 ≤ i < n → a ≠ home (s_rsi c + i)) → ld8 (kram k') a = ld8 (kram k) a) ∧
    k' = put_fd (with_kram k (kram k')) p x (s_rdi c) (Fd (fd_node d) (fd_offset d + n) true (fd_handle d))).
Proof. apply read_step. Qed.

Lemma length_dirent i o child : (length (dirent_bytes i o child) ≤ 275)%nat.
Proof.
  unfold dirent_bytes. rewrite !length_app, !length_bytes_of. cbn [length].
  pose proof (length_take_le (v_name child) 255). rewrite length_take. lia.
Qed.

(** The entries [sys_getdents] stores of the children [cs], numbered from [i], at
    [base], [written] bytes into the buffer: byte [b] of entry [j]. *)
Definition dirents_at (m : ram) k (cs : list Z) (i base written cnt : Z) : Prop :=
  ∀ j ch child b v, 0 ≤ j < cnt → lookupZ cs j = Some ch → kfs_nodes k !! ch = Some child →
    lookupZ (dirent_bytes (i + j) (written + DIRENT_SIZE * (j + 1)) child) b = Some v →
    ld8 m (home (base + (written + DIRENT_SIZE * j + b))) = u8 v.

Lemma getdents_loop_spec cs : ∀ k i offset buf size written,
  active off r (kmm k) → range_writable D U off r fr (kram k) buf size → 0 ≤ written ≤ size →
  Forall (λ ch, ch ≠ 0 ∧ is_Some (kfs_nodes k !! ch)) cs →
  let cnt := Z.min (Z.of_nat (length cs)) ((size - written) / DIRENT_SIZE) in
  ∃ m', getdents_loop cs k i offset buf size written =
      Ret (with_kram k m', written + DIRENT_SIZE * cnt, if cnt =? 0 then offset else i + cnt) ∧
    agree off D (kram k) m' r ∧ dirents_at m' k cs i buf written cnt ∧
    (∀ a, (∀ b, written ≤ b < written + DIRENT_SIZE * cnt → a ≠ home (buf + b)) → ld8 m' a = ld8 (kram k) a).
Proof.
  induction cs as [|ch cs IH]; intros k i offset buf size written Hact Hrw Hwr Hcs cnt; cbn [getdents_loop].
  { assert (cnt = 0) as -> by (unfold cnt, DIRENT_SIZE; cbn; dlia). exists (kram k).
    rewrite with_kram_id, Z.mul_0_r, Z.add_0_r. split; [done|]. split; [done|]. split; [|done].
    intros j ? ? ? ? Hj. lia. }
  apply Forall_cons in Hcs as [[Hch0 [child Hch]] Hcs]. destruct (Z.eqb_spec ch 0); [done|].
  unfold get_vnode. cbn [kfs vnodes]. rewrite Hch. cbn [deref]. rewrite bind_Ret.
  pose proof (rw_bounds _ _ _ _ _ _ _ _ Hrw) as Hb. unfold USER_TOP in Hb.
  rewrite (u64_small (written + _)), (u64_small (buf + _)) by (unfold DIRENT_SIZE; lia).
  destruct (Z.ltb_spec size (written + DIRENT_SIZE)) as [Hfull|Hroom].
  { assert (cnt = 0) as -> by (unfold cnt, DIRENT_SIZE in *; cbn [length]; dlia). exists (kram k).
    rewrite with_kram_id, Z.mul_0_r, Z.add_0_r. split; [done|]. split; [done|]. split; [|done].
    intros j ? ? ? ? Hj. lia. }
  set (bs := dirent_bytes i (written + DIRENT_SIZE) child). pose proof (length_dirent i (written + DIRENT_SIZE) child) as Hlen.
  fold bs in Hlen.
  assert (Hrw1 : range_writable D U off r fr (kram k) (buf + written) (Z.of_nat (length bs))).
  { apply (range_writable_take D U off r fr (kram k) (buf + written) (size - written)); [unfold DIRENT_SIZE in *; lia|].
    by apply (range_writable_agree D U off r fr (kram k)). }
  destruct (to_user_spec D U off r fr Hoff bs (kmm k) (buf + written) Hact Hrw1) as (m1 & -> & Hag1 & Hin1 & Hout1).
  rewrite bind_Ret.
  destruct (IH (with_kram k m1) (i + 1) (i + 1) buf size (written + DIRENT_SIZE)) as (m' & E & Hag & Hin & Hout).
  - by apply (active_ram off r).
  - pose proof (range_writable_agree D U off r fr (kram k) m1 buf size 0 Hag1 ltac:(lia) Hrw) as Hr.
    by rewrite Z.add_0_r, Z.sub_0_r in Hr.
  - unfold DIRENT_SIZE in *. lia.
  - done.
  - set (cnt' := Z.min _ ((size - (written + DIRENT_SIZE)) / DIRENT_SIZE)) in *.
    assert (Ecnt : cnt = cnt' + 1 ∧ 0 ≤ cnt' ∧ 280 * cnt' ≤ size - (written + 280)).
    { unfold cnt, cnt', DIRENT_SIZE in *. cbn [length]. split; [|split]; dlia. }
    destruct Ecnt as (-> & Hcnt & Hcnt2). exists m'. split; [|split; [|split]].
    + change (with_kmm k (with_mem (kmm k) m1 (mm_frames (kmm k)))) with (with_kram k m1). rewrite E.
      rewrite (proj2 (Z.eqb_neq (cnt' + 1) 0)) by lia.
      replace (if cnt' =? 0 then i + 1 else i + 1 + cnt') with (i + (cnt' + 1)) by (zcase; lia).
      by replace (written + DIRENT_SIZE + DIRENT_SIZE * cnt') with (written + DIRENT_SIZE * (cnt' + 1)) by lia.
    + by eapply agree_trans.
    + intros j ch' child' b v Hj Hl Hc Hv. destruct (Z.eq_dec j 0) as [->|Hj0].
      * injection Hl as <-. assert (child' = child) as -> by congruence.
        rewrite Z.add_0_r, Z.mul_1_r in Hv. fold bs in Hv. pose proof (lookupZ_some _ _ _ Hv) as Hbr.
        rewrite <- (Hin1 b v Hv), Z.mul_0_r, Z.add_0_r, Z.add_assoc.
        apply Hout. intros b' Hb' Eh. rewrite <- Z.add_assoc in Eh.
        pose proof (home_inj _ _ _ _ _ _ _ _ (written + b) b' (rw_ready _ _ _ _ _ _ _ _ Hrw)) as Hij.
        unfold DIRENT_SIZE in *. assert (written + b = b') by (apply Hij; [lia|lia|done]). lia.
      * replace (written + DIRENT_SIZE * j + b) with (written + DIRENT_SIZE + DIRENT_SIZE * (j - 1) + b)
          by (unfold DIRENT_SIZE; lia).
        apply (Hin (j - 1) ch' child'); [lia| |done|].
        -- by rewrite lookupZ_cons in Hl by lia.
        -- replace (i + 1 + (j - 1)) with (i + j) by lia.
           replace (written + DIRENT_SIZE + DIRENT_SIZE * (j - 1 + 1)) with (written + DIRENT_SIZE * (j + 1))
             by (unfold DIRENT_SIZE; lia). done.
    + intros a Ha. rewrite Hout.
      * cbn. rewrite Hout1; [done|]. intros b Hbb. rewrite <- Z.add_assoc. apply Ha. unfold DIRENT_SIZE in *. lia.
      * intros b Hbb. apply Ha. unfold DIRENT_SIZE in *. lia.
Qed.

(** [getdents] lists a directory: it stores one entry after the other for the
    children from the descriptor's position on, as many as are left or as fit
    whole, each with its number, type and name, returns their size, and moves the
    position past them, so that calls in a row list every child once; no other
    byte of memory and nothing else in the kernel changes. *)
Theorem sys_getdents_spec k c p x d y cnt :
  open_file k p x (s_rdi c) d y → v_type y = VFS_DIRECTORY → user_ptr_ok (s_rsi c) = true →
  Forall (λ ch, ch ≠ 0 ∧ is_Some (kfs_nodes k !! ch)) (v_children y) →
  0 ≤ fd_offset d ≤ Z.of_nat (length (v_children y)) → (length (v_children y) ≤ VFS_MAX_CHILDREN)%nat →
  cnt = Z.min (Z.of_nat (length (v_children y)) - fd_offset d) (s_rdx c / DIRENT_SIZE) →
  active off r (kmm k) → range_writable D U off r fr (kram k) (s_rsi c) (s_rdx c) →
  returns (sys_getdents k c) (λ '(k', c'), c' = set_rax c (DIRENT_SIZE * cnt) ∧
    (∀ j ch child b v, 0 ≤ j < cnt → lookupZ (v_children y) (fd_offset d + j) = Some ch →
       kfs_nodes k !! ch = Some child →
       lookupZ (dirent_bytes (fd_offset d + j) (DIRENT_SIZE * (j + 1)) child) b = Some v →
       user_at (kram k') (s_rsi c + (DIRENT_SIZE * j + b)) = Some (u8 v)) ∧
    (∀ a, (∀ b, 0 ≤ b < DIRENT_SIZE * cnt → a ≠ home (s_rsi c + b)) → ld8 (kram k') a = ld8 (kram k) a) ∧
    k' = put_fd (with_kram k (kram k')) p x (s_rdi c) (Fd (fd_node d) (fd_offset d + cnt) true (fd_handle d))).
Proof.
  intros Ho Hty Hptr Hch Hpos Hmax En Hact Hrw. unfold VFS_MAX_CHILDREN in Hmax.
  destruct (open_file_start _ _ _ _ _ _ Ho) as (Hok & Hu & Hn & Hy). unfold sys_getdents. rewrite Hptr, Hok. cbn [negb].
  rewrite Hu, bind_Ret, Hn, Hy, bind_Ret, bool_decide_true by done. cbn [negb]. cbv zeta.
  rewrite (i32_small (fd_offset d)), (proj2 (Z.ltb_ge (fd_offset d) 0)) by lia.
  pose proof (rw_bounds _ _ _ _ _ _ _ _ Hrw) as Hb.
  set (cs := drop (Z.to_nat (fd_offset d)) (v_children y)).
  assert (Hcs : Forall (λ ch, ch ≠ 0 ∧ is_Some (kfs_nodes k !! ch)) cs) by (by apply Forall_drop).
  assert (Hl : Z.of_nat (length cs) = Z.of_nat (length (v_children y)) - fd_offset d).
  { unfold cs. rewrite length_drop. lia. }
  destruct (getdents_loop_spec cs k (fd_offset d) (fd_offset d) (s_rsi c) (s_rdx c) 0 Hact Hrw ltac:(lia) Hcs)
    as (m' & -> & Hag & Hin & Hout).
  rewrite bind_Ret, Hl, Z.sub_0_r, <- En, Z.add_0_l in *.
  assert (Hcnt : 0 ≤ cnt) by (rewrite En; unfold DIRENT_SIZE; dlia).
  replace (if cnt =? 0 then fd_offset d else fd_offset d + cnt) with (fd_offset d + cnt) by (zcase; lia).
  cbn [returns]. split; [done|]. change (kram (put_fd (with_kram k m') p x (s_rdi c)
    (Fd (fd_node d) (fd_offset d + cnt) true (fd_handle d)))) with m'. split; [|split; [exact Hout|done]].
  intros j ch child b v Hj Hlk Hc Hv. pose proof (lookupZ_some _ _ _ Hv) as Hbr.
  pose proof (length_dirent (fd_offset d + j) (DIRENT_SIZE * (j + 1)) child) as Hlen.
  assert (Hfit : DIRENT_SIZE * cnt ≤ s_rdx c) by (rewrite En; unfold DIRENT_SIZE; dlia).
  rewrite (range_byte (kram k) m' (s_rsi c) (s_rdx c)); [f_equal|done|done|unfold DIRENT_SIZE in *; nia].
  rewrite <- (Z.add_0_l (DIRENT_SIZE * j)). apply (Hin j ch child); try done.
  unfold cs. rewrite lookupZ_drop by lia. by rewrite Z2Nat.id by lia.
Qed.
End reads.

(** ** A concrete caller

    Page [0x400000] of the active space is frame 3, writable.  The frame holds
    the path [/a] at [0x400400] and the five bytes of that file at offset
    [0x800]. *)
Definition um_mem : ram * physmem :=
  match paging_map_page_in paging0 ∅ pm16 0x1000 0x400000 0x3000 7 with Ret x => x | _ => (∅, pm16) end.
Definition um_ram : ram :=
  poke (poke um_mem.1 (0x3400 + Paging.hhdm) [47; 97; 0]) (0x3800 + Paging.hhdm) [104; 101; 108; 108; 111].

Lemma um_step : returns (paging_map_page_in paging0 ∅ pm16 0x1000 0x400000 0x3000 7) (λ '(m, f),
  pt_step Paging.hhdm user_slot pm16 ∅ f m 0x1000).
Proof.
  assert (W : pt_wf Paging.hhdm user_slot (fa_used pm16) ∅ 0x1000)
    by (apply pt_wf_empty; [vdone|by right]).
  pose proof (map_page_spec Paging.hhdm ltac:(vdone) user_slot
    (Z.lor (Z.lor PTE_PRESENT PTE_WRITABLE) PTE_USER) ∅ pm16 0x1000 0x400000 0x3000 7
    user_flags pm16_inv W ltac:(vdone) ltac:(lia)) as Hs.
  eapply returns_mono; [apply (or_panic_returns _ _ Hs); vm_compute; reflexivity|].
  intros [m f] [S _]. exact S.
Qed.

Lemma um_writable n : 0 ≤ n ≤ 0x300 →
  range_writable user_slot (physmem_used um_mem.2) Paging.hhdm 0x1000 (λ _, 0x3000) um_ram 0x400010 n.
Proof.
  intros Hn. assert (Ep : ∀ i, 0 ≤ i < n → (0x400010 + i) / 4096 = 0x400) by (intros; dlia).
  destruct (proj1 (returns_iff _ _) um_step) as ([m f] & E & S).
  assert (Em : um_mem = (m, f)) by (unfold um_mem; by rewrite E). clear E.
  assert (Ht : ∀ q, path_ok user_slot q → table_at Paging.hhdm m 0x1000 q ≠ Some 0x3000).
  { intros q Hq Hx. destruct (ps_new _ _ _ _ _ _ _ S q _ Hq Hx) as [Hy|Hy].
    - apply table_at_empty in Hy as [_ Hy]. done.
    - apply Hy. by right. }
  assert (Hag : agree Paging.hhdm user_slot m um_ram 0x1000).
  { apply (agree_frame Paging.hhdm ltac:(vdone) user_slot m um_ram (physmem_used f) 0x1000 0x3000);
      [apply S|vdone|done|].
    intros x Hx. unfold um_ram. rewrite Em. cbn [fst]. rewrite !ld8_poke_out; [done|..]; cbn [length]; lia. }
  assert (Hp : pte_at Paging.hhdm um_ram 0x1000 0x400000 = Some 0x3007) by (vm_compute; reflexivity).
  split; [|intros i e Hi; rewrite (Ep i Hi); intros He|unfold USER_TOP; lia].
  - split.
    + rewrite Em. apply (agree_wf Paging.hhdm user_slot _ m); [exact Hag|apply S].
    + intros i Hi. rewrite (Ep i Hi). split; [vdone| |vdone|].
      * exists 0x3007. split; [exact Hp|reflexivity].
      * intros q Hq. rewrite (agree_tables Paging.hhdm user_slot m) by done. by apply Ht.
    + intros i j Hi Hj _. by rewrite (Ep i Hi), (Ep j Hj).
  - change (0x400 * 4096) with 0x400000 in He. rewrite Hp in He. by injection He as <-.
Qed.

Definition um_root : vnode := Vnode ROOT VFS_DIRECTORY 0 0 0 false 0 0 [0x20; 0x30].
Definition um_file : vnode := Vnode [97] VFS_FILE (0x3800 + Paging.hhdm) 5 5 true 0 0x10 [].
Definition um_dir : vnode := Vnode [100] VFS_DIRECTORY 0 0 0 false 0 0x10 [].
Definition um_proc : proc :=
  Proc 1 [112] PROC_ALIVE 0 0 0 0 0 0x600 0x50 1 1
    (replicate 3 std_fd ++ [Fd 0x20 2 true 0; Fd 0x10 0 true 0] ++ replicate 59 empty_fd) 0.
Definition um_kernel : kernel kheap :=
  Kernel
    (Ks (MM um_ram um_mem.2 kheap_init ∅ {[0x600 := Space 0x1000 0 0 0]} paging0 0x700 0x600)
       {[0x50 := Thread 1 [] THREAD_RUNNING 0 0 0 true 0 zero_state 0x80 0 0]} {[0x80 := um_proc]}
       (Sched (q_init (Rq (replicate 64 0) 0 0 0)) 0x50 0x50 0 0 true 0 0)
       0x80 0 2 2 (Ctx 0x4000 0x202 1 2 3 4 5 6 0x9000) 0 0)
    0x10 {[0x10 := um_root; 0x20 := um_file; 0x30 := um_dir]} (Input (empty_queue 64) (empty_queue 128))
    demo_gfx [] ∅ [] 0.
(** The registers of a call. *)
Definition call (rax rdi rsi rdx : Z) : cpu_state :=
  CpuState 0 0 0 0 0 0 0 0 0 rdi rsi rdx 0 0 rax 0 0 0.

#[local] Instance um_devices : DeviceObjects.
Proof. refine {| kbd_module := 0x1; mouse_module := 0x2; fb0_device := 0x3 |}. by apply (bool_decide_unpack (NoDup [0; 1; 2; 3])). Defined.
#[local] Instance um_code : KernelCode := { thread_trampoline := 1; user_thread_trampoline := 2; fork_child_return_addr := 3 }.

Lemma um_caller : caller um_kernel 0x80 um_proc.
Proof. split; [done|by eexists|done|reflexivity|reflexivity]. Qed.

Lemma um_path : user_cstr 8 (kmm um_kernel) 0x400400 = Ret [47; 97].
Proof. vm_compute. reflexivity. Qed.
Lemma um_find : vfs_find (kfs um_kernel) [47; 97] = Ret 0x20.
Proof. vm_compute. reflexivity. Qed.

Lemma sys_open_witness :
  returns (sys_open 8 um_kernel (call SYS_OPEN 0x400400 0 0)) (λ '(k', c'), s_rax c' = 5).
Proof.
  eapply returns_mono.
  - apply (proj2 (sys_open_spec 8 um_kernel (call SYS_OPEN 0x400400 0 0) 0x80 um_proc um_caller ltac:(vdone)) [47; 97] 0x20);
      [split; vdone|exact um_path|exact um_find|].
    intros _. exists um_file. split; [reflexivity|apply not_device_plain; discriminate].
  - intros [k' c'] [(fd & _ & (Hr & (d & Hd & Hu) & Hall) & _ & ->)|([E|Hall] & _)].
    + cbn. destruct (Z.lt_trichotomy fd 5) as [Hl|[E|Hl]]; [exfalso|exact E|exfalso].
      * assert (fd = 3 ∨ fd = 4) as [-> | ->] by lia; injection Hd as <-; discriminate.
      * discriminate (Hall 5 empty_fd ltac:(lia) eq_refl).
    + discriminate.
    + discriminate (Hall 5 empty_fd ltac:(lia) eq_refl).
Defined.

Lemma um_lowest : lowest_free um_proc 5.
Proof.
  split; [vdone|]. split; [by exists empty_fd|]. intros i d Hi Hd.
  assert (i = 3 ∨ i = 4) as [-> | ->] by lia; by injection Hd as <-.
Qed.
Lemma um_unused i d : lookupZ (p_fd_table um_proc) i = Some d → fd_used d = false → d = empty_fd.
Proof.
  intros Hd Hu. unfold lookupZ in Hd. destruct (i <? 0); [done|]. apply list_elem_of_lookup_2 in Hd.
  cbn [p_fd_table um_proc] in Hd. rewrite !elem_of_app, !elem_of_cons, !elem_of_replicate in Hd.
  destruct Hd as [[-> _]|[[->|[->|[]%elem_of_nil]]|[-> _]]]; done.
Qed.

Definition um_opened : kernel kheap := put_fd um_kernel 0x80 um_proc 5 (Fd 0x20 0 true 0).
Lemma um_open : sys_open 8 um_kernel (call SYS_OPEN 0x400400 0 0) = Ret (um_opened, set_rax (call SYS_OPEN 0x400400 0 0) 5).
Proof.
  rewrite (open_plain 8 um_kernel (call SYS_OPEN 0x400400 0 0) 0x80 um_proc [47; 97] 0x20 um_file);
    [reflexivity|exact um_caller|reflexivity|exact um_path|exact um_find|discriminate
    |reflexivity|apply not_device_plain; discriminate].
Qed.
Lemma sys_open_close_witness :
  sys_close um_opened (call SYS_CLOSE 5 0 0) = Ret (um_kernel, set_rax (call SYS_CLOSE 5 0 0) 0).
Proof.
  apply (proj2 (sys_open_close_roundtrip 8 um_kernel (call SYS_OPEN 0x400400 0 0) 0x80 um_proc [47; 97] 0x20 um_file 5
    um_opened (set_rax (call SYS_OPEN 0x400400 0 0) 5)
    um_caller ltac:(reflexivity) um_path um_find ltac:(discriminate)
    ltac:(reflexivity) ltac:(discriminate) um_unused um_lowest um_open)).
  reflexivity.
Defined.

Lemma um_open3 : open_file um_kernel 0x80 um_proc 3 (Fd 0x20 2 true 0) um_file.
Proof. split; [exact um_caller|reflexivity|reflexivity|reflexivity|discriminate|reflexivity]. Qed.
Lemma um_open4 : open_file um_kernel 0x80 um_proc 4 (Fd 0x10 0 true 0) um_root.
Proof. split; [exact um_caller|reflexivity|reflexivity|reflexivity|discriminate|reflexivity]. Qed.
Lemma um_active : active Paging.hhdm 0x1000 (kmm um_kernel).
Proof. split; [reflexivity|]. exists (Space 0x1000 0 0 0). split; reflexivity. Qed.

(** One byte back from the end of the file. *)
Lemma sys_lseek_witness :
  sys_lseek um_kernel (call SYS_LSEEK 3 (2 ^ 64 - 1) 2) =
  Ret (put_fd um_kernel 0x80 um_proc 3 (Fd 0x20 4 true 0), set_rax (call SYS_LSEEK 3 (2 ^ 64 - 1) 2) 4).
Proof.
  rewrite (sys_lseek_spec um_kernel (call SYS_LSEEK 3 (2 ^ 64 - 1) 2) 0x80 um_proc (Fd 0x20 2 true 0) um_file um_open3
    ltac:(reflexivity) ltac:(vdone) ltac:(vdone) ltac:(vdone)).
  reflexivity.
Defined.

(** Ten bytes asked for, three left. *)
Lemma sys_read_witness :
  returns (sys_read um_kernel (call SYS_READ 3 0x400010 10)) (λ '(k', c'), s_rax c' = 3 ∧
    user_byte Paging.hhdm 0x1000 (kram k') 0x400012 = Some 111).
Proof.
  eapply returns_mono.
  - apply (sys_read_spec user_slot (physmem_used um_mem.2) Paging.hhdm 0x1000 (λ _, 0x3000) ltac:(vdone)
      um_kernel (call SYS_READ 3 0x400010 10) 0x80 um_proc (Fd 0x20 2 true 0) um_file 3 um_open3);
      [reflexivity|reflexivity|vdone|vdone|vdone|vdone|vdone|reflexivity|reflexivity|exact um_active|apply um_writable; vdone|].
    intros i j Hi Hj. unfold Elf.home. cbn [call s_rsi v_data um_file fd_offset].
    assert (E : (0x400010 + i) mod 4096 = 16 + i) by (clear -Hi; dlia). rewrite E. clear -Hi Hj. lia.
  - intros [k' c'] (-> & Hin & _). split; [reflexivity|].
    pose proof (Hin 2 ltac:(lia)) as H2. change (s_rsi (call SYS_READ 3 0x400010 10) + 2) with 0x400012 in H2.
    rewrite H2. vm_compute. reflexivity.
Defined.

(** Room for one entry of two. *)
Lemma sys_getdents_witness :
  returns (sys_getdents um_kernel (call SYS_GETDENTS 4 0x400010 300)) (λ '(k', c'), s_rax c' = 280 ∧
    user_byte Paging.hhdm 0x1000 (kram k') (0x400010 + 19) = Some 97).
Proof.
  eapply returns_mono.
  - apply (sys_getdents_spec user_slot (physmem_used um_mem.2) Paging.hhdm 0x1000 (λ _, 0x3000) ltac:(vdone)
      um_kernel (call SYS_GETDENTS 4 0x400010 300) 0x80 um_proc (Fd 0x10 0 true 0) um_root 1 um_open4);
      [reflexivity|reflexivity| |vdone|vm_compute; lia|reflexivity|exact um_active|apply um_writable; vdone].
    repeat constructor; try discriminate; eexists; reflexivity.
  - intros [k' c'] (-> & Hin & _). split; [reflexivity|].
    pose proof (Hin 0 0x20 um_file 19 97 ltac:(lia) ltac:(reflexivity) ltac:(reflexivity) ltac:(vm_compute; reflexivity)) as H2.
    exact H2.
Defined.
