(* ===== verification/Devices.v ===== *)
(** Theorems on the device registry and the framebuffer device of [Kernel]. *)
From S2P Require Import Prelude Interfaces Ram PhysMem DList Kheap Paging Vmm RunQueue Space Context Proc Vfs VfsTree VfsData Cpio Elf Input Screen UserMem SysMem Kernel Files FileCalls.
Import MemLib.

Section registry.
Context {H : Type} `{HeapAlloc H} `{KernelCode} `{DeviceObjects}.
Implicit Types (k : kernel H).

(** The registered devices: distinct driver objects, at most as many as the
    table holds. *)
Record registry_ok k : Prop := {
  rg_nodup : NoDup (kdevs k);
  rg_drivers : Forall (λ d, ∃ x, driver_of d = Ret x) (kdevs k);
  rg_room : (length (kdevs k) ≤ DEVICES_MAX_AMOUNT)%nat;
}.

Lemma driver_of_inj d e x : driver_of d = Ret x → driver_of e = Ret x → d = e.
Proof.
  unfold driver_of. intros Hd He.
  destruct (Z.eqb_spec d kbd_module), (Z.eqb_spec e kbd_module); try congruence;
  destruct (Z.eqb_spec d mouse_module), (Z.eqb_spec e mouse_module); try congruence;
  destruct (Z.eqb_spec d fb0_device), (Z.eqb_spec e fb0_device); congruence.
Qed.
Lemma driver_of_nonzero d x : driver_of d = Ret x → d ≠ 0.
Proof.
  pose proof device_objects_ok as Hok. rewrite !NoDup_cons, !not_elem_of_cons in Hok. unfold driver_of.
  intros Hd ->. destruct Hok as ((? & ? & ? & _) & _).
  destruct (Z.eqb_spec 0 kbd_module), (Z.eqb_spec 0 mouse_module), (Z.eqb_spec 0 fb0_device); done.
Qed.
Lemma dev_name_inj x y : dev_name x = dev_name y → x = y.
Proof. by destruct x, y. Qed.

Lemma find_from_spec ds : ∀ i name, Forall (λ d, ∃ x, driver_of d = Ret x) ds →
  returns (find_from ds name i) (λ o, match o with
    | Some (j, d) => (i ≤ j)%nat ∧ ds !! (j - i)%nat = Some d ∧ ∃ x, driver_of d = Ret x ∧ dev_name x = name
    | None => ∀ d x, d ∈ ds → driver_of d = Ret x → dev_name x ≠ name
    end).
Proof.
  induction ds as [|d ds IH]; intros i name Hds; cbn [find_from].
  { intros d x Hd. by apply elem_of_nil in Hd. }
  apply Forall_cons in Hds as [[x Hx] Hds]. rewrite Hx, bind_Ret. case_bool_decide as Hn.
  - cbn. split; [lia|]. rewrite Nat.sub_diag. split; [done|]. by exists x.
  - eapply returns_mono; [by apply IH|]. intros [[j e]|].
    + intros (Hj & He & Hname). split; [lia|]. split; [|done]. by replace (j - i)%nat with (S (j - S i)) by lia.
    + intros Hno e y He Hy. apply elem_of_cons in He as [->|He]; [|by eapply Hno]. congruence.
Qed.

(** A name finds the device that has it. *)
Lemma device_find_spec k d x : registry_ok k → d ∈ kdevs k → driver_of d = Ret x →
  device_find k (dev_name x) = Ret d.
Proof.
  intros Hok Hd Hx. unfold device_find.
  destruct (proj1 (returns_iff _ _) (find_from_spec (kdevs k) 0 (dev_name x) (rg_drivers _ Hok))) as (o & -> & Ho).
  rewrite bind_Ret. destruct o as [[j e]|]; [|by destruct (Ho d x)].
  destruct Ho as (_ & _ & y & Hy & Hn%dev_name_inj). f_equal. subst y. by eapply driver_of_inj.
Qed.

Lemma kfs_with_kfs k v : kfs (with_kfs k v) = v.
Proof. by destruct v. Qed.
Lemma mount_good d : good_path (dev_mount d) ∧ (length (dev_mount d) < VFS_MAX_PATH)%nat ∧
  ∀ dir, vfs_split_path (dev_mount d) ≠ Ret (dir, []).
Proof.
  destruct d; (split; [apply good_path_check; vm_compute; reflexivity|]; split; [vm_compute; lia|];
    intros dir E; vm_compute in E; discriminate).
Qed.

(** [init] and [fini] leave the file system and the registry alone. *)
Lemma dev_init_spec d k : length (screens (kgfx k)) = 4%nat →
  returns (dev_init d k) (λ '(rc, k'), (rc = 0 ∨ rc = -1 ∧ fb0_ready k = Ret false) ∧
    kfs k' = kfs k ∧ kdevs k' = kdevs k).
Proof.
  intros Hs. destruct d; cbn; [by auto..|]. unfold fb0_dev_init.
  destruct (lookupZ_is_some (screens (kgfx k)) BS3 ltac:(rewrite Hs; vdone)) as [s Hl].
  unfold fb0_ready, get_screen. rewrite Hl. cbn. destruct (_ && _); auto.
Qed.
Lemma dev_fini_fs d k : kfs (dev_fini d k) = kfs k ∧ kdevs (dev_fini d k) = kdevs k.
Proof. by destruct d. Qed.

(** [device_register] of a driver keeps the registry and the file system
    well-formed.  When it succeeds the device is new, stands last in the
    registry, is found by its name, and its mount path leads to a node that
    refers to it; when it fails the registry is as before, and the reason is one
    of: registered already, table full, [init] refused (the framebuffer without
    its back buffer), or no node could be made. *)
Theorem device_register_spec k device d :
  registry_ok k → fs_inv (kfs k) → length (screens (kgfx k)) = 4%nat → driver_of device = Ret d →
  returns (device_register k device) (λ '(rc, k'), registry_ok k' ∧ fs_inv (kfs k') ∧
    (rc = 0 ∧ device ∉ kdevs k ∧ kdevs k' = kdevs k ++ [device] ∧ device_find k' (dev_name d) = Ret device ∧
       (∃ n, n ≠ 0 ∧ vfs_find (kfs k') (dev_mount d) = Ret n ∧ v_device <$> kfs_nodes k' !! n = Some device) ∨
     rc = -1 ∧ kdevs k' = kdevs k ∧
       (device ∈ kdevs k ∨ length (kdevs k) = DEVICES_MAX_AMOUNT ∨ fb0_ready k = Ret false ∨
        no_way (kfs k) (kfs k') (kfs_root k) (components (dev_mount d))))).
Proof.
  intros Hok Hfs Hscr Hd. pose proof (driver_of_nonzero _ _ Hd) as Hnz. unfold device_register.
  destruct (Z.eqb_spec device 0); [done|]. cbn [orb]. case_bool_decide as Hfull.
  { cbn. split; [done|]. split; [done|]. right. pose proof (rg_room _ Hok). split; [done|]. split; [done|]. right. left. lia. }
  case_bool_decide as Hin; [cbn; split; [done|]; split; [done|]; right; by auto|].
  rewrite Hd, bind_Ret. apply returns_bind. eapply returns_mono; [by apply dev_init_spec|].
  intros [rc k1] (Hrc & Hf1 & Hd1). destruct (Z.eqb_spec rc 0) as [->|Hrc0]; cbn [negb].
  2: { destruct Hrc as [?|[-> Hr]]; [done|]. cbn. split; [split; rewrite Hd1; apply Hok|]. rewrite Hf1.
       split; [done|]. right. split; [done|]. split; [done|]. by auto. }
  destruct (mount_good d) as (Hg & Hl & Hne). apply returns_bind. rewrite Hf1.
  eapply returns_mono; [by apply create_device_spec|]. intros [nd v] (Hi & Hroot & _ & _ & _ & Hn).
  destruct (Z.eqb_spec nd 0) as [->|Hn0].
  - destruct (dev_fini_fs d (with_kfs k1 v)) as [Ef Ed]. cbn [returns].
    split; [split; rewrite Ed; cbn; rewrite Hd1; apply Hok|]. rewrite Ef, kfs_with_kfs. split; [done|].
    right. split; [done|]. split; [by rewrite Ed|]. by auto.
  - cbn [returns]. destruct Hn as (Hfind & Hdev & _).
    assert (Hok' : registry_ok (with_kdevs (with_kfs k1 v) (kdevs (with_kfs k1 v) ++ [device]))).
    { split; cbn; rewrite Hd1.
      - apply NoDup_app. split; [apply Hok|]. split; [|apply NoDup_singleton].
        intros e He Hs%list_elem_of_singleton. by subst.
      - apply Forall_app. split; [apply Hok|]. by apply Forall_singleton; exists d.
      - rewrite length_app. cbn. lia. }
    split; [done|]. split; [by rewrite <- (kfs_with_kfs k1 v) in Hi|]. left.
    split; [done|]. split; [done|]. split; [cbn; by rewrite Hd1|]. split.
    + apply device_find_spec; [done| |done]. cbn. apply elem_of_app. right. by apply list_elem_of_singleton.
    + exists nd. split; [done|]. rewrite <- (kfs_with_kfs k1 v) in Hfind. split; [exact Hfind|exact Hdev].
Qed.
End registry.

(** ** The framebuffer device *)

(** Copying [h] rows of [n] bytes between pictures of rows [ds] and [ss] bytes apart. *)
Lemma copy_rows m d s ds ss n h : 0 ≤ n ≤ ds → 0 ≤ ss → 0 ≤ h → 0 ≤ d → 0 ≤ s →
  (∀ y, 0 ≤ y < h → d + ds * y + n ≤ 2 ^ 64 ∧ s + ss * y + n ≤ 2 ^ 64) →
  (∀ y z y' z', 0 ≤ y < h → 0 ≤ z < n → 0 ≤ y' < h → 0 ≤ z' < n → d + ds * y + z ≠ s + ss * y' + z') →
  let m' := upto 0 h (λ y m, memcpy m (d + ds * y) (s + ss * y) n) m in
  (∀ y z, 0 ≤ y < h → 0 ≤ z < n → ld8 m' (d + ds * y + z) = ld8 m (s + ss * y + z)) ∧
  (∀ a, (∀ y z, 0 ≤ y < h → 0 ≤ z < n → a ≠ d + ds * y + z) → ld8 m' a = ld8 m a).
Proof.
  intros Hn Hss Hh Hd Hs Hbd Hap.
  apply (upto_ind (λ i m', (∀ y z, 0 ≤ y < i → 0 ≤ z < n → ld8 m' (d + ds * y + z) = ld8 m (s + ss * y + z)) ∧
    (∀ a, (∀ y z, 0 ≤ y < i → 0 ≤ z < n → a ≠ d + ds * y + z) → ld8 m' a = ld8 m a))); [done|split; [lia|done]|].
  intros i m1 Hi [Hin Hout].
  assert (Hm : 0 ≤ ds * i ∧ 0 ≤ ss * i) by (clear -Hi Hn Hss; nia). pose proof (Hbd i Hi) as Hbi.
  assert (Hrow : ∀ b, ld8 (memcpy m1 (d + ds * i) (s + ss * i) n) b =
    if (d + ds * i <=? b) && (b <? d + ds * i + n) then ld8 m1 (s + ss * i + (b - (d + ds * i))) else ld8 m1 b).
  { intros b. destruct (Z.eq_dec n 0) as [->|Hn0]; [|apply ld8_memcpy; try lia].
    - rewrite Z.add_0_r. destruct (Z.leb_spec (d + ds * i) b), (Z.ltb_spec b (d + ds * i)); cbn; done || lia.
    - destruct (Z_le_gt_dec (d + ds * i + n) (s + ss * i)); [by left|].
      destruct (Z_le_gt_dec (s + ss * i + n) (d + ds * i)); [by right|]. exfalso.
      destruct (Z_le_gt_dec (d + ds * i) (s + ss * i)).
      + apply (Hap i (s + ss * i - (d + ds * i)) i 0); lia.
      + apply (Hap i 0 i (d + ds * i - (s + ss * i))); lia. }
  split.
  - intros y z Hy Hz. rewrite Hrow. destruct (Z.eq_dec y i) as [->|Hne].
    + rewrite (proj2 (Z.leb_le _ _)), (proj2 (Z.ltb_lt _ _)) by lia. cbn [andb].
      replace (d + ds * i + z - (d + ds * i)) with z by lia. apply Hout.
      intros y' z' Hy' Hz' E. apply (Hap y' z' i z); lia.
    + assert (ds * y + ds ≤ ds * i) by (clear -Hy Hne Hn; nia).
      rewrite (proj2 (Z.leb_gt _ _)) by lia. apply Hin; lia.
  - intros a Ha. rewrite Hrow. destruct (Z.leb_spec (d + ds * i) a), (Z.ltb_spec a (d + ds * i + n)); cbn [andb].
    { exfalso. apply (Ha i (a - (d + ds * i))); lia. }
    all: apply Hout; intros y z Hy Hz; apply Ha; lia.
Qed.

(** Cell [x] of row [y] in rows of [st] cells, for 32-bit index arithmetic. *)
Lemma cell_row p st x y n : 0 ≤ x < st → 0 ≤ y < n → 0 < st → st * n < 2 ^ 32 →
  cell p (u32 (u32 y * st + x)) = p + 4 * (y * st + x) ∧ 0 ≤ y * st + x < st * n.
Proof.
  intros Hx Hy Hst Hb. assert (H1 : y < 2 ^ 32 ∧ 0 ≤ y * st + x < st * n) by (clear -Hx Hy Hst Hb; nia).
  rewrite (u32_small y), u32_small by lia. split; [done|apply H1].
Qed.

(** [FB_IOCTL_FLUSH_RECT] copies a rectangle of the back buffer to the same
    place of the framebuffer.  A rectangle that starts outside the screen is
    refused; otherwise it is clipped to the screen, every byte of every pixel in
    it is copied, whatever its size, and no byte of memory outside the clipped
    rectangle of the framebuffer changes. *)
Theorem flush_rect_spec g scr rect m :
  fb_ok g → screen_ok scr → bs_width scr ≤ fb_width g → bs_height scr ≤ fb_height g →
  0 ≤ rect_x rect < 2 ^ 32 → 0 ≤ rect_y rect < 2 ^ 32 → 0 ≤ rect_width rect < 2 ^ 32 → 0 ≤ rect_height rect < 2 ^ 32 →
  (∀ a, fb_area g a → ¬ pixel_area scr a) →
  let '(rc, m') := flush_rect g scr rect m in
  let w := rect_width rect `min` (bs_width scr - rect_x rect) in
  let h := rect_height rect `min` (bs_height scr - rect_y rect) in
  let at_fb x y := framebuffer g + 4 * ((rect_y rect + y) * (fb_pitch g / 4) + (rect_x rect + x)) in
  let at_px x y := pixels scr + 4 * ((rect_y rect + y) * bs_width scr + (rect_x rect + x)) in
  (rc = 0 ↔ framebuffer g ≠ 0 ∧ pixels scr ≠ 0 ∧ rect_x rect < bs_width scr ∧ rect_y rect < bs_height scr) ∧
  (rc ≠ 0 → rc = -1 ∧ m' = m) ∧
  (rc = 0 → (∀ x y b, 0 ≤ x < w → 0 ≤ y < h → 0 ≤ b < 4 → ld8 m' (at_fb x y + b) = ld8 m (at_px x y + b)) ∧
    (∀ a, (∀ x y b, 0 ≤ x < w → 0 ≤ y < h → 0 ≤ b < 4 → a ≠ at_fb x y + b) → ld8 m' a = ld8 m a)).
Proof.
  intros Hg Hs Hbw Hbh Hx Hy Hw Hh Hap. unfold flush_rect.
  destruct (Z.eqb_spec (framebuffer g) 0), (Z.eqb_spec (pixels scr) 0), (Z.leb_spec (bs_width scr) (rect_x rect)),
    (Z.leb_spec (bs_height scr) (rect_y rect)); cbn [orb];
    try (cbv zeta; split; [split; [done|intros (? & ? & ? & ?); lia]|split; [done|done]]).
  set (w := if _ <? rect_width rect then _ else _). set (h := if _ <? rect_height rect then _ else _).
  assert (Ew : w = rect_width rect `min` (bs_width scr - rect_x rect)) by (unfold w; zcase; lia).
  assert (Eh : h = rect_height rect `min` (bs_height scr - rect_y rect)) by (unfold h; zcase; lia).
  clearbody w h. cbv zeta. rewrite <- Ew, <- Eh. split; [split; [intros _; by split_and!|done]|]. split; [done|]. intros _.
  destruct Hg as [Ha (Hfw & Hfh & Hpi) Hidx Hend _]. destruct Hs as [(Hsw & Hsh & Hswh) [Hp0 Hp1] _ _ _].
  unfold fb_area, pixel_area, span in Hap. set (st := fb_pitch g / 4). set (dst := framebuffer g) in *.
  assert (Hst : fb_width g ≤ st ∧ 4 * st ≤ fb_pitch g) by (unfold st; dlia).
  pose proof (stride_bound st (fb_pitch g) (fb_height g) (proj2 Hst) ltac:(lia)) as Hsb. clearbody st dst.
  assert (Hcell : ∀ y, 0 ≤ y < h →
    (cell dst (u32 (u32 (rect_y rect + y) * st + rect_x rect)) = dst + 4 * ((rect_y rect + y) * st + rect_x rect) ∧
     0 ≤ (rect_y rect + y) * st + rect_x rect) ∧ (rect_y rect + y) * st + st ≤ st * fb_height g ∧
    (cell (pixels scr) (u32 (u32 (rect_y rect + y) * bs_width scr + rect_x rect)) =
       pixels scr + 4 * ((rect_y rect + y) * bs_width scr + rect_x rect) ∧
     0 ≤ (rect_y rect + y) * bs_width scr + rect_x rect) ∧
    (rect_y rect + y) * bs_width scr + bs_width scr ≤ bs_width scr * bs_height scr).
  { intros y Hyy.
    destruct (cell_row dst st (rect_x rect) (rect_y rect + y) (fb_height g)) as [E1 R1]; [lia..|].
    destruct (cell_row (pixels scr) (bs_width scr) (rect_x rect) (rect_y rect + y) (bs_height scr)) as [E2 R2]; [lia..|].
    split; [split; [exact E1|lia]|]. split; [|split; [split; [exact E2|lia]|]].
    - assert (Hz : 0 ≤ st ∧ rect_y rect + y + 1 ≤ fb_height g) by lia. clear -Hz. nia.
    - assert (Hz : 0 ≤ bs_width scr ∧ rect_y rect + y + 1 ≤ bs_height scr) by lia. clear -Hz. nia. }
  rewrite (upto_ext 0 h _ (λ y m, memcpy m (dst + 4 * (rect_y rect * st + rect_x rect) + 4 * st * y)
    (pixels scr + 4 * (rect_y rect * bs_width scr + rect_x rect) + 4 * bs_width scr * y) (4 * w))).
  2: { intros y m0 Hyy. destruct (Hcell y Hyy) as ([-> _] & _ & [-> _] & _). f_equal; lia. }
  assert (H00 : 0 ≤ rect_y rect * st + rect_x rect ∧ 0 ≤ rect_y rect * bs_width scr + rect_x rect) by (clear -Hx Hy Hst Hfw Hsw; nia).
  destruct (copy_rows m (dst + 4 * (rect_y rect * st + rect_x rect))
    (pixels scr + 4 * (rect_y rect * bs_width scr + rect_x rect)) (4 * st) (4 * bs_width scr) (4 * w) h) as [Hin Hout]; try lia.
  - intros y Hyy. destruct (Hcell y Hyy) as (_ & R1 & _ & R2). lia.
  - intros y z y' z' Hyy Hz Hyy' Hz' E. destruct (Hcell y Hyy) as ([_ Q1] & R1 & _ & _).
    destruct (Hcell y' Hyy') as (_ & _ & [_ Q2] & R2).
    apply (Hap (dst + 4 * (rect_y rect * st + rect_x rect) + 4 * st * y + z)); lia.
  - split.
    + intros x y b Hxx Hyy Hb.
      replace (dst + 4 * ((rect_y rect + y) * st + (rect_x rect + x)) + b) with
        (dst + 4 * (rect_y rect * st + rect_x rect) + 4 * st * y + (4 * x + b)) by lia.
      replace (pixels scr + 4 * ((rect_y rect + y) * bs_width scr + (rect_x rect + x)) + b) with
        (pixels scr + 4 * (rect_y rect * bs_width scr + rect_x rect) + 4 * bs_width scr * y + (4 * x + b)) by lia.
      apply Hin; lia.
    + intros a Haa. apply Hout. intros y z Hyy Hz ->.
      apply (Haa (z / 4) y (z mod 4)); [dlia|lia|dlia|]. assert (z = 4 * (z / 4) + z mod 4) by dlia. lia.
Qed.

(** ** Who gets the framebuffer *)

Section guard.
Context {H : Type} `{HeapAlloc H} `{KernelCode} `{DeviceObjects} (path_fuel : nat).
Implicit Types (k : kernel H) (c : cpu_state).

(** [fb0_open] for the running process. *)
Lemma fb0_open_spec k p x : caller k p x → ka_inv (mm_heap (kmm k)) → length (screens (kgfx k)) = 4%nat →
  returns (fb0_open k) (λ '(h, k'),
    h = 0 ∧ k' = k ∨
    h ≠ 0 ∧ Z.land (p_capabilities x) CAP_FRAMEBUFFER = CAP_FRAMEBUFFER ∧ fb0_ready k = Ret true ∧
    ka_size (mm_heap (kmm k)) h = None ∧
    ∃ hp, ka_inv hp ∧ k' = with_khandles (with_kmm k (with_heap (kmm k) hp)) (<[h := FbHandle p false 0]> (khandles k))).
Proof.
  intros Hc Hh Hs. unfold fb0_open.
  destruct (lookupZ_is_some (screens (kgfx k)) BS3 ltac:(rewrite Hs; vdone)) as [scr Hl].
  assert (Hr : ∃ b, fb0_ready k = Ret b).
  { unfold fb0_ready, get_screen. rewrite Hl. cbn. by eexists. }
  destruct Hr as [b Hr]. rewrite Hr, bind_Ret. destruct b; cbn [negb]; [|cbn; by left].
  rewrite (process_get_current_spec k p x Hc), bind_Ret. unfold process_has_cap.
  destruct (Z.eqb_spec p 0); [by destruct (cl_null _ _ _ Hc)|]. unfold get_proc.
  rewrite (cl_proc _ _ _ Hc). cbn [deref]. rewrite !bind_Ret. cbn [orb].
  destruct (Z.eqb_spec (Z.land (p_capabilities x) CAP_FRAMEBUFFER) CAP_FRAMEBUFFER) as [Hcap|]; cbn [negb]; [|cbn; by left].
  unfold k_alloc. destruct (proj1 (returns_iff _ _) (ka_malloc_spec _ 24 Hh ltac:(lia))) as ([h hp] & E & Hhp & Hp).
  unfold kmm in E. rewrite E, !bind_Ret. destruct Hp as [[-> ->]|(Hp0 & Hnone & _ & _)].
  - cbn. left. split; [done|]. by destruct k as [[[]]].
  - destruct (Z.eqb_spec h 0); [done|]. cbn [returns]. right. split; [done|]. split; [done|]. split; [done|].
    split; [done|]. by exists hp.
Qed.

(** C32. The framebuffer device is guarded.  [open] of its node gives a descriptor
    only to a process with the framebuffer capability, and only when the back
    buffer is there; the descriptor then carries a fresh handle that belongs to
    this process and maps nothing yet.  In every other case [open] fails and
    changes nothing of the modelled kernel; the line that [fb0_open] logs for a refusal
    is not modelled. *)
Theorem fb0_open_guarded k c p x path node y :
  caller k p x → ka_inv (mm_heap (kmm k)) → length (screens (kgfx k)) = 4%nat →
  user_ptr_ok (s_rdi c) = true → user_cstr path_fuel (kmm k) (s_rdi c) = Ret path →
  vfs_find (kfs k) path = Ret node → node ≠ 0 → kfs_nodes k !! node = Some y →
  v_type y = VFS_DEVICE → v_device y = fb0_device →
  returns (sys_open path_fuel k c) (λ '(k', c'),
    k' = k ∧ c' = set_rax c ERR ∨
    Z.land (p_capabilities x) CAP_FRAMEBUFFER = CAP_FRAMEBUFFER ∧ fb0_ready k = Ret true ∧
    ∃ fd h hp, lowest_free x fd ∧ h ≠ 0 ∧ ka_size (mm_heap (kmm k)) h = None ∧ c' = set_rax c fd ∧
      k' = put_fd (with_khandles (with_kmm k (with_heap (kmm k) hp)) (<[h := FbHandle p false 0]> (khandles k)))
             p x fd (Fd node 0 true h)).
Proof.
  intros Hc Hh Hs Hok Hpath Hf Hn Hy Hty Hdev. unfold sys_open. rewrite Hok. cbn [negb].
  rewrite Hpath, bind_Ret, Hf, bind_Ret. destruct (Z.eqb_spec node 0); [done|].
  rewrite (current_proc_spec k p x Hc), bind_Ret. pose proof (free_fd_table x (cl_fds _ _ _ Hc)) as Hfd.
  destruct (free_fd _ _) as [fd|]; [|cbn; by left]. unfold get_vnode. cbn [kfs vnodes]. rewrite Hy. cbn [deref].
  rewrite bind_Ret. unfold node_driver. rewrite Hty, bool_decide_true, Hdev by done.
  assert (Edrv : driver_of fb0_device = Ret Fb0Driver).
  { pose proof device_objects_ok as Ho. rewrite !NoDup_cons, !not_elem_of_cons in Ho. unfold driver_of.
    destruct Ho as (_ & (? & ? & _) & (? & _) & _).
    rewrite (proj2 (Z.eqb_neq _ kbd_module)), (proj2 (Z.eqb_neq _ mouse_module)), Z.eqb_refl by congruence. done. }
  pose proof (driver_of_nonzero _ _ Edrv) as Hnz. rewrite (proj2 (Z.eqb_neq _ _) Hnz), Edrv. cbn [andb negb].
  rewrite !bind_Ret. change (has_open Fb0Driver) with true. cbv iota.
  apply returns_bind. apply returns_bind. eapply returns_mono; [by apply (fb0_open_spec k p x)|].
  intros [h k'] [[-> ->]|(Hh0 & Hcap & Hr & Hnone & hp & Hhp & ->)].
  - cbn. by left.
  - cbn [returns]. rewrite (proj2 (Z.eqb_neq _ _) Hh0). cbn [negb]. apply returns_bind.
    unfold get_proc. cbn. rewrite (cl_proc _ _ _ Hc). cbn. right. split; [done|]. split; [done|].
    exists fd, h, hp. by split_and!.
Qed.
End guard.

(** ** Instances *)

Lemma flush_rect_witness :
  let '(rc, m') := flush_rect demo_gfx demo_screen (FbRect 30 20 100 100) ∅ in rc = 0 ∧
    (∀ a, (∀ x y b, 0 ≤ x < 10 → 0 ≤ y < 4 → 0 ≤ b < 4 → a ≠ 0x1000 + 4 * ((20 + y) * 40 + (30 + x)) + b) →
       ld8 m' a = ld8 ∅ a).
Proof.
  pose proof (flush_rect_spec demo_gfx demo_screen (FbRect 30 20 100 100) ∅
    ltac:(split; vdone) ltac:(split; vdone) ltac:(vdone) ltac:(vdone) ltac:(vdone) ltac:(vdone) ltac:(vdone) ltac:(vdone)
    ltac:(intros a; unfold fb_area, pixel_area, span; cbn; lia)) as Hs.
  destruct (flush_rect _ _ _ _) as [rc m']. destruct Hs as (Hrc & _ & Hc).
  assert (E : rc = 0) by (apply Hrc; vm_compute; repeat split; discriminate). split; [exact E|].
  exact (proj2 (Hc E)).
Defined.

#[local] Existing Instances um_devices um_code.

(** A file system of one device node, and a process with the capability. *)
Definition fb_screen : bs_screen := Screen 0x8000 0 0 0 0 0 40 24 1 0x100000 (40 * 24) 0x100000.
Definition fb_kernel : kernel kheap :=
  let p := set_caps um_proc 1 in
  Kernel (put_proc (kn um_kernel) 0x80 p) 0x10
    {[0x10 := um_root; 0x20 := Vnode [97] VFS_DEVICE 0 0 0 false 3 0x10 []; 0x30 := um_dir]} (kinput um_kernel)
    (set_screens demo_gfx [demo_screen; zero_screen; fb_screen; zero_screen] BS1) [] ∅ [] 0.

Lemma fb0_open_witness :
  returns (sys_open 8 fb_kernel (call SYS_OPEN 0x400400 0 0)) (λ '(k', c'), s_rax c' = ERR ∨ s_rax c' = 5).
Proof.
  eapply returns_mono.
  - apply (fb0_open_guarded 8 fb_kernel (call SYS_OPEN 0x400400 0 0) 0x80 (set_caps um_proc 1) [47; 97] 0x20
      (Vnode [97] VFS_DEVICE 0 0 0 false 3 0x10 [])).
    + split; [done|by eexists|done|reflexivity|reflexivity].
    + eexists. exact kheap_init_inv.
    + reflexivity.
    + reflexivity.
    + exact um_path.
    + vm_compute. reflexivity.
    + discriminate.
    + reflexivity.
    + reflexivity.
    + reflexivity.
  - intros [k' c'] [[_ ->]|(_ & _ & fd & h & hp & (Hr & (d & Hd & Hu) & Hall) & _ & _ & -> & _)]; [by left|right].
    cbn. destruct (Z.lt_trichotomy fd 5) as [Hl|[E|Hl]]; [exfalso|exact E|exfalso].
    + assert (fd = 3 ∨ fd = 4) as [-> | ->] by lia; injection Hd as <-; discriminate.
    + discriminate (Hall 5 empty_fd ltac:(lia) eq_refl).
Defined.

(** The keyboard registers on the file system with [/dev]. *)
Definition reg_kernel : kernel kheap := with_kfs fb_kernel fs1.

Lemma device_register_witness :
  returns (device_register reg_kernel kbd_module) (λ '(rc, k'), rc = 0 →
    device_find k' KBD_NAME = Ret kbd_module ∧ kdevs k' = [kbd_module]).
Proof.
  eapply returns_mono.
  - apply (device_register_spec reg_kernel kbd_module KbdDriver); [split; cbn| |reflexivity|reflexivity].
    + constructor.
    + constructor.
    + lia.
    + unfold reg_kernel. rewrite kfs_with_kfs. exact fs1_inv.
  - intros [rc k'] (_ & _ & [(_ & _ & Hd & Hf & _)|(-> & _)]) Hrc; [|discriminate].
    split; [exact Hf|exact Hd].
Defined.
