(* ===== verification/Start.v ===== *)
(** The second half of [_start] ([kernel.c]): from the machine with memory,
    interrupts and timer to the first user program.  The first half is [Boot], and the
    text it prints is in [Console]. *)
From stdpp Require Import strings.
From S2P Require Import Prelude Interfaces Ram PhysMem DList Kheap Paging Vmm RunQueue Space Context Proc Vfs VfsTree Cpio Elf Input Screen Serial UserMem Kernel Files FileCalls.

(** [user/init.c] *)
Definition DOOM_PATH : list Z := text "/bin/doomgeneric.elf".
Definition DOOM_NAME : list Z := text "doomgeneric.elf".

Section start.
Context {H : Type} `{HeapAlloc H} `{KernelCode} `{DeviceObjects}.
(** The address of [idle_fn], which halts for ever. *)
Context (idle_fn : Z).
Implicit Types (k : kernel H).

(** The kernel process and its idle thread; a panic when there is no memory. *)
Definition start_processes (s : ks H) : res (ks H) :=
  let s := process_init s in
  s ← sched_init s;
  '(kproc, s) ← process_create s (text "kernel");
  if kproc =? 0 then Panic else
  '(t_idle, s) ← thread_create s kproc (text "idle") idle_fn 0;
  if t_idle =? 0 then Panic else
  sched_set_idle s t_idle.

(** The file system with the contents of the boot modules. *)
Definition start_files (v : vfs H) (mods : list (option boot_module)) : res (vfs H) :=
  v ← vfs_init v; rootfs_init v mods.

Definition user_start k : res (kernel H) := load_elf k DOOM_PATH DOOM_NAME CAP_FRAMEBUFFER.

(** [_start] from [process_init] on, up to the switch to the first thread. *)
Definition start k (mods : list (option boot_module)) : res (kernel H) :=
  s ← start_processes (kn k);
  let k := with_kn k s in
  v ← start_files (kfs k) mods;
  let k := with_kfs k v in
  let k := devices_init k in
  k ← register_devices k;
  k ← user_start k;
  s ← sched_start (kn k);
  Ret (with_kn k s).
End start.

(** ** A machine without boot modules *)

#[local] Existing Instances um_devices um_code.
Definition cold_kernel : kernel kheap :=
  let mm := MM ∅ pm16 kheap_init ∅ {[0x700 := Space 0x1000 0 0 0]} paging0 0x700 0x700 in
  Kernel (Ks mm {[0x90 := Thread 0 [] THREAD_READY 0 0 0 false 0 zero_state 0 0 0]} ∅
    (Sched (Rq (replicate 64 0) 0 0 0) 0x90 0 0 0 false 0 0) 0 0 0 0 (k_ctx (kn um_kernel)) 0 0)
    0 ∅ (kinput um_kernel) (bs_init demo_gfx) [] ∅ [] 0.

(** The idle thread of the kernel process runs, [/dev] holds the keyboard and the
    mouse, and the framebuffer, which has no buffer here, is not registered. *)
Example start_idles :
  match start 0x5000 cold_kernel [] with
  | Ret k =>
      (t ← k_threads (kn k) !! current (k_sched (kn k)); p ← k_procs (kn k) !! t_owner t;
       Some (t_name t, p_name p, p_pid p, p_space p)) = Some (text "idle", text "kernel", 1, 0x700) ∧
      (length (kdevs k) = 2)%nat ∧
      vfs_find (kfs k) KBD_MOUNT ≠ Ret 0 ∧ vfs_find (kfs k) MOUSE_MOUNT ≠ Ret 0 ∧ vfs_find (kfs k) FB0_MOUNT = Ret 0
  | _ => False
  end.
Proof. vm_compute. repeat split; discriminate || reflexivity. Qed.
