(* ===== verification/LibcStr.v ===== *)
(** The strings and characters of the C library of user programs:
    [user/libc/src/string.c] and [ctype.c].  The memory of the process is a [ram];
    a loop over a string has fuel, a loop over [n] bytes has its bound.  Bytes are
    compared as the unsigned numbers they hold: the character tests of the code
    agree on signed and unsigned bytes. *)
From S2P Require Import Prelude Ram Str.

(** ** [ctype.c] *)

Definition isalpha (character : Z) : bool :=
  ((65 <=? character) && (character <=? 90)) || ((97 <=? character) && (character <=? 122)).
Definition isdigit (character : Z) : bool := (48 <=? character) && (character <=? 57).
Definition isalnum (character : Z) : bool := isalpha character || isdigit character.
Definition isspace (character : Z) : bool :=
  (character =? 32) || (character =? 9) || (character =? 10) || (character =? 13) || (character =? 12) || (character =? 11).
Definition isupper (character : Z) : bool := (65 <=? character) && (character <=? 90).
Definition islower (character : Z) : bool := (97 <=? character) && (character <=? 122).
Definition isprint (character : Z) : bool := (32 <=? character) && (character <? 127).
Definition isxdigit (character : Z) : bool :=
  isdigit character || ((97 <=? character) && (character <=? 102)) || ((65 <=? character) && (character <=? 70)).
Definition toupper (character : Z) : Z := if islower character then character - 97 + 65 else character.
Definition tolower (character : Z) : Z := if isupper character then character - 65 + 97 else character.

(** ** Blocks of bytes *)

Definition memset (m : ram) (dst val n : Z) : ram := MemLib.memset_loop (Z.to_nat n) 0 m dst val.
Definition memcpy (m : ram) (dst src n : Z) : ram := MemLib.copy_up (Z.to_nat n) 0 m dst src.
Definition memmove (m : ram) (dst src n : Z) : ram :=
  if dst <? src then MemLib.copy_up (Z.to_nat n) 0 m dst src
  else if src <? dst then MemLib.copy_down (Z.to_nat n) m dst src else m.
Definition memcmp (m : ram) (a b n : Z) : Z := MemLib.memcmp_loop (Z.to_nat n) 0 m a b.

Fixpoint memchr_loop (k : nat) (m : ram) (s c : Z) : Z :=
  match k with
  | O => 0
  | S k => if ld8 m s =? u8 c then s else memchr_loop k m (s + 1) c
  end.
Definition memchr (m : ram) (s c n : Z) : Z := memchr_loop (Z.to_nat n) m s c.

(** ** Strings *)

Section strings.
Context (fuel : nat).

Definition strlen (m : ram) (s : Z) : res Z := scan fuel m s 0.

Fixpoint strcmp_loop (fuel : nat) (m : ram) (a b : Z) : res Z :=
  match fuel with
  | O => NoFuel
  | S fuel => if negb (ld8 m a =? 0) && (ld8 m a =? ld8 m b) then strcmp_loop fuel m (a + 1) (b + 1)
              else Ret (ld8 m a - ld8 m b)
  end.
Definition strcmp (m : ram) (a b : Z) : res Z := strcmp_loop fuel m a b.

(** The loop of [strncmp], and with [ascii_lower] that of [strncasecmp]. *)
Fixpoint strncmp_loop (fuel : nat) (f : Z → Z) (m : ram) (a b n : Z) : res Z :=
  match fuel with
  | O => NoFuel
  | S fuel => if (0 <? n) && negb (ld8 m a =? 0) && (f (ld8 m a) =? f (ld8 m b))
              then strncmp_loop fuel f m (a + 1) (b + 1) (n - 1)
              else Ret (if 0 <? n then f (ld8 m a) - f (ld8 m b) else 0)
  end.
Definition strncmp (m : ram) (a b n : Z) : res Z := strncmp_loop fuel id m a b n.
Definition ascii_lower (c : Z) : Z := if (65 <=? c) && (c <=? 90) then c + (97 - 65) else c.
Definition strncasecmp (m : ram) (a b n : Z) : res Z := strncmp_loop fuel ascii_lower m a b n.
Definition strcasecmp (m : ram) (a b : Z) : res Z := strncasecmp m a b (2 ^ 64 - 1).

(** The loop that copies up to and with the terminator. *)
Fixpoint strcpy_loop (fuel : nat) (m : ram) (dst src : Z) : res ram :=
  match fuel with
  | O => NoFuel
  | S fuel =>
      let c := ld8 m src in
      let m := st8 m dst c in
      if c =? 0 then Ret m else strcpy_loop fuel m (dst + 1) (src + 1)
  end.
Definition strcpy (m : ram) (dst src : Z) : res ram := strcpy_loop fuel m dst src.

(** The first loop of [strncpy]: the memory, [dst] and what is left of [n]. *)
Fixpoint strncpy_loop (n : nat) (m : ram) (dst src : Z) : ram * Z * nat :=
  match n with
  | O => (m, dst, O)
  | S n' => if ld8 m src =? 0 then (m, dst, n)
            else strncpy_loop n' (st8 m dst (ld8 m src)) (dst + 1) (src + 1)
  end.
Fixpoint zero_loop (n : nat) (m : ram) (dst : Z) : ram :=
  match n with O => m | S n => zero_loop n (st8 m dst 0) (dst + 1) end.
Definition strncpy (m : ram) (dst src n : Z) : ram :=
  let '(m, dst, n) := strncpy_loop (Z.to_nat n) m dst src in zero_loop n m dst.

Definition strlcpy (m : ram) (dst src size : Z) : res (ram * Z) :=
  source_length ← strlen m src;
  if 0 <? size then
    let copy_length := if source_length <? size - 1 then source_length else size - 1 in
    let m := memcpy m dst src copy_length in
    Ret (st8 m (dst + copy_length) 0, source_length)
  else Ret (m, source_length).

Definition strlcat (m : ram) (dst src size : Z) : res (ram * Z) :=
  destination_length ← strlen m dst;
  source_length ← strlen m src;
  '(m, _) ← (if destination_length <? size
             then strlcpy m (dst + destination_length) src (size - destination_length)
             else Ret (m, 0));
  Ret (m, u64 (destination_length + source_length)).

Definition strcat (m : ram) (dst src : Z) : res ram :=
  n ← strlen m dst; strcpy m (dst + n) src.

Fixpoint strchr_loop (fuel : nat) (m : ram) (s c : Z) : res Z :=
  match fuel with
  | O => NoFuel
  | S fuel => if ld8 m s =? u8 c then Ret s else
              if ld8 m s =? 0 then Ret 0 else strchr_loop fuel m (s + 1) c
  end.
Definition strchr (m : ram) (s c : Z) : res Z := strchr_loop fuel m s c.

Fixpoint strrchr_loop (fuel : nat) (m : ram) (s c last_match : Z) : res Z :=
  match fuel with
  | O => NoFuel
  | S fuel =>
      let last_match := if ld8 m s =? u8 c then s else last_match in
      if ld8 m s =? 0 then Ret last_match else strrchr_loop fuel m (s + 1) c last_match
  end.
Definition strrchr (m : ram) (s c : Z) : res Z := strrchr_loop fuel m s c 0.

Fixpoint strstr_loop (k : nat) (m : ram) (haystack needle needle_length : Z) : res Z :=
  match k with
  | O => NoFuel
  | S k =>
      if ld8 m haystack =? 0 then Ret 0 else
      r ← strncmp m haystack needle needle_length;
      if r =? 0 then Ret haystack else strstr_loop k m (haystack + 1) needle needle_length
  end.
Definition strstr (m : ram) (haystack needle : Z) : res Z :=
  needle_length ← strlen m needle;
  if needle_length =? 0 then Ret haystack else strstr_loop fuel m haystack needle needle_length.
End strings.

(** ** What the string functions compute *)

(** The order of strings by their first different byte. *)
Fixpoint lex (s t : list Z) : comparison :=
  match s, t with
  | [], [] => Eq
  | [], _ => Lt
  | _, [] => Gt
  | c :: s, d :: t => match c ?= d with Eq => lex s t | r => r end
  end.

Section spec.
Context (fuel : nat).

Lemma strlen_spec m p s : str_at m p s → (length s < fuel)%nat → strlen fuel m p = Ret (Z.of_nat (length s)).
Proof. intros Hs Hf. unfold strlen. rewrite (scan_spec m s); [done| |done]. by rewrite Z.add_0_r. Qed.

Lemma str_at_head m p s : str_at m p s → ld8 m p = default 0 (head s).
Proof. destruct s; [done|]. by intros [? _]. Qed.

Lemma strcmp_loop_spec m s t : ∀ f a b, str_at m a s → str_at m b t → (length s < f)%nat →
  returns (strcmp_loop f m a b) (λ r, (r ?= 0) = lex s t).
Proof.
  revert t. induction s as [|c s IH]; intros t [|f] a b Ha Hb Hf; cbn [length] in Hf; try lia; cbn [strcmp_loop].
  - rewrite (str_at_head _ _ _ Ha), (str_at_head _ _ _ Hb). destruct t as [|d t]; [done|].
    destruct Hb as (Hd & Hd0 & _). pose proof (ld8_range m b). cbn. apply Z.compare_lt_iff. lia.
  - destruct Ha as (Hc & Hc0 & Ha). rewrite Hc, (str_at_head _ _ _ Hb). pose proof (ld8_range m a).
    destruct (Z.eqb_spec c 0); [done|]. cbn [negb andb]. destruct t as [|d t]; cbn [default from_option id head lex].
    + destruct (Z.eqb_spec c 0); [done|]. cbn. apply Z.compare_gt_iff. lia.
    + destruct Hb as (Hd & Hd0 & Hb). destruct (Z.eqb_spec c d) as [->|Hne].
      * rewrite Z.compare_refl. apply IH; [done..|lia].
      * cbn. rewrite <-Z.compare_sub. by destruct (Z.compare_spec c d).
Qed.

(** [strcmp] is the order of strings: its sign tells which is smaller, and it is 0
    exactly on equal strings. *)
Theorem strcmp_spec m a b s t : str_at m a s → str_at m b t → (length s < fuel)%nat →
  returns (strcmp fuel m a b) (λ r, (r ?= 0) = lex s t).
Proof. apply strcmp_loop_spec. Qed.

Lemma lex_eq s t : lex s t = Eq ↔ s = t.
Proof.
  revert t. induction s as [|c s IH]; intros [|d t]; cbn; try done.
  destruct (Z.compare_spec c d) as [->| |]; [rewrite IH; split; congruence|split; [done|intros [= -> _]; lia]..].
Qed.

(** Comparing as many bytes as [t] has tests whether [s] begins with [t]. *)
Lemma strncmp_prefix m s t : ∀ f a b, str_at m a s → str_at m b t → (length t < f)%nat →
  returns (strncmp_loop f id m a b (Z.of_nat (length t))) (λ r, r = 0 ↔ t `prefix_of` s).
Proof.
  revert s. induction t as [|d t IH]; intros s [|f] a b Ha Hb Hf; cbn [length] in Hf; try lia; cbn [strncmp_loop].
  { cbn. split; [intros _; apply prefix_nil|done]. }
  destruct Hb as (Hd & Hd0 & Hb). rewrite Hd, (str_at_head _ _ _ Ha). cbn [length].
  destruct (Z.ltb_spec 0 (Z.of_nat (S (length t)))); [|lia]. cbn [andb id]. destruct s as [|c s]; cbn [default from_option id head].
  - cbn. split; [lia|]. by intros ?%prefix_nil_not.
  - destruct Ha as (Hc & Hc0 & Ha). destruct (Z.eqb_spec c 0); [done|]. cbn [negb andb].
    destruct (Z.eqb_spec c d) as [->|Hne]; cbn.
    + replace (Z.of_nat (S (length t)) - 1) with (Z.of_nat (length t)) by lia.
      eapply returns_mono; [apply (IH s); [done..|lia]|]. intros r ->. split; [apply prefix_cons|apply prefix_cons_inv_2].
    + split; [lia|]. by intros ?%prefix_cons_inv_1.
Qed.

Lemma strstr_loop_spec m b t : str_at m b t → t ≠ [] → (length t < fuel)%nat →
  ∀ s k a, str_at m a s → (length s < k)%nat →
  returns (strstr_loop fuel k m a b (Z.of_nat (length t))) (λ r,
    r = 0 ∧ (∀ i, ¬ t `prefix_of` drop i s) ∨
    ∃ i, r = a + Z.of_nat i ∧ t `prefix_of` drop i s ∧ ∀ j, (j < i)%nat → ¬ t `prefix_of` drop j s).
Proof.
  intros Hb Hne Hf. induction s as [|c s IH]; intros [|k] a Ha Hk; cbn [length] in Hk; try lia; cbn [strstr_loop].
  { rewrite (str_at_head _ _ _ Ha). left. split; [done|]. intros i. rewrite drop_nil. by intros ?%prefix_nil_inv. }
  pose proof (strncmp_prefix m (c :: s) t fuel a b Ha Hb Hf) as Hp. destruct Ha as (Hc & Hc0 & Ha). rewrite Hc.
  destruct (Z.eqb_spec c 0); [done|]. apply returns_bind. eapply returns_mono; [exact Hp|]. intros r Hr.
  destruct (Z.eqb_spec r 0) as [E|E].
  { right. exists O. split_and!; [lia|by apply Hr|lia]. }
  assert (Hno : ¬ t `prefix_of` c :: s) by (intros ?%Hr; done).
  eapply returns_mono; [apply IH; [done|lia]|]. intros r' [[-> Hn]|(i & -> & Hi & Hmin)].
  - left. split; [done|]. intros [|i]; [done|apply Hn].
  - right. exists (S i). split_and!; [lia|done|]. intros [|j] Hj; [done|apply Hmin; lia].
Qed.

(** [strstr] finds the first place where the needle occurs, and returns [NULL] exactly
    when it occurs nowhere. *)
Theorem strstr_spec m a b s t : str_at m a s → str_at m b t → (length s < fuel)%nat → (length t < fuel)%nat →
  returns (strstr fuel m a b) (λ r,
    r = 0 ∧ (∀ i, ¬ t `prefix_of` drop i s) ∨
    ∃ i, r = a + Z.of_nat i ∧ t `prefix_of` drop i s ∧ ∀ j, (j < i)%nat → ¬ t `prefix_of` drop j s).
Proof.
  intros Ha Hb Hs Ht. unfold strstr. rewrite (strlen_spec m b t) by done. rewrite bind_Ret.
  destruct t as [|d t]; [|apply strstr_loop_spec; done].
  right. exists O. split_and!; [lia|apply prefix_nil|lia].
Qed.
End spec.
