(* ===== verification/LibcMalloc.v ===== *)
(** The allocator of user programs, [user/libc/src/stdlib.c]: one arena that the
    kernel maps on first use, tiled by blocks in a singly linked list. *)
From S2P Require Import Prelude Ram Str LibcStr.

Definition ARENA_SIZE : Z := 8 * 1024 * 1024.
Definition MALLOC_ALIGNMENT : Z := 16.
(** [sizeof(block_t)] *)
Definition BLOCK_HDR : Z := 24.

Record block := Block { bsize : Z; bnext : Z; bfree : bool }.

(** [blocks], the headers by their addresses, and the memory of the process. *)
Record arena := Arena { first_block : Z; headers : gmap Z block; aram : ram }.

Definition set_headers (a : arena) (hs : gmap Z block) : arena := Arena (first_block a) hs (aram a).
Definition set_aram (a : arena) (m : ram) : arena := Arena (first_block a) (headers a) m.

Definition align_size (size : Z) : Z :=
  Z.land (u64 (size + MALLOC_ALIGNMENT - 1)) (not64 (MALLOC_ALIGNMENT - 1)).

Section malloc.
(** What the kernel's [mmap] returns for the arena; [MAP_FAILED] is all ones. *)
Context (mmap_arena : Z).
Definition MAP_FAILED : Z := 2 ^ 64 - 1.

Definition heap_init (a : arena) : bool * arena :=
  if negb (first_block a =? 0) then (true, a) else
  if mmap_arena =? MAP_FAILED then (false, a) else
  (true, Arena mmap_arena (<[mmap_arena := Block (ARENA_SIZE - BLOCK_HDR) 0 true]> (headers a)) (aram a)).

Definition split_block (a : arena) (blk size : Z) : res arena :=
  b ← deref (headers a !! blk);
  let remainder := u64 (blk + BLOCK_HDR + size) in
  let hs := <[remainder := Block (u64 (bsize b - size - BLOCK_HDR)) (bnext b) true]> (headers a) in
  Ret (set_headers a (<[blk := Block size remainder (bfree b)]> hs)).

Fixpoint malloc_loop (n : nat) (a : arena) (size blk : Z) : res (Z * arena) :=
  match n with
  | O => NoFuel
  | S n =>
      if blk =? 0 then Ret (0, a) else
      b ← deref (headers a !! blk);
      if negb (bfree b) || (bsize b <? size) then malloc_loop n a size (bnext b) else
      a ← (if u64 (u64 (size + BLOCK_HDR) + MALLOC_ALIGNMENT) <=? bsize b then split_block a blk size else Ret a);
      b ← deref (headers a !! blk);
      Ret (u64 (blk + BLOCK_HDR), set_headers a (<[blk := Block (bsize b) (bnext b) false]> (headers a)))
  end.
Definition malloc (a : arena) (size : Z) : res (Z * arena) :=
  if size =? 0 then Ret (0, a) else
  let '(ok, a) := heap_init a in
  if negb ok then Ret (0, a) else
  malloc_loop (S (base.size (headers a))) a (align_size size) (first_block a).

(** The coalescing loop of [free]; each turn removes a header from the list or
    moves on. *)
Fixpoint free_loop (n : nat) (hs : gmap Z block) (blk : Z) : res (gmap Z block) :=
  match n with
  | O => NoFuel
  | S n =>
      if blk =? 0 then Ret hs else
      b ← deref (hs !! blk);
      if bnext b =? 0 then Ret hs else
      c ← deref (hs !! bnext b);
      if bfree b && bfree c
      then free_loop n (delete (bnext b) (<[blk := Block (u64 (bsize b + u64 (BLOCK_HDR + bsize c))) (bnext c) (bfree b)]> hs)) blk
      else free_loop n hs (bnext b)
  end.
Definition free (a : arena) (pointer : Z) : res arena :=
  if pointer =? 0 then Ret a else
  let blk := u64 (pointer - BLOCK_HDR) in
  b ← deref (headers a !! blk);
  let hs := <[blk := Block (bsize b) (bnext b) true]> (headers a) in
  hs ← free_loop (S (base.size hs)) hs (first_block a);
  Ret (set_headers a hs).

Definition calloc (a : arena) (count size : Z) : res (Z * arena) :=
  if negb (size =? 0) && ((2 ^ 64 - 1) / size <? count) then Ret (0, a) else
  let total := u64 (count * size) in
  '(pointer, a) ← malloc a total;
  Ret (pointer, if pointer =? 0 then a else set_aram a (memset (aram a) pointer 0 total)).

Definition realloc (a : arena) (pointer size : Z) : res (Z * arena) :=
  if pointer =? 0 then malloc a size else
  if size =? 0 then a ← free a pointer; Ret (0, a) else
  old_block ← deref (headers a !! u64 (pointer - BLOCK_HDR));
  if size <=? bsize old_block then Ret (pointer, a) else
  '(new_pointer, a) ← malloc a size;
  if new_pointer =? 0 then Ret (0, a) else
  a ← free (set_aram a (memcpy (aram a) new_pointer pointer (bsize old_block))) pointer;
  Ret (new_pointer, a).

Definition strdup (fuel : nat) (a : arena) (source : Z) : res (Z * arena) :=
  n ← strlen fuel (aram a) source;
  let length := n + 1 in
  '(copy, a) ← malloc a length;
  Ret (copy, if copy =? 0 then a else set_aram a (memcpy (aram a) copy source length)).
End malloc.

(** ** [atoi] and [abs] *)

Fixpoint skip_sp (fuel : nat) (m : ram) (text : Z) : res Z :=
  match fuel with
  | O => NoFuel
  | S fuel => if ld8 m text =? 32 then skip_sp fuel m (text + 1) else Ret text
  end.
(** [while (is a digit) value = value * 10 + *text++ - '0'] *)
Fixpoint int_loop (fuel : nat) (m : ram) (text value : Z) : res (Z * Z) :=
  match fuel with
  | O => NoFuel
  | S fuel => if isdigit (ld8 m text) then int_loop fuel m (text + 1) (i32 (value * 10 + ld8 m text - 48))
              else Ret (value, text)
  end.
Definition atoi (fuel : nat) (m : ram) (text : Z) : res Z :=
  text ← skip_sp fuel m text;
  let '(sign, text) := if ld8 m text =? 45 then (-1, text + 1) else (1, text) in
  '(value, _) ← int_loop fuel m text 0;
  Ret (i32 (sign * value)).
Definition abs (value : Z) : Z := if value <? 0 then i32 (- value) else value.

(** ** The blocks of the arena

    An arena from [x] to its end [e] is a list of blocks: size and free flag. *)
Definition span (b : Z * bool) : Z := BLOCK_HDR + b.1.
Definition total (bs : list (Z * bool)) : Z := foldr (λ b t, span b + t) 0 bs.
Definition link (e x : Z) : Z := if x =? e then 0 else x.
Fixpoint hdrs (e x : Z) (bs : list (Z * bool)) : list (Z * block) :=
  match bs with
  | [] => []
  | b :: bs => (x, Block b.1 (link e (x + span b)) b.2) :: hdrs e (x + span b) bs
  end.
(** What programs hold: pointer and size of the blocks in use. *)
Fixpoint used (x : Z) (bs : list (Z * bool)) : list (Z * Z) :=
  match bs with
  | [] => []
  | b :: bs => (if b.2 then [] else [(x + BLOCK_HDR, b.1)]) ++ used (x + span b) bs
  end.

Record arena_inv (a : arena) (bs : list (Z * bool)) : Prop := {
  ai_base : 0 < first_block a;
  ai_end : first_block a + ARENA_SIZE < 2 ^ 63;
  ai_total : total bs = ARENA_SIZE;
  ai_sizes : Forall (λ b, 0 ≤ b.1) bs;
  ai_headers : headers a = list_to_map (hdrs (first_block a + ARENA_SIZE) (first_block a) bs);
}.

(** [free] merges neighbours. *)
Fixpoint coalesce (bs : list (Z * bool)) : list (Z * bool) :=
  match bs with
  | [] => []
  | b :: bs => match coalesce bs with
               | c :: cs => if b.2 && c.2 then (b.1 + span c, true) :: cs else b :: c :: cs
               | [] => [b]
               end
  end.

Lemma total_cons b bs : total (b :: bs) = span b + total bs.
Proof. done. Qed.
Lemma total_app l r : total (l ++ r) = total l + total r.
Proof. induction l as [|b l IH]; [done|]. rewrite <- app_comm_cons, !total_cons, IH. lia. Qed.
Lemma total_pos bs : Forall (λ b, 0 ≤ b.1) bs → 0 ≤ total bs.
Proof. induction 1 as [|b bs Hb _ IH]; [done|]. rewrite total_cons. unfold span, BLOCK_HDR. lia. Qed.

Lemma hdrs_app e l r : ∀ x, hdrs e x (l ++ r) = hdrs e x l ++ hdrs e (x + total l) r.
Proof.
  induction l as [|b l IH]; intros x; [cbn; by rewrite Z.add_0_r|].
  cbn [app hdrs]. rewrite total_cons, IH, Z.add_assoc. done.
Qed.
Lemma used_app l r : ∀ x, used x (l ++ r) = used x l ++ used (x + total l) r.
Proof.
  induction l as [|b l IH]; intros x; [cbn; by rewrite Z.add_0_r|].
  cbn [app used]. by rewrite total_cons, IH, Z.add_assoc, app_assoc.
Qed.

Lemma hdrs_keys e bs : ∀ x k, Forall (λ b, 0 ≤ b.1) bs → k ∈ (hdrs e x bs).*1 → x ≤ k < x + total bs.
Proof.
  induction bs as [|b bs IH]; intros x k Hs Hk; [by apply elem_of_nil in Hk|].
  apply Forall_cons in Hs as [Hb Hs]. pose proof (total_pos _ Hs). rewrite total_cons.
  unfold span, BLOCK_HDR in *. cbn [hdrs fmap list_fmap fst] in Hk. apply elem_of_cons in Hk as [->|Hk]; [lia|].
  apply IH in Hk; [|done]. unfold span, BLOCK_HDR in *. lia.
Qed.

Lemma hdrs_nodup e bs : ∀ x, Forall (λ b, 0 ≤ b.1) bs → NoDup (hdrs e x bs).*1.
Proof.
  induction bs as [|b bs IH]; intros x Hs; [constructor|]. apply Forall_cons in Hs as [Hb Hs].
  constructor; [|by apply IH]. intros Hk. apply hdrs_keys in Hk; [|done]. unfold span, BLOCK_HDR in Hk. cbn [fst] in Hk. lia.
Qed.

Lemma hdrs_length e bs : ∀ x, length (hdrs e x bs) = length bs.
Proof. induction bs as [|b bs IH]; intros x; cbn; [done|]. by rewrite IH. Qed.

(** One header in the middle of the list. *)
Lemma map_middle (l r : list (Z * block)) k v : NoDup (l ++ (k, v) :: r).*1 →
  list_to_map (l ++ (k, v) :: r) =@{gmap Z block} <[k := v]> (list_to_map (l ++ r)) ∧
  (list_to_map (l ++ r) : gmap Z block) !! k = None.
Proof.
  intros Hn. assert (Hp : l ++ (k, v) :: r ≡ₚ (k, v) :: l ++ r) by (symmetry; apply Permutation_middle).
  split; [rewrite (list_to_map_proper _ _ Hn Hp); done|].
  apply not_elem_of_list_to_map_1. rewrite Hp in Hn. by apply NoDup_cons in Hn as [? _].
Qed.

Lemma block_at e x l b r : Forall (λ b, 0 ≤ b.1) (l ++ b :: r) →
  (list_to_map (hdrs e x (l ++ b :: r)) : gmap Z block) !! (x + total l) =
    Some (Block b.1 (link e (x + total l + span b)) b.2).
Proof.
  intros Hs. apply elem_of_list_to_map_1; [by apply hdrs_nodup|].
  rewrite hdrs_app. apply elem_of_app. right. cbn [hdrs]. by left.
Qed.

(** Replacing one block by blocks of the same extent. *)
Lemma block_set e x l b b' r : span b' = span b → Forall (λ b, 0 ≤ b.1) (l ++ b :: r) →
  <[x + total l := Block b'.1 (link e (x + total l + span b)) b'.2]> (list_to_map (hdrs e x (l ++ b :: r))) =@{gmap Z block}
    list_to_map (hdrs e x (l ++ b' :: r)).
Proof.
  intros Hb Hs. pose proof (hdrs_nodup e _ x Hs) as Hn. rewrite hdrs_app in Hn |- *.
  rewrite (hdrs_app e l (b' :: r)). cbn [hdrs] in Hn |- *. rewrite Hb.
  destruct (map_middle _ _ _ _ Hn) as [-> _]. rewrite insert_insert_eq.
  assert (Hn' : NoDup (hdrs e x l ++ (x + total l, Block b'.1 (link e (x + total l + span b)) b'.2) :: hdrs e (x + total l + span b) r).*1)
    by (revert Hn; rewrite !fmap_app; done).
  by destruct (map_middle _ _ _ _ Hn') as [-> _].
Qed.

Lemma block_split e x l s n f r : 0 ≤ n → n + BLOCK_HDR ≤ s → x + total l + span (s, f) + total r ≤ e → Forall (λ b, 0 ≤ b.1) (l ++ (s, true) :: r) →
  <[x + total l := Block n (x + total l + BLOCK_HDR + n) f]>
    (<[x + total l + BLOCK_HDR + n := Block (s - n - BLOCK_HDR) (link e (x + total l + span (s, true))) true]>
      (list_to_map (hdrs e x (l ++ (s, true) :: r)))) =@{gmap Z block}
    list_to_map (hdrs e x (l ++ (n, f) :: (s - n - BLOCK_HDR, true) :: r)).
Proof.
  intros Hn0 Hn He Hs. pose proof (hdrs_nodup e _ x Hs) as Hd.
  assert (Hs' : Forall (λ b, 0 ≤ b.1) (l ++ (n, f) :: (s - n - BLOCK_HDR, true) :: r)).
  { apply Forall_app in Hs as [Hl Hr]. apply Forall_cons in Hr as [_ Hr]. apply Forall_app. split; [done|].
    repeat constructor; cbn; try lia. done. }
  assert (Hr0 : 0 ≤ total r). { apply Forall_app in Hs as [_ Hr]. apply Forall_cons in Hr as [_ Hr]. by apply total_pos. }
  pose proof (hdrs_nodup e _ x Hs') as Hd'. rewrite hdrs_app in Hd, Hd' |- *. rewrite (hdrs_app e l (_ :: _ :: _)).
  cbn [hdrs] in Hd, Hd' |- *. unfold span, BLOCK_HDR in *. cbn [fst snd] in *.
  assert (El : link e (x + total l + (24 + n)) = x + total l + 24 + n) by (unfold link; zcase; lia).
  assert (Ex : x + total l + (24 + n) = x + total l + 24 + n) by lia.
  assert (Ey : x + total l + 24 + n + (24 + (s - n - 24)) = x + total l + (24 + s)) by lia.
  rewrite El, Ex, Ey in *. destruct (map_middle _ _ _ _ Hd) as [-> Hno]. destruct (map_middle _ _ _ _ Hd') as [-> Hno'].
  rewrite insert_insert_ne, insert_insert_eq, insert_insert_ne by lia. f_equal.
  rewrite <- Permutation_middle in Hd'. apply NoDup_cons in Hd' as [_ Hd']. by destruct (map_middle _ _ _ _ Hd') as [-> _].
Qed.

Lemma block_merge e x l s t f g r : Forall (λ b, 0 ≤ b.1) (l ++ (s, f) :: (t, g) :: r) →
  delete (x + total l + span (s, f)) (<[x + total l := Block (s + span (t, g)) (link e (x + total l + span (s, f) + span (t, g))) f]>
    (list_to_map (hdrs e x (l ++ (s, f) :: (t, g) :: r)))) =@{gmap Z block}
    list_to_map (hdrs e x (l ++ (s + span (t, g), f) :: r)).
Proof.
  intros Hs. pose proof (hdrs_nodup e _ x Hs) as Hd.
  assert (Hs' : Forall (λ b, 0 ≤ b.1) (l ++ (s + span (t, g), f) :: r)).
  { apply Forall_app in Hs as [Hl Hr]. apply Forall_cons in Hr as [H1 Hr]. apply Forall_cons in Hr as [H2 Hr].
    apply Forall_app. split; [done|]. constructor; [unfold span, BLOCK_HDR; cbn in *; lia|done]. }
  assert (H0 : 0 ≤ s). { apply Forall_app in Hs as [_ Hr]. by apply Forall_cons in Hr as [? _]. }
  pose proof (hdrs_nodup e _ x Hs') as Hd'. rewrite hdrs_app in Hd, Hd' |- *. rewrite (hdrs_app e l (_ :: r)).
  cbn [hdrs fst snd] in Hd, Hd' |- *.
  assert (Ey : x + total l + span (s + span (t, g), f) = x + total l + span (s, f) + span (t, g)) by (unfold span; cbn [fst]; lia).
  rewrite Ey in *. destruct (map_middle _ _ _ _ Hd) as [-> _]. destruct (map_middle _ _ _ _ Hd') as [-> _].
  rewrite <- Permutation_middle in Hd. apply NoDup_cons in Hd as [_ Hd]. destruct (map_middle _ _ _ _ Hd) as [-> Hy].
  rewrite insert_insert_eq, delete_insert_ne by (unfold span, BLOCK_HDR; cbn [fst]; lia).
  by rewrite delete_insert_id.
Qed.

(** ** The coalescing loop *)

Lemma coalesce_cons b bs : coalesce (b :: bs) =
  match coalesce bs with
  | c :: cs => if b.2 && c.2 then (b.1 + span c, true) :: cs else b :: c :: cs
  | [] => [b]
  end.
Proof. done. Qed.

Lemma coalesce_head b bs : ∃ c cs, coalesce (b :: bs) = c :: cs ∧ c.2 = b.2.
Proof.
  rewrite coalesce_cons. destruct (coalesce bs) as [|c cs]; [by eauto|].
  destruct b as [s []], c as [t []]; cbn; eauto.
Qed.

Lemma coalesce_merge s t bs : coalesce ((s, true) :: (t, true) :: bs) = coalesce ((s + span (t, true), true) :: bs).
Proof.
  rewrite !coalesce_cons. destruct (coalesce bs) as [|[u []] cs]; cbn; try done.
  do 2 f_equal. unfold span. cbn [fst]. lia.
Qed.

Lemma coalesce_keep b c bs : b.2 && c.2 = false → coalesce (b :: c :: bs) = b :: coalesce (c :: bs).
Proof.
  intros Hb. rewrite (coalesce_cons b). destruct (coalesce_head c bs) as (d & ds & -> & Hd). rewrite Hd, Hb. done.
Qed.

Lemma total_coalesce bs : total (coalesce bs) = total bs.
Proof.
  induction bs as [|b bs IH]; [done|]. rewrite coalesce_cons, total_cons, <- IH.
  destruct (coalesce bs) as [|c cs]; [done|]. destruct (b.2 && c.2); rewrite !total_cons; [|done].
  unfold span. cbn [fst]. lia.
Qed.

Lemma coalesce_sizes bs : Forall (λ b, 0 ≤ b.1) bs → Forall (λ b, 0 ≤ b.1) (coalesce bs).
Proof.
  induction 1 as [|b bs Hb _ IH]; [done|]. rewrite coalesce_cons. destruct (coalesce bs) as [|c cs]; [by repeat constructor|].
  apply Forall_cons in IH as [Hc Hcs]. destruct (b.2 && c.2); repeat constructor; try done.
  unfold span, BLOCK_HDR. cbn [fst]. lia.
Qed.

(** Merging free blocks moves no block in use. *)
Lemma used_coalesce bs : ∀ x, used x (coalesce bs) = used x bs.
Proof.
  induction bs as [|b bs IH]; intros x; [done|]. rewrite coalesce_cons. cbn [used]. rewrite <- IH.
  destruct (coalesce bs) as [|c cs]; [done|]. destruct b as [s []], c as [t []]; cbn [fst snd andb used app]; try done.
  f_equal. unfold span. cbn [fst]. lia.
Qed.

(** Nothing is left to merge. *)
Lemma coalesced bs : ∀ l b c r, coalesce bs = l ++ b :: c :: r → b.2 && c.2 = false.
Proof.
  induction bs as [|d bs IH]; intros l b c r; [by destruct l|]. rewrite coalesce_cons.
  destruct (coalesce bs) as [|e es]; [by destruct l as [|? [|]]|].
  destruct (d.2 && e.2) eqn:Ede.
  - intros Hl. destruct l as [|x l]; injection Hl as <- Hl.
    + subst es. apply andb_true_iff in Ede as [_ He]. cbn [snd]. rewrite <- He. by apply (IH [] e c r).
    + apply (IH (e :: l) b c r). by rewrite Hl.
  - intros Hl. destruct l as [|x l].
    + by injection Hl as <- <- _.
    + injection Hl as <- Hl. by apply (IH l b c r).
Qed.

Lemma free_loop_spec e x n : ∀ r l, (length r < n)%nat → Forall (λ b, 0 ≤ b.1) (l ++ r) → 0 < x → x + total (l ++ r) = e → e < 2 ^ 63 →
  free_loop n (list_to_map (hdrs e x (l ++ r))) (link e (x + total l)) = Ret (list_to_map (hdrs e x (l ++ coalesce r))).
Proof.
  induction n as [|n IH]; intros r l Hn Hs Hx He Hw; [lia|]. rewrite total_app in He.
  assert (Hl : 0 ≤ total l) by (apply Forall_app in Hs as [Hs _]; by apply total_pos).
  assert (Hr : Forall (λ b, 0 ≤ b.1) r) by (by apply Forall_app in Hs as [_ Hs]).
  destruct r as [|[s f] r]; cbn [free_loop].
  { cbn [total foldr] in He. unfold link. destruct (Z.eqb_spec (x + total l) e); [done|lia]. }
  apply Forall_cons in Hr as [Hs0 Hr]. pose proof (total_pos _ Hr) as Ht. rewrite total_cons in He.
  assert (Esp : span (s, f) = 24 + s) by done. cbn [fst] in Hs0.
  assert (El : link e (x + total l) = x + total l) by (unfold link; zcase; lia).
  rewrite El. destruct (Z.eqb_spec (x + total l) 0); [lia|]. rewrite block_at by done. cbn [deref bnext bfree bsize]. rewrite bind_Ret. cbn [fst snd].
  destruct r as [|[t g] r].
  { cbn [total foldr] in He. assert (El2 : link e (x + total l + span (s, f)) = 0) by (unfold link; zcase; lia).
    cbn [bnext]. rewrite El2. done. }
  apply Forall_cons in Hr as [Ht0 Hr]. pose proof (total_pos _ Hr) as Ht1. rewrite total_cons in He.
  assert (Esp2 : span (t, g) = 24 + t) by done. cbn [fst] in Ht0.
  assert (El2 : link e (x + total l + span (s, f)) = x + total l + span (s, f)) by (unfold link; zcase; lia).
  cbn [bnext bfree bsize]. rewrite El2. destruct (Z.eqb_spec (x + total l + span (s, f)) 0); [lia|].
  assert (Etl : x + total (l ++ [(s, f)]) = x + total l + span (s, f)) by (rewrite total_app; cbn [total foldr]; lia).
  assert (Hs2 : Forall (λ b, 0 ≤ b.1) ((l ++ [(s, f)]) ++ (t, g) :: r)) by (by rewrite <- app_assoc).
  pose proof (block_at e x (l ++ [(s, f)]) (t, g) r Hs2) as Hb. rewrite Etl, <- app_assoc in Hb. cbn [app] in Hb.
  rewrite Hb. cbn [deref bnext bfree bsize fst snd]. rewrite bind_Ret. cbn [bfree bsize bnext].
  destruct (f && g) eqn:Efg.
  - apply andb_true_iff in Efg as [-> ->]. rewrite !u64_small by (rewrite ?u64_small; unfold BLOCK_HDR; lia).
    change (s + (BLOCK_HDR + t)) with (s + span (t, true)). rewrite block_merge by done.
    assert (Hs3 : Forall (λ b, 0 ≤ b.1) (l ++ (s + span (t, true), true) :: r)).
    { apply Forall_app in Hs as [Hsl _]. apply Forall_app. split; [done|]. constructor; [cbn; lia|done]. }
    pose proof (IH ((s + span (t, true), true) :: r) l) as IH'. rewrite El in IH'. rewrite IH'; [|cbn in *; lia|done|done| |done].
    + by rewrite coalesce_merge.
    + rewrite total_app, total_cons. unfold span in *. cbn [fst] in *. lia.
  - pose proof (IH ((t, g) :: r) (l ++ [(s, f)])) as IH'. rewrite Etl, El2, <- !app_assoc in IH'. cbn [app] in IH'.
    rewrite IH'; [|cbn in *; lia|done|done| |done].
    + by rewrite (coalesce_keep (s, f)).
    + rewrite total_app, !total_cons. lia.
Qed.

(** ** [malloc] *)

(** A free block of [s] bytes that serves a request of [n]. *)
Definition serves (n : Z) (b : Z * bool) : bool := b.2 && (n <=? b.1).
Definition placed (s n : Z) : list (Z * bool) :=
  if n + BLOCK_HDR + MALLOC_ALIGNMENT <=? s then [(n, false); (s - n - BLOCK_HDR, true)] else [(s, false)].
(** The size a request is rounded up to. *)
Definition rounded (size : Z) : Z := (size + 15) / 16 * 16.

Lemma align_size_spec size : 0 ≤ size < 2 ^ 63 → align_size size = rounded size.
Proof.
  intros Hs. unfold align_size, rounded, MALLOC_ALIGNMENT. rewrite u64_small by lia.
  change (not64 (16 - 1)) with (2 ^ 64 - 1 - (2 ^ 4 - 1)). rewrite land_clear_low by lia.
  change (2 ^ 4) with 16. replace (size + 16 - 1) with (size + 15) by lia. pose proof (Z.div_mod (size + 15) 16). lia.
Qed.

Lemma placed_total s n : 0 ≤ n ≤ s → total (placed s n) = span (s, true).
Proof. intros Hn. unfold placed. zcase; rewrite !total_cons; unfold span; cbn; lia. Qed.
Lemma placed_sizes s n : 0 ≤ n ≤ s → Forall (λ b, 0 ≤ b.1) (placed s n).
Proof. intros Hn. unfold placed, BLOCK_HDR, MALLOC_ALIGNMENT. zcase; repeat constructor; cbn; lia. Qed.

Lemma inv_replace a l s ps r : arena_inv a (l ++ (s, true) :: r) → total ps = span (s, true) → Forall (λ b, 0 ≤ b.1) ps →
  arena_inv (set_headers a (list_to_map (hdrs (first_block a + ARENA_SIZE) (first_block a) (l ++ ps ++ r)))) (l ++ ps ++ r).
Proof.
  intros [Hb He Ht Hs Hh] Hp Hps. split; cbn [first_block headers set_headers]; try done.
  - rewrite <- Ht, !total_app, total_cons, Hp. done.
  - apply Forall_app in Hs as [Hl Hr]. apply Forall_cons in Hr as [_ Hr]. by rewrite !Forall_app.
Qed.

Lemma split_sizes l s n f g r : 0 ≤ n → n + BLOCK_HDR + MALLOC_ALIGNMENT ≤ s → Forall (λ b, 0 ≤ b.1) (l ++ (s, f) :: r) →
  Forall (λ b, 0 ≤ b.1) (l ++ (n, g) :: (s - n - BLOCK_HDR, true) :: r).
Proof.
  intros Hn Hsp [Hl Hr]%Forall_app. apply Forall_cons in Hr as [_ Hr]. apply Forall_app. split; [done|].
  unfold BLOCK_HDR, MALLOC_ALIGNMENT in *. repeat constructor; cbn; try lia. done.
Qed.

Lemma take_block a l s r n : arena_inv a (l ++ (s, true) :: r) → 0 < n ≤ s →
  let x := first_block a + total l in
  (a ← (if u64 (u64 (n + BLOCK_HDR) + MALLOC_ALIGNMENT) <=? s then split_block a x n else Ret a);
   b ← deref (headers a !! x);
   Ret (u64 (x + BLOCK_HDR), set_headers a (<[x := Block (bsize b) (bnext b) false]> (headers a)))) =
  Ret (x + BLOCK_HDR, set_headers a (list_to_map (hdrs (first_block a + ARENA_SIZE) (first_block a) (l ++ placed s n ++ r)))).
Proof.
  intros [Hb He Ht Hs Hh] Hn x. pose proof Hs as Hs'. apply Forall_app in Hs' as [Hs1 Hs2].
  apply Forall_cons in Hs2 as [H0 Hs2]. pose proof (total_pos _ Hs1). pose proof (total_pos _ Hs2).
  rewrite total_app, total_cons in Ht. assert (Esp : span (s, true) = 24 + s) by done. subst x.
  assert (Eov : u64 (u64 (n + BLOCK_HDR) + MALLOC_ALIGNMENT) = n + BLOCK_HDR + MALLOC_ALIGNMENT).
  { unfold BLOCK_HDR, MALLOC_ALIGNMENT, ARENA_SIZE in *. rewrite !u64_small; rewrite ?u64_small; lia. }
  rewrite Eov. unfold placed. rewrite (u64_small (_ + _ + BLOCK_HDR)) by (unfold BLOCK_HDR, ARENA_SIZE in *; lia).
  destruct (Z.leb_spec (n + BLOCK_HDR + MALLOC_ALIGNMENT) s) as [Hsp|Hsp].
  - unfold split_block. rewrite Hh, block_at by done. cbn [deref]. rewrite !bind_Ret. cbn [bsize bnext bfree fst snd].
    rewrite (u64_small (_ + _ + BLOCK_HDR + n)), (u64_small (s - n - BLOCK_HDR)) by (unfold BLOCK_HDR, MALLOC_ALIGNMENT, ARENA_SIZE in *; lia).
    rewrite (block_split _ _ l s n true r); [|lia|unfold MALLOC_ALIGNMENT in Hsp; lia|lia|done].
    cbn [headers set_headers]. rewrite (block_at _ _ l (n, true)) by (eapply split_sizes; [lia|exact Hsp|exact Hs]).
    cbn [deref]. rewrite bind_Ret. cbn [bsize bnext bfree fst snd].
    by rewrite (block_set _ _ l (n, true) (n, false)); [|done|eapply split_sizes; [lia|exact Hsp|exact Hs]].
  - rewrite bind_Ret, Hh, block_at by done. cbn [deref]. rewrite bind_Ret. cbn [bsize bnext bfree fst snd].
    by rewrite (block_set _ _ l (s, true) (s, false)).
Qed.

Lemma malloc_loop_spec a n : ∀ r l fuel, arena_inv a (l ++ r) → (length r < fuel)%nat → 0 < n < 2 ^ 63 →
  Forall (λ b, serves n b = false) l →
  let x := first_block a in
  returns (malloc_loop fuel a n (link (x + ARENA_SIZE) (x + total l))) (λ '(p, a'),
    p = 0 ∧ a' = a ∧ Forall (λ b, serves n b = false) (l ++ r) ∨
    ∃ l' s r', l ++ r = l' ++ (s, true) :: r' ∧ Forall (λ b, serves n b = false) l' ∧ n ≤ s ∧
      p = x + total l' + BLOCK_HDR ∧ aram a' = aram a ∧ first_block a' = x ∧ arena_inv a' (l' ++ placed s n ++ r')).
Proof.
  intros r. induction r as [|[s f] r IH]; intros l [|fuel] Hi Hf Hn Hl x; cbn [length] in Hf; try lia; cbn [malloc_loop].
  - assert (El : link (x + ARENA_SIZE) (x + total l) = 0).
    { unfold link. pose proof (ai_total _ _ Hi) as Ht. rewrite app_nil_r in Ht. zcase; [done|lia]. }
    rewrite El. cbn. left. by rewrite app_nil_r.
  - pose proof Hi as [Hb He Ht Hs Hh]. pose proof Hs as Hs'. apply Forall_app in Hs' as [Hs1 Hs2].
    apply Forall_cons in Hs2 as [H0 Hs2]. cbn [fst] in H0. pose proof (total_pos _ Hs1). pose proof (total_pos _ Hs2).
    rewrite total_app, total_cons in Ht. assert (Esp : span (s, f) = 24 + s) by done.
    assert (El : link (x + ARENA_SIZE) (x + total l) = x + total l) by (unfold link; zcase; lia).
    rewrite El. destruct (Z.eqb_spec (x + total l) 0); [lia|]. rewrite Hh. fold x. rewrite block_at by done.
    cbn [deref]. rewrite bind_Ret. cbn [bfree bsize bnext fst snd].
    destruct (serves n (s, f)) eqn:Esv.
    + unfold serves in Esv. cbn [fst snd] in Esv. apply andb_true_iff in Esv as [-> Hge%Z.leb_le].
      destruct (Z.ltb_spec s n); [lia|]. cbn [negb orb]. assert (Hns : 0 < n ≤ s) by lia.
      pose proof (take_block a l s r n Hi Hns) as Etb. fold x in Etb. cbn zeta in Etb. rewrite Etb.
      cbn [returns]. right. exists l, s, r. split_and!; try done.
      apply inv_replace with (s := s); [done|apply placed_total; lia|apply placed_sizes; lia].
    + assert (Eg : negb f || (s <? n) = true).
      { unfold serves in Esv. cbn [fst snd] in Esv. destruct f; [|done]. cbn [andb] in Esv. cbn [negb orb]. zcase; [done|].
        destruct (Z.leb_spec n s); [done|lia]. }
      rewrite Eg. assert (Etl : x + total (l ++ [(s, f)]) = x + total l + span (s, f)) by (rewrite total_app; cbn [total foldr]; lia).
      rewrite <- Etl. replace (l ++ (s, f) :: r) with ((l ++ [(s, f)]) ++ r) in * by (by rewrite <- app_assoc).
      apply IH; [done|lia|done|]. apply Forall_app. split; [done|]. by repeat constructor.
Qed.

Lemma headers_size a bs : arena_inv a bs → base.size (headers a) = length bs.
Proof.
  intros [_ _ _ Hs ->]. rewrite map_size_list_to_map by (by apply hdrs_nodup). apply hdrs_length.
Qed.

Lemma used_inside bs : ∀ x y k, Forall (λ b, 0 ≤ b.1) bs → (y, k) ∈ used x bs → x + BLOCK_HDR ≤ y ∧ 0 ≤ k ∧ y + k ≤ x + total bs.
Proof.
  induction bs as [|[s f] bs IH]; intros x y k Hs Hk; [by apply elem_of_nil in Hk|].
  apply Forall_cons in Hs as [H0 Hs]. pose proof (total_pos _ Hs). rewrite total_cons. unfold span in *. cbn [fst snd used] in *.
  apply elem_of_app in Hk as [Hk|Hk].
  - destruct f; [by apply elem_of_nil in Hk|]. apply list_elem_of_singleton in Hk as [= -> ->]. lia.
  - apply IH in Hk; [|done]. unfold span in Hk. cbn [fst] in Hk. unfold BLOCK_HDR in *. lia.
Qed.

Lemma placed_used x s n : 0 ≤ n ≤ s → ∃ k, n ≤ k ≤ s ∧ used x (placed s n) = [(x + BLOCK_HDR, k)].
Proof. intros Hn. unfold placed. zcase; [exists n|exists s]; (split; [lia|done]). Qed.

Lemma rounded_bounds size : 0 < size → size ≤ rounded size < size + 16.
Proof. intros Hs. unfold rounded. pose proof (Z.div_mod (size + 15) 16). pose proof (Z.mod_pos_bound (size + 15) 16). lia. Qed.

Lemma placed_cons s n : ∃ k t, placed s n = (k, false) :: t ∧
  ∀ r, coalesce ((k, true) :: t ++ r) = coalesce ((s, true) :: r).
Proof.
  unfold placed. zcase; [|by exists s, []]. exists n, [(s - n - BLOCK_HDR, true)]. split; [done|]. intros r.
  cbn [app]. rewrite coalesce_merge. do 3 f_equal. unfold span. cbn [fst]. lia.
Qed.

Section allocator.
Context (mmap_arena : Z).

(** C33. The user allocator is first fit and keeps its arena tiled.  [malloc] fails
    exactly when no free block holds the rounded request, and then changes
    nothing.  Otherwise it takes the first block that does, splits off what is
    left when another block fits in, and returns a block at least as large as
    asked for, inside the arena and apart from every block in use; the blocks in
    use are then those from before and this one, and no byte of memory has
    changed. *)
Theorem malloc_spec a bs size : arena_inv a bs → 0 < size < 2 ^ 62 →
  let n := rounded size in let x := first_block a in
  returns (malloc mmap_arena a size) (λ '(p, a'),
    p = 0 ∧ a' = a ∧ Forall (λ b, serves n b = false) bs ∨
    ∃ l s r k, bs = l ++ (s, true) :: r ∧ Forall (λ b, serves n b = false) l ∧ size ≤ k ≤ s ∧
      p = x + total l + BLOCK_HDR ∧ p + k ≤ x + ARENA_SIZE ∧
      arena_inv a' (l ++ placed s n ++ r) ∧ first_block a' = x ∧ aram a' = aram a ∧
      used x (l ++ placed s n ++ r) ≡ₚ (p, k) :: used x bs ∧
      ∀ y j, (y, j) ∈ used x bs → y + j + BLOCK_HDR ≤ p ∨ p + k + BLOCK_HDR ≤ y).
Proof.
  intros Hi Hsz n x. pose proof Hi as [Hb He Ht Hs Hh]. pose proof (rounded_bounds size ltac:(lia)) as Hr. fold n in Hr.
  unfold malloc. destruct (Z.eqb_spec size 0); [lia|]. unfold heap_init.
  destruct (Z.eqb_spec (first_block a) 0); [lia|]. cbn [negb]. rewrite (headers_size a bs Hi), align_size_spec by lia. fold n.
  assert (Ex : first_block a = link (x + ARENA_SIZE) (x + total [])) by (unfold link, ARENA_SIZE; cbn; zcase; lia).
  rewrite Ex. eapply returns_mono; [apply (malloc_loop_spec a n bs []); [done|lia|lia|constructor]|]. cbn [app].
  intros [p a'] [Hl|(l & s & r & -> & Hl & Hns & -> & Hm & Hf & Hi')]; [by left|right].
  destruct (placed_used (x + total l) s n ltac:(lia)) as (k & Hk & Hu).
  apply Forall_app in Hs as [Hsl Hsr]. apply Forall_cons in Hsr as [Hs0 Hsr]. pose proof (total_pos _ Hsr) as Htr.
  rewrite total_app, total_cons in Ht. assert (Esp : span (s, true) = 24 + s) by done.
  exists l, s, r, k. split_and!; try done; try lia.
  - unfold BLOCK_HDR in *. lia.
  - rewrite !used_app, Hu, placed_total by lia. cbn [used snd app]. symmetry. apply Permutation_middle.
  - intros y j Hy. rewrite used_app in Hy. apply elem_of_app in Hy as [Hy|Hy].
    + apply used_inside in Hy; [|done]. left. unfold BLOCK_HDR in *. lia.
    + cbn [used snd app] in Hy. apply used_inside in Hy; [|done]. right. unfold BLOCK_HDR in *. lia.
Qed.

Lemma free_step a l s r f : arena_inv a (l ++ (s, f) :: r) →
  let bs' := coalesce (l ++ (s, true) :: r) in
  let a' := set_headers a (list_to_map (hdrs (first_block a + ARENA_SIZE) (first_block a) bs')) in
  free a (first_block a + total l + BLOCK_HDR) = Ret a' ∧ arena_inv a' bs'.
Proof.
  intros [Hb He Ht Hs Hh] bs' a'. pose proof Hs as Hs1. apply Forall_app in Hs1 as [Hsl Hsr]. pose proof (total_pos _ Hsl) as Htl.
  apply Forall_cons in Hsr as [Hs0 Hsr].
  assert (Hs' : Forall (λ b, 0 ≤ b.1) (l ++ (s, true) :: r)) by (apply Forall_app; split; [done|by constructor]).
  assert (Ht' : total (l ++ (s, true) :: r) = ARENA_SIZE) by (rewrite <- Ht, !total_app, !total_cons; done).
  pose proof (total_pos _ Hsr) as Htr. rewrite total_app, total_cons in Ht. unfold span in Ht. cbn [fst] in *.
  split.
  - unfold free. destruct (Z.eqb_spec (first_block a + total l + BLOCK_HDR) 0); [unfold BLOCK_HDR in *; lia|].
    replace (first_block a + total l + BLOCK_HDR - BLOCK_HDR) with (first_block a + total l) by lia.
    rewrite u64_small by (unfold BLOCK_HDR, ARENA_SIZE in *; lia). rewrite Hh, block_at by done. cbn [deref]. rewrite bind_Ret.
    cbn [bsize bnext fst snd]. rewrite (block_set _ _ l (s, f) (s, true)) by done.
    rewrite map_size_list_to_map, hdrs_length by (by apply hdrs_nodup).
    assert (Ex : first_block a = link (first_block a + ARENA_SIZE) (first_block a + total [])) by (unfold link, ARENA_SIZE; cbn; zcase; lia).
    rewrite Ex at 3. rewrite (free_loop_spec _ _ _ (l ++ (s, true) :: r) []); [done|lia|done|done|cbn [app]; lia|done].
  - split; cbn [first_block headers a' set_headers]; try done.
    + unfold bs'. by rewrite total_coalesce.
    + by apply coalesce_sizes.
Qed.

(** C34. [free] of a block in use takes exactly that block out of use, and merges
    the free blocks around it: afterwards the arena is tiled as before, no two
    neighbours are both free, and no byte of memory has changed. *)
Theorem free_spec a l s r : arena_inv a (l ++ (s, false) :: r) →
  let x := first_block a in let p := x + total l + BLOCK_HDR in
  returns (free a p) (λ a', ∃ bs', arena_inv a' bs' ∧ first_block a' = x ∧ aram a' = aram a ∧
    (p, s) :: used x bs' ≡ₚ used x (l ++ (s, false) :: r) ∧
    ∀ l' b c r', bs' = l' ++ b :: c :: r' → b.2 && c.2 = false).
Proof.
  intros Hi x p. unfold p, x. destruct (free_step a l s r false Hi) as [-> Hi']. exists (coalesce (l ++ (s, true) :: r)).
  split_and!; try done.
  - rewrite used_coalesce, !used_app. cbn [used snd app]. apply Permutation_middle.
  - apply coalesced.
Qed.

Lemma coalesce_app_eq l : ∀ r r', coalesce r = coalesce r' → coalesce (l ++ r) = coalesce (l ++ r').
Proof. induction l as [|b l IH]; intros r r' Hr; [done|]. cbn [app]. by rewrite !coalesce_cons, (IH r r' Hr). Qed.

(** Freeing a fresh block of a merged arena restores the arena. *)
Theorem malloc_free_roundtrip a bs size p a1 : arena_inv a bs → coalesce bs = bs → 0 < size < 2 ^ 62 →
  malloc mmap_arena a size = Ret (p, a1) → p ≠ 0 → free a1 p = Ret a.
Proof.
  intros Hi Hc Hsz Hm Hp. pose proof Hi as [Hb He Ht Hs Hh]. pose proof (rounded_bounds size ltac:(lia)) as Hr.
  unfold malloc in Hm. destruct (Z.eqb_spec size 0); [lia|]. unfold heap_init in Hm.
  destruct (Z.eqb_spec (first_block a) 0); [lia|]. cbn [negb] in Hm. rewrite (headers_size a bs Hi), align_size_spec in Hm by lia.
  assert (Ex : first_block a = link (first_block a + ARENA_SIZE) (first_block a + total [])) by (unfold link, ARENA_SIZE; cbn; zcase; lia).
  rewrite Ex in Hm. pose proof (malloc_loop_spec a (rounded size) bs [] (S (length bs)) Hi ltac:(lia) ltac:(lia) (Forall_nil_2 _)) as Hl.
  cbn zeta in Hl. rewrite Hm in Hl. cbn [app returns] in Hl.
  destruct Hl as [(-> & _)|(l & s & r & -> & Hl & Hns & -> & Hmem & Hf & Hi')]; [done|].
  destruct (placed_cons s (rounded size)) as (k & t & Et & Ec). rewrite Et, <- app_comm_cons in Hi'.
  destruct (free_step a1 l k (t ++ r) false Hi') as [Hfree _]. rewrite Hf in Hfree. rewrite Hfree. f_equal.
  assert (Eq : coalesce (l ++ (k, true) :: t ++ r) = l ++ (s, true) :: r).
  { rewrite <- Hc. apply coalesce_app_eq. apply Ec. }
  rewrite Eq, <- Hh. destruct a, a1. unfold set_headers. cbn in *. congruence.
Qed.
End allocator.

(** The first call sets the arena up as one free block. *)
Lemma heap_init_inv base a : 0 < base < MAP_FAILED → base + ARENA_SIZE < 2 ^ 63 → first_block a = 0 → headers a = ∅ →
  let a' := (heap_init base a).2 in
  (∀ size, malloc base a size = if size =? 0 then Ret (0, a) else malloc base a' size) ∧
  arena_inv a' [(ARENA_SIZE - BLOCK_HDR, true)] ∧ first_block a' = base ∧ aram a' = aram a.
Proof.
  intros Hb He Hf Hh. unfold heap_init. rewrite Hf. cbn [Z.eqb negb]. destruct (Z.eqb_spec base MAP_FAILED); [lia|]. cbn [snd].
  assert (Ei : arena_inv (Arena base (<[base := Block (ARENA_SIZE - BLOCK_HDR) 0 true]> (headers a)) (aram a)) [(ARENA_SIZE - BLOCK_HDR, true)]).
  { split; cbn [first_block headers aram]; [lia|lia|done|repeat constructor; cbn; unfold ARENA_SIZE, BLOCK_HDR; lia|].
    rewrite Hh. cbn [hdrs list_to_map foldr fst snd curry]. unfold span, link. cbn [fst].
    destruct (Z.eqb_spec (base + (BLOCK_HDR + (ARENA_SIZE - BLOCK_HDR))) (base + ARENA_SIZE)); [done|lia]. }
  split_and!; [|done..]. intros size. unfold malloc. zcase; [done|]. unfold heap_init. rewrite Hf. cbn [Z.eqb negb first_block].
  destruct (Z.eqb_spec base MAP_FAILED); [lia|]. destruct (Z.eqb_spec base 0); [lia|done].
Qed.

(** ** A concrete arena *)

Definition demo_arena : arena := (heap_init 0x10000 (Arena 0 ∅ ∅)).2.
Lemma demo_arena_inv : arena_inv demo_arena [(ARENA_SIZE - BLOCK_HDR, true)].
Proof. apply (heap_init_inv 0x10000 (Arena 0 ∅ ∅)); unfold MAP_FAILED, ARENA_SIZE; cbn; (done || lia). Qed.
Definition demo_taken : arena :=
  set_headers demo_arena (list_to_map (hdrs (0x10000 + ARENA_SIZE) 0x10000 [(112, false); (ARENA_SIZE - 160, true)])).
Lemma demo_taken_inv : arena_inv demo_taken ([] ++ (112, false) :: [(ARENA_SIZE - 160, true)]).
Proof. split; [vdone|vdone|vdone|repeat constructor; vdone|reflexivity]. Qed.

Lemma malloc_witness : arena_inv demo_arena [(ARENA_SIZE - BLOCK_HDR, true)] ∧
  returns (malloc 0x10000 demo_arena 100) (λ '(p, a'), first_block a' = 0x10000).
Proof.
  split; [exact demo_arena_inv|].
  eapply returns_mono; [apply (malloc_spec 0x10000 demo_arena _ 100 demo_arena_inv); lia|].
  intros [p a'] [(_ & -> & _)|(l & s & r & k & _ & _ & _ & _ & _ & _ & -> & _)]; reflexivity.
Defined.

Lemma free_witness : arena_inv demo_taken ([] ++ (112, false) :: [(ARENA_SIZE - 160, true)]) ∧
  returns (free demo_taken 0x10018) (λ a', aram a' = ∅).
Proof.
  split; [exact demo_taken_inv|].
  eapply returns_mono; [apply (free_spec demo_taken [] 112 [(ARENA_SIZE - 160, true)] demo_taken_inv)|].
  intros a' (bs' & _ & _ & Hm & _). exact Hm.
Defined.

(** Pointers are not aligned to [MALLOC_ALIGNMENT]: the header is 24 bytes long. *)
Example malloc_misaligned :
  returns (malloc 0x10000 demo_arena 100) (λ '(p, _), p mod MALLOC_ALIGNMENT = 8).
Proof. vm_compute. reflexivity. Qed.

(** A size near [2^64] is rounded up to 0. *)
Example malloc_wraps :
  returns (malloc 0x10000 demo_arena (2 ^ 64 - 1)) (λ '(p, _), p = 0x10018).
Proof. vm_compute. reflexivity. Qed.
