(* ===== verification/LibcFmt.v ===== *)
(** Formatted output and input of user programs: [user/libc/src/stdio.c]
    ([vsnprintf], [sscanf] and what they call) and [printf.c].  A variable argument
    list is a list of 64-bit words; reading past its end is undefined. *)
From S2P Require Import Prelude Ram Str LibcStr LibcMalloc.

(** ** Output to a bounded buffer *)

(** [output_buffer_t]: [data] and [capacity] do not change; the memory and
    [position] do. *)
Section emit.
Context (data capacity : Z).

Definition emit (o : ram * Z) (character : Z) : ram * Z :=
  let '(m, position) := o in
  (if negb (capacity =? 0) && (u64 (position + 1) <? capacity) then st8 m (data + position) character else m,
   u64 (position + 1)).

(** [while (...) { emit(output, c); ... }], [n] times. *)
Fixpoint emit_n (n : nat) (o : ram * Z) (c : Z) : ram * Z :=
  match n with O => o | S n => emit_n n (emit o c) c end.
(** The bytes of an array, first to last. *)
Definition emit_list (o : ram * Z) (cs : list Z) : ram * Z := foldl emit o cs.

Definition digit_char (digit : Z) (uppercase : bool) : Z :=
  if digit <? 10 then 48 + digit else (if uppercase then 65 else 97) + digit - 10.
(** The array [reversed] of [emit_number], least significant digit first. *)
Fixpoint digit_loop (n : nat) (value base : Z) (uppercase : bool) : res (list Z) :=
  match n with
  | O => NoFuel
  | S n => if value =? 0 then Ret [] else
           ds ← digit_loop n (value / base) base uppercase;
           Ret (digit_char (value mod base) uppercase :: ds)
  end.
(** A [u64] has at most 20 decimal digits. *)
Definition NUM_FUEL : nat := 21.

Definition emit_number (o : ram * Z) (value base : Z) (uppercase negative : bool) (width precision padding : Z) :
    res (ram * Z) :=
  ds ← digit_loop NUM_FUEL value base uppercase;
  let reversed := if value =? 0 then [48] else ds in
  let digits := Z.of_nat (length reversed) in
  let zeroes := if digits <? precision then precision - digits else 0 in
  let total := digits + zeroes + (if negative then 1 else 0) in
  let '(o, negative) :=
    if (padding =? 48) && (precision <? 0) then
      (emit_n (Z.to_nat (width - total)) (if negative then emit o 45 else o) 48, false)
    else (emit_n (Z.to_nat (width - total)) o 32, negative) in
  let o := if negative then emit o 45 else o in
  let o := emit_n (Z.to_nat zeroes) o 48 in
  Ret (emit_list o (reverse reversed)).

(** The text of a [%s]: up to its terminator or [precision] bytes. *)
Fixpoint text_loop (fuel : nat) (o : ram * Z) (text emitted precision : Z) : res (ram * Z) :=
  match fuel with
  | O => NoFuel
  | S fuel =>
      let c := ld8 o.1 text in
      if negb (c =? 0) && ((precision <? 0) || (emitted <? precision))
      then text_loop fuel (emit o c) (text + 1) (emitted + 1) precision
      else Ret o
  end.
(** ["(null)"] *)
Definition NULL_TEXT : list Z := [40; 110; 117; 108; 108; 41].

(** [while (isdigit( *format)) n = n * 10 + *format++ - '0'] is [int_loop]. *)
Fixpoint count_l (fuel : nat) (m : ram) (format long_modifier : Z) : res (Z * Z) :=
  match fuel with
  | O => NoFuel
  | S fuel => if ld8 m format =? 108 then count_l fuel m (format + 1) (long_modifier + 1)
              else Ret (long_modifier, format)
  end.

(** The conversions, after flags, width, precision and length. *)
Definition convert (fuel : nat) (o : ram * Z) (args : list Z) (conv : Z) (long : bool) (width precision padding : Z) :
    res ((ram * Z) * list Z) :=
  if conv =? 115 (* s *) then
    '(text, args) ← va_arg args;
    o ← (if text =? 0 then Ret (emit_list o (if precision <? 0 then NULL_TEXT else take (Z.to_nat precision) NULL_TEXT))
         else text_loop fuel o text 0 precision);
    Ret (o, args)
  else if conv =? 99 (* c *) then '(w, args) ← va_arg args; Ret (emit o w, args)
  else if (conv =? 100) || (conv =? 105) (* d, i *) then
    '(w, args) ← va_arg args;
    let value := if long then i64 w else i32 w in
    let magnitude := if value <? 0 then u64 (- u64 value) else u64 value in
    o ← emit_number o magnitude 10 false (value <? 0) width precision padding;
    Ret (o, args)
  else if conv =? 117 (* u *) then
    '(w, args) ← va_arg args;
    o ← emit_number o (if long then u64 w else u32 w) 10 false false width precision padding;
    Ret (o, args)
  else if (conv =? 120) || (conv =? 88) (* x, X *) then
    '(w, args) ← va_arg args;
    o ← emit_number o (if long then u64 w else u32 w) 16 (conv =? 88) false width precision padding;
    Ret (o, args)
  else if conv =? 112 (* p *) then
    '(w, args) ← va_arg args;
    o ← emit_number (emit (emit o 48) 120) (u64 w) 16 false false 0 (-1) 32;
    Ret (o, args)
  else if conv =? 37 then Ret (emit o 37, args)
  else Ret (emit o conv, args).

(** What follows a percent sign: flag, width, precision, length, conversion. *)
Definition directive (fuel : nat) (o : ram * Z) (format : Z) (args : list Z) : res ((ram * Z) * Z * list Z) :=
  let m := o.1 in
  let '(padding, format) := if ld8 m format =? 48 then (48, format + 1) else (32, format) in
  '(width, format) ← int_loop fuel m format 0;
  '(precision, format) ← (if ld8 m format =? 46 then int_loop fuel m (format + 1) 0 else Ret (-1, format));
  '(long_modifier, format) ← count_l fuel m format 0;
  '(o, args) ← convert fuel o args (ld8 m format) (negb (long_modifier =? 0)) width precision padding;
  Ret (o, format + 1, args).

Fixpoint format_loop (n fuel : nat) (o : ram * Z) (format : Z) (args : list Z) : res (ram * Z) :=
  match n with
  | O => NoFuel
  | S n =>
      let c := ld8 o.1 format in
      if c =? 0 then Ret o else
      if negb (c =? 37) then format_loop n fuel (emit o c) (format + 1) args else
      '(o, format, args) ← directive fuel o (format + 1) args;
      format_loop n fuel o format args
  end.
End emit.

Section stdio.
Context (fuel : nat).

Definition vsnprintf (m : ram) (buffer size format : Z) (arguments : list Z) : res (ram * Z) :=
  '(m, position) ← format_loop buffer size fuel fuel (m, 0) format arguments;
  Ret (if negb (size =? 0) then st8 m (buffer + (if position <? size then position else size - 1)) 0 else m,
       i32 position).
Definition snprintf (m : ram) (buffer size format : Z) (arguments : list Z) : res (ram * Z) :=
  vsnprintf m buffer size format arguments.
Definition sprintf (m : ram) (buffer format : Z) (arguments : list Z) : res (ram * Z) :=
  vsnprintf m buffer (2 ^ 64 - 1) format arguments.

(** ** [sscanf] *)

Fixpoint skip_space (fuel : nat) (m : ram) (p : Z) : res Z :=
  match fuel with
  | O => NoFuel
  | S fuel => if isspace (ld8 m p) then skip_space fuel m (p + 1) else Ret p
  end.
Fixpoint word_loop (fuel : nat) (m : ram) (destination input : Z) : res (ram * Z * Z) :=
  match fuel with
  | O => NoFuel
  | S fuel => if negb (ld8 m input =? 0) && negb (isspace (ld8 m input))
              then word_loop fuel (st8 m destination (ld8 m input)) (destination + 1) (input + 1)
              else Ret (m, destination, input)
  end.

Fixpoint scan_loop (n : nat) (m : ram) (input format : Z) (args : list Z) (assignments : Z) : res (ram * Z) :=
  match n with
  | O => NoFuel
  | S n =>
      let f := ld8 m format in
      let c := ld8 m input in
      if (f =? 0) || (c =? 0) then Ret (m, assignments) else
      if isspace f then
        format ← skip_space fuel m format;
        input ← skip_space fuel m input;
        scan_loop n m input format args assignments
      else if negb (f =? 37) then
        if negb (c =? f) then Ret (m, assignments) else scan_loop n m (input + 1) (format + 1) args assignments
      else
      let format := format + 1 in
      let f := ld8 m format in
      if (f =? 100) || (f =? 105) then
        '(destination, args) ← va_arg args;
        let '(sign, input) := if c =? 45 then (-1, input + 1) else (1, input) in
        if negb (isdigit (ld8 m input)) then Ret (m, assignments) else
        '(value, input) ← int_loop fuel m input 0;
        scan_loop n (st_le 4 m destination (u32 (value * sign))) input (format + 1) args (assignments + 1)
      else if f =? 115 then
        '(destination, args) ← va_arg args;
        '(m, destination, input) ← word_loop fuel m destination input;
        scan_loop n (st8 m destination 0) input (format + 1) args (assignments + 1)
      else Ret (m, assignments)
  end.
Definition sscanf (m : ram) (input format : Z) (args : list Z) : res (ram * Z) :=
  scan_loop fuel m input format args 0.

(** ** [printf.c]

    The bytes given to [write(1, ...)], in order. *)

Definition print_uint (out : list Z) (val base : Z) (upper : bool) : res (list Z) :=
  ds ← digit_loop NUM_FUEL val base upper;
  Ret (out ++ reverse (if val =? 0 then [48] else ds)).
Definition print_int (out : list Z) (val : Z) : res (list Z) :=
  if val <? 0 then print_uint (out ++ [45]) (u64 (i64 (- val))) 10 false else print_uint out (u64 val) 10 false.

(** The bytes from [p] on. *)
Definition bytes_at (m : ram) (p n : Z) : list Z := (λ i, ld8 m (p + Z.of_nat i)) <$> seq 0 (Z.to_nat n).

Fixpoint printf_loop (n : nat) (m : ram) (out : list Z) (fmt : Z) (ap : list Z) (written : Z) : res (list Z * Z) :=
  match n with
  | O => NoFuel
  | S n =>
      let c := ld8 m fmt in
      if c =? 0 then Ret (out, written) else
      if negb (c =? 37) then printf_loop n m (out ++ [c]) (fmt + 1) ap (i32 (written + 1)) else
      let fmt := fmt + 1 in
      let c := ld8 m fmt in
      '(out, ap, written) ← (
        if c =? 115 then
          '(s, ap) ← va_arg ap; len ← strlen fuel m s;
          Ret (out ++ bytes_at m s len, ap, i32 (written + i32 len))
        else if (c =? 100) || (c =? 105) then '(w, ap) ← va_arg ap; out ← print_int out (i32 w); Ret (out, ap, written)
        else if c =? 117 then '(w, ap) ← va_arg ap; out ← print_uint out (u32 w) 10 false; Ret (out, ap, written)
        else if c =? 120 then '(w, ap) ← va_arg ap; out ← print_uint out (u32 w) 16 false; Ret (out, ap, written)
        else if c =? 88 then '(w, ap) ← va_arg ap; out ← print_uint out (u32 w) 16 true; Ret (out, ap, written)
        else if c =? 112 then
          '(w, ap) ← va_arg ap; out ← print_uint (out ++ [48; 120]) (u64 w) 16 false; Ret (out, ap, written)
        else if c =? 99 then '(w, ap) ← va_arg ap; Ret (out ++ [u8 w], ap, written)
        else if c =? 37 then Ret (out ++ [37], ap, written)
        else Ret (out ++ [c], ap, written));
      printf_loop n m out (fmt + 1) ap written
  end.
Definition printf (m : ram) (out : list Z) (fmt : Z) (ap : list Z) : res (list Z * Z) := printf_loop fuel m out fmt ap 0.

Definition puts (m : ram) (out : list Z) (s : Z) : res (list Z * Z) :=
  len ← strlen fuel m s; Ret (out ++ bytes_at m s len ++ [10], i32 (len + 1)).

(** [vfprintf]: the bytes it gives to [write] and its result, when [write] returns
    [written]; [buffer] is its array on the stack. *)
Definition vfprintf (m : ram) (buffer format : Z) (arguments : list Z) (written : Z) : res (list Z * Z) :=
  '(m, result) ← vsnprintf m buffer 1024 format arguments;
  if result <? 0 then Ret ([], result) else
  let bytes := if result <? 1024 then result else 1024 - 1 in
  Ret (bytes_at m buffer bytes, if written <? 0 then -1 else result).
(** [putchar] of [stdio.c]: the byte it writes and its result. *)
Definition putchar (character written : Z) : Z * Z :=
  (u8 character, if written =? 1 then u8 character else -1).
End stdio.

(** ** The text a format stands for

    A reference formatter on lists: the format as its bytes, the arguments as
    numbers and texts. *)
Inductive arg := ANum (w : Z) | AText (s : list Z).

Fixpoint num_digits (n : nat) (value base : Z) (uppercase : bool) : list Z :=
  match n with
  | O => []
  | S n => if value =? 0 then [] else digit_char (value mod base) uppercase :: num_digits n (value / base) base uppercase
  end.
Definition pad (n c : Z) : list Z := replicate (Z.to_nat n) c.

(** A number of at least [precision] digits in a field of [width]. *)
Definition num_text (value base : Z) (uppercase negative : bool) (width precision padding : Z) : list Z :=
  let ds := if value =? 0 then [48] else reverse (num_digits 20 value base uppercase) in
  let digits := Z.of_nat (length ds) in
  let zeroes := Z.max 0 (precision - digits) in
  let sign := if negative then [45] else [] in
  let fill := width - (digits + zeroes + Z.of_nat (length sign)) in
  if (padding =? 48) && (precision <? 0) then sign ++ pad fill 48 ++ ds
  else pad fill 32 ++ sign ++ pad zeroes 48 ++ ds.

Definition conv_text (args : list arg) (conv : Z) (long : bool) (width precision padding : Z) : option (list Z * list arg) :=
  match args with
  | AText s :: args' =>
      if conv =? 115 then Some (if precision <? 0 then s else take (Z.to_nat precision) s, args')
      else if conv =? 37 then Some ([37], args) else None
  | ANum w :: args' =>
      if conv =? 99 then Some ([u8 w], args')
      else if (conv =? 100) || (conv =? 105) then
        let v := if long then i64 w else i32 w in
        Some (num_text (Z.abs v) 10 false (v <? 0) width precision padding, args')
      else if conv =? 117 then Some (num_text (if long then u64 w else u32 w) 10 false false width precision padding, args')
      else if (conv =? 120) || (conv =? 88) then
        Some (num_text (if long then u64 w else u32 w) 16 (conv =? 88) false width precision padding, args')
      else if conv =? 112 then Some ([48; 120] ++ num_text (u64 w) 16 false false 0 (-1) 32, args')
      else if conv =? 37 then Some ([37], args) else None
  | [] => if conv =? 37 then Some ([37], []) else None
  end.

(** A decimal number at the head of a list, and the rest. *)
Fixpoint span_int (f : list Z) (value : Z) : Z * list Z :=
  match f with
  | c :: f' => if isdigit c then span_int f' (i32 (value * 10 + c - 48)) else (value, f)
  | [] => (value, [])
  end.
Fixpoint span_l (f : list Z) (k : Z) : Z * list Z :=
  match f with
  | c :: f' => if c =? 108 then span_l f' (k + 1) else (k, f)
  | [] => (k, [])
  end.
Definition span_flag (f : list Z) : Z * list Z :=
  match f with c :: f' => if c =? 48 then (48, f') else (32, f) | [] => (32, []) end.
Definition span_precision (f : list Z) : Z * list Z :=
  match f with c :: f' => if c =? 46 then span_int f' 0 else (-1, f) | [] => (-1, []) end.
Definition directive_text (f : list Z) (args : list arg) : option (list Z * list Z * list arg) :=
  let '(padding, f) := span_flag f in
  let '(width, f) := span_int f 0 in
  let '(precision, f) := span_precision f in
  let '(long, f) := span_l f 0 in
  match f with
  | [] => None
  | conv :: f => '(t, args) ← conv_text args conv (negb (long =? 0)) width precision padding; Some (t, f, args)
  end.
Fixpoint format_text (n : nat) (f : list Z) (args : list arg) : option (list Z) :=
  match n, f with
  | _, [] => Some []
  | O, _ => None
  | S n, c :: f =>
      if c =? 37 then
        '(t, f, args) ← directive_text f args; t' ← format_text n f args; Some (t ++ t')
      else t ← format_text n f args; Some (c :: t)
  end.

(** ** Emission *)

Section text.
Context (data capacity : Z).
Notation emits := (emit_list data capacity).

Lemma emit_list_app o cs ds : emits o (cs ++ ds) = emits (emits o cs) ds.
Proof. unfold emit_list. by rewrite foldl_app. Qed.
Lemma emit_list_cons o c cs : emits o (c :: cs) = emits (emit data capacity o c) cs.
Proof. done. Qed.
Lemma emit_n_list n : ∀ o c, emit_n data capacity n o c = emits o (replicate n c).
Proof. induction n as [|n IH]; intros o c; [done|]. cbn [emit_n replicate]. by rewrite IH. Qed.

(** What is emitted goes to the buffer as far as it fits, and is counted. *)
Lemma emit_list_poke cs : ∀ m pos, 0 ≤ pos → pos + Z.of_nat (length cs) < 2 ^ 63 → capacity < 2 ^ 64 →
  emits (m, pos) cs =
    (poke m (data + pos) (take (Z.to_nat (capacity - 1 - pos)) cs), pos + Z.of_nat (length cs)).
Proof.
  induction cs as [|c cs IH]; intros m pos Hp Hl Hc.
  { rewrite take_nil. cbn. by rewrite Z.add_0_r. }
  rewrite emit_list_cons. unfold emit. cbn [length] in Hl. rewrite u64_small by lia.
  rewrite IH by lia. cbn [length]. f_equal; [|lia].
  destruct (Z.eqb_spec capacity 0), (Z.ltb_spec (pos + 1) capacity); cbn [negb andb]; try lia.
  - replace (Z.to_nat (capacity - 1 - pos)) with O by lia. replace (Z.to_nat (capacity - 1 - (pos + 1))) with O by lia. done.
  - replace (Z.to_nat (capacity - 1 - pos)) with (S (Z.to_nat (capacity - 1 - (pos + 1)))) by lia.
    cbn [take firstn poke]. by replace (data + (pos + 1)) with (data + pos + 1) by lia.
  - replace (Z.to_nat (capacity - 1 - pos)) with O by lia. replace (Z.to_nat (capacity - 1 - (pos + 1))) with O by lia. done.
Qed.

Lemma digit_loop_spec base uppercase n : ∀ v, 2 ≤ base → 0 ≤ v < base ^ Z.of_nat n →
  digit_loop (S n) v base uppercase = Ret (num_digits n v base uppercase).
Proof.
  induction n as [|n IH]; intros v Hb Hv.
  { change (base ^ Z.of_nat 0) with 1 in Hv. assert (v = 0) as -> by lia. done. }
  rewrite Nat2Z.inj_succ, Z.pow_succ_r in Hv by lia.
  change (digit_loop (S (S n)) v base uppercase) with
    (if v =? 0 then Ret [] else ds ← digit_loop (S n) (v / base) base uppercase; Ret (digit_char (v mod base) uppercase :: ds)).
  cbn [num_digits]. zcase; [done|]. rewrite IH; [done|lia|].
  split; [apply Z.div_pos; lia|apply Z.div_lt_upper_bound; lia].
Qed.

Lemma emit_number_spec o v base uppercase negative width precision padding : 2 ≤ base → 0 ≤ v < base ^ 20 →
  emit_number data capacity o v base uppercase negative width precision padding =
    Ret (emits o (num_text v base uppercase negative width precision padding)).
Proof.
  intros Hb Hv. unfold emit_number, num_text, NUM_FUEL. rewrite (digit_loop_spec base uppercase 20) by done. rewrite bind_Ret.
  assert (E : (if v =? 0 then [48] else reverse (num_digits 20 v base uppercase)) =
              reverse (if v =? 0 then [48] else num_digits 20 v base uppercase)) by (zcase; done).
  rewrite E, length_reverse. set (ds := if v =? 0 then _ else _). set (d := Z.of_nat (length ds)).
  assert (Ez : (if d <? precision then precision - d else 0) = Z.max 0 (precision - d)) by (zcase; lia). rewrite Ez.
  assert (Es : Z.of_nat (length (if negative then [45] else [])) = if negative then 1 else 0) by (by destruct negative). rewrite Es.
  unfold pad. rewrite !emit_n_list.
  destruct ((padding =? 48) && (precision <? 0)) eqn:Ep.
  - apply andb_true_iff in Ep as [_ Hp%Z.ltb_lt]. replace (Z.max 0 (precision - d)) with 0 by lia.
    cbn [Z.to_nat replicate]. rewrite !emit_list_app. by destruct negative.
  - rewrite !emit_n_list, !emit_list_app. by destruct negative.
Qed.

(** ** Reading while writing

    [m0] is the memory at the call and [T] the length of the whole text: nothing
    that is read lies where the text goes. *)
Context (m0 : ram) (T : Z) (fuel : nat).
Context (HT : T < 2 ^ 63) (Hcap : capacity < 2 ^ 64).

Definition ext : Z := T `min` capacity.
Definition agree (o : ram * Z) : Prop :=
  0 ≤ o.2 ∧ ∀ x, x < data ∨ data + ext ≤ x → ld8 o.1 x = ld8 m0 x.
(** The string [f] stands at [p], out of the way. *)
Definition here (p : Z) (f : list Z) : Prop :=
  str_at m0 p f ∧ (p + Z.of_nat (length f) < data ∨ data + ext ≤ p) ∧ (length f < fuel)%nat.
Definition arg_ok (w : Z) (a : arg) : Prop :=
  match a with ANum v => w = v | AText s => w ≠ 0 ∧ here w s end.

Lemma here_read o p f : agree o → here p f → str_at o.1 p f.
Proof.
  intros [_ Ho] (Hs & Hc & _). eapply str_at_ext; [|exact Hs]. intros x Hx. apply Ho. lia.
Qed.
Lemma here_tail p c f : here p (c :: f) → here (p + 1) f.
Proof. intros ((_ & _ & Hs) & Hc & Hf). cbn [length] in *. split_and!; [done|lia|lia]. Qed.
Lemma here_head o p c f : agree o → here p (c :: f) → ld8 o.1 p = c ∧ c ≠ 0.
Proof. intros Ho Hh. by destruct (here_read _ _ _ Ho Hh) as (? & ? & _). Qed.
Lemma here_nil o p : agree o → here p [] → ld8 o.1 p = 0.
Proof. intros Ho Hh. exact (here_read _ _ _ Ho Hh). Qed.

Lemma emit_list_agree o cs : agree o → o.2 + Z.of_nat (length cs) ≤ T →
  agree (emits o cs) ∧ (emits o cs).2 = o.2 + Z.of_nat (length cs).
Proof.
  destruct o as [m pos]. intros [Hp Ho] Hl. cbn [fst snd] in *. rewrite emit_list_poke by lia. cbn [fst snd].
  split; [|done]. split; cbn [fst snd]; [lia|]. intros x Hx. rewrite <- Ho by done. apply ld8_poke_out.
  rewrite length_take. unfold ext in Hx. lia.
Qed.

Lemma text_loop_spec s : ∀ n o p k precision, agree o → here p s → (length s < n)%nat → 0 ≤ k →
  let t := if precision <? 0 then s else take (Z.to_nat (precision - k)) s in
  o.2 + Z.of_nat (length t) ≤ T → text_loop data capacity n o p k precision = Ret (emits o t).
Proof.
  induction s as [|c s IH]; intros [|n] o p k precision Ho Hh Hn Hk t Hl; cbn [length] in Hn; try lia; cbn [text_loop].
  - rewrite (here_nil _ _ Ho Hh). unfold t. rewrite take_nil. by destruct (precision <? 0).
  - destruct (here_head _ _ _ _ Ho Hh) as [-> Hc]. destruct (Z.eqb_spec c 0); [done|]. cbn [negb andb].
    assert (Et : (precision <? 0) || (k <? precision) = true → t = c :: if precision <? 0 then s else take (Z.to_nat (precision - (k + 1))) s).
    { unfold t. destruct (Z.ltb_spec precision 0), (Z.ltb_spec k precision); cbn [orb]; intros E; try done.
      replace (Z.to_nat (precision - k)) with (S (Z.to_nat (precision - (k + 1)))) by lia. done. }
    destruct ((precision <? 0) || (k <? precision)) eqn:Ep.
    + rewrite (Et eq_refl) in Hl |- *. rewrite emit_list_cons. change (emit data capacity o c) with (emits o [c]).
      cbn [length] in Hl. destruct (emit_list_agree o [c] Ho) as [Ho' E2]; [cbn; lia|].
      apply IH; [done|by eapply here_tail|lia|lia|]. rewrite E2. cbn [length]. lia.
    + unfold t. destruct (Z.ltb_spec precision 0), (Z.ltb_spec k precision); try done.
      by replace (Z.to_nat (precision - k)) with O by lia.
Qed.

Lemma emit_u8 o w : emit data capacity o w = emits o [u8 w].
Proof.
  destruct o as [m pos]. cbn. unfold st8. do 3 f_equal. unfold u8. by rewrite Z.mod_mod.
Qed.

(** A signed value as the code prints it: sign and magnitude. *)
Lemma magnitude v : - 2 ^ 63 ≤ v < 2 ^ 63 → (if v <? 0 then u64 (- u64 v) else u64 v) = Z.abs v.
Proof.
  intros Hv. zcase; [|rewrite u64_small; lia].
  assert (E : u64 v = v + 2 ^ 64) by (unfold u64; rewrite <- (Z.mod_small (v + 2 ^ 64) (2 ^ 64)) by lia; rewrite Z.add_mod, Z.mod_same, Z.add_0_r, Z.mod_mod by lia; done).
  rewrite E. unfold u64. replace (- (v + 2 ^ 64)) with (- v + -1 * 2 ^ 64) by lia. rewrite Z.mod_add by lia. rewrite Z.mod_small; lia.
Qed.

Lemma i64_range w : - 2 ^ 63 ≤ i64 w < 2 ^ 63.
Proof. unfold i64. pose proof (Z.mod_pos_bound (w + 2 ^ 63) (2 ^ 64)). lia. Qed.
Lemma i32_range w : - 2 ^ 31 ≤ i32 w < 2 ^ 31.
Proof. unfold i32. pose proof (Z.mod_pos_bound (w + 2 ^ 31) (2 ^ 32)). lia. Qed.

Lemma convert_num o w words conv long width precision padding t args args' :
  conv_text (ANum w :: args) conv long width precision padding = Some (t, args') → conv ≠ 37 →
  convert data capacity fuel o (w :: words) conv long width precision padding = Ret (emits o t, words) ∧ args' = args.
Proof.
  intros Hc H37. unfold convert. cbn [conv_text va_arg] in *.
  assert (Hu : ∀ l : bool, 0 ≤ (if l then u64 w else u32 w) < 10 ^ 20) by (intros []; [pose proof (u64_range w)|pose proof (u32_range w)]; lia).
  assert (Hu' : ∀ l : bool, 0 ≤ (if l then u64 w else u32 w) < 16 ^ 20) by (intros l; specialize (Hu l); lia).
  assert (Hi : - 2 ^ 63 ≤ (if long then i64 w else i32 w) < 2 ^ 63) by (destruct long; [apply i64_range|pose proof (i32_range w); lia]).
  destruct (Z.eqb_spec conv 99) as [->|]; [injection Hc as <- <-; cbn [Z.eqb Pos.eqb orb]; rewrite bind_Ret, emit_u8; done|].
  destruct (Z.eqb_spec conv 115) as [->|]; [done|].
  destruct ((conv =? 100) || (conv =? 105)) eqn:Ed.
  { injection Hc as <- <-. rewrite bind_Ret, magnitude by done. rewrite emit_number_spec by lia. done. }
  destruct (Z.eqb_spec conv 117) as [->|]; [injection Hc as <- <-; rewrite bind_Ret, emit_number_spec by (done || lia); done|].
  destruct ((conv =? 120) || (conv =? 88)) eqn:Ex.
  { injection Hc as <- <-. rewrite bind_Ret, emit_number_spec by (done || lia). done. }
  destruct (Z.eqb_spec conv 112) as [->|].
  { injection Hc as <- <-. rewrite bind_Ret, emit_number_spec by (specialize (Hu' true); cbn in *; lia). done. }
  destruct (Z.eqb_spec conv 37); done.
Qed.

Lemma convert_spec o words args conv long width precision padding t args' :
  agree o → Forall2 arg_ok words args → conv_text args conv long width precision padding = Some (t, args') →
  o.2 + Z.of_nat (length t) ≤ T →
  ∃ words', convert data capacity fuel o words conv long width precision padding = Ret (emits o t, words') ∧
    Forall2 arg_ok words' args'.
Proof.
  intros Ho Ha Hc Hl. destruct (Z.eqb_spec conv 37) as [->|H37].
  { assert (E : (t, args') = ([37], args)) by (destruct args as [|[] ?]; cbn in Hc; congruence).
    injection E as -> ->. exists words. done. }
  destruct Ha as [|w [v|s] words args Hw Ha].
  - cbn in Hc. destruct (Z.eqb_spec conv 37); [lia|done].
  - cbn in Hw. subst v. exists words. destruct (convert_num o w words _ _ _ _ _ _ _ _ Hc H37) as [-> ->]. done.
  - cbn [conv_text] in Hc. destruct (Z.eqb_spec conv 115) as [->|]; [|destruct (Z.eqb_spec conv 37); done].
    injection Hc as <- <-. destruct Hw as [Hw Hh]. exists words. split; [|done]. unfold convert. cbn [Z.eqb Pos.eqb va_arg].
    rewrite bind_Ret. destruct (Z.eqb_spec w 0); [done|]. pose proof Hh as (_ & _ & Hf).
    pose proof (text_loop_spec s fuel o w 0 precision Ho Hh Hf ltac:(lia)) as Ht. rewrite Z.sub_0_r in Ht. cbn zeta in Ht.
    by rewrite (Ht Hl).
Qed.

Lemma int_loop_spec o f : ∀ n p v, agree o → here p f → (length f < n)%nat → ∃ p',
  int_loop n o.1 p v = Ret ((span_int f v).1, p') ∧ here p' (span_int f v).2.
Proof.
  induction f as [|c f IH]; intros [|n] p v Ho Hh Hn; cbn [length] in Hn; try lia; cbn [int_loop span_int].
  - rewrite (here_nil _ _ Ho Hh). by exists p.
  - destruct (here_head _ _ _ _ Ho Hh) as [-> Hc]. destruct (isdigit c); [|by exists p].
    apply IH; [done|by eapply here_tail|lia].
Qed.

Lemma count_l_spec o f : ∀ n p k, agree o → here p f → (length f < n)%nat → ∃ p',
  count_l n o.1 p k = Ret ((span_l f k).1, p') ∧ here p' (span_l f k).2.
Proof.
  induction f as [|c f IH]; intros [|n] p k Ho Hh Hn; cbn [length] in Hn; try lia; cbn [count_l span_l].
  - rewrite (here_nil _ _ Ho Hh). by exists p.
  - destruct (here_head _ _ _ _ Ho Hh) as [-> Hc]. destruct (c =? 108); [|by exists p].
    apply IH; [done|by eapply here_tail|lia].
Qed.

Lemma here_fuel p f : here p f → (length f < fuel)%nat.
Proof. by intros (_ & _ & ?). Qed.

Lemma directive_spec o p f words args t f' args' :
  agree o → here p f → Forall2 arg_ok words args → directive_text f args = Some (t, f', args') →
  o.2 + Z.of_nat (length t) ≤ T →
  ∃ p' words', directive data capacity fuel o p words = Ret (emits o t, p', words') ∧ here p' f' ∧ Forall2 arg_ok words' args'.
Proof.
  intros Ho Hh Ha Hd Hl. unfold directive, directive_text in *.
  assert (H1 : ∃ p1 pad1 f1, (if ld8 o.1 p =? 48 then (48, p + 1) else (32, p)) = (pad1, p1) ∧ here p1 f1 ∧
    span_flag f = (pad1, f1)).
  { destruct f as [|c f]; [rewrite (here_nil _ _ Ho Hh); by exists p, 32, []|].
    destruct (here_head _ _ _ _ Ho Hh) as [-> _]. cbn [span_flag]. destruct (c =? 48); [|by exists p, 32, (c :: f)].
    exists (p + 1), 48, f. split_and!; [done|by eapply here_tail|done]. }
  destruct H1 as (p1 & pad1 & f1 & -> & Hh1 & E1). rewrite E1 in Hd. clear E1.
  destruct (int_loop_spec o f1 fuel p1 0 Ho Hh1 (here_fuel _ _ Hh1)) as (p2 & -> & Hh2). rewrite bind_Ret.
  destruct (span_int f1 0) as [width f2]. cbn [fst snd] in *.
  assert (H3 : ∃ p3 pr f3, (if ld8 o.1 p2 =? 46 then int_loop fuel o.1 (p2 + 1) 0 else Ret (-1, p2)) = Ret (pr, p3) ∧ here p3 f3 ∧
    span_precision f2 = (pr, f3)).
  { destruct f2 as [|c f2]; [rewrite (here_nil _ _ Ho Hh2); by exists p2, (-1), []|].
    destruct (here_head _ _ _ _ Ho Hh2) as [-> _]. cbn [span_precision]. destruct (c =? 46); [|by exists p2, (-1), (c :: f2)].
    apply here_tail in Hh2. destruct (int_loop_spec o f2 fuel (p2 + 1) 0 Ho Hh2 (here_fuel _ _ Hh2)) as (p3 & -> & Hh3).
    destruct (span_int f2 0) as [pr f3]. by exists p3, pr, f3. }
  destruct H3 as (p3 & pr & f3 & -> & Hh3 & E3). rewrite E3 in Hd. clear E3. rewrite bind_Ret.
  destruct (count_l_spec o f3 fuel p3 0 Ho Hh3 (here_fuel _ _ Hh3)) as (p4 & -> & Hh4). rewrite bind_Ret.
  destruct (span_l f3 0) as [lm f4]. cbn [fst snd] in *. destruct f4 as [|conv f4]; [done|].
  destruct (here_head _ _ _ _ Ho Hh4) as [-> _].
  destruct (conv_text args conv (negb (lm =? 0)) width pr pad1) as [[t1 args1]|] eqn:Ec; [|done].
  injection Hd as <- <- <-. destruct (convert_spec o words args conv _ _ _ _ t1 args1 Ho Ha Ec Hl) as (words' & -> & Ha').
  exists (p4 + 1), words'. split_and!; [done|by eapply here_tail|done].
Qed.

Lemma directive_text_shorter f args t f' args' : directive_text f args = Some (t, f', args') → (length f' < length f)%nat.
Proof.
  assert (Hi : ∀ f v, (length (span_int f v).2 ≤ length f)%nat).
  { intros g. induction g as [|c g IH]; intros v; cbn [span_int]; [cbn; lia|]. destruct (isdigit c); [|cbn; lia]. specialize (IH (i32 (v * 10 + c - 48))). cbn [length]. lia. }
  assert (Hs : ∀ f k, (length (span_l f k).2 ≤ length f)%nat).
  { intros g. induction g as [|c g IH]; intros k; cbn [span_l]; [cbn; lia|]. destruct (c =? 108); [|cbn; lia]. specialize (IH (k + 1)). cbn [length]. lia. }
  unfold directive_text. intros Hd.
  assert (H1 : Nat.le (length (span_flag f).2) (length f)).
  { destruct f as [|c g]; [cbn; lia|]. cbn [span_flag]. destruct (c =? 48); cbn; lia. }
  destruct (span_flag f) as [pad1 f1]. cbn [snd] in H1. pose proof (Hi f1 0) as H2. destruct (span_int f1 0) as [width f2]. cbn [snd] in H2.
  assert (H3 : Nat.le (length (span_precision f2).2) (length f2)).
  { destruct f2 as [|c g]; [cbn; lia|]. cbn [span_precision]. destruct (c =? 46); [|cbn; lia]. specialize (Hi g 0). cbn [length]. lia. }
  destruct (span_precision f2) as [pr f3]. cbn [snd] in H3. pose proof (Hs f3 0) as H4. destruct (span_l f3 0) as [lm f4]. cbn [snd] in H4.
  destruct f4 as [|conv f4]; [done|]. destruct (conv_text _ _ _ _ _ _) as [[t1 a1]|]; [|done]. injection Hd as <- <- <-. cbn [length] in *. lia.
Qed.

Lemma format_loop_spec k : ∀ n o p f words args t, agree o → here p f → Forall2 arg_ok words args →
  format_text k f args = Some t → o.2 + Z.of_nat (length t) ≤ T → (length f < n)%nat →
  format_loop data capacity n fuel o p words = Ret (emits o t).
Proof.
  induction k as [|k IH]; intros [|n] o p [|c f] words args t Ho Hh Ha Ht Hl Hn; cbn [length] in Hn; try lia; try done; cbn [format_loop format_text] in *.
  1,2: rewrite (here_nil _ _ Ho Hh); by injection Ht as <-.
  destruct (here_head _ _ _ _ Ho Hh) as [-> Hc]. destruct (Z.eqb_spec c 0); [done|].
  destruct (Z.eqb_spec c 37) as [->|Hc37]; cbn [negb].
  - destruct (directive_text f args) as [[[t1 f1] args1]|] eqn:Ed; [|done]. cbn [mbind option_bind] in Ht.
    destruct (format_text k f1 args1) as [t2|] eqn:Et; [|done]. injection Ht as <-. rewrite length_app in Hl.
    pose proof (directive_text_shorter _ _ _ _ _ Ed). apply here_tail in Hh.
    destruct (directive_spec o (p + 1) f words args t1 f1 args1 Ho Hh Ha Ed ltac:(lia)) as (p1 & words1 & -> & Hh1 & Ha1).
    rewrite bind_Ret, emit_list_app. destruct (emit_list_agree o t1 Ho ltac:(lia)) as [Ho1 E1].
    apply (IH n _ p1 f1 words1 args1); try done; [rewrite E1|]; lia.
  - destruct (format_text k f args) as [t2|] eqn:Et; [|done]. injection Ht as <-. cbn [length] in Hl.
    change (emit data capacity o c) with (emits o [c]). change (emits o (c :: t2)) with (emits (emits o [c]) t2).
    destruct (emit_list_agree o [c] Ho) as [Ho1 E1]; [cbn; lia|].
    apply (IH n _ (p + 1) f words args); try done; [by eapply here_tail|rewrite E1; cbn [length]; lia|lia].
Qed.
End text.

(** C35. [vsnprintf] (and [snprintf] and [sprintf], which call it) writes the text
    its format and arguments stand for, as far as it fits: the first
    [size - 1] bytes of it and a terminator, and not one byte more; a [size] of 0
    writes nothing.  The result is the length of the whole text whatever the
    size. *)
Theorem vsnprintf_spec fuel m buffer size format f words args text :
  0 ≤ size < 2 ^ 64 → format_text fuel f args = Some text → Z.of_nat (length text) < 2 ^ 31 →
  here buffer size m (Z.of_nat (length text)) fuel format f →
  Forall2 (arg_ok buffer size m (Z.of_nat (length text)) fuel) words args →
  vsnprintf fuel m buffer size format words =
    Ret (if size =? 0 then m else poke m buffer (take (Z.to_nat (size - 1)) text ++ [0]), Z.of_nat (length text)).
Proof.
  intros Hs Ht Hl Hf Ha. unfold vsnprintf. set (T := Z.of_nat (length text)) in *.
  rewrite (format_loop_spec buffer size m T fuel ltac:(lia) ltac:(lia) fuel fuel (m, 0) format f words args text);
    [|split; cbn [fst snd]; [lia|done]|done|done|done|cbn [snd]; lia|by eapply here_fuel].
  rewrite emit_list_poke by lia. rewrite bind_Ret, Z.add_0_r, Z.add_0_l, Z.sub_0_r, i32_small by lia.
  destruct (Z.eqb_spec size 0) as [->|]; cbn [negb]; [done|].
  rewrite poke_app, length_take. cbn [poke]. do 4 f_equal. fold T. zcase; lia.
Qed.

(** "%s=%04d|%x" with "n", -7 and 255 into 8 bytes: "n=-007|" and the length 9. *)
Lemma vsnprintf_witness : let m := poke (poke ∅ 0x100 [37; 115; 61; 37; 48; 52; 100; 124; 37; 120; 0]) 0x200 [110; 0] in
  vsnprintf 20 m 0x300 8 0x100 [0x200; u64 (-7); 255] = Ret (poke m 0x300 [110; 61; 45; 48; 48; 55; 124; 0], 9).
Proof.
  intros m. rewrite (vsnprintf_spec 20 m 0x300 8 0x100 [37; 115; 61; 37; 48; 52; 100; 124; 37; 120]
    [0x200; u64 (-7); 255] [AText [110]; ANum (u64 (-7)); ANum 255] [110; 61; 45; 48; 48; 55; 124; 102; 102]); [reflexivity|..].
  - lia.
  - vm_compute. reflexivity.
  - vm_compute. reflexivity.
  - split; [vm_compute; intuition discriminate|split; [left; vm_compute; reflexivity|cbn; lia]].
  - constructor; [|repeat constructor]. split; [discriminate|].
    split; [vm_compute; intuition discriminate|split; [left; vm_compute; reflexivity|cbn; lia]].
Defined.

(** [printf] does not count the digits it prints: "%d" of 42 prints two bytes and
    returns 0. *)
Example printf_count : printf 20 (poke ∅ 0x100 [37; 100; 0]) [] 0x100 [42] = Ret ([52; 50], 0).
Proof. vm_compute. reflexivity. Qed.
