(* ===== verification/LibcIO.v ===== *)
(** The streams of user programs, [user/libc/src/stdio.c], over the system calls
    of [syscall.c].  The [syscall] instruction is an operation of the interface
    [Syscalls]: the number and the arguments in, the value of [rax] out; the kernel
    of this repository implements it below.  A call that passes a pointer reads
    and writes the memory of the process, which belongs to the kernel's state. *)
From S2P Require Import Prelude Ram Str LibcStr LibcMalloc LibcFmt.

Class Syscalls (W : Type) := syscall : W → Z → list Z → res (Z * W).

(** The numbers of the calls ([libc/include/unistd.h]). *)
Definition SYS_READ : Z := 0.
Definition SYS_WRITE : Z := 1.
Definition SYS_OPEN : Z := 2.
Definition SYS_CLOSE : Z := 3.
Definition SYS_LSEEK : Z := 8.
Definition SYS_MMAP : Z := 9.
Definition SYS_MUNMAP : Z := 11.
Definition SYS_BRK : Z := 12.
Definition SYS_IOCTL : Z := 16.
Definition SYS_YIELD : Z := 24.
Definition SYS_GETPID : Z := 39.
Definition SYS_FORK : Z := 57.
Definition SYS_EXIT : Z := 60.
Definition SYS_WAITPID : Z := 61.
Definition SYS_GETDENTS : Z := 78.
Definition SYS_MKDIR : Z := 83.
Definition SYS_UNLINK : Z := 87.
Definition SYS_GETUID : Z := 102.
Definition SYS_GETGID : Z := 104.
Definition SYS_CLOCK_GETTIME : Z := 228.

(** Open modes, origins and the end of a file. *)
Definition EOF : Z := -1.
Definition SEEK_CUR : Z := 1.
Definition PROT_READ : Z := 1.
Definition PROT_WRITE : Z := 2.
Definition MAP_PRIVATE : Z := 2.
Definition MAP_ANON : Z := 0x20.

(** ** [syscall.c] *)

Section syscalls.
Context {W : Type} `{Syscalls W}.
Implicit Types (w : W).

(** Results are [long]s. *)
Definition syscall3 w (num a1 a2 a3 : Z) : res (Z * W) :=
  '(r, w) ← syscall w num [u64 a1; u64 a2; u64 a3]; Ret (i64 r, w).
Definition syscall6 w (num a1 a2 a3 a4 a5 a6 : Z) : res (Z * W) :=
  '(r, w) ← syscall w num [u64 a1; u64 a2; u64 a3; u64 a4; u64 a5; u64 a6]; Ret (i64 r, w).

Definition write w (fd buf count : Z) := syscall3 w SYS_WRITE fd buf count.
Definition read w (fd buf count : Z) := syscall3 w SYS_READ fd buf count.
Definition open w (path flags : Z) := syscall3 w SYS_OPEN path flags 0.
Definition close w (fd : Z) := syscall3 w SYS_CLOSE fd 0 0.
Definition ioctl w (fd request arg : Z) := syscall3 w SYS_IOCTL fd request arg.
Definition getpid w := syscall3 w SYS_GETPID 0 0 0.
Definition fork w := syscall3 w SYS_FORK 0 0 0.
Definition yield w := '(_, w) ← syscall3 w SYS_YIELD 0 0 0; Ret w.
Definition lseek w (fd offset whence : Z) := syscall3 w SYS_LSEEK fd offset whence.
Definition waitpid w (pid wstatus options : Z) := syscall3 w SYS_WAITPID pid wstatus options.
Definition getuid w := syscall3 w SYS_GETUID 0 0 0.
Definition getgid w := syscall3 w SYS_GETGID 0 0 0.
Definition mkdir w (path mode : Z) := syscall3 w SYS_MKDIR path mode 0.
Definition unlink w (path : Z) := syscall3 w SYS_UNLINK path 0 0.
Definition getdents w (fd buf size : Z) := syscall3 w SYS_GETDENTS fd buf size.
Definition brk_call w (addr : Z) := '(r, w) ← syscall3 w SYS_BRK addr 0 0; Ret (u64 r, w).
Definition mmap w (addr length prot flags fd offset : Z) :=
  '(r, w) ← syscall6 w SYS_MMAP addr length prot flags fd offset; Ret (u64 r, w).
Definition munmap w (addr length : Z) := syscall3 w SYS_MUNMAP addr length 0.
Definition clock_gettime w (clock_id timespec : Z) := '(r, w) ← syscall3 w SYS_CLOCK_GETTIME clock_id timespec 0; Ret (i32 r, w).
End syscalls.

(** ** Streams *)

(** [FILE]; [sizeof] is 12. *)
Record FILE := File { f_fd : Z; f_error : Z; f_eof : Z }.

(** A program: the kernel below it, its heap (the headers of its blocks) and its
    streams by their addresses. *)
Record program {W : Type} := Program { world : W; heap : arena; files : gmap Z FILE }.
Arguments program : clear implicits.
Arguments Program {W}.

Section streams.
Context {W : Type} `{Syscalls W}.
(** The static objects of [stdio.c]. *)
Context (stdin_object stdout_object stderr_object : Z).
Implicit Types (s : program W).

Definition set_world s (w : W) : program W := Program w (heap s) (files s).
Definition set_file s (stream : Z) (f : FILE) : program W := Program (world s) (heap s) (<[stream := f]> (files s)).

Definition libc_malloc s (size : Z) : res (Z * program W) :=
  '(m, w) ← (if first_block (heap s) =? 0
             then mmap (world s) 0 ARENA_SIZE (Z.lor PROT_READ PROT_WRITE) (Z.lor MAP_PRIVATE MAP_ANON) (-1) 0
             else Ret (0, world s));
  '(p, a) ← malloc m (heap s) size;
  Ret (p, Program w a (files s)).

(** [mode] is the first character of the mode string, 0 when there is none. *)
Definition fopen s (path mode : Z) : res (Z * program W) :=
  let flags := if mode =? 114 then 0 else 1 in
  '(fd, w) ← open (world s) path flags;
  let fd := i32 fd in
  let s := set_world s w in
  if fd <? 0 then Ret (0, s) else
  '(stream, s) ← libc_malloc s 12;
  if stream =? 0 then '(_, w) ← close (world s) fd; Ret (0, set_world s w) else
  Ret (stream, set_file s stream (File fd 0 0)).

Definition fclose s (stream : Z) : res (Z * program W) :=
  if stream =? 0 then Ret (EOF, s) else
  f ← deref (files s !! stream);
  '(result, w) ← close (world s) (f_fd f);
  let s := set_world s w in
  if negb (stream =? stdin_object) && negb (stream =? stdout_object) && negb (stream =? stderr_object) then
    a ← free (heap s) stream;
    Ret (i32 result, Program (world s) a (delete stream (files s)))
  else Ret (i32 result, s).

Definition fread s (buffer size count stream : Z) : res (Z * program W) :=
  if (size =? 0) || (count =? 0) then Ret (0, s) else
  f ← deref (files s !! stream);
  '(bytes_read, w) ← read (world s) (f_fd f) buffer (u64 (size * count));
  let s := set_world s w in
  if bytes_read <? 0 then Ret (0, set_file s stream (File (f_fd f) 1 (f_eof f))) else
  let s := if u64 bytes_read <? u64 (size * count) then set_file s stream (File (f_fd f) (f_error f) 1) else s in
  Ret (u64 bytes_read / size, s).

Definition fwrite s (buffer size count stream : Z) : res (Z * program W) :=
  if (size =? 0) || (count =? 0) then Ret (0, s) else
  f ← deref (files s !! stream);
  '(bytes_written, w) ← write (world s) (f_fd f) buffer (u64 (size * count));
  let s := set_world s w in
  if bytes_written <? 0 then Ret (0, set_file s stream (File (f_fd f) 1 (f_eof f))) else
  Ret (u64 bytes_written / size, s).

Definition fseek s (stream offset origin : Z) : res (Z * program W) :=
  f ← deref (files s !! stream);
  '(result, w) ← lseek (world s) (f_fd f) offset origin;
  let s := set_world s w in
  if result <? 0 then Ret (-1, set_file s stream (File (f_fd f) 1 (f_eof f))) else
  Ret (0, set_file s stream (File (f_fd f) (f_error f) 0)).

Definition ftell s (stream : Z) : res (Z * program W) :=
  f ← deref (files s !! stream);
  '(result, w) ← lseek (world s) (f_fd f) 0 SEEK_CUR;
  Ret (result, set_world s w).
Definition feof s (stream : Z) : res Z := f ← deref (files s !! stream); Ret (f_eof f).
Definition ferror s (stream : Z) : res Z := f ← deref (files s !! stream); Ret (f_error f).
Definition fflush s (stream : Z) : Z := 0.

Definition remove s (path : Z) : res (Z * program W) :=
  '(r, w) ← unlink (world s) path; Ret (i32 r, set_world s w).
Definition rename s (old_path new_path : Z) : Z := -1.
End streams.
