(* ===== verification/Programs.v ===== *)
(** Two programs that draw into the mapped framebuffer: the mouse cursor of
    [user/bin/test_graphics/test_graphics.c], and the platform layer of
    [user/bin/doomgeneric/doomgeneric_doccros.c].  Memory is that of the process;
    an array of [u32] at [a] has its cells at [cell a i]. *)
From stdpp Require Import strings.
From S2P Require Import Prelude Ram PhysMem Input Screen Serial.
Import MemLib.

(** [fb_info_t] *)
Record fb_info := FbInfo { width : Z; height : Z; pitch : Z; bpp : Z; info_size : Z }.

(** ** [test_graphics.c] *)

Definition CURSOR_W : Z := 14.
Definition CURSOR_H : Z := 20.
Definition cursor_shape : list (list Z) :=
  [text "#............."; text "##............"; text "#+#..........."; text "#++#.........."; text "#+++#.........";
   text "#++++#........"; text "#+++++#......."; text "#++++++#......"; text "#+++++++#....."; text "#++++++++#....";
   text "#++++#####...."; text "#++#+#........"; text "#+#.+#........"; text "##..+#........"; text "#....+#.......";
   text ".....+#......."; text ".....+#......."; text "......+#......"; text "......##......"; text ".............."].
Definition shape (py px : Z) : Z := default 0 (row ← lookupZ cursor_shape py; lookupZ row px).

Section graphics.
Context (fb stride : Z).

(** [fb[(y + py) * stride + x + px]]; the index is unsigned. *)
Definition fb_index (x y : Z) : Z := u32 (u32 (u32 y * stride) + x).
Definition fb_cell (x y : Z) : Z := cell fb (fb_index x y).

Definition clear_screen (m : ram) (width height : Z) : ram :=
  upto 0 height (λ y m, upto 0 width (λ x m, st32 m (fb_cell x y) 0xFF000000) m) m.
Definition fill_rect (m : ram) (x y width height color : Z) : ram :=
  upto 0 height (λ dy m, upto 0 width (λ dx m, st32 m (fb_cell (x + dx) (y + dy)) color) m) m.
Definition cursor_restore (m : ram) (x y saved : Z) : ram :=
  upto 0 CURSOR_H (λ py m, upto 0 CURSOR_W (λ px m,
    st32 m (fb_cell (x + px) (y + py)) (ld32 m (cell saved (py * CURSOR_W + px)))) m) m.
Definition cursor_pixel (m : ram) (x y saved py px : Z) : ram :=
  let pixel := fb_cell (x + px) (y + py) in
  let m := st32 m (cell saved (py * CURSOR_W + px)) (ld32 m pixel) in
  let m := if shape py px =? 35 then st32 m pixel 0xFF000000 else m in
  if shape py px =? 43 then st32 m pixel 0xFFFFFFFF else m.
Definition cursor_draw (m : ram) (x y saved : Z) : ram :=
  upto 0 CURSOR_H (λ py m, upto 0 CURSOR_W (λ px m, cursor_pixel m x y saved py px) m) m.

(** The picture the program draws. *)
Definition gradient (m : ram) (width : Z) : ram :=
  upto 0 (Z.min width 256) (λ x m,
    let shade := x * 255 / 256 in
    let color := Z.lor (Z.lor (Z.lor 0xFF000000 (Z.shiftl shade 16)) (Z.shiftl shade 8)) shade in
    upto 220 260 (λ y m, st32 m (fb_cell (x + 40) y) color) m) m.
Definition picture (m : ram) (width height : Z) : ram :=
  let m := clear_screen m width height in
  let m := fill_rect m 40 40 200 150 0xFFFF0000 in
  let m := fill_rect m 260 40 200 150 0xFF00FF00 in
  let m := fill_rect m 480 40 200 150 0xFF0000FF in
  let m := gradient m width in
  let m := st32 m (fb_cell 40 300) 0xFFFFFFFF in
  let m := st32 m (fb_cell 41 300) 0xFFFF00FF in
  let m := st32 m (fb_cell 42 300) 0xFF00FFFF in
  st32 m (fb_cell 43 300) 0xFFFFFF00.

(** The events of one [read]: the position they add up to, and [changed]. *)
Definition move (p : Z * Z * bool) (ev : input_event) : Z * Z * bool :=
  let '(x, y, changed) := p in
  match ev_type ev with
  | INPUT_EV_REL =>
      (if ev_code ev =? INPUT_REL_X then i32 (x + ev_value ev) else x,
       if ev_code ev =? INPUT_REL_Y then i32 (y + ev_value ev) else y, true)
  | _ => p
  end.
(** The four tests that keep the cursor on the screen, in their order. *)
Definition clamp (x size cursor : Z) : Z :=
  let x := if x <? 0 then 0 else x in
  if size - cursor <? x then size - cursor else x.

(** The loop of [main], without its calls: the position and memory after the events
    of one [read], and whether the framebuffer is flushed. *)
Definition main_step (info : fb_info) (saved : Z) (st : Z * Z * ram) (events : list input_event) : Z * Z * ram * bool :=
  let '(old_x, old_y, m) := st in
  let '(x, y, changed) := foldl move (old_x, old_y, false) events in
  let x := clamp x (width info) CURSOR_W in
  let y := clamp y (height info) CURSOR_H in
  if changed : bool then (x, y, cursor_draw (cursor_restore m old_x old_y saved) x y saved, true)
  else (x, y, m, false).
(** The state before the loop. *)
Definition main_start (info : fb_info) (saved : Z) (m : ram) : Z * Z * ram :=
  let x := width info / 2 in
  let y := height info / 2 in
  (x, y, cursor_draw (picture m (width info) (height info)) x y saved).
End graphics.

(** ** Words and grids *)

Lemma ld32_st32 m a v : ld32 (st32 m a v) a = u32 v.
Proof. unfold ld32, st32. rewrite ld_le_st_le. done. Qed.

Lemma ld32_st32_other m a v b : b + 4 ≤ a ∨ a + 4 ≤ b → ld32 (st32 m a v) b = ld32 m b.
Proof. intros. apply ld_le_ext. intros c Hc. apply ld8_st_le_out. lia. Qed.

Lemma ld32_cell m a i v j : ld32 (st32 m (cell a i) v) (cell a j) = if decide (j = i) then u32 v else ld32 m (cell a j).
Proof. case_decide as E; [subst; apply ld32_st32|]. apply ld32_st32_other. unfold cell. lia. Qed.

Lemma ld32_range m a : 0 ≤ ld32 m a < 2 ^ 32.
Proof. apply (ld_le_range 4). Qed.

Lemma u32_ld32 m a : u32 (ld32 m a) = ld32 m a.
Proof. apply u32_small, ld32_range. Qed.

(** Two nested loops are one. *)
Lemma upto_split {A} a b c (f : Z → A → A) x : a ≤ b ≤ c → upto a c f x = upto b c f (upto a b f x).
Proof.
  intros Hb. unfold upto. rewrite <-foldl_app. f_equal.
  replace (c - a) with ((b - a) + (c - b)) by lia. rewrite seqZ_app by lia. by replace (a + (b - a)) with b by lia.
Qed.

Lemma upto_shift {A} s n (f : Z → A → A) x : upto s (s + n) f x = upto 0 n (λ j, f (s + j)) x.
Proof.
  unfold upto. replace (s + n - s) with n by lia. rewrite Z.sub_0_r. replace (seqZ s n) with ((Z.add s) <$> seqZ 0 n).
  - generalize (seqZ 0 n). intros l. revert x. induction l as [|j l IH]; intros x; cbn; [done|apply IH].
  - rewrite fmap_add_seqZ. by rewrite Z.add_0_r.
Qed.

Lemma upto_grid {A} a k (f : Z → Z → A → A) x : 0 ≤ a → 0 < k →
  upto 0 a (λ i x, upto 0 k (f i) x) x = upto 0 (a * k) (λ n, f (n / k) (n mod k)) x.
Proof.
  intros Ha Hk. apply (upto_ind (λ i y, y = upto 0 (i * k) (λ n, f (n / k) (n mod k)) x)); [done|done|].
  intros i y Hi ->. rewrite (upto_split 0 (i * k) ((i + 1) * k)) by nia. replace ((i + 1) * k) with (i * k + k) by lia.
  rewrite upto_shift. apply upto_ext. intros j z Hj.
  replace ((i * k + j) / k) with i by (apply Z.div_unique with j; lia).
  by replace ((i * k + j) mod k) with j by (apply Z.mod_unique with i; lia).
Qed.

(** ** The cursor *)

Section cursor.
(** A framebuffer of [h] rows of [stride] words, [w] of them pixels, and the array
    [saved] outside it. *)
Context (fb stride w h saved : Z).
Context (Hstride : CURSOR_W ≤ w ≤ stride) (Hh : CURSOR_H ≤ h) (Hsize : stride * h < 2 ^ 31).
Context (Hsaved : cell saved (CURSOR_W * CURSOR_H) ≤ fb ∨ cell fb (stride * h) ≤ saved).
Implicit Types (m : ram) (x y i n : Z).

Definition on_screen x y : Prop := 0 ≤ x ≤ w - CURSOR_W ∧ 0 ≤ y ≤ h - CURSOR_H.
(** The pixel under point [n] of the cursor, and the point over pixel [i]. *)
Definition under x y n : Z := (y + n / CURSOR_W) * stride + (x + n mod CURSOR_W).
Definition over x y i : option Z :=
  let py := i / stride - y in
  let px := i mod stride - x in
  if decide (0 ≤ py < CURSOR_H ∧ 0 ≤ px < CURSOR_W) then Some (py * CURSOR_W + px) else None.

Lemma under_range x y n : on_screen x y → 0 ≤ n < CURSOR_W * CURSOR_H → 0 ≤ under x y n < stride * h.
Proof. unfold on_screen, under, CURSOR_W, CURSOR_H in *. intros. assert (0 ≤ n / 14 < 20 ∧ 0 ≤ n mod 14 < 14) by dlia. nia. Qed.

Lemma fb_index_under x y n : on_screen x y → 0 ≤ n < CURSOR_W * CURSOR_H →
  fb_index stride (x + n mod CURSOR_W) (y + n / CURSOR_W) = under x y n.
Proof.
  intros Hx Hn. pose proof (under_range x y n Hx Hn) as Hu. unfold fb_index. unfold under in *.
  unfold on_screen, CURSOR_W, CURSOR_H in *. assert (0 ≤ n / 14 < 20 ∧ 0 ≤ n mod 14 < 14) by dlia.
  assert (0 ≤ (y + n / 14) * stride) by nia. rewrite (u32_small (y + n / 14)) by nia. rewrite (u32_small (_ * stride)) by lia.
  apply u32_small. lia.
Qed.

Lemma over_under x y i n : on_screen x y → 0 ≤ n < CURSOR_W * CURSOR_H → over x y i = Some n ↔ i = under x y n.
Proof.
  intros Hx Hn. unfold over, under, on_screen, CURSOR_W, CURSOR_H in *.
  assert (0 ≤ n / 14 < 20 ∧ 0 ≤ n mod 14 < 14) by dlia. split.
  - case_decide as Ho; [|done]. intros [= <-]. pose proof (Z.div_mod i stride ltac:(lia)).
    set (q := i / stride) in *. set (r := i mod stride) in *. clearbody q r.
    assert (((q - y) * 14 + (r - x)) / 14 = q - y) as -> by dlia.
    assert (((q - y) * 14 + (r - x)) mod 14 = r - x) as -> by dlia. lia.
  - intros ->. assert (E : ((y + n / 14) * stride + (x + n mod 14)) / stride = y + n / 14).
    { symmetry. apply Z.div_unique with (x + n mod 14); lia. }
    assert (E' : ((y + n / 14) * stride + (x + n mod 14)) mod stride = x + n mod 14).
    { symmetry. apply Z.mod_unique with (y + n / 14); lia. }
    rewrite E, E'. rewrite decide_True by lia. f_equal. dlia.
Qed.

(** What the cursor at [x], [y] makes of the picture [pic]. *)
Definition ink n (below : Z) : Z :=
  if shape (n / CURSOR_W) (n mod CURSOR_W) =? 35 then 0xFF000000
  else if shape (n / CURSOR_W) (n mod CURSOR_W) =? 43 then 0xFFFFFFFF else below.
Definition with_cursor (pic : Z → Z) x y i : Z :=
  match over x y i with Some n => ink n (pic i) | None => pic i end.

Lemma over_range x y i n : over x y i = Some n → 0 ≤ n < CURSOR_W * CURSOR_H.
Proof. unfold over, CURSOR_W, CURSOR_H. case_decide; [|done]. intros [= <-]. lia. Qed.

(** One point. *)
Lemma cursor_pixel_words m x y n : on_screen x y → 0 ≤ n < CURSOR_W * CURSOR_H →
  let m' := cursor_pixel fb stride m x y saved (n / CURSOR_W) (n mod CURSOR_W) in
  (∀ i, 0 ≤ i < stride * h → ld32 m' (cell fb i) = if decide (i = under x y n) then ink n (ld32 m (cell fb i)) else ld32 m (cell fb i)) ∧
  (∀ k, 0 ≤ k < CURSOR_W * CURSOR_H → ld32 m' (cell saved k) = if decide (k = n) then ld32 m (cell fb (under x y n)) else ld32 m (cell saved k)).
Proof.
  intros Hx Hn m'. subst m'. unfold cursor_pixel, fb_cell. rewrite fb_index_under by done.
  pose proof (under_range x y n Hx Hn) as Hu.
  replace (n / CURSOR_W * CURSOR_W + n mod CURSOR_W) with n by (unfold CURSOR_W; dlia).
  set (m1 := st32 m (cell saved n) _). set (sh := shape _ _).
  assert (Hapart : ∀ i k, 0 ≤ i < stride * h → 0 ≤ k < CURSOR_W * CURSOR_H → cell saved k + 4 ≤ cell fb i ∨ cell fb i + 4 ≤ cell saved k).
  { intros i k Hi Hk. unfold cell in *. lia. }
  assert (E1 : ∀ i, 0 ≤ i < stride * h → ld32 m1 (cell fb i) = ld32 m (cell fb i)).
  { intros i Hi. apply ld32_st32_other. destruct (Hapart i n Hi Hn); lia. }
  assert (E2 : ∀ k, ld32 m1 (cell saved k) = if decide (k = n) then ld32 m (cell fb (under x y n)) else ld32 m (cell saved k)).
  { intros k. unfold m1. rewrite ld32_cell. case_decide; [apply u32_ld32|done]. }
  assert (Hs : ∀ m2 v k, 0 ≤ k < CURSOR_W * CURSOR_H → ld32 (st32 m2 (cell fb (under x y n)) v) (cell saved k) = ld32 m2 (cell saved k)).
  { intros m2 v k Hk. apply ld32_st32_other. destruct (Hapart (under x y n) k Hu Hk); lia. }
  split.
  - intros i Hi. unfold ink. fold sh. repeat zcase; try lia; rewrite ?ld32_cell, ?E1 by done; by case_decide.
  - intros k Hk. rewrite <-E2. repeat zcase; rewrite ?Hs by done; done.
Qed.

Lemma cursor_draw_words m x y : on_screen x y → let m' := cursor_draw fb stride m x y saved in
  (∀ i, 0 ≤ i < stride * h → ld32 m' (cell fb i) = with_cursor (λ i, ld32 m (cell fb i)) x y i) ∧
  (∀ k, 0 ≤ k < CURSOR_W * CURSOR_H → ld32 m' (cell saved k) = ld32 m (cell fb (under x y k))).
Proof.
  intros Hx m'. subst m'. unfold cursor_draw. rewrite upto_grid by done. rewrite (Z.mul_comm CURSOR_H).
  pose (P := λ n m', (∀ i, 0 ≤ i < stride * h → ld32 m' (cell fb i) =
      match over x y i with Some p => if p <? n then ink p (ld32 m (cell fb i)) else ld32 m (cell fb i) | None => ld32 m (cell fb i) end) ∧
    (∀ k, 0 ≤ k < n → ld32 m' (cell saved k) = ld32 m (cell fb (under x y k)))).
  assert (HP : P (CURSOR_W * CURSOR_H) (upto 0 (CURSOR_W * CURSOR_H)
     (λ n m, cursor_pixel fb stride m x y saved (n / CURSOR_W) (n mod CURSOR_W)) m)).
  { apply upto_ind; [done| |].
    - split; [|lia]. intros i Hi. destruct (over x y i) as [p|] eqn:E; [|done]. apply over_range in E. zcase; [lia|done].
    - intros n m1 Hn [H1 H2]. destruct (cursor_pixel_words m1 x y n Hx Hn) as [E1 E2]. split.
      + intros i Hi. rewrite E1, !H1 by done. case_decide as Eu.
        * apply (over_under x y i n Hx Hn) in Eu. rewrite Eu. repeat zcase; try lia; done.
        * destruct (over x y i) as [p|] eqn:Eo; [|done]. assert (p ≠ n) by (intros ->; apply Eu; by apply (over_under x y i n Hx Hn)).
          repeat zcase; try lia; done.
      + intros k Hk. rewrite E2 by lia. case_decide as Ek; [|apply H2; lia]. subst k. rewrite H1 by (by apply under_range).
        rewrite (proj2 (over_under x y _ n Hx Hn) eq_refl). zcase; [lia|done]. }
  destruct HP as [H1 H2]. split; [|done]. intros i Hi. rewrite H1 by done. unfold with_cursor.
  destruct (over x y i) as [p|] eqn:E; [|done]. apply over_range in E. zcase; [done|lia].
Qed.

Lemma cursor_restore_words m x y : on_screen x y → ∀ i, 0 ≤ i < stride * h →
  ld32 (cursor_restore fb stride m x y saved) (cell fb i) =
  match over x y i with Some n => ld32 m (cell saved n) | None => ld32 m (cell fb i) end.
Proof.
  intros Hx. unfold cursor_restore. rewrite upto_grid by done. rewrite (Z.mul_comm CURSOR_H).
  match goal with |- context [upto 0 _ ?f m] => set (body := f) end.
  pose (P := λ n m', (∀ i, 0 ≤ i < stride * h → ld32 m' (cell fb i) =
      match over x y i with Some p => if p <? n then ld32 m (cell saved p) else ld32 m (cell fb i) | None => ld32 m (cell fb i) end) ∧
    (∀ k, 0 ≤ k < CURSOR_W * CURSOR_H → ld32 m' (cell saved k) = ld32 m (cell saved k))).
  assert (HP : P (CURSOR_W * CURSOR_H) (upto 0 (CURSOR_W * CURSOR_H) body m)).
  { apply upto_ind; [done| |].
    - split; [|done]. intros i Hi. destruct (over x y i) as [p|] eqn:E; [|done]. apply over_range in E. zcase; [lia|done].
    - intros n m1 Hn [H1 H2]. unfold body, fb_cell. rewrite fb_index_under by done.
      replace (n / CURSOR_W * CURSOR_W + n mod CURSOR_W) with n by (unfold CURSOR_W; dlia).
      pose proof (under_range x y n Hx Hn) as Hu. split.
      + intros i Hi. rewrite ld32_cell, u32_ld32, H2 by done. case_decide as Eu.
        * apply (over_under x y i n Hx Hn) in Eu. rewrite Eu. zcase; [done|lia].
        * rewrite H1 by done. destruct (over x y i) as [p|] eqn:Eo; [|done].
          assert (p ≠ n) by (intros ->; apply Eu; by apply (over_under x y i n Hx Hn)). repeat zcase; try lia; done.
      + intros k Hk. rewrite <-H2 by done. apply ld32_st32_other. unfold cell in *. lia. }
  intros i Hi. rewrite (proj1 HP) by done. destruct (over x y i) as [p|] eqn:E; [|done]. apply over_range in E. zcase; [done|lia].
Qed.

(** The framebuffer shows [pic] with the cursor over it, and [saved] holds what is
    under the cursor. *)
Definition cursor_shown (pic : Z → Z) (st : Z * Z * ram) : Prop :=
  let '(x, y, m) := st in
  on_screen x y ∧ (∀ i, 0 ≤ i < stride * h → ld32 m (cell fb i) = with_cursor pic x y i) ∧
  ∀ k, 0 ≤ k < CURSOR_W * CURSOR_H → ld32 m (cell saved k) = pic (under x y k).

Lemma draw_shown pic m x y : on_screen x y → (∀ i, 0 ≤ i < stride * h → ld32 m (cell fb i) = pic i) →
  cursor_shown pic (x, y, cursor_draw fb stride m x y saved).
Proof.
  intros Hx Hm. destruct (cursor_draw_words m x y Hx) as [H1 H2]. split; [done|]. split.
  - intros i Hi. rewrite H1 by done. unfold with_cursor. by rewrite Hm.
  - intros k Hk. rewrite H2, Hm; [done|by apply under_range|done].
Qed.

Lemma restore_shown pic m x y : cursor_shown pic (x, y, m) →
  ∀ i, 0 ≤ i < stride * h → ld32 (cursor_restore fb stride m x y saved) (cell fb i) = pic i.
Proof.
  intros (Hx & Hm & Hs) i Hi. rewrite cursor_restore_words, Hm by done. unfold with_cursor.
  destruct (over x y i) as [n|] eqn:E; [|done]. pose proof (over_range _ _ _ _ E) as Hn. rewrite Hs by done.
  f_equal. symmetry. by apply (over_under x y i n).
Qed.

Lemma clamp_range x size c : 0 ≤ c ≤ size → 0 ≤ clamp x size c ≤ size - c.
Proof. intros Hc. unfold clamp. repeat zcase; lia. Qed.

Lemma clamp_id x size c : 0 ≤ x ≤ size - c → clamp x size c = x.
Proof. intros Hx. unfold clamp. cbv zeta. destruct (Z.ltb_spec x 0); [lia|]. destruct (Z.ltb_spec (size - c) x); [lia|done]. Qed.

(** Events that change nothing add up to nothing. *)
Lemma moves_changed l : ∀ p, p.2 = true → (foldl move p l).2 = true.
Proof.
  induction l as [|ev l IH]; intros [[x y] c] Hc; [done|]. cbn in Hc. subst. cbn [foldl]. apply IH. cbn. by destruct (ev_type ev).
Qed.
Lemma moves_unchanged l : ∀ p, (foldl move p l).2 = false → foldl move p l = p.
Proof.
  induction l as [|ev l IH]; intros [[x y] c] Hc; [done|]. cbn [foldl] in *.
  destruct (ev_type ev) eqn:Et; cbn in *; rewrite Et in *; [by apply IH| |by apply IH].
  by rewrite moves_changed in Hc.
Qed.

Lemma main_step_shown info pic st events : width info = w → height info = h →
  cursor_shown pic st → cursor_shown pic (main_step fb stride info saved st events).1.
Proof.
  intros Ew Eh Hs. destruct st as [[x y] m]. unfold main_step. rewrite Ew, Eh.
  destruct (foldl move (x, y, false) events) as [[x' y'] changed] eqn:E. destruct changed; cbn [fst].
  - apply draw_shown; [|by apply restore_shown].
    split; apply clamp_range; unfold CURSOR_W, CURSOR_H in *; lia.
  - pose proof (moves_unchanged events (x, y, false)) as Em. rewrite E in Em. injection (Em eq_refl) as -> ->.
    assert (Hc : clamp x w CURSOR_W = x ∧ clamp y h CURSOR_H = y).
    { destruct Hs as [[? ?] _]. split; by apply clamp_id. }
    destruct Hc as [-> ->]. exact Hs.
Qed.

(** C37. The cursor moves over an unharmed picture.  On a screen at least twice the
    size of the cursor, whatever events the program reads, in whatever portions, the
    framebuffer always shows the picture that was drawn at the start, with the
    cursor over it at a place inside the screen: what the cursor covered comes back
    when it moves on. *)
Theorem cursor_follows info m reads : width info = w → height info = h →
  2 * CURSOR_W ≤ w → 2 * CURSOR_H ≤ h →
  let pic i := ld32 (picture fb stride m w h) (cell fb i) in
  cursor_shown pic (foldl (λ st events, (main_step fb stride info saved st events).1) (main_start fb stride info saved m) reads).
Proof.
  intros Ew Eh Hw2 Hh2 pic.
  assert (H0 : cursor_shown pic (main_start fb stride info saved m)).
  { unfold main_start. rewrite Ew, Eh. apply draw_shown; [|done]. unfold on_screen, CURSOR_W, CURSOR_H in *. dlia. }
  clearbody pic. revert H0. generalize (main_start fb stride info saved m).
  induction reads as [|events reads IH]; intros st H0; [done|]. cbn [foldl]. apply IH. by apply main_step_shown.
Qed.
End cursor.

(** A screen of 64 by 48 pixels: the cursor goes to the lower right corner and up. *)
Lemma cursor_follows_witness :
  let info := FbInfo 64 48 256 32 12288 in
  let event code v := Event INPUT_EV_REL code v 0 in
  let st := foldl (λ st events, (main_step 0x10000 64 info 0x20000 st events).1) (main_start 0x10000 64 info 0x20000 ∅)
    [[event INPUT_REL_X 30; event INPUT_REL_Y 100]; [event INPUT_REL_Y (-5)]] in
  cursor_shown 0x10000 64 64 48 0x20000 (λ i, ld32 (picture 0x10000 64 ∅ 64 48) (cell 0x10000 i)) st.
Proof.
  intros info event st. apply (cursor_follows 0x10000 64 64 48 0x20000); [vdone|vdone|vdone|right; vdone|done|done|vdone|vdone].
Defined.

(** ** [doomgeneric_doccros.c] *)

(** Key codes ([sys/input.h]). *)
Definition INPUT_KEY_ESC : Z := 1.
Definition INPUT_KEY_ENTER : Z := 28.
Definition INPUT_KEY_KP_ENTER : Z := 71.
Definition INPUT_KEY_TAB : Z := 15.
Definition INPUT_KEY_BACKSPACE : Z := 14.
Definition INPUT_KEY_LCTRL : Z := 29.
Definition INPUT_KEY_RCTRL : Z := 69.
Definition INPUT_KEY_LSHIFT : Z := 42.
Definition INPUT_KEY_RSHIFT : Z := 54.
Definition INPUT_KEY_LALT : Z := 56.
Definition INPUT_KEY_RALT : Z := 70.
Definition INPUT_KEY_UP : Z := 60.
Definition INPUT_KEY_DOWN : Z := 61.
Definition INPUT_KEY_LEFT : Z := 62.
Definition INPUT_KEY_RIGHT : Z := 63.
Definition INPUT_KEY_HOME : Z := 64.
Definition INPUT_KEY_END : Z := 65.
Definition INPUT_KEY_PAGEUP : Z := 66.
Definition INPUT_KEY_PAGEDOWN : Z := 67.
Definition INPUT_KEY_INSERT : Z := 68.
Definition INPUT_KEY_DELETE : Z := 59.
Definition INPUT_KEY_F11 : Z := 83.
Definition INPUT_KEY_F12 : Z := 84.
Definition INPUT_KEY_SPACE : Z := 57.
Definition INPUT_KEY_F1 : Z := 73.
Definition INPUT_KEY_F10 : Z := 82.
Definition INPUT_KEY_1 : Z := 2.
Definition INPUT_KEY_SLASH : Z := 53.

(** The key codes of the game ([doomkeys.h], not part of this repository). *)
Class DoomKeys := {
  KEY_ESCAPE : Z; KEY_ENTER : Z; KEY_TAB : Z; KEY_BACKSPACE : Z; KEY_FIRE : Z; KEY_RSHIFT : Z; KEY_RALT : Z;
  KEY_UPARROW : Z; KEY_DOWNARROW : Z; KEY_LEFTARROW : Z; KEY_RIGHTARROW : Z; KEY_HOME : Z; KEY_END : Z;
  KEY_PGUP : Z; KEY_PGDN : Z; KEY_INS : Z; KEY_DEL : Z; KEY_F1 : Z; KEY_F11 : Z; KEY_F12 : Z; KEY_USE : Z;
}.

(** [rows]: what the keys from [1] to [/] type; 0 for the others. *)
Definition rows : list Z :=
  text "1234567890-=" ++ [0; 0] ++ text "qwertyuiop[]" ++ [0; 0] ++ text "asdfghjkl;'`" ++ [0] ++ text "\zxcvbnm,./".

Section doom.
Context `{DoomKeys}.

(** The [switch]: [None] is its [default]. *)
Definition special_key (k : Z) : option Z :=
  if k =? INPUT_KEY_ESC then Some KEY_ESCAPE else
  if (k =? INPUT_KEY_ENTER) || (k =? INPUT_KEY_KP_ENTER) then Some KEY_ENTER else
  if k =? INPUT_KEY_TAB then Some KEY_TAB else
  if k =? INPUT_KEY_BACKSPACE then Some KEY_BACKSPACE else
  if (k =? INPUT_KEY_LCTRL) || (k =? INPUT_KEY_RCTRL) then Some KEY_FIRE else
  if (k =? INPUT_KEY_LSHIFT) || (k =? INPUT_KEY_RSHIFT) then Some KEY_RSHIFT else
  if (k =? INPUT_KEY_LALT) || (k =? INPUT_KEY_RALT) then Some KEY_RALT else
  if k =? INPUT_KEY_UP then Some KEY_UPARROW else
  if k =? INPUT_KEY_DOWN then Some KEY_DOWNARROW else
  if k =? INPUT_KEY_LEFT then Some KEY_LEFTARROW else
  if k =? INPUT_KEY_RIGHT then Some KEY_RIGHTARROW else
  if k =? INPUT_KEY_HOME then Some KEY_HOME else
  if k =? INPUT_KEY_END then Some KEY_END else
  if k =? INPUT_KEY_PAGEUP then Some KEY_PGUP else
  if k =? INPUT_KEY_PAGEDOWN then Some KEY_PGDN else
  if k =? INPUT_KEY_INSERT then Some KEY_INS else
  if k =? INPUT_KEY_DELETE then Some KEY_DEL else
  if k =? INPUT_KEY_F11 then Some KEY_F11 else
  if k =? INPUT_KEY_F12 then Some KEY_F12 else
  if k =? INPUT_KEY_SPACE then Some KEY_USE else None.
Definition keymap (k : Z) : res Z :=
  match special_key k with
  | Some c => Ret (u8 c)
  | None =>
      if (INPUT_KEY_F1 <=? k) && (k <=? INPUT_KEY_F10) then Ret (u8 (KEY_F1 + k - INPUT_KEY_F1)) else
      if (INPUT_KEY_1 <=? k) && (k <=? INPUT_KEY_SLASH) then deref (lookupZ rows (k - INPUT_KEY_1)) else Ret 0
  end.

(** [DG_GetKey] on what [read] delivered, [None] when it was no whole event: the
    key and whether it is pressed. *)
Definition DG_GetKey (e : option input_event) : res (option (bool * Z)) :=
  match e with
  | None => Ret None
  | Some e =>
      match ev_type e with
      | INPUT_EV_KEY =>
          key ← keymap (ev_code e);
          if key =? 0 then Ret None else Ret (Some (negb (ev_value e =? 0), key))
      | _ => Ret None
      end
  end.
End doom.

(** The resolution of the game ([Makefile]) and the largest scale. *)
Definition DOOMGENERIC_RESX : Z := 320.
Definition DOOMGENERIC_RESY : Z := 200.
Definition DOCCROS_DOOM_SCALE : Z := 2.

(** The picture of [DG_DrawFrame] on the screen: scale, origin and size. *)
Definition frame_scale (info : fb_info) : Z :=
  let sx := width info / DOOMGENERIC_RESX in
  let sy := height info / DOOMGENERIC_RESY in
  let scale := if sx <? sy then sx else sy in
  let scale := if scale =? 0 then 1 else scale in
  if DOCCROS_DOOM_SCALE <? scale then DOCCROS_DOOM_SCALE else scale.
Definition frame_rect (info : fb_info) : Z * Z * Z * Z :=
  let scale := frame_scale info in
  let w := DOOMGENERIC_RESX * scale in
  let h := DOOMGENERIC_RESY * scale in
  (u32 (width info - w) / 2, u32 (height info - h) / 2, w, h).

(** [fb] is the mapped framebuffer, [src] is [DG_ScreenBuffer]; the rectangle is
    flushed. *)
Definition DG_DrawFrame (info : fb_info) (fb src : Z) (m : ram) : ram * (Z * Z * Z * Z) :=
  let '(ox, oy, w, h) := frame_rect info in
  let stride := width info in
  let line y := cell src (y * DOOMGENERIC_RESX) in
  let m :=
    if frame_scale info =? 1 then
      upto 0 DOOMGENERIC_RESY (λ y m,
        memcpy m (cell fb (u32 (u32 (oy + y) * stride + ox))) (line y) (DOOMGENERIC_RESX * 4)) m
    else
      upto 0 DOOMGENERIC_RESY (λ y m,
        let row := cell fb (u32 (u32 (oy + y * 2) * stride + ox)) in
        let m := upto 0 DOOMGENERIC_RESX (λ x m,
          let m := st32 m (cell row (x * 2)) (ld32 m (cell (line y) x)) in
          st32 m (cell row (x * 2 + 1)) (ld32 m (cell (line y) x))) m in
        memcpy m (cell row stride) row (w * 4)) m in
  (m, (ox, oy, w, h)).

(** The milliseconds of a [timespec], and the test of the loop of [DG_SleepMs]. *)
Definition DG_GetTicksMs (tv_sec tv_nsec : Z) : Z := u32 (tv_sec * 1000 + tv_nsec / 1000000).
Definition sleeping (now end_ : Z) : bool := i32 (now - end_) <? 0.

(** ** The picture on the screen *)

Lemma ld_le_copy n m m' : ∀ a b, (∀ k, 0 ≤ k < Z.of_nat n → ld8 m' (a + k) = ld8 m (b + k)) → ld_le n m' a = ld_le n m b.
Proof.
  induction n as [|n IH]; intros a b Hk; [done|]. cbn [ld_le]. f_equal.
  - specialize (Hk 0). rewrite !Z.add_0_r in Hk. apply Hk. lia.
  - f_equal. apply IH. intros k Hr. rewrite <-!Z.add_assoc. apply Hk. lia.
Qed.

Lemma ld32_memcpy m d s i0 j0 n i : 0 ≤ cell d i0 → 0 ≤ cell s j0 → 0 ≤ n → cell d (i0 + n) ≤ 2 ^ 64 → cell s (j0 + n) ≤ 2 ^ 64 →
  cell d (i0 + n) ≤ cell s j0 ∨ cell s (j0 + n) ≤ cell d i0 →
  ld32 (memcpy m (cell d i0) (cell s j0) (n * 4)) (cell d i) =
    if decide (i0 ≤ i < i0 + n) then ld32 m (cell s (j0 + (i - i0))) else ld32 m (cell d i).
Proof.
  intros Hd Hs Hn Hde Hse Hap. unfold cell in *.
  assert (Hb : ∀ b, ld8 (memcpy m (d + 4 * i0) (s + 4 * j0) (n * 4)) b =
    if (d + 4 * i0 <=? b) && (b <? d + 4 * i0 + n * 4) then ld8 m (s + 4 * j0 + (b - (d + 4 * i0))) else ld8 m b).
  { intros b. apply ld8_memcpy; lia. }
  case_decide; apply ld_le_copy; intros k Hk; rewrite Hb; repeat (zcase; cbn [andb]; try lia); f_equal; lia.
Qed.

Lemma ld32_memcpy_out m d s n b : 0 ≤ d → 0 ≤ s → 0 ≤ n → d + n ≤ 2 ^ 64 → s + n ≤ 2 ^ 64 → d + n ≤ s ∨ s + n ≤ d →
  b + 4 ≤ d ∨ d + n ≤ b → ld32 (memcpy m d s n) b = ld32 m b.
Proof.
  intros. apply ld_le_ext. intros c Hc. rewrite ld8_memcpy by lia. repeat (zcase; cbn [andb]; try lia); done.
Qed.

Lemma cell_cell a i j : cell (cell a i) j = cell a (i + j).
Proof. unfold cell. lia. Qed.

Section frame.
(** A screen of [w] by [h] pixels, at least as large as the game's, mapped at [fb],
    and the game's buffer at [src]. *)
Context (w h fb src : Z) (Hw : DOOMGENERIC_RESX ≤ w) (Hh : DOOMGENERIC_RESY ≤ h) (Hsize : w * h < 2 ^ 31).
Context (Hfb : 0 ≤ fb ∧ cell fb (w * h) ≤ 2 ^ 64) (Hsrc : 0 ≤ src ∧ cell src (DOOMGENERIC_RESX * DOOMGENERIC_RESY) ≤ 2 ^ 64).
Context (Hap : cell fb (w * h) ≤ src ∨ cell src (DOOMGENERIC_RESX * DOOMGENERIC_RESY) ≤ fb).
Implicit Types (m : ram).

Lemma row_index r ox n i : 0 ≤ r → 0 ≤ ox → ox + n ≤ w →
  r * w + ox ≤ i < r * w + ox + n ↔ i / w = r ∧ ox ≤ i mod w < ox + n.
Proof.
  intros Hr Hox Hn. unfold DOOMGENERIC_RESX in *. split.
  - intros Hi. assert (E : i / w = r) by (symmetry; apply Z.div_unique with (i - r * w); lia).
    pose proof (Z.div_mod i w ltac:(lia)). rewrite E in *. lia.
  - intros [E Hi]. pose proof (Z.div_mod i w ltac:(lia)). rewrite E in *. lia.
Qed.

(** Line [y] of the game on the [s] rows from [oy + s * y] on. *)
Definition line_shown (s ox oy y : Z) m m' : Prop :=
  (∀ i, 0 ≤ i < w * h → ld32 m' (cell fb i) =
    if decide (oy + s * y ≤ i / w < oy + s * y + s ∧ ox ≤ i mod w < ox + DOOMGENERIC_RESX * s)
    then ld32 m (cell src (y * DOOMGENERIC_RESX + (i mod w - ox) / s)) else ld32 m (cell fb i)) ∧
  ∀ j, 0 ≤ j < DOOMGENERIC_RESX * DOOMGENERIC_RESY → ld32 m' (cell src j) = ld32 m (cell src j).

Lemma line_one ox oy y m : 0 ≤ ox → 0 ≤ oy → ox + DOOMGENERIC_RESX ≤ w → oy + DOOMGENERIC_RESY ≤ h → 0 ≤ y < DOOMGENERIC_RESY →
  line_shown 1 ox oy y m (memcpy m (cell fb ((oy + y) * w + ox)) (cell src (y * DOOMGENERIC_RESX)) (DOOMGENERIC_RESX * 4)).
Proof.
  intros Hox Hoy Hx Hy Hr. unfold line_shown, DOOMGENERIC_RESX, DOOMGENERIC_RESY in *.
  assert (H1 : 0 ≤ (oy + y) * w + ox ∧ (oy + y) * w + ox + 320 ≤ w * h) by nia. split.
  - intros i Hi. pose proof (row_index (oy + y) ox 320 i ltac:(lia) Hox ltac:(lia)) as Hri.
    rewrite ld32_memcpy by (unfold cell in *; lia). rewrite Z.div_1_r.
    pose proof (Z.div_mod i w ltac:(lia)) as Hdm. set (q := i / w) in *. set (p := i mod w) in *. clearbody q p.
    destruct (decide (_ ≤ i < _)) as [Hin|Hout].
    + destruct (proj1 Hri Hin) as [-> ?]. rewrite decide_True by lia. f_equal. f_equal. lia.
    + rewrite decide_False; [done|]. intros [? ?]. apply Hout, Hri. lia.
  - intros j Hj. apply ld32_memcpy_out; unfold cell in *; lia.
Qed.

(** The pairs of pixels of a row. *)
Lemma pairs_row R y m : 0 ≤ R → R + 2 * DOOMGENERIC_RESX ≤ w * h → 0 ≤ y < DOOMGENERIC_RESY →
  let m' := upto 0 DOOMGENERIC_RESX (λ x m,
    let m := st32 m (cell (cell fb R) (x * 2)) (ld32 m (cell (cell src (y * DOOMGENERIC_RESX)) x)) in
    st32 m (cell (cell fb R) (x * 2 + 1)) (ld32 m (cell (cell src (y * DOOMGENERIC_RESX)) x))) m in
  (∀ i, 0 ≤ i < w * h → ld32 m' (cell fb i) =
    if decide (R ≤ i < R + 2 * DOOMGENERIC_RESX) then ld32 m (cell src (y * DOOMGENERIC_RESX + (i - R) / 2)) else ld32 m (cell fb i)) ∧
  ∀ j, 0 ≤ j < DOOMGENERIC_RESX * DOOMGENERIC_RESY → ld32 m' (cell src j) = ld32 m (cell src j).
Proof.
  intros HR HRe Hy m'. pose (P := λ x m',
    (∀ i, 0 ≤ i < w * h → ld32 m' (cell fb i) =
      if decide (R ≤ i < R + 2 * x) then ld32 m (cell src (y * DOOMGENERIC_RESX + (i - R) / 2)) else ld32 m (cell fb i)) ∧
    ∀ j, 0 ≤ j < DOOMGENERIC_RESX * DOOMGENERIC_RESY → ld32 m' (cell src j) = ld32 m (cell src j)).
  change (P DOOMGENERIC_RESX m'). unfold m'. clear m'. apply upto_ind; [done| |].
  - split; [|done]. intros i Hi. case_decide; [lia|done].
  - intros x m1 Hx [H1 H2]. unfold DOOMGENERIC_RESX, DOOMGENERIC_RESY in *. cbv zeta. rewrite !cell_cell.
    assert (Hout : ∀ m' k v j, 0 ≤ k < w * h → 0 ≤ j < 320 * 200 → ld32 (st32 m' (cell fb k) v) (cell src j) = ld32 m' (cell src j)).
    { intros m' k v j Hk Hj. apply ld32_st32_other. unfold cell in *. lia. }
    split.
    + intros i Hi. rewrite !ld32_cell, !Hout, !u32_ld32, !H2, H1 by lia.
      repeat case_decide; try lia; try done; f_equal; f_equal; dlia.
    + intros j Hj. rewrite !Hout by lia. by apply H2.
Qed.

Lemma line_two ox oy y m : 0 ≤ ox → 0 ≤ oy → ox + 2 * DOOMGENERIC_RESX ≤ w → oy + 2 * DOOMGENERIC_RESY ≤ h → 0 ≤ y < DOOMGENERIC_RESY →
  let row := cell fb ((oy + y * 2) * w + ox) in
  line_shown 2 ox oy y m (memcpy (upto 0 DOOMGENERIC_RESX (λ x m,
    let m := st32 m (cell row (x * 2)) (ld32 m (cell (cell src (y * DOOMGENERIC_RESX)) x)) in
    st32 m (cell row (x * 2 + 1)) (ld32 m (cell (cell src (y * DOOMGENERIC_RESX)) x))) m) (cell row w) row (DOOMGENERIC_RESX * 2 * 4)).
Proof.
  intros Hox Hoy Hx Hy Hr row. set (R := (oy + y * 2) * w + ox) in *.
  assert (HR : 0 ≤ R ∧ R + w + 2 * DOOMGENERIC_RESX ≤ w * h) by (unfold R, DOOMGENERIC_RESX, DOOMGENERIC_RESY in *; nia).
  destruct (pairs_row R y m ltac:(lia) ltac:(unfold DOOMGENERIC_RESX in *; lia) Hr) as [H1 H2]. fold row in H1, H2.
  set (m1 := upto _ _ _ _) in *. clearbody m1. unfold row. rewrite cell_cell. unfold line_shown, DOOMGENERIC_RESX, DOOMGENERIC_RESY in *.
  change (320 * 2 * 4) with (640 * 4). split.
  - intros i Hi. rewrite ld32_memcpy by (unfold cell in *; lia).
    pose proof (row_index (oy + 2 * y) ox 640 i ltac:(lia) Hox ltac:(lia)) as Hr1.
    pose proof (row_index (oy + 2 * y + 1) ox 640 i ltac:(lia) Hox ltac:(lia)) as Hr2.
    replace ((oy + 2 * y) * w + ox) with R in Hr1 by (unfold R; lia).
    replace ((oy + 2 * y + 1) * w + ox) with (R + w) in Hr2 by (unfold R; lia).
    pose proof (Z.div_mod i w ltac:(lia)) as Hdm. set (q := i / w) in *. set (p := i mod w) in *. clearbody q p.
    destruct (decide (R + w ≤ i < R + w + 640)) as [Hin|Hin].
    + destruct (proj1 Hr2 Hin) as [-> ?]. rewrite H1, !decide_True by lia.
      replace (R + (i - (R + w)) - R) with (p - ox) by (unfold R; lia). done.
    + rewrite H1 by done. destruct (decide (R ≤ i < R + 2 * 320)) as [Hin1|Hin1].
      * destruct (proj1 Hr1 Hin1) as [-> ?]. rewrite decide_True by lia. replace (i - R) with (p - ox) by (unfold R; lia). done.
      * rewrite decide_False; [done|]. intros [Hrow Hcol]. assert (Hq : q = oy + 2 * y ∨ q = oy + 2 * y + 1) by lia.
        destruct Hq as [Hq|Hq]; [apply Hin1, Hr1|apply Hin, Hr2]; lia.
  - intros j Hj. rewrite ld32_memcpy_out by (unfold cell in *; lia). by apply H2.
Qed.

(** The lines one after another. *)
Lemma lines_shown s ox oy body m : s = 1 ∨ s = 2 →
  (∀ y m, 0 ≤ y < DOOMGENERIC_RESY → line_shown s ox oy y m (body y m)) →
  ∀ i, 0 ≤ i < w * h → ld32 (upto 0 DOOMGENERIC_RESY body m) (cell fb i) =
    if decide (oy ≤ i / w < oy + DOOMGENERIC_RESY * s ∧ ox ≤ i mod w < ox + DOOMGENERIC_RESX * s)
    then ld32 m (cell src ((i / w - oy) / s * DOOMGENERIC_RESX + (i mod w - ox) / s)) else ld32 m (cell fb i).
Proof.
  intros Hs Hbody. pose (P := λ y m', (∀ i, 0 ≤ i < w * h → ld32 m' (cell fb i) =
      if decide (oy ≤ i / w < oy + y * s ∧ ox ≤ i mod w < ox + DOOMGENERIC_RESX * s)
      then ld32 m (cell src ((i / w - oy) / s * DOOMGENERIC_RESX + (i mod w - ox) / s)) else ld32 m (cell fb i)) ∧
    ∀ j, 0 ≤ j < DOOMGENERIC_RESX * DOOMGENERIC_RESY → ld32 m' (cell src j) = ld32 m (cell src j)).
  assert (HP : P DOOMGENERIC_RESY (upto 0 DOOMGENERIC_RESY body m)); [|exact (proj1 HP)].
  apply upto_ind; [done| |].
  - split; [|done]. intros i Hi. rewrite decide_False; [done|lia].
  - intros y m1 Hy [H1 H2]. destruct (Hbody y m1 Hy) as [L1 L2]. split; [|intros j Hj; rewrite L2; auto].
    intros i Hi. rewrite L1, H1 by done. set (q := i / w). set (p := i mod w). clearbody q p.
    destruct (decide (oy + s * y ≤ q < oy + s * y + s ∧ _)) as [[Hq Hp]|Hout].
    + rewrite decide_True by (destruct Hs; subst s; lia). assert (E : (q - oy) / s = y) by (destruct Hs; subst s; dlia). rewrite E.
      apply H2. unfold DOOMGENERIC_RESX, DOOMGENERIC_RESY in *. destruct Hs; subst s; dlia.
    + destruct (decide (oy ≤ q < oy + y * s ∧ _)) as [Hin|Hin]; [by rewrite decide_True by (destruct Hs; subst s; lia)|].
      rewrite decide_False; [done|]. intros [Hq Hp]. destruct (Z.lt_ge_cases q (oy + y * s)); [apply Hin|apply Hout]; lia.
Qed.

Lemma frame_scale_spec info : width info = w → height info = h →
  let s := frame_scale info in (s = 1 ∨ s = 2) ∧ DOOMGENERIC_RESX * s ≤ w ∧ DOOMGENERIC_RESY * s ≤ h.
Proof.
  intros Ew Eh. unfold frame_scale. rewrite Ew, Eh. unfold DOOMGENERIC_RESX, DOOMGENERIC_RESY, DOCCROS_DOOM_SCALE in *.
  set (sx := w / 320). set (sy := h / 200).
  assert (1 ≤ sx ∧ 320 * sx ≤ w) by (unfold sx; dlia). assert (1 ≤ sy ∧ 200 * sy ≤ h) by (unfold sy; dlia).
  clearbody sx sy. cbv zeta. destruct (Z.ltb_spec sx sy), (Z.eqb_spec (if sx <? sy then sx else sy) 0); repeat zcase; lia.
Qed.

(** C38. [DG_DrawFrame] shows the game's picture.  On a screen at least as large as
    the game's it draws inside the screen, once or twice as large, in the middle:
    every pixel of the rectangle it reports, and has flushed, shows the pixel of the
    game it belongs to, and every other pixel of the screen stays as it was. *)
Theorem draw_frame_shows info m : width info = w → height info = h → w < 2 ^ 31 → h < 2 ^ 31 →
  let '(m', (ox, oy, pw, ph)) := DG_DrawFrame info fb src m in
  let s := frame_scale info in
  (s = 1 ∨ s = 2) ∧ pw = DOOMGENERIC_RESX * s ∧ ph = DOOMGENERIC_RESY * s ∧
  0 ≤ ox ∧ 0 ≤ oy ∧ 0 ≤ w - (2 * ox + pw) ≤ 1 ∧ 0 ≤ h - (2 * oy + ph) ≤ 1 ∧
  ∀ i, 0 ≤ i < w * h → ld32 m' (cell fb i) =
    if decide (oy ≤ i / w < oy + ph ∧ ox ≤ i mod w < ox + pw)
    then ld32 m (cell src ((i / w - oy) / s * DOOMGENERIC_RESX + (i mod w - ox) / s)) else ld32 m (cell fb i).
Proof.
  intros Ew Eh Hw31 Hh31. destruct (frame_scale_spec info Ew Eh) as (Hs & Hsw & Hsh).
  unfold DG_DrawFrame, frame_rect. rewrite Ew, Eh. set (s := frame_scale info) in *. clearbody s.
  rewrite !u32_small by (unfold DOOMGENERIC_RESX, DOOMGENERIC_RESY in *; lia).
  set (ox := (w - DOOMGENERIC_RESX * s) / 2). set (oy := (h - DOOMGENERIC_RESY * s) / 2).
  assert (Hox : 0 ≤ ox ∧ 0 ≤ w - (2 * ox + DOOMGENERIC_RESX * s) ≤ 1) by (unfold ox; dlia).
  assert (Hoy : 0 ≤ oy ∧ 0 ≤ h - (2 * oy + DOOMGENERIC_RESY * s) ≤ 1) by (unfold oy; dlia).
  clearbody ox oy. split_and!; try lia; try done.
  assert (Hidx : ∀ y, 0 ≤ y < DOOMGENERIC_RESY * s → u32 (u32 (oy + y) * w + ox) = (oy + y) * w + ox).
  { intros y Hy. unfold DOOMGENERIC_RESX, DOOMGENERIC_RESY in *. rewrite (u32_small (oy + y)) by lia. apply u32_small.
    assert ((oy + y) * w + ox < w * h) by (destruct Hs; subst s; nia). nia. }
  destruct Hs as [-> | ->]; cbn [Z.eqb Pos.eqb].
  - apply (lines_shown 1); [by left|]. intros y m1 Hy. rewrite Hidx by lia. apply line_one; lia.
  - apply (lines_shown 2); [by right|]. intros y m1 Hy. rewrite Hidx by lia. apply line_two; lia.
Qed.
End frame.

(** 640 by 400 pixels: the game fills the screen, twice as large. *)
Lemma draw_frame_witness : let info := FbInfo 640 400 2560 32 1024000 in
  let '(m', r) := DG_DrawFrame info 0x400000 0x200000 ∅ in r = (0, 0, 640, 400) ∧
    ∀ i, 0 ≤ i < 640 * 400 → ld32 m' (cell 0x400000 i) = ld32 ∅ (cell 0x200000 (i / 640 / 2 * 320 + i mod 640 / 2)).
Proof.
  intros info. pose proof (draw_frame_shows 640 400 0x400000 0x200000 ltac:(vdone) ltac:(vdone) ltac:(vdone) ltac:(vdone) ltac:(vdone)
    ltac:(right; vdone) info ∅ eq_refl eq_refl ltac:(vdone) ltac:(vdone)) as Hd.
  assert (Es : frame_scale info = 2) by (vm_compute; reflexivity).
  destruct (DG_DrawFrame info 0x400000 0x200000 ∅) as [m' [[[ox oy] pw] ph]].
  destruct Hd as (_ & Hpw & Hph & Hox & Hoy & Hcx & Hcy & Hpix). rewrite Es in *.
  change (DOOMGENERIC_RESX * 2) with 640 in *. change (DOOMGENERIC_RESY * 2) with 400 in *. change DOOMGENERIC_RESX with 320 in *.
  assert (ox = 0) as -> by lia. assert (oy = 0) as -> by lia. subst pw ph. split; [reflexivity|].
  intros i Hi. rewrite Hpix by lia. rewrite decide_True by (split; dlia). by rewrite !Z.sub_0_r.
Defined.
