(* ===== verification/LibcCalls.v ===== *)
(** The C library on the kernel: the [syscall] instruction of a user program runs
    the kernel's dispatcher, and the streams of the library then deliver the
    files of the kernel. *)
From S2P Require Import Prelude Interfaces Ram PhysMem DList Kheap Paging Vmm RunQueue Space Context Proc Vfs Cpio Elf Input Screen UserMem SysMem Kernel Files FileCalls LibcStr LibcMalloc LibcFmt LibcIO.

(** The registers at a [syscall] instruction: number in [rax], arguments in
    [rdi], [rsi], [rdx], [r10], [r8] and [r9]. *)
Definition regs (num : Z) (args : list Z) : cpu_state :=
  let a i := default 0 (args !! i) in
  CpuState 0 0 0 0 0 (a 3%nat) (a 5%nat) (a 4%nat) 0 (a 0%nat) (a 1%nat) (a 2%nat) 0 0 num 0 0 0.

Section doccr.
Context {H : Type} `{HeapAlloc H} `{KernelCode} `{DeviceObjects} (path_fuel : nat).
#[export] Instance doccr_syscalls : Syscalls (kernel H) := λ k num args,
  '(k, c) ← syscall_dispatch path_fuel k (regs num args); Ret (s_rax c, k).
End doccr.

Section read_files.
Context {H : Type} `{HeapAlloc H} `{KernelCode} `{DeviceObjects} (path_fuel : nat) (D U : Z → Prop).
Context (off r : Z) (fr : Z → Z) (Hoff : 0 ≤ off ∧ off + 2 ^ 47 ≤ 2 ^ 64).
Implicit Types (k : kernel H).
Notation home := (Elf.home off fr).
Notation user_at := (user_byte off r).
#[local] Instance files_syscalls : Syscalls (kernel H) := doccr_syscalls path_fuel.

Lemma user_ptr_bounds ptr : user_ptr_ok ptr = true → 0 ≤ ptr → 0 ≤ ptr < 2 ^ 64.
Proof. unfold user_ptr_ok, USER_TOP. intros [_ Hp%Z.leb_le]%andb_true_iff. lia. Qed.

(** C36. [fread] on the kernel of this repository: of a stream on an open regular
    file whose contents are there it puts the next bytes of the file, as many as asked for or as are left,
    where the program reads them, and returns how many whole objects they are.
    The stream has reached its end exactly when fewer bytes came than asked for;
    the file position moves past them, and no other byte of memory and nothing
    else in the kernel or the library changes. *)
Theorem fread_delivers (s : program (kernel H)) stream f buffer size count p x d y n :
  let k := world s in
  files s !! stream = Some f → 0 ≤ f_fd f < 2 ^ 31 → open_file k p x (f_fd f) d y → v_type y = VFS_FILE →
  user_ptr_ok buffer = true → 0 ≤ buffer → 0 < size → 0 < count → size * count < 2 ^ 62 →
  0 ≤ fd_offset d < 2 ^ 62 → 0 ≤ v_size y < 2 ^ 62 → 0 ≤ v_data y → v_data y + v_size y < 2 ^ 64 →
  data_valid (vfs_heap (kfs k)) (v_data y) (v_size y) = true →
  n = Z.max 0 (Z.min (size * count) (v_size y - fd_offset d)) →
  active off r (kmm k) → range_writable D U off r fr (kram k) buffer n →
  (∀ i j, 0 ≤ i < n → 0 ≤ j < n → v_data y + fd_offset d + j ≠ home (buffer + i)) →
  returns (fread s buffer size count stream) (λ '(objects, s'), objects = n / size ∧
    (∀ i, 0 ≤ i < n → user_at (kram (world s')) (buffer + i) = Some (ld8 (kram k) (v_data y + fd_offset d + i))) ∧
    (∀ a, (∀ i, 0 ≤ i < n → a ≠ home (buffer + i)) → ld8 (kram (world s')) a = ld8 (kram k) a) ∧
    world s' = put_fd (with_kram k (kram (world s'))) p x (f_fd f) (Fd (fd_node d) (fd_offset d + n) true (fd_handle d)) ∧
    heap s' = heap s ∧
    files s' !! stream = Some (File (f_fd f) (f_error f) (if n <? size * count then 1 else f_eof f))).
Proof.
  intros k Hf Hfd Ho Hty Hptr Hb0 Hsz Hcnt Hsc Hpos Hsize Hd0 Hd1 Hv En Hact Hrw Hap.
  assert (Hbuf : 0 ≤ buffer < 2 ^ 64) by (by apply user_ptr_bounds).
  unfold fread. destruct (Z.eqb_spec size 0), (Z.eqb_spec count 0); try lia. cbn [orb]. rewrite Hf. cbn [deref]. rewrite bind_Ret.
  unfold read, syscall3, syscall, files_syscalls, doccr_syscalls. rewrite !(u64_small (size * count)), (u64_small (f_fd f)), (u64_small buffer) by lia.
  set (c := regs SYS_READ [f_fd f; buffer; size * count]). fold k.
  change (syscall_dispatch path_fuel k c) with (sys_read k c).
  assert (Hr : returns (sys_read k c) (λ '(k', c'), c' = set_rax c n ∧
    (∀ i, 0 ≤ i < n → user_at (kram k') (buffer + i) = Some (ld8 (kram k) (v_data y + fd_offset d + i))) ∧
    (∀ a, (∀ i, 0 ≤ i < n → a ≠ home (buffer + i)) → ld8 (kram k') a = ld8 (kram k) a) ∧
    k' = put_fd (with_kram k (kram k')) p x (f_fd f) (Fd (fd_node d) (fd_offset d + n) true (fd_handle d)))).
  { apply (read_step D U off r fr Hoff k c p x d y n); try done. cbn. lia. }
  apply returns_iff in Hr as ([k' c'] & -> & -> & Hin & Hout & Ek). rewrite !bind_Ret. cbn [s_rax set_rax].
  rewrite (i64_small n), (u64_small n) by lia. destruct (Z.ltb_spec n 0); [lia|]. cbn [returns].
  split; [done|]. destruct (Z.ltb_spec n (size * count)); cbn [world set_world set_file heap files].
  - split_and!; try done. by rewrite lookup_insert_eq.
  - split_and!; try done. rewrite Hf. by destruct f.
Qed.
End read_files.

(** A stream on descriptor 3 of the concrete caller: five objects of two bytes
    asked for, three bytes left, so one whole object. *)
#[local] Existing Instance um_devices.
#[local] Existing Instance um_code.
Definition um_program : program (kernel kheap) := Program um_kernel (Arena 0 ∅ ∅) {[0x5000 := File 3 0 0]}.
#[local] Instance um_syscalls : Syscalls (kernel kheap) := doccr_syscalls 8.

Lemma fread_witness :
  returns (fread um_program 0x400010 2 5 0x5000) (λ '(objects, s'), objects = 1 ∧
    files s' !! 0x5000 = Some (File 3 0 1)).
Proof.
  eapply returns_mono.
  - apply (fread_delivers 8 user_slot (physmem_used um_mem.2) Paging.hhdm 0x1000 (λ _, 0x3000) ltac:(vdone)
      um_program 0x5000 (File 3 0 0) 0x400010 2 5 0x80 um_proc (Fd 0x20 2 true 0) um_file 3);
      [reflexivity|vdone|exact um_open3|reflexivity|reflexivity|vdone|vdone|vdone|vdone|vdone|vdone|vdone|vdone|reflexivity|reflexivity
      |exact um_active|apply um_writable; vdone|].
    intros i j Hi Hj. unfold Elf.home. cbn [v_data um_file fd_offset].
    assert (E : (0x400010 + i) mod 4096 = 16 + i) by (clear -Hi; dlia). rewrite E. clear -Hi Hj. lia.
  - intros [objects s'] (-> & _ & _ & _ & _ & Hf). split; [reflexivity|exact Hf].
Defined.
